(** * Oodle1 decompressor: a shallow embedding of liboodle and its properties

    The development follows [include/oodle/Oodle1.h] and [src/Oodle1.cpp]:
    the range-coder bitstream ([Oodle1Bitstream]), the adaptive symbol
    decoder ([Oodle1Decoder]) and the LZ77 driver ([Oodle1Decompressor]).

    Machine integers are modelled as [Z] with the wrap-around of the C++
    type written out ([u8], [u16], [u32]).  [std::vector], [std::array] and
    raw buffers are lists; an access outside of them, a division by zero and
    a read past the end of the compressed input are undefined behaviour in
    the source and are modelled by the outcome [Fault]. *)

From Stdlib Require Import ZArith Lia Bool List.
From stdpp Require Import base tactics option list numbers strings.

Open Scope Z_scope.

(** ** Outcomes *)

Inductive result (A : Type) : Type :=
| Ok (a : A)
| Fault
| OutOfFuel.
Arguments Ok {A} a.
Arguments Fault {A}.
Arguments OutOfFuel {A}.

Definition bind {A B : Type} (m : result A) (k : A -> result B) : result B :=
  match m with
  | Ok a => k a
  | Fault => Fault
  | OutOfFuel => OutOfFuel
  end.

Notation "'let*' p ':=' m 'in' k" := (bind m (fun p => k))
  (at level 10, p pattern, m at level 100, k at level 200).

(** ** Machine arithmetic *)

Definition u8 (x : Z) : Z := x mod 2 ^ 8.
Definition u16 (x : Z) : Z := x mod 2 ^ 16.
Definition u32 (x : Z) : Z := x mod 2 ^ 32.

(** Unsigned division; dividing by zero is undefined. *)
Definition udiv (a b : Z) : result Z :=
  if b =? 0 then Fault else Ok (a / b).

(** ** Vectors and buffers *)

(** [v[i]] as an rvalue. *)
Definition vget {A : Type} (v : list A) (i : Z) : result A :=
  if i <? 0 then Fault
  else match v !! Z.to_nat i with
       | Some x => Ok x
       | None => Fault
       end.

(** [v[i] = x]. *)
Definition vset {A : Type} (v : list A) (i : Z) (x : A) : result (list A) :=
  if i <? 0 then Fault
  else if (Z.to_nat i <? length v)%nat then Ok (<[Z.to_nat i := x]> v)
  else Fault.

(** [std::fill(v.begin() + from, v.end(), x)]. *)
Definition vfill {A : Type} (v : list A) (from : Z) (x : A) : result (list A) :=
  if (from <? 0) || (Z.of_nat (length v) <? from) then Fault
  else Ok (take (Z.to_nat from) v ++ replicate (length v - Z.to_nat from) x).

(** ** The bitstream reader *)

Module Oodle1Bitstream.

(** [input] is the part of the compressed bytes at and after the read
    cursor; advancing the cursor drops the head of the list. *)
Record t : Type := mk {
  input : list Z;
  sr : Z;
  srModulus : Z;
  lsb : Z
}.

Definition make (input_ : list Z) : result t :=
  match input_ with
  | [] => Fault
  | b :: rest =>
      Ok {| input := rest; sr := Z.shiftr b 1; srModulus := 0x80; lsb := Z.land b 1 |}
  end.

(** The loop of [Ingest]; every iteration reads one byte, so the
    recursion is on the remaining input. *)
Fixpoint Ingest_loop (inp : list Z) (sr_ srModulus_ lsb_ : Z) : result t :=
  if srModulus_ <=? 0x800000 then
    match inp with
    | [] => Fault
    | b :: rest =>
        let sr1 := Z.lor (u32 (Z.shiftl sr_ 1)) lsb_ in
        let sr2 := Z.lor (u32 (Z.shiftl sr1 7)) (Z.shiftr b 1) in
        Ingest_loop rest sr2 (u32 (Z.shiftl srModulus_ 8)) (Z.land b 1)
    end
  else Ok {| input := inp; sr := sr_; srModulus := srModulus_; lsb := lsb_ |}.

Definition Ingest (bs : t) : result t :=
  Ingest_loop (input bs) (sr bs) (srModulus bs) (lsb bs).

Definition Peek (one : Z) (bs : t) : result (Z * t) :=
  let* bs1 := Ingest bs in
  let* scale := udiv (srModulus bs1) one in
  let* q := udiv (sr bs1) scale in
  let z := Z.min q (u32 (one - 1)) in
  Ok (z, bs1).

Definition Consume (minZ spanZ one : Z) (bs : t) : result t :=
  let* scale := udiv (srModulus bs) one in
  let scaledZ := u32 (minZ * scale) in
  let sr' := u32 (sr bs - scaledZ) in
  if minZ <? u32 (one - spanZ) then
    Ok {| input := input bs; sr := sr'; srModulus := u32 (spanZ * scale); lsb := lsb bs |}
  else
    Ok {| input := input bs; sr := sr'; srModulus := u32 (srModulus bs - scaledZ); lsb := lsb bs |}.

Definition Get (one : Z) (bs : t) : result (Z * t) :=
  let* bs1 := Ingest bs in
  let* scale := udiv (srModulus bs1) one in
  let* q := udiv (sr bs1) scale in
  let z := Z.min q (u32 (one - 1)) in
  let scaledZ := u32 (z * scale) in
  let sr' := u32 (sr bs1 - scaledZ) in
  if z <? u32 (one - 1) then
    Ok (z, {| input := input bs1; sr := sr'; srModulus := scale; lsb := lsb bs1 |})
  else
    Ok (z, {| input := input bs1; sr := sr'; srModulus := u32 (srModulus bs1 - scaledZ); lsb := lsb bs1 |}).

End Oodle1Bitstream.

(** ** The adaptive symbol decoder *)

Module Oodle1Decoder.

Import Oodle1Bitstream.

Definition One : Z := 0x4000.

Record t : Type := mk {
  usedSymbolCount : Z;
  symbols : list Z;               (* std::vector<uint8_t> *)
  symbolWeights : list Z;         (* std::vector<uint16_t>, SW *)
  symbolOccurrences : list Z;     (* std::vector<uint16_t>, LSW *)
  totalOccurrence : Z;            (* TLW *)
  highestLearnedSymbol : Z;       (* HLS *)
  highestNormalizedSymbol : Z;    (* HLSN *)
  nextRenormWeight : Z;           (* NRW *)
  decayThreshold : Z;             (* DT *)
  rapidRenormInterval : Z;        (* RRI *)
  renormInterval : Z              (* RI *)
}.

(** The default member initializers of the class. *)
Definition fresh : t :=
  mk 0 [] [] [] 0 0 0 0 0 0 0.

Definition set_symbols (d : t) (v : list Z) : t :=
  mk (usedSymbolCount d) v (symbolWeights d) (symbolOccurrences d)
     (totalOccurrence d) (highestLearnedSymbol d) (highestNormalizedSymbol d)
     (nextRenormWeight d) (decayThreshold d) (rapidRenormInterval d) (renormInterval d).

Definition set_symbolWeights (d : t) (v : list Z) : t :=
  mk (usedSymbolCount d) (symbols d) v (symbolOccurrences d)
     (totalOccurrence d) (highestLearnedSymbol d) (highestNormalizedSymbol d)
     (nextRenormWeight d) (decayThreshold d) (rapidRenormInterval d) (renormInterval d).

Definition set_symbolOccurrences (d : t) (v : list Z) : t :=
  mk (usedSymbolCount d) (symbols d) (symbolWeights d) v
     (totalOccurrence d) (highestLearnedSymbol d) (highestNormalizedSymbol d)
     (nextRenormWeight d) (decayThreshold d) (rapidRenormInterval d) (renormInterval d).

Definition set_totalOccurrence (d : t) (x : Z) : t :=
  mk (usedSymbolCount d) (symbols d) (symbolWeights d) (symbolOccurrences d)
     x (highestLearnedSymbol d) (highestNormalizedSymbol d)
     (nextRenormWeight d) (decayThreshold d) (rapidRenormInterval d) (renormInterval d).

Definition set_highestLearnedSymbol (d : t) (x : Z) : t :=
  mk (usedSymbolCount d) (symbols d) (symbolWeights d) (symbolOccurrences d)
     (totalOccurrence d) x (highestNormalizedSymbol d)
     (nextRenormWeight d) (decayThreshold d) (rapidRenormInterval d) (renormInterval d).

Definition set_highestNormalizedSymbol (d : t) (x : Z) : t :=
  mk (usedSymbolCount d) (symbols d) (symbolWeights d) (symbolOccurrences d)
     (totalOccurrence d) (highestLearnedSymbol d) x
     (nextRenormWeight d) (decayThreshold d) (rapidRenormInterval d) (renormInterval d).

Definition set_nextRenormWeight (d : t) (x : Z) : t :=
  mk (usedSymbolCount d) (symbols d) (symbolWeights d) (symbolOccurrences d)
     (totalOccurrence d) (highestLearnedSymbol d) (highestNormalizedSymbol d)
     x (decayThreshold d) (rapidRenormInterval d) (renormInterval d).

Definition set_rapidRenormInterval (d : t) (x : Z) : t :=
  mk (usedSymbolCount d) (symbols d) (symbolWeights d) (symbolOccurrences d)
     (totalOccurrence d) (highestLearnedSymbol d) (highestNormalizedSymbol d)
     (nextRenormWeight d) (decayThreshold d) x (renormInterval d).

(** [Initialize] assigns neither [highestLearnedSymbol] nor
    [highestNormalizedSymbol]; [resize] keeps the elements a vector
    already has and value-initializes the new ones. *)
Definition Initialize (alphabetSize uniqueSymbols : Z) (d : t) : result t :=
  let n := Z.to_nat (u32 (alphabetSize + 2)) in
  let symbols1 := resize n 0 (symbols d) in
  let weights1 := resize n 0 (symbolWeights d) in
  let occurrences1 := resize n 0 (symbolOccurrences d) in
  let weights2 := replicate (length weights1) One in
  let* weights3 := vset weights2 0 0 in
  let* occurrences2 := vset occurrences1 0 4 in
  let* occ0 := vget occurrences2 0 in
  let decayThreshold1 :=
    Z.max 256 (Z.min (u32 (u32 (alphabetSize - 1) * 32)) 15160) in
  let renormInterval1 :=
    Z.max 128 (Z.min (u32 (u32 (alphabetSize - 1) * 2)) (u32 (decayThreshold1 / 2 - 32))) in
  Ok {| usedSymbolCount := uniqueSymbols;
        symbols := symbols1;
        symbolWeights := weights3;
        symbolOccurrences := occurrences2;
        totalOccurrence := occ0;
        highestLearnedSymbol := highestLearnedSymbol d;
        highestNormalizedSymbol := highestNormalizedSymbol d;
        nextRenormWeight := 8;
        decayThreshold := decayThreshold1;
        rapidRenormInterval := 4;
        renormInterval := renormInterval1 |}.

(** The body of the [else] branch of the eviction loop of [Decay]
    (lines 57-60): slot [idx] takes over the occurrence and symbol of the
    top slot, the top slot's occurrence is cleared, the top is lowered. *)
Definition Decay_evict (idx : Z) (d : t) : result t :=
  let hls := highestLearnedSymbol d in
  let* oh := vget (symbolOccurrences d) hls in
  let* occ1 := vset (symbolOccurrences d) idx oh in
  let* occ2 := vset occ1 hls 0 in
  let* sh := vget (symbols d) hls in
  let* sym1 := vset (symbols d) idx sh in
  Ok (set_highestLearnedSymbol
        (set_symbols (set_symbolOccurrences d occ2) sym1) (u32 (hls - 1))).

(** The [while (symbolOccurrences[idx] <= 1)] loop of [Decay].  Only the
    [else] branch goes round again, and it lowers [highestLearnedSymbol]
    towards [idx]; [fuel] bounds the number of such rounds. *)
Fixpoint Decay_while (fuel : nat) (idx : Z) (d : t) : result t :=
  let* o := vget (symbolOccurrences d) idx in
  if o <=? 1 then
    if idx >=? highestLearnedSymbol d then
      let* occ1 := vset (symbolOccurrences d) idx 0 in
      Ok (set_highestLearnedSymbol (set_symbolOccurrences d occ1)
            (u32 (highestLearnedSymbol d - 1)))
    else
      match fuel with
      | O => OutOfFuel
      | S fuel' =>
          let* d1 := Decay_evict idx d in
          Decay_while fuel' idx d1
      end
  else Ok d.

(** The [for] loop of [Decay], carrying [highestWeight] and
    [highestIndex]. *)
Fixpoint Decay_for (fuel : nat) (idx highestWeight highestIndex : Z) (d : t)
  : result (Z * Z * t) :=
  if idx <=? highestLearnedSymbol d then
    match fuel with
    | O => OutOfFuel
    | S fuel' =>
        let* d1 := Decay_while (Z.to_nat (highestLearnedSymbol d)) idx d in
        let* o := vget (symbolOccurrences d1) idx in
        if o =? 0 then Ok (highestWeight, highestIndex, d1)
        else
          let o2 := u16 (o / 2) in
          let* occ1 := vset (symbolOccurrences d1) idx o2 in
          let d2 := set_totalOccurrence (set_symbolOccurrences d1 occ1)
                      (u32 (totalOccurrence d1 + o2)) in
          if o2 >? highestWeight
          then Decay_for fuel' (u32 (idx + 1)) o2 idx d2
          else Decay_for fuel' (u32 (idx + 1)) highestWeight highestIndex d2
    end
  else Ok (highestWeight, highestIndex, d).

(** [std::swap(v[i], v[j])]. *)
Definition vswap (v : list Z) (i j : Z) : result (list Z) :=
  let* x := vget v i in
  let* y := vget v j in
  let* v1 := vset v i y in
  vset v1 j x.

(** Lines 73-76 of [Decay]: the most frequent slot goes to the top. *)
Definition Decay_raise_highest (highestWeight highestIndex : Z) (d : t) : result t :=
  if negb (highestWeight =? 0) && negb (highestIndex =? highestLearnedSymbol d) then
    let* occ1 := vswap (symbolOccurrences d) (highestLearnedSymbol d) highestIndex in
    let* sym1 := vswap (symbols d) (highestLearnedSymbol d) highestIndex in
    Ok (set_symbols (set_symbolOccurrences d occ1) sym1)
  else Ok d.

(** Lines 77-80 of [Decay]: the escape slot stays alive while the alphabet
    is not fully learned. *)
Definition Decay_keep_escape (d : t) : result t :=
  if negb (highestLearnedSymbol d =? usedSymbolCount d) then
    let* e := vget (symbolOccurrences d) 0 in
    if e =? 0 then
      let* occ1 := vset (symbolOccurrences d) 0 1 in
      Ok (set_totalOccurrence (set_symbolOccurrences d occ1)
            (u32 (totalOccurrence d + 1)))
    else Ok d
  else Ok d.

Definition Decay (d : t) : result t :=
  let* o0 := vget (symbolOccurrences d) 0 in
  let* occ1 := vset (symbolOccurrences d) 0 (u16 (o0 / 2)) in
  let d1 := set_totalOccurrence (set_symbolOccurrences d occ1) (u16 (o0 / 2)) in
  let* (highestWeight, highestIndex, d2) :=
    Decay_for (Z.to_nat (highestLearnedSymbol d1)) 1 0 0 d1 in
  let* d3 := Decay_raise_highest highestWeight highestIndex d2 in
  let* d4 := Decay_keep_escape d3 in
  let* w := vfill (symbolWeights d4) (highestLearnedSymbol d4 + 1) One in
  Ok (set_symbolWeights d4 w).

(** The [for] loop of [Renormalize]. *)
Fixpoint Renormalize_for (fuel : nat) (idx accumulator quanta : Z) (d : t) : result t :=
  if idx <=? highestLearnedSymbol d then
    match fuel with
    | O => OutOfFuel
    | S fuel' =>
        let* w := vset (symbolWeights d) idx (u16 accumulator) in
        let* o := vget (symbolOccurrences d) idx in
        Renormalize_for fuel' (u32 (idx + 1))
          (u32 (accumulator + u32 (o * quanta) / 8)) quanta (set_symbolWeights d w)
    end
  else Ok d.

Definition Renormalize (d : t) : result t :=
  let* quanta := udiv 0x20000 (totalOccurrence d) in
  let* w0 := vset (symbolWeights d) 0 0 in
  let* o0 := vget (symbolOccurrences d) 0 in
  let accumulator := u32 (o0 * quanta) / 8 in
  let* d1 := Renormalize_for (Z.to_nat (highestLearnedSymbol d)) 1 accumulator quanta
               (set_symbolWeights d w0) in
  let d2 :=
    if u32 (rapidRenormInterval d1 * 2) <? renormInterval d1 then
      let rri := u32 (rapidRenormInterval d1 * 2) in
      set_nextRenormWeight (set_rapidRenormInterval d1 rri)
        (u32 (totalOccurrence d1 + rri))
    else
      set_nextRenormWeight d1 (u32 (totalOccurrence d1 + renormInterval d1)) in
  let d3 := set_highestNormalizedSymbol d2 (highestLearnedSymbol d2) in
  let* w := vfill (symbolWeights d3) (highestLearnedSymbol d3 + 1) One in
  Ok (set_symbolWeights d3 w).

(** The scan of [Decode] for the slot that owns [z]; it yields the value
    of [symbolIdx] at the exit of the loop.  [fuel] bounds the number of
    iterations that do not [break]. *)
Fixpoint Decode_scan (fuel : nat) (symbolIdx z : Z) (d : t) : result Z :=
  if symbolIdx <=? highestNormalizedSymbol d then
    let* w := vget (symbolWeights d) (u32 (symbolIdx + 1)) in
    if w >? z then Ok symbolIdx
    else
      match fuel with
      | O => OutOfFuel
      | S fuel' => Decode_scan fuel' (u32 (symbolIdx + 1)) z d
      end
  else Ok symbolIdx.

(** Lines 103-108 of [Decode]: the model is rebuilt when due. *)
Definition Decode_renormalize (d : t) : result t :=
  if totalOccurrence d >=? nextRenormWeight d then
    let* d' := (if totalOccurrence d >=? decayThreshold d then Decay d else Ok d) in
    Renormalize d'
  else Ok d.

(** Lines 125-128 of [Decode]: a symbol learned since the last
    renormalization. *)
Definition Decode_pending (bs : Oodle1Bitstream.t) (d : t)
  : result (Z * Oodle1Bitstream.t * t) :=
  let* (j, bs1) :=
    Get (u32 (highestLearnedSymbol d - highestNormalizedSymbol d)) bs in
  let symbolIdx := u32 (u32 (j + highestNormalizedSymbol d) + 1) in
  let* o := vget (symbolOccurrences d) symbolIdx in
  let* occ1 := vset (symbolOccurrences d) symbolIdx (u16 (o + 2)) in
  let d1 := set_totalOccurrence (set_symbolOccurrences d occ1)
              (u32 (totalOccurrence d + 2)) in
  let* s := vget (symbols d1) symbolIdx in
  Ok (s, bs1, d1).

(** Lines 131-140 of [Decode]: a new symbol. *)
Definition Decode_learn (bs : Oodle1Bitstream.t) (alphabetSize : Z) (d : t)
  : result (Z * Oodle1Bitstream.t * t) :=
  let hls := u32 (highestLearnedSymbol d + 1) in
  let d1 := set_highestLearnedSymbol d hls in
  let* (symbol, bs1) := Get alphabetSize bs in
  let* sym1 := vset (symbols d1) hls (u8 symbol) in
  let* o := vget (symbolOccurrences d1) hls in
  let* occ1 := vset (symbolOccurrences d1) hls (u16 (o + 2)) in
  let d2 := set_totalOccurrence
              (set_symbolOccurrences (set_symbols d1 sym1) occ1)
              (u32 (totalOccurrence d1 + 2)) in
  if highestLearnedSymbol d2 =? usedSymbolCount d2 then
    let* e := vget (symbolOccurrences d2) 0 in
    let* occ2 := vset (symbolOccurrences d2) 0 0 in
    Ok (symbol, bs1,
        set_symbolOccurrences (set_totalOccurrence d2 (u32 (totalOccurrence d2 - e))) occ2)
  else Ok (symbol, bs1, d2).

Definition Decode (bs : Oodle1Bitstream.t) (alphabetSize : Z) (d : t)
  : result (Z * Oodle1Bitstream.t * t) :=
  let* d1 := Decode_renormalize d in
  let* (z, bs1) := Peek One bs in
  let* symbolIdx := Decode_scan (S (Z.to_nat (highestNormalizedSymbol d1))) 0 z d1 in
  let* w0 := vget (symbolWeights d1) symbolIdx in
  let* w1 := vget (symbolWeights d1) (u32 (symbolIdx + 1)) in
  let* bs2 := Consume w0 (u32 (w1 - w0)) One bs1 in
  let* o := vget (symbolOccurrences d1) symbolIdx in
  let* occ1 := vset (symbolOccurrences d1) symbolIdx (u16 (o + 1)) in
  let d2 := set_totalOccurrence (set_symbolOccurrences d1 occ1)
              (u32 (totalOccurrence d1 + 1)) in
  if negb (symbolIdx =? 0) then
    let* s := vget (symbols d2) symbolIdx in
    Ok (s, bs2, d2)
  else if negb (highestLearnedSymbol d2 =? highestNormalizedSymbol d2) then
    let* (b, bs3) := Get 2 bs2 in
    if negb (b =? 0) then Decode_pending bs3 d2
    else Decode_learn bs3 alphabetSize d2
  else Decode_learn bs2 alphabetSize d2.

End Oodle1Decoder.

(** ** The decompressor driver *)

Module Oodle1Decompressor.

Definition RepeatLengthTable : list Z :=
  [  0;  2;  3;  4;  5;   6;   7;   8;
     9; 10; 11; 12; 13;  14;  15;  16;
    17; 18; 19; 20; 21;  22;  23;  24;
    25; 26; 27; 28; 29;  30;  31;  32;
    33; 34; 35; 36; 37;  38;  39;  40;
    41; 42; 43; 44; 45;  46;  47;  48;
    49; 50; 51; 52; 53;  54;  55;  56;
    57; 58; 59; 60; 61; 128; 192; 256; 512 ].

(** The decompressor holds a reference to the bitstream; here the
    bitstream is passed to and returned by every operation instead. *)
Record t : Type := mk {
  litDecoders : list Oodle1Decoder.t;      (* std::array<Oodle1Decoder,4> *)
  lenDecoders : list Oodle1Decoder.t;      (* std::array<Oodle1Decoder,65> *)
  off1Decoder : Oodle1Decoder.t;
  off4Decoders : list Oodle1Decoder.t;     (* std::array<Oodle1Decoder,256> *)
  off1024Decoder : Oodle1Decoder.t;
  windowSize : Z;
  litAlphabetSize : Z;
  offset1AlphabetSize : Z;
  bytesOutput : Z;
  lastRepeatCode : Z
}.

(** The state right after construction. *)
Definition fresh : t :=
  {| litDecoders := replicate 4 Oodle1Decoder.fresh;
     lenDecoders := replicate 65 Oodle1Decoder.fresh;
     off1Decoder := Oodle1Decoder.fresh;
     off4Decoders := replicate 256 Oodle1Decoder.fresh;
     off1024Decoder := Oodle1Decoder.fresh;
     windowSize := 0x7fffff;
     litAlphabetSize := 256;
     offset1AlphabetSize := 0;
     bytesOutput := 0;
     lastRepeatCode := 0 |}.

(** [for (auto& decoder : decoders) decoder.Initialize(a, u)]. *)
Fixpoint Initialize_each (a u : Z) (ds : list Oodle1Decoder.t)
  : result (list Oodle1Decoder.t) :=
  match ds with
  | [] => Ok []
  | d :: rest =>
      let* d' := Oodle1Decoder.Initialize a u d in
      let* rest' := Initialize_each a u rest in
      Ok (d' :: rest')
  end.

(** A counting [for] loop over the given values of its index. *)
Fixpoint for_each {S : Type} (idxs : list Z) (body : Z -> S -> result S) (s : S)
  : result S :=
  match idxs with
  | [] => Ok s
  | i :: rest => let* s' := body i s in for_each rest body s'
  end.

(** Lines 153-161; yields the length decoders and the final [repLens]. *)
Definition Initialize_lenDecoders (repLens0 : Z) (ds0 : list Oodle1Decoder.t)
  : result (list Oodle1Decoder.t) :=
  let* (repLens, ds) :=
    for_each (seqZ 0 4)
      (fun groupIdx '(repLens, ds) =>
         let* ds' :=
           for_each (seqZ 0 16)
             (fun decoderIdx ds =>
                let i := u32 (u32 (groupIdx * 16) + decoderIdx) in
                let* decoder := vget ds i in
                let* decoder' := Oodle1Decoder.Initialize 65 (Z.shiftr repLens 24) decoder in
                vset ds i decoder')
             ds in
         Ok (u32 (Z.shiftl repLens 8), ds'))
      (repLens0, ds0) in
  let* decoder := vget ds 64 in
  let* decoder' := Oodle1Decoder.Initialize 65 (Z.shiftr repLens 24) decoder in
  vset ds 64 decoder'.

Definition Initialize (header : list Z) (D : t) : result t :=
  let* h0 := vget header 0 in
  let* h1 := vget header 1 in
  let* h2 := vget header 2 in
  let windowSize1 := Z.shiftr h0 9 in
  let litAlphabetSize1 := Z.land h0 0x1FF in
  let uniqueLitCount := Z.land h1 0x1FF in
  let* lit := Initialize_each litAlphabetSize1 uniqueLitCount (litDecoders D) in
  let* len := Initialize_lenDecoders h2 (lenDecoders D) in
  let offset1AlphabetSize1 := Z.min 4 (u32 (windowSize1 + 1)) in
  let offset4AlphabetSize := Z.min 256 (u32 (windowSize1 / 4 + 1)) in
  let offset1024AlphabetSize := u32 (windowSize1 / 1024 + 1) in
  let largest1KOffset := Z.shiftr h1 19 in
  let* off1 := Oodle1Decoder.Initialize offset1AlphabetSize1 offset1AlphabetSize1
                 (off1Decoder D) in
  let* off4 := Initialize_each offset4AlphabetSize offset4AlphabetSize (off4Decoders D) in
  let* off1024 := Oodle1Decoder.Initialize offset1024AlphabetSize
                    (u32 (largest1KOffset + 1)) (off1024Decoder D) in
  Ok {| litDecoders := lit;
        lenDecoders := len;
        off1Decoder := off1;
        off4Decoders := off4;
        off1024Decoder := off1024;
        windowSize := windowSize1;
        litAlphabetSize := litAlphabetSize1;
        offset1AlphabetSize := offset1AlphabetSize1;
        bytesOutput := bytesOutput D;
        lastRepeatCode := lastRepeatCode D |}.

(** [Repeat]: [output] and [input] are positions in the caller's buffer
    [mem]; the copy runs forward one byte at a time. *)
Fixpoint Repeat_loop (length : nat) (mem : list Z) (output input : Z)
  : result (list Z) :=
  match length with
  | O => Ok mem
  | S length' =>
      let* b := vget mem input in
      let* mem' := vset mem output b in
      Repeat_loop length' mem' (output + 1) (input + 1)
  end.

Definition Repeat (mem : list Z) (output offset length : Z) : result (list Z) :=
  Repeat_loop (Z.to_nat length) mem output (output - offset).

(** Lines 185-186 of [Decompress]: the length code. *)
Definition Decompress_lenCode (bs : Oodle1Bitstream.t) (D : t)
  : result (Z * Oodle1Bitstream.t * t) :=
  let* decoder := vget (lenDecoders D) (lastRepeatCode D) in
  let* (lenCode, bs1, decoder') := Oodle1Decoder.Decode bs 65 decoder in
  let* len := vset (lenDecoders D) (lastRepeatCode D) decoder' in
  Ok (lenCode, bs1,
      {| litDecoders := litDecoders D;
         lenDecoders := len;
         off1Decoder := off1Decoder D;
         off4Decoders := off4Decoders D;
         off1024Decoder := off1024Decoder D;
         windowSize := windowSize D;
         litAlphabetSize := litAlphabetSize D;
         offset1AlphabetSize := offset1AlphabetSize D;
         bytesOutput := bytesOutput D;
         lastRepeatCode := lenCode |}).

(** Lines 188-190: the literal and the new [bytesOutput]. *)
Definition Decompress_literal (bs : Oodle1Bitstream.t) (D : t)
  : result (Z * Oodle1Bitstream.t * t) :=
  let k := Z.land (bytesOutput D) 0x03 in
  let* decoder := vget (litDecoders D) k in
  let* (lit, bs1, decoder') := Oodle1Decoder.Decode bs (litAlphabetSize D) decoder in
  let* lits := vset (litDecoders D) k decoder' in
  Ok (lit, bs1,
      {| litDecoders := lits;
         lenDecoders := lenDecoders D;
         off1Decoder := off1Decoder D;
         off4Decoders := off4Decoders D;
         off1024Decoder := off1024Decoder D;
         windowSize := windowSize D;
         litAlphabetSize := litAlphabetSize D;
         offset1AlphabetSize := offset1AlphabetSize D;
         bytesOutput := u32 (bytesOutput D + 1);
         lastRepeatCode := lastRepeatCode D |}).

(** Lines 193-199: the length and the offset of a back-reference and the
    new [bytesOutput]. *)
Definition Decompress_backref (lenCode : Z) (bs : Oodle1Bitstream.t) (D : t)
  : result (Z * Z * Oodle1Bitstream.t * t) :=
  let* len := vget RepeatLengthTable lenCode in
  let effectiveWindow := Z.min (windowSize D) (bytesOutput D) in
  let* (r1, bs1, off1Decoder') :=
    Oodle1Decoder.Decode bs (offset1AlphabetSize D) (off1Decoder D) in
  let off1 := u32 (r1 + 1) in
  let* (off1k, bs2, off1024Decoder') :=
    Oodle1Decoder.Decode bs1 (u32 (effectiveWindow / 1024 + 1)) (off1024Decoder D) in
  let* decoder := vget (off4Decoders D) off1k in
  let* (off4, bs3, decoder') :=
    Oodle1Decoder.Decode bs2 (Z.min 256 (u32 (effectiveWindow / 4 + 1))) decoder in
  let* off4s := vset (off4Decoders D) off1k decoder' in
  let offset := u32 (u32 (u32 (off1k * 1024) + u32 (off4 * 4)) + off1) in
  Ok (len, offset, bs3,
      {| litDecoders := litDecoders D;
         lenDecoders := lenDecoders D;
         off1Decoder := off1Decoder';
         off4Decoders := off4s;
         off1024Decoder := off1024Decoder';
         windowSize := windowSize D;
         litAlphabetSize := litAlphabetSize D;
         offset1AlphabetSize := offset1AlphabetSize D;
         bytesOutput := u32 (bytesOutput D + len);
         lastRepeatCode := lastRepeatCode D |}).

(** [Decompress(output)]: [mem] is the caller's buffer and [output] the
    position in it that the pointer argument designates.  The result is
    the returned byte count with the new bitstream, decompressor and
    buffer. *)
Definition Decompress (bs : Oodle1Bitstream.t) (D : t) (mem : list Z) (output : Z)
  : result (Z * Oodle1Bitstream.t * t * list Z) :=
  let* (lenCode, bs1, D1) := Decompress_lenCode bs D in
  if lenCode =? 0 then
    let* (lit, bs2, D2) := Decompress_literal bs1 D1 in
    let* mem' := vset mem output (u8 lit) in
    Ok (1, bs2, D2, mem')
  else
    let* (len, offset, bs2, D2) := Decompress_backref lenCode bs1 D1 in
    let* mem' := Repeat mem output offset len in
    Ok (len, bs2, D2, mem').

End Oodle1Decompressor.

(** * The demo program: a reader for Granny files

    [demo/Buffer.h] is a byte buffer with a read cursor, and
    [demo/Granny.cpp] parses a Granny file with it and hands the sections
    that are Oodle1-compressed to the decompressor.

    A call of this code returns, throws an exception, or has undefined
    behaviour.  [size_t] is taken to be 64 bits wide, and the host to be
    little-endian, as the file format is.  The diagnostics that the parser
    writes to [std::cerr] are kept as data: [Formatted] is applied to its
    format string and arguments, not evaluated. *)

(** ** Outcomes *)

Inductive exception : Type :=
| BufferUnderrunException.

Inductive completion (A : Type) : Type :=
| Returns (a : A)
| Throws (e : exception)
| Undefined
| Unfinished.
Arguments Returns {A} a.
Arguments Throws {A} e.
Arguments Undefined {A}.
Arguments Unfinished {A}.

Definition cbind {A B : Type} (m : completion A) (k : A -> completion B)
  : completion B :=
  match m with
  | Returns a => k a
  | Throws e => Throws e
  | Undefined => Undefined
  | Unfinished => Unfinished
  end.

Notation "'let!' p ':=' m 'in' k" := (cbind m (fun p => k))
  (at level 10, p pattern, m at level 100, k at level 200).

(** The code of the library inside the demo: a fault is undefined
    behaviour. *)
Definition lift {A : Type} (r : result A) : completion A :=
  match r with
  | Ok a => Returns a
  | Fault => Undefined
  | OutOfFuel => Unfinished
  end.

(** ** More machine arithmetic *)

Definition u64 (x : Z) : Z := x mod 2 ^ 64.

(** [size_t]. *)
Definition usize (x : Z) : Z := x mod 2 ^ 64.

(** The conversion to a signed type of [w] bits. *)
Definition sint (w x : Z) : Z := (x + 2 ^ (w - 1)) mod 2 ^ w - 2 ^ (w - 1).
Definition s8 (x : Z) : Z := sint 8 x.
Definition s16 (x : Z) : Z := sint 16 x.
Definition s32 (x : Z) : Z := sint 32 x.
Definition s64 (x : Z) : Z := sint 64 x.

(** The expression
    [b0 | ((uint32_t)b1 << 8) | ((uint32_t)b2 << 16) | ((uint32_t)b3 << 24)]
    of the 32-bit and 64-bit readers. *)
Definition le32 (b0 b1 b2 b3 : Z) : Z :=
  Z.lor (Z.lor (Z.lor b0 (u32 (Z.shiftl (u32 b1) 8)))
               (u32 (Z.shiftl (u32 b2) 16)))
        (u32 (Z.shiftl (u32 b3) 24)).

(** The 64-bit expression: the 32-bit one extended by
    [((uint64_t)b4 << 32) | ... | ((uint64_t)b7 << 56)]. *)
Definition le64 (b0 b1 b2 b3 b4 b5 b6 b7 : Z) : Z :=
  Z.lor (Z.lor (Z.lor (Z.lor (le32 b0 b1 b2 b3)
                             (u64 (Z.shiftl (u64 b4) 32)))
                      (u64 (Z.shiftl (u64 b5) 40)))
               (u64 (Z.shiftl (u64 b6) 48)))
        (u64 (Z.shiftl (u64 b7) 56)).

(** The characters of a [std::string] as [uint8_t] values. *)
Definition chars (s : string) : list Z :=
  map (fun c => Z.of_N (Ascii.N_of_ascii c)) (String.list_ascii_of_string s).

(** ** The buffer *)

Module Buffer.

Record t : Type := mk {
  readCursor : Z;          (* size_t *)
  bytes : list Z;          (* std::vector<uint8_t> *)
  readMode : bool
}.

(** [Buffer() = default]. *)
Definition fresh : t := mk 0 [] true.

(** [explicit Buffer(const std::vector<uint8_t>& bytes)]. *)
Definition of_bytes (bytes_ : list Z) : t := mk 0 bytes_ true.

Definition set_readCursor (b : t) (c : Z) : t := mk c (bytes b) (readMode b).

Definition Size (b : t) : Z := Z.of_nat (length (bytes b)).

Definition Tell (b : t) : Z := readCursor b.

Definition Seek (offset : Z) (b : t) : t := set_readCursor b (usize offset).

Definition Empty (b : t) : bool := readCursor b >=? Size b.

Definition BytesLeft (b : t) : Z :=
  if readCursor b <? Size b then Size b - readCursor b else 0.

Definition Putback (amount : Z) (b : t) : t :=
  if usize amount >=? readCursor b then set_readCursor b 0
  else set_readCursor b (readCursor b - usize amount).

(** [AssertRemainingBytes(unsigned int count)]: the sum is formed in
    [size_t]. *)
Definition AssertRemainingBytes (count : Z) (b : t) : completion unit :=
  if usize (readCursor b + u32 count) >? Size b
  then Throws BufferUnderrunException
  else Returns tt.

(** [AssertRemainingBytes(unsigned int count, unsigned int offset)]: both
    parameters are [unsigned int], and so is their sum. *)
Definition AssertRemainingBytes_at (count offset : Z) (b : t) : completion unit :=
  if u32 (u32 offset + u32 count) >? Size b
  then Throws BufferUnderrunException
  else Returns tt.

(** [bytes[i]]. *)
Definition byte (b : t) (i : Z) : completion Z := lift (vget (bytes b) i).

(** [readCursor += n]. *)
Definition advance (n : Z) (b : t) : t := set_readCursor b (usize (readCursor b + n)).

(** The loop [for (auto& v : buffer) v = bytes[readCursor++]] over [n]
    elements. *)
Fixpoint Read_loop (n : nat) (b : t) : completion (list Z * t) :=
  match n with
  | O => Returns ([], b)
  | S n' =>
      let! x := byte b (readCursor b) in
      let! (rest, b') := Read_loop n' (advance 1 b) in
      Returns (x :: rest, b')
  end.

(** [Read(std::array<uint8_t,N>& buffer)]; the result is the array. *)
Definition Read_array (N : nat) (b : t) : completion (list Z * t) :=
  let! _ := AssertRemainingBytes (Z.of_nat N) b in
  Read_loop N b.

(** The loop of [Read(uint8_t* buffer, uint32_t size)]: [mem] is the
    memory the pointer points into and [p] the position of [buffer[idx]]. *)
Fixpoint Read_ptr_loop (n : nat) (mem : list Z) (p : Z) (b : t)
  : completion (list Z * t) :=
  match n with
  | O => Returns (mem, b)
  | S n' =>
      let! x := byte b (readCursor b) in
      let! mem' := lift (vset mem p x) in
      Read_ptr_loop n' mem' (p + 1) (advance 1 b)
  end.

Definition Read_ptr (mem : list Z) (buffer : Z) (size : Z) (b : t)
  : completion (list Z * t) :=
  let! _ := AssertRemainingBytes size b in
  Read_ptr_loop (Z.to_nat (u32 size)) mem buffer b.

Definition PeekU8 (b : t) : completion Z :=
  let! _ := AssertRemainingBytes 1 b in
  byte b (readCursor b).

Definition ReadU8 (b : t) : completion (Z * t) :=
  let! _ := AssertRemainingBytes 1 b in
  let! x := byte b (readCursor b) in
  Returns (x, advance 1 b).

Definition ReadS8 (b : t) : completion (Z * t) :=
  let! (x, b') := ReadU8 b in
  Returns (s8 x, b').

Definition ReadBool (b : t) : completion (bool * t) :=
  let! (x, b') := ReadU8 b in
  Returns (negb (x =? 0), b').

Definition ReadU16 (b : t) : completion (Z * t) :=
  let! _ := AssertRemainingBytes 2 b in
  let! b0 := byte b (readCursor b) in
  let! b1 := byte b (usize (readCursor b + 1)) in
  let data := u16 (Z.lor b0 (Z.shiftl (u16 b1) 8)) in
  Returns (data, advance 2 b).

Definition ReadU16BE (b : t) : completion (Z * t) :=
  let! _ := AssertRemainingBytes 2 b in
  let! b0 := byte b (readCursor b) in
  let! b1 := byte b (usize (readCursor b + 1)) in
  let data := u16 (Z.lor (Z.shiftl (u16 b0) 8) b1) in
  Returns (data, advance 2 b).

Definition ReadS16 (b : t) : completion (Z * t) :=
  let! (x, b') := ReadU16 b in
  Returns (s16 x, b').

Definition ReadU24 (b : t) : completion (Z * t) :=
  let! _ := AssertRemainingBytes 3 b in
  let! b0 := byte b (readCursor b) in
  let! b1 := byte b (usize (readCursor b + 1)) in
  let! b2 := byte b (usize (readCursor b + 2)) in
  let data := Z.lor (Z.lor b0 (u32 (Z.shiftl (u32 b1) 8)))
                    (u32 (Z.shiftl (u32 b2) 16)) in
  Returns (data, advance 3 b).

Definition ReadU32 (b : t) : completion (Z * t) :=
  let! _ := AssertRemainingBytes 4 b in
  let! b0 := byte b (readCursor b) in
  let! b1 := byte b (usize (readCursor b + 1)) in
  let! b2 := byte b (usize (readCursor b + 2)) in
  let! b3 := byte b (usize (readCursor b + 3)) in
  Returns (le32 b0 b1 b2 b3, advance 4 b).

Definition ReadS32 (b : t) : completion (Z * t) :=
  let! _ := AssertRemainingBytes 4 b in
  let! b0 := byte b (readCursor b) in
  let! b1 := byte b (usize (readCursor b + 1)) in
  let! b2 := byte b (usize (readCursor b + 2)) in
  let! b3 := byte b (usize (readCursor b + 3)) in
  Returns (s32 (le32 b0 b1 b2 b3), advance 4 b).

(** [ReadU32(size_t offset) const]. *)
Definition ReadU32_at (offset : Z) (b : t) : completion Z :=
  let offset := usize offset in
  let! _ := AssertRemainingBytes_at 4 offset b in
  let! b0 := byte b offset in
  let! b1 := byte b (usize (offset + 1)) in
  let! b2 := byte b (usize (offset + 2)) in
  let! b3 := byte b (usize (offset + 3)) in
  Returns (le32 b0 b1 b2 b3).

Definition ReadU64 (b : t) : completion (Z * t) :=
  let! _ := AssertRemainingBytes 8 b in
  let! b0 := byte b (readCursor b) in
  let! b1 := byte b (usize (readCursor b + 1)) in
  let! b2 := byte b (usize (readCursor b + 2)) in
  let! b3 := byte b (usize (readCursor b + 3)) in
  let! b4 := byte b (usize (readCursor b + 4)) in
  let! b5 := byte b (usize (readCursor b + 5)) in
  let! b6 := byte b (usize (readCursor b + 6)) in
  let! b7 := byte b (usize (readCursor b + 7)) in
  Returns (le64 b0 b1 b2 b3 b4 b5 b6 b7, advance 8 b).

Definition ReadS64 (b : t) : completion (Z * t) :=
  let! (x, b') := ReadU64 b in
  Returns (s64 x, b').

(** [ReadU64(size_t offset) const]. *)
Definition ReadU64_at (offset : Z) (b : t) : completion Z :=
  let offset := usize offset in
  let! _ := AssertRemainingBytes_at 8 offset b in
  let! b0 := byte b offset in
  let! b1 := byte b (usize (offset + 1)) in
  let! b2 := byte b (usize (offset + 2)) in
  let! b3 := byte b (usize (offset + 3)) in
  let! b4 := byte b (usize (offset + 4)) in
  let! b5 := byte b (usize (offset + 5)) in
  let! b6 := byte b (usize (offset + 6)) in
  let! b7 := byte b (usize (offset + 7)) in
  Returns (le64 b0 b1 b2 b3 b4 b5 b6 b7).

(** [ReadPadding(int count)]: the count is converted to [unsigned int]
    for the check and to [size_t] for the addition. *)
Definition ReadPadding (count : Z) (b : t) : completion t :=
  let count := s32 count in
  let! _ := AssertRemainingBytes count b in
  Returns (advance count b).

(** [ReadPadding(size_t offset, int count) const]. *)
Definition ReadPadding_at (offset count : Z) (b : t) : completion unit :=
  AssertRemainingBytes_at (s32 count) (usize offset) b.

(** [operator [] (size_t offset) const]. *)
Definition index (offset : Z) (b : t) : completion Z :=
  let i := usize (readCursor b + usize offset) in
  if usize (i + 1) >? Size b then Throws BufferUnderrunException
  else byte b i.

Definition AppendU8 (value : Z) (b : t) : t :=
  mk (readCursor b) (bytes b ++ [u8 value]) false.

Definition AppendBool (value : bool) (b : t) : t :=
  mk (readCursor b) (bytes b ++ [if value then 1 else 0]) false.

Definition AppendU16 (value : Z) (b : t) : t :=
  let value := u16 value in
  AppendU8 (Z.shiftr value 8) (AppendU8 value b).

Definition AppendU16BE (value : Z) (b : t) : t :=
  let value := u16 value in
  AppendU8 value (AppendU8 (Z.shiftr value 8) b).

Definition AppendU24 (value : Z) (b : t) : t :=
  let value := u32 value in
  AppendU8 (Z.shiftr value 16) (AppendU8 (Z.shiftr value 8) (AppendU8 value b)).

Definition AppendU32 (value : Z) (b : t) : t :=
  let value := u32 value in
  AppendU8 (Z.shiftr value 24)
    (AppendU8 (Z.shiftr value 16) (AppendU8 (Z.shiftr value 8) (AppendU8 value b))).

(** [AppendS32(int32_t value)]: [>>] on a negative value is the
    arithmetic shift. *)
Definition AppendS32 (value : Z) (b : t) : t :=
  let value := s32 value in
  AppendU8 (Z.shiftr value 24)
    (AppendU8 (Z.shiftr value 16) (AppendU8 (Z.shiftr value 8) (AppendU8 value b))).

Definition AppendU64 (value : Z) (b : t) : t :=
  let value := u64 value in
  AppendU8 (Z.shiftr value 56)
    (AppendU8 (Z.shiftr value 48)
      (AppendU8 (Z.shiftr value 40)
        (AppendU8 (Z.shiftr value 32)
          (AppendU8 (Z.shiftr value 24)
            (AppendU8 (Z.shiftr value 16)
              (AppendU8 (Z.shiftr value 8) (AppendU8 value b))))))).

Definition AppendU32BE (value : Z) (b : t) : t :=
  let value := u32 value in
  AppendU8 value
    (AppendU8 (Z.shiftr value 8) (AppendU8 (Z.shiftr value 16) (AppendU8 (Z.shiftr value 24) b))).

(** [Append(const std::array<uint8_t,N>& value)]. *)
Definition Append_array (value : list Z) (b : t) : t :=
  mk (readCursor b) (bytes b ++ value) false.

(** [Append(const Buffer& value)]. *)
Definition Append_buffer (value : t) (b : t) : t :=
  mk (readCursor b) (bytes b ++ bytes value) false.

(** [Append(const std::vector<uint8_t>& value, bool explicitLen)]. *)
Definition Append_vector (value : list Z) (explicitLen : bool) (b : t) : t :=
  let b1 := mk (readCursor b) (bytes b) false in
  let b2 := if explicitLen then AppendU32 (Z.of_nat (length value)) b1 else b1 in
  mk (readCursor b2) (bytes b2 ++ value) (readMode b2).

(** [Append(const std::string& value, bool explicitLen, bool includeNull)]. *)
Definition Append_string (value : string) (explicitLen includeNull : bool) (b : t) : t :=
  let l1 := if explicitLen then bytes b ++ [u8 (Z.of_nat (length (chars value)))]
            else bytes b in
  let l2 := l1 ++ chars value in
  let l3 := if includeNull then l2 ++ [0] else l2 in
  mk (readCursor b) l3 false.

Definition AppendCStr (value : string) (b : t) : t :=
  Append_string value false true b.

Definition AppendLStr32 (value : string) (b : t) : t :=
  let b1 := AppendU32 (Z.of_nat (length (chars value))) b in
  mk (readCursor b1) (bytes b1 ++ chars value) (readMode b1).

(** [AppendPadding(size_t count)]: [while (count--) AppendU8(0)]. *)
Definition AppendPadding (count : Z) (b : t) : t :=
  Nat.iter (Z.to_nat (usize count)) (AppendU8 0) b.

End Buffer.

(** ** Diagnostics *)

(** What is written to [std::cerr], one entry per line. *)
Inductive message : Type :=
| Text (s : string)
| Formatted (format : string) (args : list Z).

(** ** A section header *)

Module GrannySectionHeader.

(** [Encoding]: [Raw = 0], [Oodle0 = 1], [Oodle1 = 2]. *)
Definition Raw : Z := 0.
Definition Oodle0 : Z := 1.
Definition Oodle1 : Z := 2.

Record t : Type := mk {
  encoding : Z;
  fileOffset : Z;
  fileSize : Z;
  memSize : Z;
  alignment : Z;
  stream0Stop : Z;
  stream1Stop : Z;
  relocOffset : Z;
  relocCount : Z;
  marshalOffset : Z;
  marshalCount : Z
}.

(** [Load] assigns every member; the result is the verdict, what was
    written to [std::cerr], the header and the buffer. *)
Definition Load (buffer : Buffer.t) (totalFileSize : Z)
  : completion (bool * list message * t * Buffer.t) :=
  let! (encoding_, buffer) := Buffer.ReadU32 buffer in
  let! (fileOffset_, buffer) := Buffer.ReadU32 buffer in
  let! (fileSize_, buffer) := Buffer.ReadU32 buffer in
  let! (memSize_, buffer) := Buffer.ReadU32 buffer in
  let! (alignment_, buffer) := Buffer.ReadU32 buffer in
  let! (stream0Stop_, buffer) := Buffer.ReadU32 buffer in
  let! (stream1Stop_, buffer) := Buffer.ReadU32 buffer in
  let! (relocOffset_, buffer) := Buffer.ReadU32 buffer in
  let! (relocCount_, buffer) := Buffer.ReadU32 buffer in
  let! (marshalOffset_, buffer) := Buffer.ReadU32 buffer in
  let! (marshalCount_, buffer) := Buffer.ReadU32 buffer in
  let hdr := mk (s32 encoding_) fileOffset_ fileSize_ memSize_ alignment_
                stream0Stop_ stream1Stop_ relocOffset_ relocCount_
                marshalOffset_ marshalCount_ in
  if (fileOffset_ >? totalFileSize)
     || (u32 (fileOffset_ + fileSize_) >? totalFileSize) then
    Returns (false,
             [Formatted "Granny section file offset / size are invalid (%08x + %x)"
                        [fileOffset_; fileSize_]],
             hdr, buffer)
  else if memSize_ <? fileSize_ then
    Returns (false,
             [Formatted "Granny section memory size (%x) is invalid" [memSize_]],
             hdr, buffer)
  else if (relocOffset_ >? totalFileSize)
          || (u32 (relocOffset_ + u32 (relocCount_ * 12)) >? totalFileSize) then
    Returns (false,
             [Formatted "Granny2 section relocation table offset / size are invalid (%08x + %d entries)"
                        [relocOffset_; relocCount_]],
             hdr, buffer)
  else if (marshalOffset_ >? totalFileSize)
          || (u32 (marshalOffset_ + u32 (marshalCount_ * 12)) >? totalFileSize) then
    Returns (false,
             [Formatted "Granny2 section relocation table offset / size are invalid (%08x + %d entries)"
                        [relocOffset_; relocCount_]],
             hdr, buffer)
  else if marshalCount_ >? 0 then
    Returns (false,
             [Formatted "Granny2 section has %d marshal headers, which are unsupported"
                        [marshalCount_]],
             hdr, buffer)
  else Returns (true, [], hdr, buffer).

End GrannySectionHeader.

(** ** The file *)

Module GrannyFile.

Definition SectionHeaderSize : Z := 44.
Definition SignatureLength : nat := 16.
Definition SignatureLE : list Z :=
  [ 0xb8; 0x67; 0xb0; 0xca; 0xf8; 0x6d; 0xb1; 0x0f;
    0x84; 0x72; 0x8c; 0x7e; 0x5e; 0x19; 0x00; 0x1e ].
Definition UserDataSize : nat := 16.

Record t : Type := mk {
  crc : Z;
  data : list Z;                                   (* std::vector<uint8_t> *)
  dataBase : Z;
  rootNodeType : Z;
  rootNodeObject : Z;
  sectionHeaders : list GrannySectionHeader.t;
  totalFileSize : Z;
  totalHeaderSize : Z;
  userData : list Z;                               (* std::array<uint8_t,16> *)
  userTag : Z;
  version : Z
}.

(** [GrannyFile() = default]. *)
Definition fresh : t := mk 0 [] 0 0 0 [] 0 0 (replicate 16 0) 0 0.

Definition GetData (g : t) : list Z := data g.

(** The [uint32_t] that a word pointer to byte position [p] of the file
    designates, on a little-endian host. *)
Definition word_at (file : list Z) (p : Z) : result Z :=
  let* b0 := vget file p in
  let* b1 := vget file (p + 1) in
  let* b2 := vget file (p + 2) in
  let* b3 := vget file (p + 3) in
  Ok (le32 b0 b1 b2 b3).

(** The three words [headerPtr[0..2]] that [Initialize] reads. *)
Definition header_at (file : list Z) (headerPtr : Z) : result (list Z) :=
  let* h0 := word_at file headerPtr in
  let* h1 := word_at file (headerPtr + 4) in
  let* h2 := word_at file (headerPtr + 8) in
  Ok [h0; h1; h2].

(** The loop [while (outputOffset < streamEnd)] of [DecompressOodle1].
    Every [Decompress] adds at least one byte, which bounds the number of
    rounds by [fuel]. *)
Fixpoint DecompressOodle1_while (fuel : nat)
         (bs : Oodle1Bitstream.t) (decomp : Oodle1Decompressor.t)
         (mem : list Z) (output outputOffset streamEnd : Z)
  : result (Z * Oodle1Bitstream.t * list Z) :=
  if outputOffset <? streamEnd then
    match fuel with
    | O => OutOfFuel
    | S fuel' =>
        let* (n, bs', decomp', mem') :=
          Oodle1Decompressor.Decompress bs decomp mem (output + outputOffset) in
        DecompressOodle1_while fuel' bs' decomp' mem' output
          (usize (outputOffset + n)) streamEnd
    end
  else Ok (outputOffset, bs, mem).

(** The loop over the streams, with its [break]; [headerPtr] is the
    position in the file of the header words of the next stream. *)
Fixpoint DecompressOodle1_for (streamEndOffsets : list Z) (memSize : Z)
         (file : list Z) (headerPtr : Z)
         (bs : Oodle1Bitstream.t) (mem : list Z) (output outputOffset : Z)
  : result (Z * Oodle1Bitstream.t * list Z) :=
  match streamEndOffsets with
  | [] => Ok (outputOffset, bs, mem)
  | streamEnd :: rest =>
      if outputOffset >=? memSize then Ok (outputOffset, bs, mem)
      else
        let* header := header_at file headerPtr in
        let* decomp := Oodle1Decompressor.Initialize header Oodle1Decompressor.fresh in
        let* (outputOffset', bs', mem') :=
          DecompressOodle1_while (Z.to_nat (streamEnd - outputOffset))
            bs decomp mem output outputOffset streamEnd in
        DecompressOodle1_for rest memSize file (headerPtr + 12)
          bs' mem' output outputOffset'
  end.

(** [DecompressOodle1(header, input, output)]: [input] is a position in
    the bytes of the file and [output] a position in [mem]; the result is
    the final [outputOffset] and the memory. *)
Definition DecompressOodle1 (header : GrannySectionHeader.t)
           (file : list Z) (input : Z) (mem : list Z) (output : Z)
  : result (Z * list Z) :=
  let* bs := Oodle1Bitstream.make (drop (Z.to_nat (input + 36)) file) in
  let streamEndOffsets :=
    [ GrannySectionHeader.stream0Stop header;
      GrannySectionHeader.stream1Stop header;
      GrannySectionHeader.memSize header ] in
  let* (outputOffset, _, mem') :=
    DecompressOodle1_for streamEndOffsets (GrannySectionHeader.memSize header)
      file input bs mem output 0 in
  Ok (outputOffset, mem').

(** The loop that loads the section headers. *)
Fixpoint LoadFromBytes_headers (n : nat) (buffer : Buffer.t) (totalFileSize_ : Z)
         (headers : list GrannySectionHeader.t) (totalMemSize : Z)
  : completion (bool * list message * list GrannySectionHeader.t * Z * Buffer.t) :=
  match n with
  | O => Returns (true, [], headers, totalMemSize, buffer)
  | S n' =>
      let! (ok, cerr, hdr, buffer') := GrannySectionHeader.Load buffer totalFileSize_ in
      if negb ok then Returns (false, cerr, headers, totalMemSize, buffer')
      else
        LoadFromBytes_headers n' buffer' totalFileSize_ (headers ++ [hdr])
          (u32 (totalMemSize + GrannySectionHeader.memSize hdr))
  end.

(** The loop that loads the sections into [data]. *)
Fixpoint LoadFromBytes_sections (headers : list GrannySectionHeader.t)
         (buffer : Buffer.t) (data_ : list Z) (memOffset : Z)
  : completion (bool * list message * list Z * Buffer.t) :=
  match headers with
  | [] => Returns (true, [], data_, buffer)
  | secHdr :: rest =>
      if GrannySectionHeader.memSize secHdr <=? 0 then
        LoadFromBytes_sections rest buffer data_ memOffset
      else
        let buffer := Buffer.Seek (GrannySectionHeader.fileOffset secHdr) buffer in
        let encoding := GrannySectionHeader.encoding secHdr in
        if encoding =? GrannySectionHeader.Raw then
          let! _ := lift (vget data_ memOffset) in
          let! (data', buffer') :=
            Buffer.Read_ptr data_ memOffset (GrannySectionHeader.fileSize secHdr) buffer in
          LoadFromBytes_sections rest buffer' data'
            (u32 (memOffset + GrannySectionHeader.memSize secHdr))
        else if encoding =? GrannySectionHeader.Oodle1 then
          let! _ := lift (vget data_ memOffset) in
          let! (_, data') :=
            lift (DecompressOodle1 secHdr (Buffer.bytes buffer)
                    (GrannySectionHeader.fileOffset secHdr) data_ memOffset) in
          LoadFromBytes_sections rest buffer data'
            (u32 (memOffset + GrannySectionHeader.memSize secHdr))
        else
          Returns (false,
                   [Formatted "Granny section uses unsupported encoding %d" [encoding]],
                   data_, buffer)
  end.

(** [LoadFromBytes(raw)] on the file object [g]: the verdict, what was
    written to [std::cerr], and the object. *)
Definition LoadFromBytes (raw : list Z) (g : t) : completion (bool * list message * t) :=
  if Z.of_nat (length raw) <? 64 then
    Returns (false, [Text "Granny file is implausibly small"], g)
  else
    let buffer := Buffer.of_bytes raw in
    let! (signature, buffer) := Buffer.Read_array SignatureLength buffer in
    if negb (bool_decide (signature = SignatureLE)) then
      Returns (false, [Text "Granny file has invalid magic bytes"], g)
    else
      let! (totalHeaderSize_, buffer) := Buffer.ReadU32 buffer in
      let! buffer := Buffer.ReadPadding 12 buffer in
      let dataBase_ := u32 (Buffer.Tell buffer) in
      let! (version_, buffer) := Buffer.ReadU32 buffer in
      let g1 := mk (crc g) (data g) dataBase_ (rootNodeType g) (rootNodeObject g)
                   (sectionHeaders g) (totalFileSize g) totalHeaderSize_
                   (userData g) (userTag g) version_ in
      if negb (version_ =? 6) then
        Returns (false,
                 [Formatted "Granny file has unsupported version %d" [version_]], g1)
      else
        let! (totalFileSize_, buffer) := Buffer.ReadU32 buffer in
        let g2 := mk (crc g1) (data g1) (dataBase g1) (rootNodeType g1) (rootNodeObject g1)
                     (sectionHeaders g1) totalFileSize_ (totalHeaderSize g1)
                     (userData g1) (userTag g1) (version g1) in
        if negb (totalFileSize_ =? Buffer.Size buffer) then
          Returns (false,
                   [Formatted "Granny file claims length %d, but is actually %d"
                              [totalFileSize_; Buffer.Size buffer]], g2)
        else
          let! (crc_, buffer) := Buffer.ReadU32 buffer in
          let! (offset_, buffer) := Buffer.ReadU32 buffer in
          let sectionHdrOffset := u32 (offset_ + dataBase_) in
          let! (sectionCount, buffer) := Buffer.ReadU32 buffer in
          let! (rootNodeType_, buffer) := Buffer.ReadU64 buffer in
          let! (rootNodeObject_, buffer) := Buffer.ReadU64 buffer in
          let! (userTag_, buffer) := Buffer.ReadU32 buffer in
          let! (userData_, buffer) := Buffer.Read_array UserDataSize buffer in
          let g3 := mk crc_ (data g2) (dataBase g2) rootNodeType_ rootNodeObject_
                       (sectionHeaders g2) (totalFileSize g2) (totalHeaderSize g2)
                       userData_ userTag_ (version g2) in
          let headersEnd := u32 (sectionHdrOffset + u32 (sectionCount * SectionHeaderSize)) in
          if (sectionHdrOffset <? Buffer.Tell buffer)
             || (sectionHdrOffset >=? totalFileSize_)
             || (headersEnd >? totalFileSize_) then
            Returns (false,
                     [Formatted "Granny file has invalid section-header offset / count %x + %d"
                                [sectionHdrOffset; sectionCount]], g3)
          else if totalHeaderSize_ <? headersEnd then
            Returns (false, [Text "Granny file has invalid total header size"], g3)
          else
            let buffer := Buffer.Seek sectionHdrOffset buffer in
            let! (ok, cerr, headers, totalMemSize, buffer) :=
              LoadFromBytes_headers (Z.to_nat sectionCount) buffer totalFileSize_
                (sectionHeaders g3) 0 in
            let g4 := mk (crc g3) (data g3) (dataBase g3) (rootNodeType g3)
                         (rootNodeObject g3) headers (totalFileSize g3)
                         (totalHeaderSize g3) (userData g3) (userTag g3) (version g3) in
            if negb ok then Returns (false, cerr, g4)
            else
              let data1 := resize (Z.to_nat totalMemSize) 0 (data g4) in
              let! (ok, cerr, data2, buffer) :=
                LoadFromBytes_sections headers buffer data1 0 in
              let g5 := mk (crc g4) data2 (dataBase g4) (rootNodeType g4)
                           (rootNodeObject g4) (sectionHeaders g4) (totalFileSize g4)
                           (totalHeaderSize g4) (userData g4) (userTag g4) (version g4) in
              Returns (ok, cerr, g5).

End GrannyFile.

(** * Specification vocabulary *)

Import Oodle1Bitstream Oodle1Decoder.

(** [srModulus] is a 32-bit unsigned field. *)
Definition modulus_in_range (bs : Oodle1Bitstream.t) : Prop :=
  0 <= srModulus bs < 2 ^ 32.

(** A bitstream as [make] leaves it on the bytes [12 34 56 78 9a bc de f0]. *)
Definition sample_bitstream : Oodle1Bitstream.t :=
  {| input := [0x34; 0x56; 0x78; 0x9a; 0xbc; 0xde; 0xf0];
     sr := 0x09; srModulus := 0x80; lsb := 0 |}.

(** The repeat lengths in closed form: a run of consecutive lengths, then
    four long ones. *)
Definition repeat_length (lenCode : Z) : Z :=
  if lenCode <=? 60 then lenCode + 1
  else if lenCode =? 61 then 128
  else if lenCode =? 62 then 192
  else if lenCode =? 63 then 256
  else 512.

(** [n] calls of [Decode] in a row, threading the bitstream. *)
Fixpoint Decode_many (n : nat) (alphabetSize : Z)
         (bs : Oodle1Bitstream.t) (d : Oodle1Decoder.t)
  : result (Oodle1Bitstream.t * Oodle1Decoder.t) :=
  match n with
  | O => Ok (bs, d)
  | S n' =>
      let* (_, bs', d') := Decode bs alphabetSize d in
      Decode_many n' alphabetSize bs' d'
  end.

(** Forty-four bytes of compressed input. *)
Definition long_input : list Z :=
  [ 46;  89; 151; 156; 232; 111; 172; 183;  61;  44; 100;
    69;  49; 202; 193; 235; 173; 178;  84;  40;  63; 133;
    86;  66; 149; 232; 136; 242; 183;  19; 202; 207;   7;
    25; 126; 123; 250; 245; 154; 143; 148;  88; 143;  71 ].

(** The bitstream on [long_input], a fresh decoder for four symbols, two
    of them expected, and the two after 379 [Decode] calls. *)
Definition long_bitstream : Oodle1Bitstream.t :=
  {| input := tail long_input; sr := 23; srModulus := 0x80; lsb := 0 |}.

Definition long_decoder : Oodle1Decoder.t :=
  {| usedSymbolCount := 2;
     symbols := [0; 0; 0; 0; 0; 0];
     symbolWeights := [0; 16384; 16384; 16384; 16384; 16384];
     symbolOccurrences := [4; 0; 0; 0; 0; 0];
     totalOccurrence := 4;
     highestLearnedSymbol := 0;
     highestNormalizedSymbol := 0;
     nextRenormWeight := 8;
     decayThreshold := 256;
     rapidRenormInterval := 4;
     renormInterval := 128 |}.

Definition long_bitstream_end : Oodle1Bitstream.t :=
  {| input := [148; 88; 143; 71]; sr := 6605827; srModulus := 10422382; lsb := 1 |}.

(** The decoder for four symbols, two of them expected, after 379 [Decode]
    calls on [long_input]: it is about to decay ([totalOccurrence] has
    reached both thresholds), and the symbol in slot 1 is down to a single
    occurrence while the top slot 3 has 204. *)
Definition decoder_with_stale_slot : Oodle1Decoder.t :=
  {| usedSymbolCount := 2;
     symbols := [0; 1; 2; 0; 0; 0];
     symbolWeights := [0; 127; 254; 3175; 16384; 16384];
     symbolOccurrences := [1; 1; 51; 204; 0; 0];
     totalOccurrence := 257;
     highestLearnedSymbol := 3;
     highestNormalizedSymbol := 3;
     nextRenormWeight := 257;
     decayThreshold := 256;
     rapidRenormInterval := 64;
     renormInterval := 128 |}.

(** A header triple: window size 0, 256 literals, and the four packed
    counts 1, 2, 3, 4 for the length decoders. *)
Definition sample_header : list Z := [0x100; 0x100; 0x01020304].

(** The caller's buffer during a later stream of a section: four bytes
    are already there, and the output position is 4. *)
Definition sample_buffer : list Z := [0xAA; 0xBB; 0xCC; 0xDD; 0; 0; 0; 0; 0; 0; 0; 0].

(** The value of an outcome, or a default when there is none. *)
Definition value_or {A : Type} (default : A) (r : result A) : A :=
  match r with
  | Ok a => a
  | _ => default
  end.

(** The decompressor that [Initialize] makes of [sample_header], and the
    states after the length code and after the back-reference fields of
    its first token on [sample_bitstream]. *)
Definition sample_decompressor : Oodle1Decompressor.t :=
  value_or Oodle1Decompressor.fresh
    (Oodle1Decompressor.Initialize sample_header Oodle1Decompressor.fresh).

Definition sample_after_lenCode : Z * Oodle1Bitstream.t * Oodle1Decompressor.t :=
  value_or (0, sample_bitstream, Oodle1Decompressor.fresh)
    (Oodle1Decompressor.Decompress_lenCode sample_bitstream sample_decompressor).

Definition sample_after_backref : Z * Z * Oodle1Bitstream.t * Oodle1Decompressor.t :=
  value_or (0, 0, sample_bitstream, Oodle1Decompressor.fresh)
    (Oodle1Decompressor.Decompress_backref 4
       (snd (fst sample_after_lenCode)) (snd sample_after_lenCode)).

(** ** Typing and invariants of the decoder *)

(** The fields of a bitstream hold values of their C++ types, and the
    input is a sequence of bytes. *)
Definition bitstream_typed (bs : Oodle1Bitstream.t) : Prop :=
  Forall (fun b => 0 <= b < 2 ^ 8) (input bs) /\
  0 <= sr bs < 2 ^ 32 /\
  0 <= srModulus bs < 2 ^ 32 /\
  0 <= lsb bs <= 1.

Fixpoint sumZ (l : list Z) : Z :=
  match l with
  | [] => 0
  | x :: rest => x + sumZ rest
  end.

(** The decoder states that arise from a freshly constructed decoder by
    [Initialize alphabetSize uniqueSymbols] and then any number of [Decode]
    calls that return, each on any well-typed bitstream and with any
    alphabet size argument. *)
Inductive reachable (alphabetSize uniqueSymbols : Z) : Oodle1Decoder.t -> Prop :=
| reachable_Initialize (d : Oodle1Decoder.t) :
    Initialize alphabetSize uniqueSymbols fresh = Ok d ->
    reachable alphabetSize uniqueSymbols d
| reachable_Decode (d d' : Oodle1Decoder.t) (bs bs' : Oodle1Bitstream.t) (a v : Z) :
    reachable alphabetSize uniqueSymbols d ->
    bitstream_typed bs ->
    Decode bs a d = Ok (v, bs', d') ->
    reachable alphabetSize uniqueSymbols d'.

(** Conservation: [totalOccurrence == sum(occurrences[0..=HLS])]. *)
Definition conserved (d : Oodle1Decoder.t) : Prop :=
  totalOccurrence d =
  sumZ (take (S (Z.to_nat (highestLearnedSymbol d))) (symbolOccurrences d)).

(** Weight monotonicity: [weights[i] <= weights[i+1]] for all [i <= HLSN]
    and [weights[i] == ONE] for all [i > HLSN], inside the table. *)
Definition weights_monotone (d : Oodle1Decoder.t) : Prop :=
  forall i x y,
    0 <= i <= highestNormalizedSymbol d ->
    symbolWeights d !! Z.to_nat i = Some x ->
    symbolWeights d !! Z.to_nat (i + 1) = Some y ->
    x <= y.

Definition weights_tail_One (d : Oodle1Decoder.t) : Prop :=
  forall i x,
    highestNormalizedSymbol d < i ->
    symbolWeights d !! Z.to_nat i = Some x ->
    x = One.

(** The occurrence table: the three vectors have one length, [HLS] is
    inside them, the occurrences are non-negative and zero above [HLS], and
    [totalOccurrence] is their sum. *)
Record occurrences_ok (d : Oodle1Decoder.t) : Prop := {
  ok_length_symbols : length (symbols d) = length (symbolOccurrences d);
  ok_length_weights : length (symbolWeights d) = length (symbolOccurrences d);
  ok_length_32 : Z.of_nat (length (symbolOccurrences d)) < 2 ^ 32;
  ok_HLS : 0 <= highestLearnedSymbol d < Z.of_nat (length (symbolOccurrences d));
  ok_nonneg : Forall (fun o => 0 <= o) (symbolOccurrences d);
  ok_tail : forall i o, highestLearnedSymbol d < i ->
                        symbolOccurrences d !! Z.to_nat i = Some o -> o = 0;
  ok_total : totalOccurrence d = sumZ (symbolOccurrences d)
}.

(** The renormalization schedule keeps [totalOccurrence] small. *)
Record schedule_ok (d : Oodle1Decoder.t) : Prop := {
  ok_DT : 256 <= decayThreshold d <= 15160;
  ok_RI : 128 <= renormInterval d <= 7548;
  ok_RRI : 4 <= rapidRenormInterval d < renormInterval d;
  ok_NRW : nextRenormWeight d <= 22708;
  ok_bound : totalOccurrence d <= nextRenormWeight d + 2
}.

Record weights_ok (d : Oodle1Decoder.t) : Prop := {
  ok_HLSN : 0 <= highestNormalizedSymbol d <= highestLearnedSymbol d;
  ok_monotone : weights_monotone d;
  ok_tail_One : weights_tail_One d
}.

Record decoder_ok (d : Oodle1Decoder.t) : Prop := {
  ok_occurrences : occurrences_ok d;
  ok_schedule : schedule_ok d;
  ok_weights : weights_ok d
}.

(** The fields that neither [Decay] nor [Renormalize] nor [Decode] ever
    assign, and the lengths of the vectors. *)
Definition same_frame (d d' : Oodle1Decoder.t) : Prop :=
  usedSymbolCount d' = usedSymbolCount d /\
  decayThreshold d' = decayThreshold d /\
  renormInterval d' = renormInterval d /\
  length (symbols d') = length (symbols d) /\
  length (symbolWeights d') = length (symbolWeights d) /\
  length (symbolOccurrences d') = length (symbolOccurrences d).

(** The invariant of the loops of [Decay] at slot [idx]: [totalOccurrence]
    is the sum of the slots below [idx], which are the halved ones, and
    twice that sum plus the slots not yet visited does not exceed [T0], the
    sum at the start of [Decay]. *)
Record decay_inv (T0 idx : Z) (d : Oodle1Decoder.t) : Prop := {
  di_length_symbols : length (symbols d) = length (symbolOccurrences d);
  di_length_weights : length (symbolWeights d) = length (symbolOccurrences d);
  di_length_32 : Z.of_nat (length (symbolOccurrences d)) < 2 ^ 32;
  di_HLS : 0 <= highestLearnedSymbol d < Z.of_nat (length (symbolOccurrences d));
  di_nonneg : Forall (fun o => 0 <= o) (symbolOccurrences d);
  di_tail : forall i o, highestLearnedSymbol d < i ->
                        symbolOccurrences d !! Z.to_nat i = Some o -> o = 0;
  di_sum : sumZ (symbolOccurrences d) =
           totalOccurrence d + sumZ (drop (Z.to_nat idx) (symbolOccurrences d));
  di_half : 2 * totalOccurrence d + sumZ (drop (Z.to_nat idx) (symbolOccurrences d)) <= T0;
  di_total : 0 <= totalOccurrence d;
  di_idx : 1 <= idx <= highestLearnedSymbol d + 1
}.

(** What [Decay] and its loops leave alone, and the direction in which
    [HLS] moves. *)
Definition decay_frame (d d' : Oodle1Decoder.t) : Prop :=
  same_frame d d' /\
  highestNormalizedSymbol d' = highestNormalizedSymbol d /\
  nextRenormWeight d' = nextRenormWeight d /\
  rapidRenormInterval d' = rapidRenormInterval d /\
  highestLearnedSymbol d' <= highestLearnedSymbol d.

(** The invariant of the loop of [Renormalize] at slot [idx] with the
    running sum [acc]: the weights written so far are sorted and at most
    [acc], and [acc] together with the quanta of the slots not yet visited
    stays within [0x20000 / 8]. *)
Record renorm_inv (quanta idx acc : Z) (d : Oodle1Decoder.t) : Prop := {
  ri_acc : 0 <= acc;
  ri_budget :
    8 * acc + quanta * sumZ (drop (Z.to_nat idx) (symbolOccurrences d)) <= 0x20000;
  ri_below : forall j x, 0 <= j < idx ->
                         symbolWeights d !! Z.to_nat j = Some x -> 0 <= x <= acc;
  ri_sorted : forall j x y, 0 <= j -> j + 1 < idx ->
                            symbolWeights d !! Z.to_nat j = Some x ->
                            symbolWeights d !! Z.to_nat (j + 1) = Some y -> x <= y
}.

(** What the symbol paths of [Decode] (after the renormalization step)
    leave alone: the weight table and the schedule. *)
Definition decode_frame (d d' : Oodle1Decoder.t) : Prop :=
  same_frame d d' /\
  symbolWeights d' = symbolWeights d /\
  highestNormalizedSymbol d' = highestNormalizedSymbol d /\
  nextRenormWeight d' = nextRenormWeight d /\
  rapidRenormInterval d' = rapidRenormInterval d.

(** A fresh decoder for 65 symbols of which 3 are expected, and what one
    [Decode] on [sample_bitstream] makes of it. *)
Definition sample_decoder : Oodle1Decoder.t :=
  value_or fresh (Initialize 65 3 fresh).

Definition sample_decoded : Z * Oodle1Bitstream.t * Oodle1Decoder.t :=
  value_or (0, sample_bitstream, fresh) (Decode sample_bitstream 65 sample_decoder).

(** A bitstream as [make] leaves it on seventeen zero bytes. *)
Definition zero_bitstream : Oodle1Bitstream.t :=
  {| input := replicate 16 0; sr := 0; srModulus := 0x80; lsb := 0 |}.

(** The weight table is the allocated one, sorted up to [HLSN + 1] and
    [ONE] above [HLSN]. *)
Definition weights_sorted (alphabetSize : Z) (d : Oodle1Decoder.t) : Prop :=
  length (symbolWeights d) = Z.to_nat (u32 (alphabetSize + 2)) /\
  weights_monotone d /\ weights_tail_One d.

(** ** The length decoders of the driver *)

(** A decoder initialized with [alphabetSize] and driven only by
    [Decode(bs, alphabetSize)] calls on well-typed bitstreams. *)
Inductive driven (alphabetSize uniqueSymbols : Z) : Oodle1Decoder.t -> Prop :=
| driven_Initialize (d : Oodle1Decoder.t) :
    Initialize alphabetSize uniqueSymbols fresh = Ok d ->
    driven alphabetSize uniqueSymbols d
| driven_Decode (d d' : Oodle1Decoder.t) (bs bs' : Oodle1Bitstream.t) (v : Z) :
    driven alphabetSize uniqueSymbols d ->
    bitstream_typed bs ->
    Decode bs alphabetSize d = Ok (v, bs', d') ->
    driven alphabetSize uniqueSymbols d'.

(** The states of a decompressor and its bitstream: a freshly constructed
    decompressor is initialized from [header], on any well-typed bitstream,
    and then [Decompress] is called any number of times, on any buffer. *)
Inductive running (header : list Z)
  : Oodle1Bitstream.t -> Oodle1Decompressor.t -> Prop :=
| running_Initialize (bs : Oodle1Bitstream.t) (D : Oodle1Decompressor.t) :
    bitstream_typed bs ->
    Oodle1Decompressor.Initialize header Oodle1Decompressor.fresh = Ok D ->
    running header bs D
| running_Decompress (bs bs' : Oodle1Bitstream.t) (D D' : Oodle1Decompressor.t)
                     (mem mem' : list Z) (output n : Z) :
    running header bs D ->
    Oodle1Decompressor.Decompress bs D mem output = Ok (n, bs', D', mem') ->
    running header bs' D'.

(** The symbols a decoder for [alphabetSize] symbols may hold. *)
Definition symbol_below (alphabetSize s : Z) : Prop := 0 <= s <= alphabetSize - 1.

(** What the driver keeps true of its length decoders and its parameters. *)
Record driver_ok (D : Oodle1Decompressor.t) : Prop := {
  dk_length : length (Oodle1Decompressor.lenDecoders D) = 65%nat;
  dk_symbols : Forall (fun decoder => Forall (symbol_below 65) (symbols decoder))
                 (Oodle1Decompressor.lenDecoders D);
  dk_code : 0 <= Oodle1Decompressor.lastRepeatCode D <= 64;
  dk_lit : 0 <= Oodle1Decompressor.litAlphabetSize D;
  dk_off1 : 0 <= Oodle1Decompressor.offset1AlphabetSize D
}.

(** The first [Decompress] of [sample_decompressor] on [sample_bitstream],
    writing at position 4 of [sample_buffer]. *)
Definition sample_after_Decompress
  : Z * Oodle1Bitstream.t * Oodle1Decompressor.t * list Z :=
  value_or (0, sample_bitstream, Oodle1Decompressor.fresh, [])
    (Oodle1Decompressor.Decompress sample_bitstream sample_decompressor sample_buffer 4).

(** * Further vocabulary *)

(** ** The range coder *)

(** The invariant of the range coder: the fields hold values of their
    types and the shift register is below its modulus. *)
Definition coder_ok (bs : Oodle1Bitstream.t) : Prop :=
  bitstream_typed bs /\ sr bs < srModulus bs.

(** The code value a bitstream holds: the shift register followed by the
    pending low bit. *)
Definition register (bs : Oodle1Bitstream.t) : Z := 2 * sr bs + lsb bs.

(** The number that [acc] followed by the bytes of [l] spells, most
    significant byte first. *)
Fixpoint bytes_value (acc : Z) (l : list Z) : Z :=
  match l with
  | [] => acc
  | b :: rest => bytes_value (acc * 256 + b) rest
  end.

(** The weight table starts at 0 and stays within [0, ONE]. *)
Definition weights_based (d : Oodle1Decoder.t) : Prop :=
  symbolWeights d !! 0%nat = Some 0 /\
  Forall (fun w => 0 <= w <= One) (symbolWeights d).

(** ** The offset decoders of the driver *)

(** What the driver keeps true of its offset decoders: the two decoder
    arrays have their lengths, [bytesOutput] is a 32-bit value, and the
    symbols of the 1024-byte offset decoder are below the number of
    1024-byte blocks of the window. *)
Record offsets_ok (D : Oodle1Decompressor.t) : Prop := {
  fk_lit : length (Oodle1Decompressor.litDecoders D) = 4%nat;
  fk_off4 : length (Oodle1Decompressor.off4Decoders D) = 256%nat;
  fk_bytesOutput : 0 <= Oodle1Decompressor.bytesOutput D < 2 ^ 32;
  fk_symbols :
    Forall (symbol_below (Oodle1Decompressor.windowSize D / 1024 + 1))
           (symbols (Oodle1Decompressor.off1024Decoder D))
}.

(** ** Buffers *)

(** A buffer holds bytes, fewer than [2^63] of them (the largest size of
    a vector), and its cursor is below [2^63]. *)
Record buffer_ok (b : Buffer.t) : Prop := {
  bk_bytes : Forall (fun x => 0 <= x < 2 ^ 8) (Buffer.bytes b);
  bk_size : Buffer.Size b < 2 ^ 63;
  bk_cursor : 0 <= Buffer.readCursor b < 2 ^ 63
}.

(** The number that the bytes of [l] spell, least significant first. *)
Fixpoint little_endian (l : list Z) : Z :=
  match l with
  | [] => 0
  | b :: rest => b + 256 * little_endian rest
  end.

(** The number that the bytes of [l] spell, most significant first. *)
Definition big_endian (l : list Z) : Z := bytes_value 0 l.

(** The [n] bytes of a buffer at and after its cursor. *)
Definition next (n : nat) (b : Buffer.t) : list Z :=
  take n (drop (Z.to_nat (Buffer.readCursor b)) (Buffer.bytes b)).

(** [b1] is [b0] after appending: the same cursor, more bytes. *)
Definition extends (b0 b1 : Buffer.t) : Prop :=
  Buffer.readCursor b1 = Buffer.readCursor b0 /\
  exists suffix, Buffer.bytes b1 = Buffer.bytes b0 ++ suffix /\
                 Forall (fun x => 0 <= x < 2 ^ 8) suffix.

(** A buffer that has been written to and not yet read: the cursor is at
    the start. *)
Definition sample_written : Buffer.t :=
  Buffer.AppendU16BE 0xBEEF (Buffer.AppendU32 0x01020304 Buffer.fresh).

(** [R] reads the next [n] bytes of [b] as the number [value] makes of
    them and moves the cursor past them - or throws, when fewer than [n]
    bytes are left. *)
Definition reads (R : Buffer.t -> completion (Z * Buffer.t)) (n : nat)
           (value : list Z -> Z) (b : Buffer.t) : Prop :=
  (Buffer.readCursor b + Z.of_nat n <= Buffer.Size b ->
   R b = Returns (value (next n b), Buffer.advance (Z.of_nat n) b)) /\
  (Buffer.Size b < Buffer.readCursor b + Z.of_nat n ->
   R b = Throws BufferUnderrunException).

(** ** The Granny container *)

(** An Oodle1 section as it lies in a file: the nine header words of its
    three streams, of which only the first stream's are used here (window
    size 0, 256 literals, the counts 1, 2, 3, 4), and the compressed bytes
    of [sample_bitstream]. *)
Definition sample_section : list Z :=
  [0; 1; 0; 0;  0; 1; 0; 0;  4; 3; 2; 1] ++ replicate 24 0 ++
  [0x12; 0x34; 0x56; 0x78; 0x9a; 0xbc; 0xde; 0xf0].

(** Its section header: five bytes of memory, all of them from the first
    stream. *)
Definition sample_section_header : GrannySectionHeader.t :=
  {| GrannySectionHeader.encoding := GrannySectionHeader.Oodle1;
     GrannySectionHeader.fileOffset := 0;
     GrannySectionHeader.fileSize := 44;
     GrannySectionHeader.memSize := 5;
     GrannySectionHeader.alignment := 4;
     GrannySectionHeader.stream0Stop := 5;
     GrannySectionHeader.stream1Stop := 5;
     GrannySectionHeader.relocOffset := 0;
     GrannySectionHeader.relocCount := 0;
     GrannySectionHeader.marshalOffset := 0;
     GrannySectionHeader.marshalCount := 0 |}.

(** The little-endian 32-bit and 64-bit fields of a file at byte position
    [p]. *)
Definition field32 (raw : list Z) (p : Z) : Z :=
  little_endian (take 4 (drop (Z.to_nat p) raw)).

Definition field64 (raw : list Z) (p : Z) : Z :=
  little_endian (take 8 (drop (Z.to_nat p) raw)).

(** The section header that the 44 bytes at position [p] of a file spell. *)
Definition section_header_at (raw : list Z) (p : Z) : GrannySectionHeader.t :=
  {| GrannySectionHeader.encoding := s32 (field32 raw p);
     GrannySectionHeader.fileOffset := field32 raw (p + 4);
     GrannySectionHeader.fileSize := field32 raw (p + 8);
     GrannySectionHeader.memSize := field32 raw (p + 12);
     GrannySectionHeader.alignment := field32 raw (p + 16);
     GrannySectionHeader.stream0Stop := field32 raw (p + 20);
     GrannySectionHeader.stream1Stop := field32 raw (p + 24);
     GrannySectionHeader.relocOffset := field32 raw (p + 28);
     GrannySectionHeader.relocCount := field32 raw (p + 32);
     GrannySectionHeader.marshalOffset := field32 raw (p + 36);
     GrannySectionHeader.marshalCount := field32 raw (p + 40) |}.

(** A section that lies inside a file of [totalFileSize] bytes, with its
    relocation table, and has no marshalling data. *)
Definition section_inside (totalFileSize : Z) (hdr : GrannySectionHeader.t) : Prop :=
  GrannySectionHeader.fileOffset hdr + GrannySectionHeader.fileSize hdr <= totalFileSize /\
  GrannySectionHeader.fileSize hdr <= GrannySectionHeader.memSize hdr /\
  GrannySectionHeader.relocOffset hdr + 12 * GrannySectionHeader.relocCount hdr
    <= totalFileSize /\
  GrannySectionHeader.marshalOffset hdr <= totalFileSize /\
  GrannySectionHeader.marshalCount hdr = 0.

(** What [Load] checks, in the 32-bit arithmetic in which it checks it. *)
Definition section_accepted (totalFileSize : Z) (hdr : GrannySectionHeader.t) : Prop :=
  GrannySectionHeader.fileOffset hdr <= totalFileSize /\
  u32 (GrannySectionHeader.fileOffset hdr + GrannySectionHeader.fileSize hdr)
    <= totalFileSize /\
  GrannySectionHeader.fileSize hdr <= GrannySectionHeader.memSize hdr /\
  GrannySectionHeader.relocOffset hdr <= totalFileSize /\
  u32 (GrannySectionHeader.relocOffset hdr + u32 (GrannySectionHeader.relocCount hdr * 12))
    <= totalFileSize /\
  GrannySectionHeader.marshalOffset hdr <= totalFileSize /\
  GrannySectionHeader.marshalCount hdr = 0.

(** The position and the number of the section headers that the fixed
    header of a file announces. *)
Definition section_table_offset (raw : list Z) : Z := u32 (field32 raw 44 + 32).
Definition section_count (raw : list Z) : Z := field32 raw 48.

(** The section headers of a file. *)
Definition section_table (raw : list Z) : list GrannySectionHeader.t :=
  map (fun i => section_header_at raw (section_table_offset raw + 44 * Z.of_nat i))
      (seq 0 (Z.to_nat (section_count raw))).

(** The fixed header has the magic bytes, version 6 and the size of the
    file. *)
Definition fixed_header_valid (raw : list Z) : Prop :=
  take 16 raw = GrannyFile.SignatureLE /\
  field32 raw 32 = 6 /\
  field32 raw 36 = Z.of_nat (length raw).

(** The file object that holds the fields of the fixed header of [raw],
    the section headers [hdrs] and the data [d]. *)
Definition loaded (raw : list Z) (hdrs : list GrannySectionHeader.t) (d : list Z)
  : GrannyFile.t :=
  {| GrannyFile.crc := field32 raw 40;
     GrannyFile.data := d;
     GrannyFile.dataBase := 32;
     GrannyFile.rootNodeType := field64 raw 52;
     GrannyFile.rootNodeObject := field64 raw 60;
     GrannyFile.sectionHeaders := hdrs;
     GrannyFile.totalFileSize := Z.of_nat (length raw);
     GrannyFile.totalHeaderSize := field32 raw 16;
     GrannyFile.userData := take 16 (drop 72 raw);
     GrannyFile.userTag := field32 raw 68;
     GrannyFile.version := 6 |}.

(** The memory that a list of sections asks for. *)
Definition memory_size (hdrs : list GrannySectionHeader.t) : Z :=
  foldr (fun hdr s => GrannySectionHeader.memSize hdr + s) 0 hdrs.

(** What a section that is stored as it is contributes to the data: its
    bytes in the file, padded with zeros to its memory size. *)
Definition section_bytes (raw : list Z) (hdr : GrannySectionHeader.t) : list Z :=
  take (Z.to_nat (GrannySectionHeader.fileSize hdr))
       (drop (Z.to_nat (GrannySectionHeader.fileOffset hdr)) raw)
  ++ replicate (Z.to_nat (GrannySectionHeader.memSize hdr
                          - GrannySectionHeader.fileSize hdr)) 0.

(** A Granny file with two sections that are stored as they are: five
    bytes that fill eight bytes of memory, and three bytes. *)
Definition sample_raw_file : list Z :=
  [
    184; 103; 176; 202; 248; 109; 177; 15;            (* signature *)
    132; 114; 140; 126; 94; 25; 0; 30;                (* ... *)
    176; 0; 0; 0;                                     (* totalHeaderSize *)
    0; 0; 0; 0; 0; 0; 0; 0; 0; 0; 0; 0;               (* padding *)
    6; 0; 0; 0;                                       (* version *)
    184; 0; 0; 0;                                     (* totalFileSize *)
    68; 51; 34; 17;                                   (* crc *)
    56; 0; 0; 0;                                      (* section headers at 56 + 32 *)
    2; 0; 0; 0;                                       (* sectionCount *)
    2; 1; 0; 0; 0; 0; 0; 0;                           (* rootNodeType *)
    4; 3; 0; 0; 0; 0; 0; 0;                           (* rootNodeObject *)
    7; 0; 0; 0;                                       (* userTag *)
    16; 17; 18; 19; 20; 21; 22; 23;                   (* userData *)
    24; 25; 26; 27; 28; 29; 30; 31;                   (* ... *)
    0; 0; 0; 0;                                       (* encoding *)
    176; 0; 0; 0;                                     (* fileOffset *)
    5; 0; 0; 0;                                       (* fileSize *)
    8; 0; 0; 0;                                       (* memSize *)
    4; 0; 0; 0;                                       (* alignment *)
    0; 0; 0; 0;                                       (* stream0Stop *)
    0; 0; 0; 0;                                       (* stream1Stop *)
    0; 0; 0; 0;                                       (* relocOffset *)
    0; 0; 0; 0;                                       (* relocCount *)
    0; 0; 0; 0;                                       (* marshalOffset *)
    0; 0; 0; 0;                                       (* marshalCount *)
    0; 0; 0; 0;                                       (* encoding *)
    181; 0; 0; 0;                                     (* fileOffset *)
    3; 0; 0; 0;                                       (* fileSize *)
    3; 0; 0; 0;                                       (* memSize *)
    4; 0; 0; 0;                                       (* alignment *)
    0; 0; 0; 0;                                       (* stream0Stop *)
    0; 0; 0; 0;                                       (* stream1Stop *)
    0; 0; 0; 0;                                       (* relocOffset *)
    0; 0; 0; 0;                                       (* relocCount *)
    0; 0; 0; 0;                                       (* marshalOffset *)
    0; 0; 0; 0;                                       (* marshalCount *)
    1; 2; 3; 4; 5;                                    (* the bytes of section 0 *)
    6; 7; 8                                           (* the bytes of section 1 *)
  ].

(** A Granny file with a section of eight bytes that are stored as they
    are and the compressed section [sample_section].  The [fileSize] of
    the latter is given as 5: a section whose [fileSize] exceeds its
    [memSize] is rejected, and the decompressor does not use it. *)
Definition sample_mixed_file : list Z :=
  [
    184; 103; 176; 202; 248; 109; 177; 15;            (* signature *)
    132; 114; 140; 126; 94; 25; 0; 30;                (* ... *)
    176; 0; 0; 0;                                     (* totalHeaderSize *)
    0; 0; 0; 0; 0; 0; 0; 0; 0; 0; 0; 0;               (* padding *)
    6; 0; 0; 0;                                       (* version *)
    228; 0; 0; 0;                                     (* totalFileSize *)
    68; 51; 34; 17;                                   (* crc *)
    56; 0; 0; 0;                                      (* section headers at 56 + 32 *)
    2; 0; 0; 0;                                       (* sectionCount *)
    2; 1; 0; 0; 0; 0; 0; 0;                           (* rootNodeType *)
    4; 3; 0; 0; 0; 0; 0; 0;                           (* rootNodeObject *)
    7; 0; 0; 0;                                       (* userTag *)
    16; 17; 18; 19; 20; 21; 22; 23;                   (* userData *)
    24; 25; 26; 27; 28; 29; 30; 31;                   (* ... *)
    0; 0; 0; 0;                                       (* encoding *)
    176; 0; 0; 0;                                     (* fileOffset *)
    8; 0; 0; 0;                                       (* fileSize *)
    8; 0; 0; 0;                                       (* memSize *)
    4; 0; 0; 0;                                       (* alignment *)
    0; 0; 0; 0;                                       (* stream0Stop *)
    0; 0; 0; 0;                                       (* stream1Stop *)
    0; 0; 0; 0;                                       (* relocOffset *)
    0; 0; 0; 0;                                       (* relocCount *)
    0; 0; 0; 0;                                       (* marshalOffset *)
    0; 0; 0; 0;                                       (* marshalCount *)
    2; 0; 0; 0;                                       (* encoding *)
    184; 0; 0; 0;                                     (* fileOffset *)
    5; 0; 0; 0;                                       (* fileSize *)
    5; 0; 0; 0;                                       (* memSize *)
    4; 0; 0; 0;                                       (* alignment *)
    5; 0; 0; 0;                                       (* stream0Stop *)
    5; 0; 0; 0;                                       (* stream1Stop *)
    0; 0; 0; 0;                                       (* relocOffset *)
    0; 0; 0; 0;                                       (* relocCount *)
    0; 0; 0; 0;                                       (* marshalOffset *)
    0; 0; 0; 0;                                       (* marshalCount *)
    1; 2; 3; 4; 5; 6; 7; 8                            (* the bytes of section 0 *)
  ] ++ sample_section.

(** A section that is stored as it is, and whose bytes lie inside a file
    of [n] bytes. *)
Definition stored_section (n : Z) (hdr : GrannySectionHeader.t) : Prop :=
  GrannySectionHeader.encoding hdr = GrannySectionHeader.Raw /\
  0 <= GrannySectionHeader.fileOffset hdr /\
  0 <= GrannySectionHeader.fileSize hdr <= GrannySectionHeader.memSize hdr /\
  GrannySectionHeader.fileOffset hdr + GrannySectionHeader.fileSize hdr <= n /\
  GrannySectionHeader.memSize hdr < 2 ^ 32.

(** [sample_raw_file] with the [memSize] of its first section raised to
    [2^32 - 3]: the two sections together ask for [2^32] bytes. *)
Definition sample_overflow_file : list Z :=
  take 100 sample_raw_file ++ [253; 255; 255; 255] ++ drop 104 sample_raw_file.
(** * Properties *)

(** ** Outcomes, vectors and machine arithmetic *)

Lemma bind_Ok {A B : Type} (m : result A) (k : A -> result B) (r : B) :
  bind m k = Ok r <-> exists a, m = Ok a /\ k a = Ok r.
Proof.
  destruct m as [a| |]; simpl; split.
  - intros H. exists a. auto.
  - intros (a' & Ha & Hk). injection Ha as ->. exact Hk.
  - discriminate.
  - intros (a' & Ha & _). discriminate.
  - discriminate.
  - intros (a' & Ha & _). discriminate.
Qed.

Lemma udiv_Ok (a b q : Z) : udiv a b = Ok q <-> b <> 0 /\ q = a / b.
Proof.
  unfold udiv. destruct (Z.eqb_spec b 0) as [->|Hb]; split.
  - discriminate.
  - intros [H _]. congruence.
  - intros H. injection H as <-. auto.
  - intros [_ ->]. reflexivity.
Qed.

Lemma vget_Ok {A : Type} (v : list A) (i : Z) (x : A) :
  vget v i = Ok x <-> 0 <= i /\ v !! Z.to_nat i = Some x.
Proof.
  unfold vget. destruct (Z.ltb_spec i 0) as [Hi|Hi].
  - split; [discriminate | lia].
  - destruct (v !! Z.to_nat i) as [y|]; split.
    + intros H. injection H as ->. auto.
    + intros [_ H]. congruence.
    + discriminate.
    + intros [_ H]. discriminate.
Qed.

Lemma vset_Ok {A : Type} (v : list A) (i : Z) (x : A) (v' : list A) :
  vset v i x = Ok v' <->
  0 <= i /\ (Z.to_nat i < length v)%nat /\ v' = <[Z.to_nat i := x]> v.
Proof.
  unfold vset. destruct (Z.ltb_spec i 0) as [Hi|Hi].
  - split; [discriminate | lia].
  - destruct (Nat.ltb_spec (Z.to_nat i) (length v)) as [Hl|Hl]; split.
    + intros H. injection H as <-. auto.
    + intros (_ & _ & ->). reflexivity.
    + discriminate.
    + lia.
Qed.

Lemma vfill_Ok {A : Type} (v : list A) (from : Z) (x : A) (v' : list A) :
  vfill v from x = Ok v' <->
  0 <= from /\ (Z.to_nat from <= length v)%nat /\
  v' = take (Z.to_nat from) v ++ replicate (length v - Z.to_nat from) x.
Proof.
  unfold vfill.
  destruct (Z.ltb_spec from 0) as [H0|H0];
    destruct (Z.ltb_spec (Z.of_nat (length v)) from) as [H1|H1]; simpl; split;
    try discriminate; try lia.
  - intros H. injection H as <-. split; [lia|]. split; [lia|reflexivity].
  - intros (_ & _ & ->). reflexivity.
Qed.

Lemma vset_length {A : Type} (v : list A) (i : Z) (x : A) (v' : list A) :
  vset v i x = Ok v' -> length v' = length v.
Proof. intros (_ & _ & ->)%vset_Ok. apply length_insert. Qed.

Lemma vfill_length {A : Type} (v : list A) (from : Z) (x : A) (v' : list A) :
  vfill v from x = Ok v' -> length v' = length v.
Proof.
  intros (H0 & Hl & ->)%vfill_Ok.
  rewrite length_app, length_take, length_replicate. lia.
Qed.

Lemma u32_range (x : Z) : 0 <= u32 x < 2 ^ 32.
Proof. unfold u32. apply Z.mod_pos_bound. lia. Qed.

Lemma u16_range (x : Z) : 0 <= u16 x < 2 ^ 16.
Proof. unfold u16. apply Z.mod_pos_bound. lia. Qed.

Lemma u8_range (x : Z) : 0 <= u8 x < 2 ^ 8.
Proof. unfold u8. apply Z.mod_pos_bound. lia. Qed.

Lemma u32_id (x : Z) : 0 <= x < 2 ^ 32 -> u32 x = x.
Proof. intros H. unfold u32. apply Z.mod_small. exact H. Qed.

Lemma u16_id (x : Z) : 0 <= x < 2 ^ 16 -> u16 x = x.
Proof. intros H. unfold u16. apply Z.mod_small. exact H. Qed.

Lemma u8_id (x : Z) : 0 <= x < 2 ^ 8 -> u8 x = x.
Proof. intros H. unfold u8. apply Z.mod_small. exact H. Qed.

Lemma u8_le (x : Z) : 0 <= x -> u8 x <= x.
Proof. intros H. unfold u8. apply Z.mod_le; lia. Qed.

(** ** Sums over vectors *)

Section Sums.

Lemma sumZ_app (l1 l2 : list Z) : sumZ (l1 ++ l2) = sumZ l1 + sumZ l2.
Proof. induction l1 as [|x l1 IH]; simpl; lia. Qed.

Lemma sumZ_nonneg (l : list Z) : Forall (fun o => 0 <= o) l -> 0 <= sumZ l.
Proof. induction 1; simpl; lia. Qed.

Lemma sumZ_replicate_0 (n : nat) : sumZ (replicate n 0) = 0.
Proof. induction n; simpl; lia. Qed.

Lemma sumZ_take_drop (k : nat) (l : list Z) :
  sumZ l = sumZ (take k l) + sumZ (drop k l).
Proof. rewrite <- sumZ_app, take_drop. reflexivity. Qed.

Lemma sumZ_insert (l : list Z) :
  forall (i : nat) (x y : Z),
    l !! i = Some x -> sumZ (<[i := y]> l) = sumZ l - x + y.
Proof.
  induction l as [|a l IH]; intros [|i] x y H; simpl in *; try discriminate.
  - injection H as ->. lia.
  - rewrite (IH i x y H). lia.
Qed.

Lemma sumZ_drop_S (l : list Z) (k : nat) (x : Z) :
  l !! k = Some x -> sumZ (drop k l) = x + sumZ (drop (S k) l).
Proof. intros H. rewrite (drop_S l x k H). reflexivity. Qed.

Lemma sumZ_drop_insert_ge (l : list Z) (k i : nat) (x y : Z) :
  (k <= i)%nat -> l !! i = Some x ->
  sumZ (drop k (<[i := y]> l)) = sumZ (drop k l) - x + y.
Proof.
  intros Hk H. rewrite drop_insert_ge by exact Hk.
  apply sumZ_insert. rewrite lookup_drop.
  replace (k + (i - k))%nat with i by lia. exact H.
Qed.

Lemma sumZ_drop_insert_lt (l : list Z) (k i : nat) (y : Z) :
  (i < k)%nat -> sumZ (drop k (<[i := y]> l)) = sumZ (drop k l).
Proof. intros Hk. rewrite drop_insert_lt by exact Hk. reflexivity. Qed.

Lemma lookup_le_sumZ (l : list Z) (i : nat) (x : Z) :
  Forall (fun o => 0 <= o) l -> l !! i = Some x -> 0 <= x <= sumZ l.
Proof.
  intros Hl. revert i. induction Hl as [|a l Ha Hl IH]; intros [|i] H;
    simpl in *; try discriminate.
  - injection H as ->. pose proof (sumZ_nonneg l Hl). lia.
  - specialize (IH i H). lia.
Qed.

Lemma lookup_le_sumZ_drop (l : list Z) (k i : nat) (x : Z) :
  Forall (fun o => 0 <= o) l -> (k <= i)%nat -> l !! i = Some x ->
  0 <= x <= sumZ (drop k l).
Proof.
  intros Hl Hk H. apply (lookup_le_sumZ (drop k l) (i - k)).
  - apply Forall_drop. exact Hl.
  - rewrite lookup_drop. replace (k + (i - k))%nat with i by lia. exact H.
Qed.

Lemma sumZ_zero (l : list Z) :
  (forall i x, l !! i = Some x -> x = 0) -> sumZ l = 0.
Proof.
  induction l as [|a l IH]; intros H; simpl; [reflexivity|].
  rewrite (H 0%nat a eq_refl), IH; [reflexivity|].
  intros i x Hi. exact (H (S i) x Hi).
Qed.

Lemma sumZ_drop_zero (l : list Z) (k : nat) :
  (forall i x, (k <= i)%nat -> l !! i = Some x -> x = 0) -> sumZ (drop k l) = 0.
Proof.
  intros H. apply sumZ_zero. intros i x Hi. rewrite lookup_drop in Hi.
  apply (H (k + i)%nat x); [lia | exact Hi].
Qed.

End Sums.

(** ** Reading and writing inside a vector *)

Section VectorAccess.

Context {A : Type}.

Lemma vget_in (v : list A) (i : Z) (x : A) :
  0 <= i -> v !! Z.to_nat i = Some x -> vget v i = Ok x.
Proof. intros H0 H. apply vget_Ok. auto. Qed.

Lemma vset_in (v : list A) (i : Z) (x : A) :
  0 <= i < Z.of_nat (length v) -> vset v i x = Ok (<[Z.to_nat i := x]> v).
Proof. intros H. apply vset_Ok. repeat split; lia. Qed.

Lemma lookup_in (v : list A) (i : Z) :
  0 <= i < Z.of_nat (length v) -> exists x, v !! Z.to_nat i = Some x.
Proof. intros H. apply lookup_lt_is_Some_2. lia. Qed.

Lemma vfill_in (v : list A) (from : Z) (x : A) :
  0 <= from <= Z.of_nat (length v) ->
  vfill v from x = Ok (take (Z.to_nat from) v ++ replicate (length v - Z.to_nat from) x).
Proof. intros H. apply vfill_Ok. repeat split; lia. Qed.

End VectorAccess.

(** ** The bitstream: [Get] is [Peek] followed by [Consume] *)

Section Bitstream.

Lemma Ingest_loop_modulus (inp : list Z) :
  forall sr_ m lsb_ bs',
    0 <= m < 2 ^ 32 ->
    Ingest_loop inp sr_ m lsb_ = Ok bs' ->
    modulus_in_range bs' /\ 0x800000 < srModulus bs'.
Proof.
  induction inp as [|b rest IH]; intros sr_ m lsb_ bs' Hm; simpl;
    destruct (Z.leb_spec m 0x800000) as [Hle|Hgt]; try discriminate.
  - intros H. injection H as <-. unfold modulus_in_range. simpl. lia.
  - apply IH. apply u32_range.
  - intros H. injection H as <-. unfold modulus_in_range. simpl. lia.
Qed.

Lemma Ingest_modulus (bs bs' : Oodle1Bitstream.t) :
  modulus_in_range bs -> Ingest bs = Ok bs' ->
  modulus_in_range bs' /\ 0x800000 < srModulus bs'.
Proof. unfold Ingest. intros Hm. apply Ingest_loop_modulus. exact Hm. Qed.

Lemma quotient_in_range (m one : Z) :
  0 <= m < 2 ^ 32 -> 1 <= one -> 0 <= m / one < 2 ^ 32.
Proof.
  intros Hm Hone. split.
  - apply Z.div_pos; lia.
  - apply Z.le_lt_trans with m; [|lia]. apply Z.div_le_upper_bound; nia.
Qed.

(** C8.  On every bitstream state (with [srModulus] a 32-bit value) and
    for every denominator [1 <= one < 2^32], [Get one] gives exactly the
    outcome of [Peek one] followed by [Consume z 1 one] for the [z] that
    [Peek] returned: the same [z] and the same final state (shift
    register, modulus, pending bit and cursor), and the same fault when
    one of them faults.  Moreover the modulus that [Get] leaves is
    [M - z * scale] when [z = one - 1] (top slot) and [scale] otherwise,
    where [M] is the modulus after [Ingest] and [scale = M / one]. *)
Theorem Get_is_Peek_then_Consume (one : Z) (bs : Oodle1Bitstream.t) :
  modulus_in_range bs ->
  1 <= one < 2 ^ 32 ->
  Get one bs =
    (let* (z, bs1) := Peek one bs in
     let* bs2 := Consume z 1 one bs1 in
     Ok (z, bs2))
  /\ (forall z bs', Get one bs = Ok (z, bs') ->
      exists bs1, Ingest bs = Ok bs1 /\
        let scale := srModulus bs1 / one in
        srModulus bs' =
          if z =? one - 1 then u32 (srModulus bs1 - u32 (z * scale)) else scale).
Proof.
  intros Hm Hone.
  assert (Hone1 : u32 (one - 1) = one - 1) by (apply u32_id; lia).
  split.
  - unfold Get, Peek. destruct (Ingest bs) as [bs1| |] eqn:Hi; simpl; try reflexivity.
    destruct (Ingest_modulus _ _ Hm Hi) as [Hm1 _].
    destruct (udiv (srModulus bs1) one) as [scale| |] eqn:Hs; simpl; try reflexivity.
    destruct (udiv (sr bs1) scale) as [q| |] eqn:Hq; simpl; try reflexivity.
    unfold Consume. rewrite Hs. simpl.
    apply udiv_Ok in Hs as [_ ->].
    replace (1 * (srModulus bs1 / one)) with (srModulus bs1 / one) by lia.
    rewrite (u32_id (srModulus bs1 / one))
      by (apply quotient_in_range; [exact Hm1 | lia]).
    destruct (Z.min q (u32 (one - 1)) <? u32 (one - 1)); reflexivity.
  - intros z bs'. unfold Get.
    destruct (Ingest bs) as [bs1| |] eqn:Hi; simpl; try discriminate.
    destruct (udiv (srModulus bs1) one) as [scale| |] eqn:Hs; simpl; try discriminate.
    destruct (udiv (sr bs1) scale) as [q| |] eqn:Hq; simpl; try discriminate.
    apply udiv_Ok in Hs as [_ ->]. rewrite Hone1.
    intros H. exists bs1. split; [reflexivity|].
    destruct (Z.ltb_spec (Z.min q (one - 1)) (one - 1)) as [Hlt|Hge];
      injection H as <- <-; simpl.
    + destruct (Z.eqb_spec (Z.min q (one - 1)) (one - 1)); [lia | reflexivity].
    + destruct (Z.eqb_spec (Z.min q (one - 1)) (one - 1)); [reflexivity | lia].
Qed.

End Bitstream.

Lemma Get_is_Peek_then_Consume_witness :
  modulus_in_range sample_bitstream /\ 1 <= 65 < 2 ^ 32 /\
  (Get 65 sample_bitstream =
     (let* (z, bs1) := Peek 65 sample_bitstream in
      let* bs2 := Consume z 1 65 bs1 in
      Ok (z, bs2))
   /\ (forall z bs', Get 65 sample_bitstream = Ok (z, bs') ->
       exists bs1, Ingest sample_bitstream = Ok bs1 /\
         let scale := srModulus bs1 / 65 in
         srModulus bs' =
           if z =? 65 - 1 then u32 (srModulus bs1 - u32 (z * scale)) else scale)).
Proof.
  assert (H1 : modulus_in_range sample_bitstream)
    by (unfold modulus_in_range; simpl; lia).
  assert (H2 : 1 <= 65 < 2 ^ 32) by lia.
  split; [exact H1|]. split; [exact H2|].
  exact (Get_is_Peek_then_Consume 65 sample_bitstream H1 H2).
Defined.

(** ** The decoder: [Initialize] *)

Section DecoderInitialize.

Lemma resize_lookup_0 (n : nat) (v : list Z) :
  (0 < n)%nat -> is_Some (resize n 0 v !! 0%nat).
Proof. intros Hn. apply lookup_lt_is_Some. rewrite length_resize. exact Hn. Qed.

(** C9 (amended).  Whenever the vectors get at least one element
    ([alphabetSize + 2] does not wrap to 0), [Initialize] returns and
    leaves [occurrences[0] = 4], [totalOccurrence = 4], [NRW = 8] and
    [RRI = 4]; it keeps [HLS] and [HLSN] as they were, so these are 0
    when the decoder is a freshly constructed one. *)
Theorem Initialize_postcondition (alphabetSize uniqueSymbols : Z) (d : Oodle1Decoder.t) :
  u32 (alphabetSize + 2) <> 0 ->
  exists d',
    Initialize alphabetSize uniqueSymbols d = Ok d' /\
    symbolOccurrences d' !! 0%nat = Some 4 /\
    totalOccurrence d' = 4 /\
    nextRenormWeight d' = 8 /\
    rapidRenormInterval d' = 4 /\
    highestLearnedSymbol d' = highestLearnedSymbol d /\
    highestNormalizedSymbol d' = highestNormalizedSymbol d /\
    (d = fresh -> highestLearnedSymbol d' = 0 /\ highestNormalizedSymbol d' = 0).
Proof.
  intros Hn.
  pose proof (u32_range (alphabetSize + 2)) as Hr.
  set (n := Z.to_nat (u32 (alphabetSize + 2))).
  assert (Hpos : (0 < n)%nat) by (unfold n; lia).
  unfold Initialize. fold n.
  unfold vset at 1. simpl (0 <? 0).  cbv iota.
  rewrite length_replicate, length_resize.
  destruct (Nat.ltb_spec (Z.to_nat 0) n) as [_|Hbad]; [|simpl in Hbad; lia].
  simpl bind.
  unfold vset at 1. simpl (0 <? 0). cbv iota.
  rewrite length_resize.
  destruct (Nat.ltb_spec (Z.to_nat 0) n) as [_|Hbad]; [|simpl in Hbad; lia].
  simpl bind.
  assert (Hl : <[Z.to_nat 0 := 4]> (resize n 0 (symbolOccurrences d)) !! 0%nat = Some 4).
  { apply list_lookup_insert_eq. rewrite length_resize. exact Hpos. }
  unfold vget. simpl (0 <? 0). cbv iota.
  change (Z.to_nat 0) with 0%nat in *. rewrite Hl. simpl bind.
  eexists. split; [reflexivity|]. simpl.
  split; [exact Hl|]. repeat (split; [reflexivity|]).
  intros ->. split; reflexivity.
Qed.

Lemma Initialize_postcondition_witness :
  u32 (65 + 2) <> 0 /\
  exists d',
    Initialize 65 3 fresh = Ok d' /\
    symbolOccurrences d' !! 0%nat = Some 4 /\
    totalOccurrence d' = 4 /\
    nextRenormWeight d' = 8 /\
    rapidRenormInterval d' = 4 /\
    highestLearnedSymbol d' = highestLearnedSymbol fresh /\
    highestNormalizedSymbol d' = highestNormalizedSymbol fresh /\
    (fresh = fresh -> highestLearnedSymbol d' = 0 /\ highestNormalizedSymbol d' = 0).
Proof.
  assert (H : u32 (65 + 2) <> 0) by (vm_compute; discriminate).
  split; [exact H|].
  exact (Initialize_postcondition 65 3 fresh H).
Defined.

(** C9, as stated, fails on a decoder that has decoded symbols: one
    [Decode] on a fresh decoder for 65 symbols learns a symbol
    ([HLS = 1]), and a second [Initialize] leaves [HLS = 1]. *)
Lemma Initialize_again_keeps_HLS :
  (let* d0 := Initialize 65 3 fresh in
   let* (_, _, d1) := Decode sample_bitstream 65 d0 in
   let* d2 := Initialize 65 3 d1 in
   Ok (highestLearnedSymbol d1, highestLearnedSymbol d2,
       totalOccurrence d2, take 3 (symbolOccurrences d2)))
  = Ok (1, 1, 4, [4; 2; 0]).
Proof. vm_compute. reflexivity. Qed.

End DecoderInitialize.

(** ** The driver: repeat lengths *)

Section RepeatLengths.

Import Oodle1Decompressor.

Lemma RepeatLengthTable_closed_form :
  forallb (fun c => match RepeatLengthTable !! Z.to_nat c with
                    | Some len => len =? repeat_length c
                    | None => false
                    end) (seqZ 1 64) = true.
Proof. vm_compute. reflexivity. Qed.

Lemma RepeatLengthTable_lookup (lenCode : Z) :
  1 <= lenCode <= 64 -> vget RepeatLengthTable lenCode = Ok (repeat_length lenCode).
Proof.
  intros Hc.
  pose proof RepeatLengthTable_closed_form as H.
  rewrite forallb_forall in H.
  specialize (H lenCode).
  assert (Hin : In lenCode (seqZ 1 64)).
  { apply list_elem_of_In, elem_of_seqZ. lia. }
  specialize (H Hin).
  apply vget_Ok. split; [lia|].
  destruct (RepeatLengthTable !! Z.to_nat lenCode) as [len|]; [|discriminate].
  apply Z.eqb_eq in H. congruence.
Qed.

(** C1 (amended).  For every length code in 1..64 the entry of
    [RepeatLengthTable] - which is the length that the back-reference
    path of [Decompress] uses and returns - is [lenCode + 1] for the codes
    1..60 (lengths 2..61) and 128, 192, 256, 512 for the codes 61, 62,
    63, 64. *)
Theorem RepeatLengthTable_mapping (lenCode : Z) :
  1 <= lenCode <= 64 ->
  vget RepeatLengthTable lenCode = Ok (repeat_length lenCode) /\
  (forall bs D len offset bs' D',
      Decompress_backref lenCode bs D = Ok (len, offset, bs', D') ->
      len = repeat_length lenCode) /\
  (lenCode <= 60 -> repeat_length lenCode = lenCode + 1) /\
  (60 < lenCode ->
   repeat_length lenCode = nth (Z.to_nat (lenCode - 61)) [128; 192; 256; 512] 0).
Proof.
  intros Hc. pose proof (RepeatLengthTable_lookup lenCode Hc) as Hl.
  split; [exact Hl|]. split; [|split].
  - intros bs D len offset bs' D' H. unfold Decompress_backref in H.
    rewrite Hl in H. simpl in H.
    repeat (apply bind_Ok in H as ([[? ?] ?] & _ & H)).
    apply bind_Ok in H as (? & _ & H).
    apply bind_Ok in H as ([[? ?] ?] & _ & H).
    apply bind_Ok in H as (? & _ & H).
    injection H as <- _ _ _. reflexivity.
  - intros Hle. unfold repeat_length.
    destruct (Z.leb_spec lenCode 60); [reflexivity | lia].
  - intros Hgt. unfold repeat_length.
    destruct (Z.leb_spec lenCode 60) as [|_]; [lia|].
    assert (Hcases : lenCode = 61 \/ lenCode = 62 \/ lenCode = 63 \/ lenCode = 64) by lia.
    destruct Hcases as [-> | [-> | [-> | ->]]]; reflexivity.
Qed.

Lemma RepeatLengthTable_mapping_witness :
  1 <= 61 <= 64 /\ vget RepeatLengthTable 61 = Ok 128.
Proof.
  assert (H : 1 <= 61 <= 64) by lia.
  split; [exact H|].
  exact (proj1 (RepeatLengthTable_mapping 61 H)).
Defined.

(** C1, as stated, fails at the code 61: the table gives 128 there, not
    62, and the codes 62, 63, 64 give 192, 256, 512. *)
Lemma RepeatLengthTable_code_61 :
  vget RepeatLengthTable 61 = Ok 128 /\ 128 <> 61 + 1 /\
  vget RepeatLengthTable 62 = Ok 192 /\
  vget RepeatLengthTable 63 = Ok 256 /\
  vget RepeatLengthTable 64 = Ok 512.
Proof. repeat split; try reflexivity. lia. Qed.

End RepeatLengths.

(** ** The decoder: the eviction loop of [Decay] *)

Section Eviction.

Lemma Decay_evict_in (idx oh sh : Z) (d : Oodle1Decoder.t) :
  0 <= idx < Z.of_nat (length (symbolOccurrences d)) ->
  0 <= idx < Z.of_nat (length (symbols d)) ->
  0 <= highestLearnedSymbol d ->
  symbolOccurrences d !! Z.to_nat (highestLearnedSymbol d) = Some oh ->
  symbols d !! Z.to_nat (highestLearnedSymbol d) = Some sh ->
  Decay_evict idx d =
    Ok (set_highestLearnedSymbol
          (set_symbols
             (set_symbolOccurrences d
                (<[Z.to_nat (highestLearnedSymbol d) := 0]>
                   (<[Z.to_nat idx := oh]> (symbolOccurrences d))))
             (<[Z.to_nat idx := sh]> (symbols d)))
          (u32 (highestLearnedSymbol d - 1))).
Proof.
  intros Hio His Hh Hoh Hsh.
  pose proof (lookup_lt_Some _ _ _ Hoh) as Hlo.
  unfold Decay_evict.
  rewrite (vget_in _ _ _ Hh Hoh). simpl.
  rewrite (vset_in _ idx oh Hio). simpl.
  rewrite (vset_in _ (highestLearnedSymbol d) 0) by (rewrite length_insert; lia).
  simpl.
  rewrite (vget_in _ _ _ Hh Hsh). simpl.
  rewrite (vset_in _ idx sh His). reflexivity.
Qed.

Lemma Decay_while_eq (fuel : nat) (idx : Z) (d : Oodle1Decoder.t) :
  Decay_while fuel idx d =
    (let* o := vget (symbolOccurrences d) idx in
     if o <=? 1 then
       if idx >=? highestLearnedSymbol d then
         let* occ1 := vset (symbolOccurrences d) idx 0 in
         Ok (set_highestLearnedSymbol (set_symbolOccurrences d occ1)
               (u32 (highestLearnedSymbol d - 1)))
       else
         match fuel with
         | O => OutOfFuel
         | S fuel' => let* d1 := Decay_evict idx d in Decay_while fuel' idx d1
         end
     else Ok d).
Proof. destruct fuel; reflexivity. Qed.

(** C4 (amended).  In the eviction loop of [Decay], for a slot [idx] with
    [1 <= idx < HLS] whose occurrence is at most 1 (both slots lying
    inside the vectors), one round of the loop is [Decay_evict]: slot
    [idx] receives the occurrence and the symbol of slot [HLS], the
    occurrence of slot [HLS] becomes 0 while its symbol stays, and [HLS]
    is decremented; the loop then goes round again at the same [idx].
    The former occurrence and symbol of slot [idx] are not kept. *)
Theorem Decay_evict_moves_top_slot (fuel : nat) (idx o oh sh : Z) (d : Oodle1Decoder.t) :
  1 <= idx < highestLearnedSymbol d ->
  highestLearnedSymbol d < 2 ^ 32 ->
  symbolOccurrences d !! Z.to_nat idx = Some o ->
  o <= 1 ->
  symbolOccurrences d !! Z.to_nat (highestLearnedSymbol d) = Some oh ->
  symbols d !! Z.to_nat (highestLearnedSymbol d) = Some sh ->
  exists d1,
    Decay_evict idx d = Ok d1 /\
    Decay_while (S fuel) idx d = Decay_while fuel idx d1 /\
    symbolOccurrences d1 !! Z.to_nat idx = Some oh /\
    symbols d1 !! Z.to_nat idx = Some sh /\
    symbolOccurrences d1 !! Z.to_nat (highestLearnedSymbol d) = Some 0 /\
    symbols d1 !! Z.to_nat (highestLearnedSymbol d) = Some sh /\
    highestLearnedSymbol d1 = highestLearnedSymbol d - 1.
Proof.
  intros Hidx Hhls Ho Hle Hoh Hsh.
  pose proof (lookup_lt_Some _ _ _ Hoh) as Hlo.
  pose proof (lookup_lt_Some _ _ _ Hsh) as Hls.
  assert (Hev := Decay_evict_in idx oh sh d).
  rewrite Decay_while_eq, (vget_in _ idx o) by (lia || exact Ho). simpl.
  destruct (Z.leb_spec o 1) as [_|]; [|lia].
  destruct (Z.geb_spec idx (highestLearnedSymbol d)) as [|_]; [lia|].
  rewrite Hev by (lia || assumption).
  eexists. split; [reflexivity|]. split; [reflexivity|]. simpl.
  repeat split.
  - rewrite list_lookup_insert_ne by lia.
    apply list_lookup_insert_eq. lia.
  - apply list_lookup_insert_eq. lia.
  - apply list_lookup_insert_eq. rewrite length_insert. lia.
  - rewrite list_lookup_insert_ne by lia. exact Hsh.
  - apply u32_id. lia.
Qed.

Lemma Decay_evict_moves_top_slot_witness :
  exists d1,
    Decay_evict 1 decoder_with_stale_slot = Ok d1 /\
    Decay_while 3 1 decoder_with_stale_slot = Decay_while 2 1 d1 /\
    symbolOccurrences d1 !! 1%nat = Some 204 /\
    symbols d1 !! 1%nat = Some 0 /\
    symbolOccurrences d1 !! 3%nat = Some 0 /\
    symbols d1 !! 3%nat = Some 0 /\
    highestLearnedSymbol d1 = 2.
Proof.
  refine (Decay_evict_moves_top_slot 2 1 1 204 0 decoder_with_stale_slot _ _ _ _ _ _).
  - simpl. lia.
  - simpl. lia.
  - reflexivity.
  - lia.
  - reflexivity.
  - reflexivity.
Defined.

(** C4, as stated, fails.  When [Decay] runs on [decoder_with_stale_slot]
    it halves [occurrences[0]] and enters its loop at slot 1, which holds
    occurrence 1 and symbol 1, below the top slot 3 with occurrence 204
    and symbol 0.  After the round of the eviction loop, slot 3 holds
    occurrence 0 and symbol 0, not slot 1's former 1 and 1; and [Decay] as
    a whole keeps neither that occurrence nor the symbol 1. *)
Lemma Decay_evict_is_not_a_swap :
  (let d := decoder_with_stale_slot in
   let* o0 := vget (symbolOccurrences d) 0 in
   let* occ1 := vset (symbolOccurrences d) 0 (u16 (o0 / 2)) in
   let d1 := set_totalOccurrence (set_symbolOccurrences d occ1) (u16 (o0 / 2)) in
   let* o := vget (symbolOccurrences d1) 1 in
   let* s := vget (symbols d1) 1 in
   let* d2 := Decay_evict 1 d1 in
   let* d3 := Decay_while (Z.to_nat (highestLearnedSymbol d1)) 1 d1 in
   let* d' := Decay d in
   Ok (o, s, highestLearnedSymbol d1,
       symbolOccurrences d2, symbols d2, highestLearnedSymbol d2,
       symbolOccurrences d3, symbols d3,
       symbolOccurrences d', symbols d'))
  = Ok (1, 1, 3,
        [0; 204; 51; 0; 0; 0], [0; 0; 2; 0; 0; 0], 2,
        [0; 204; 51; 0; 0; 0], [0; 0; 2; 0; 0; 0],
        [0; 25; 102; 0; 0; 0], [0; 2; 0; 0; 0; 0]).
Proof. vm_compute. reflexivity. Qed.

End Eviction.

(** ** The driver: [Initialize] and the 65th length decoder *)

Section DriverInitialize.

Import Oodle1Decompressor.

Lemma Decoder_Initialize_usedSymbolCount (a u : Z) (d d' : Oodle1Decoder.t) :
  Oodle1Decoder.Initialize a u d = Ok d' -> usedSymbolCount d' = u.
Proof.
  unfold Oodle1Decoder.Initialize. intros H.
  apply bind_Ok in H as (w & _ & H).
  apply bind_Ok in H as (o & _ & H).
  apply bind_Ok in H as (o0 & _ & H).
  injection H as <-. reflexivity.
Qed.

(** A loop whose body updates the first component by [f], whatever it
    does to the second, applies [f] once per iteration. *)
Lemma for_each_counter {S : Type} (f : Z -> Z) (inner : Z -> Z -> S -> result S)
      (idxs : list Z) :
  forall r s r' s',
    for_each idxs (fun i '(r, s) => let* s1 := inner i r s in Ok (f r, s1)) (r, s)
      = Ok (r', s') ->
    r' = Nat.iter (length idxs) f r.
Proof.
  induction idxs as [|i rest IH]; intros r s r' s' H; simpl in H.
  - injection H as <- _. reflexivity.
  - apply bind_Ok in H as ([r1 s1] & Hb & H).
    apply bind_Ok in Hb as (s2 & _ & Hb). injection Hb as <- <-.
    apply IH in H. rewrite H.
    change (length (i :: rest)) with (Datatypes.S (length rest)).
    rewrite Nat.iter_succ_r. reflexivity.
Qed.

Lemma shift_byte_wrap (r k : Z) :
  0 <= k ->
  u32 (Z.shiftl ((r * 2 ^ k) mod 2 ^ 32) 8) = (r * 2 ^ (k + 8)) mod 2 ^ 32.
Proof.
  intros Hk. unfold u32. rewrite Z.shiftl_mul_pow2 by lia.
  rewrite Z.mul_mod_idemp_l by lia.
  rewrite <- Z.mul_assoc, <- Z.pow_add_r by lia. reflexivity.
Qed.

Lemma four_shifts_clear (h : Z) :
  Nat.iter 4 (fun r => u32 (Z.shiftl r 8)) h = 0.
Proof.
  change (Nat.iter 4 (fun r => u32 (Z.shiftl r 8)) h)
    with (u32 (Z.shiftl (u32 (Z.shiftl (u32 (Z.shiftl (u32 (Z.shiftl h 8)) 8)) 8)) 8)).
  assert (H1 : u32 (Z.shiftl h 8) = (h * 2 ^ 8) mod 2 ^ 32).
  { unfold u32. rewrite Z.shiftl_mul_pow2 by lia. reflexivity. }
  rewrite H1, !shift_byte_wrap by lia.
  change (8 + 8 + 8 + 8) with 32.
  apply Z.mod_mul. lia.
Qed.

(** C2 (what the code does).  For every header triple, [Initialize]
    gives the 65th length decoder [lenDecoders[64]] the unique-symbol
    count 0, whatever [header[2]] is: by the time it is initialized
    [repLens] has been shifted left by 8 four times, once at the end of
    each of the four groups. *)
Theorem Initialize_lenDecoders_64 (header : list Z) (D D' : Oodle1Decompressor.t) :
  Initialize header D = Ok D' ->
  exists decoder,
    lenDecoders D' !! 64%nat = Some decoder /\ usedSymbolCount decoder = 0.
Proof.
  unfold Initialize. intros H.
  apply bind_Ok in H as (h0 & _ & H).
  apply bind_Ok in H as (h1 & _ & H).
  apply bind_Ok in H as (h2 & _ & H).
  apply bind_Ok in H as (lit & _ & H).
  apply bind_Ok in H as (len & Hlen & H).
  apply bind_Ok in H as (off1 & _ & H).
  apply bind_Ok in H as (off4 & _ & H).
  apply bind_Ok in H as (off1024 & _ & H).
  injection H as <-. simpl.
  unfold Initialize_lenDecoders in Hlen.
  apply bind_Ok in Hlen as ([repLens ds] & Hloop & Hlen).
  apply bind_Ok in Hlen as (decoder & _ & Hlen).
  apply bind_Ok in Hlen as (decoder' & Hinit & Hlen).
  apply vset_Ok in Hlen as (_ & Hlt & ->).
  exists decoder'. split.
  - apply list_lookup_insert_eq. exact Hlt.
  - apply Decoder_Initialize_usedSymbolCount in Hinit. rewrite Hinit.
    apply (for_each_counter (fun r => u32 (Z.shiftl r 8))
             (fun groupIdx repLens ds =>
                for_each (seqZ 0 16)
                  (fun decoderIdx ds =>
                     let i := u32 (u32 (groupIdx * 16) + decoderIdx) in
                     let* decoder := vget ds i in
                     let* decoder' :=
                       Oodle1Decoder.Initialize 65 (Z.shiftr repLens 24) decoder in
                     vset ds i decoder') ds)) in Hloop.
    change (length (seqZ 0 4)) with 4%nat in Hloop.
    rewrite four_shifts_clear in Hloop. subst repLens. reflexivity.
Qed.

Lemma Initialize_lenDecoders_64_witness :
  Initialize sample_header fresh = Ok sample_decompressor /\
  exists decoder,
    lenDecoders sample_decompressor !! 64%nat = Some decoder /\
    usedSymbolCount decoder = 0.
Proof.
  assert (H0 : Initialize sample_header fresh = Ok sample_decompressor)
    by (vm_compute; reflexivity).
  split; [exact H0|].
  exact (Initialize_lenDecoders_64 sample_header fresh sample_decompressor H0).
Defined.

(** C2 at a header whose [header[2]] is [0x01020304]: the byte that three
    left-shifts expose is 4; the decoders 48..63 get the count 4, the
    65th gets 0. *)
Lemma Initialize_sample_header_lenDecoders :
  (let* h2 := vget sample_header 2 in
   let* D := Initialize sample_header fresh in
   let* d63 := vget (lenDecoders D) 63 in
   let* d64 := vget (lenDecoders D) 64 in
   Ok (Z.shiftr (u32 (Z.shiftl h2 24)) 24, usedSymbolCount d63, usedSymbolCount d64))
  = Ok (4, 4, 0).
Proof. vm_compute. reflexivity. Qed.

End DriverInitialize.

(** ** The driver: back-references are copied unchecked *)

Section BackReferences.

Import Oodle1Decompressor.

Example sample_bitstream_made :
  make [0x12; 0x34; 0x56; 0x78; 0x9a; 0xbc; 0xde; 0xf0] = Ok sample_bitstream.
Proof. reflexivity. Qed.

Lemma Repeat_loop_in_bounds (n : nat) :
  forall mem output input,
    0 <= input -> 0 <= output ->
    input + Z.of_nat n <= Z.of_nat (length mem) ->
    output + Z.of_nat n <= Z.of_nat (length mem) ->
    exists mem', Repeat_loop n mem output input = Ok mem' /\ length mem' = length mem.
Proof.
  induction n as [|n IH]; intros mem output input Hi Ho Hil Hol; simpl.
  - exists mem. auto.
  - destruct (lookup_lt_is_Some_2 mem (Z.to_nat input)) as [b Hb]; [lia|].
    rewrite (proj2 (vget_Ok mem input b)) by auto. simpl.
    rewrite (proj2 (vset_Ok mem output b _))
      by (split; [lia | split; [lia | reflexivity]]).
    simpl.
    assert (Hex : exists mem',
               Repeat_loop n (<[Z.to_nat output := b]> mem) (output + 1) (input + 1)
                 = Ok mem' /\
               length mem' = length (<[Z.to_nat output := b]> mem))
      by (apply IH; rewrite ?length_insert; lia).
    destruct Hex as (mem' & Hr & Hlen).
    exists mem'. split; [exact Hr|]. rewrite Hlen. apply length_insert.
Qed.

Lemma RepeatLengthTable_nonneg : Forall (fun len => 0 <= len) RepeatLengthTable.
Proof. unfold RepeatLengthTable. repeat (constructor; [lia|]). constructor. Qed.

Lemma Decompress_backref_ranges lenCode bs D len offset bs' D' :
  Decompress_backref lenCode bs D = Ok (len, offset, bs', D') ->
  0 <= len /\ 0 <= offset < 2 ^ 32.
Proof.
  unfold Decompress_backref. intros H.
  apply bind_Ok in H as (len0 & Hl & H).
  apply bind_Ok in H as ([[r1 bs1] d1] & _ & H).
  apply bind_Ok in H as ([[off1k bs2] d2] & _ & H).
  apply bind_Ok in H as (decoder & _ & H).
  apply bind_Ok in H as ([[off4 bs3] d3] & _ & H).
  apply bind_Ok in H as (off4s & _ & H).
  injection H as <- <- _ _. split; [|apply u32_range].
  apply vget_Ok in Hl as [_ Hl].
  exact (Forall_lookup_1 _ _ _ _ RepeatLengthTable_nonneg Hl).
Qed.

(** C3 (amended).  [Decompress] validates no back-reference and has no
    error to report: once a non-zero length code and then a length and an
    offset have been decoded, its outcome is that of the forward copy
    [Repeat] from [output - offset], and it returns the length - whatever
    the relation of the offset to [bytesOutput].  When the bytes
    [output - offset ..] and [output .. output + len] lie inside the
    caller's buffer, the copy is performed and [Decompress] returns. *)
Theorem Decompress_backref_is_unchecked
    (bs bs1 bs2 : Oodle1Bitstream.t) (D D1 D2 : Oodle1Decompressor.t)
    (mem : list Z) (output lenCode len offset : Z) :
  Decompress_lenCode bs D = Ok (lenCode, bs1, D1) ->
  lenCode <> 0 ->
  Decompress_backref lenCode bs1 D1 = Ok (len, offset, bs2, D2) ->
  Decompress bs D mem output =
    (let* mem' := Repeat mem output offset len in Ok (len, bs2, D2, mem'))
  /\ (0 <= output - offset ->
      output + len <= Z.of_nat (length mem) ->
      exists mem',
        Repeat mem output offset len = Ok mem' /\
        Decompress bs D mem output = Ok (len, bs2, D2, mem')).
Proof.
  intros Hlen Hnz Hback.
  assert (Heq : Decompress bs D mem output =
    (let* mem' := Repeat mem output offset len in Ok (len, bs2, D2, mem'))).
  { unfold Decompress. rewrite Hlen. simpl.
    destruct (Z.eqb_spec lenCode 0) as [|_]; [contradiction|].
    rewrite Hback. reflexivity. }
  split; [exact Heq|].
  intros Hin Hout.
  pose proof (Decompress_backref_ranges _ _ _ _ _ _ _ Hback) as [Hlen0 Hoff].
  assert (Hex : exists mem',
             Repeat_loop (Z.to_nat len) mem output (output - offset) = Ok mem' /\
             length mem' = length mem)
    by (apply Repeat_loop_in_bounds; lia).
  destruct Hex as (mem' & Hr & _).
  exists mem'. split; [exact Hr|].
  rewrite Heq. unfold Repeat. rewrite Hr. reflexivity.
Qed.

(** C3, as stated, fails.  On a decompressor just initialized
    ([bytesOutput = 0]) the first token of the sample bitstream is a
    back-reference with length code 4 (length 5) and offset 1, which
    exceeds [bytesOutput]; [Decompress] returns 5 and has copied the byte
    before the output position five times. *)
Lemma Decompress_copies_from_before_the_stream :
  (let* D := Initialize sample_header fresh in
   let* (lenCode, bs1, D1) := Decompress_lenCode sample_bitstream D in
   let* (len, offset, _, _) := Decompress_backref lenCode bs1 D1 in
   let* (n, _, D', mem') := Decompress sample_bitstream D sample_buffer 4 in
   Ok (lenCode, len, offset, bytesOutput D, offset >? bytesOutput D, n, mem'))
  = Ok (4, 5, 1, 0, true, 5,
        [0xAA; 0xBB; 0xCC; 0xDD; 0xDD; 0xDD; 0xDD; 0xDD; 0xDD; 0; 0; 0]).
Proof. vm_compute. reflexivity. Qed.

Lemma Decompress_backref_is_unchecked_witness :
  let bs1 := snd (fst sample_after_lenCode) in
  let D1 := snd sample_after_lenCode in
  let bs2 := snd (fst sample_after_backref) in
  let D2 := snd sample_after_backref in
  Initialize sample_header fresh = Ok sample_decompressor /\
  Decompress_lenCode sample_bitstream sample_decompressor = Ok (4, bs1, D1) /\
  4 <> 0 /\
  Decompress_backref 4 bs1 D1 = Ok (5, 1, bs2, D2) /\
  0 <= 4 - 1 /\
  4 + 5 <= Z.of_nat (length sample_buffer) /\
  exists mem',
    Repeat sample_buffer 4 1 5 = Ok mem' /\
    Decompress sample_bitstream sample_decompressor sample_buffer 4
      = Ok (5, bs2, D2, mem').
Proof.
  intros bs1 D1 bs2 D2.
  assert (H0 : Initialize sample_header fresh = Ok sample_decompressor)
    by (vm_compute; reflexivity).
  assert (H1 : Decompress_lenCode sample_bitstream sample_decompressor = Ok (4, bs1, D1))
    by (vm_compute; reflexivity).
  assert (Hnz : 4 <> 0) by lia.
  assert (H2 : Decompress_backref 4 bs1 D1 = Ok (5, 1, bs2, D2))
    by (vm_compute; reflexivity).
  assert (Hin : 0 <= 4 - 1) by lia.
  assert (Hout : 4 + 5 <= Z.of_nat (length sample_buffer)) by (simpl; lia).
  repeat (split; [assumption|]).
  exact (proj2 (Decompress_backref_is_unchecked
                  sample_bitstream bs1 bs2 sample_decompressor D1 D2
                  sample_buffer 4 4 5 1 H1 Hnz H2) Hin Hout).
Defined.

End BackReferences.


(** ** The decoder: [Decay] returns and keeps the occurrence table sound *)

Section DecayInvariant.

Lemma decay_frame_refl (d : Oodle1Decoder.t) : decay_frame d d.
Proof. unfold decay_frame, same_frame. repeat split; lia. Qed.

Lemma decay_frame_trans (d1 d2 d3 : Oodle1Decoder.t) :
  decay_frame d1 d2 -> decay_frame d2 d3 -> decay_frame d1 d3.
Proof.
  unfold decay_frame, same_frame.
  intros ((?&?&?&?&?&?)&?&?&?&?) ((?&?&?&?&?&?)&?&?&?&?).
  repeat split; try congruence; lia.
Qed.

Lemma half_bounds (o : Z) : 0 <= o -> 0 <= o / 2 /\ 2 * (o / 2) <= o.
Proof.
  intros Ho. split.
  - apply Z.div_pos; lia.
  - apply Z.mul_div_le. lia.
Qed.

Lemma decay_inv_break (T0 idx o : Z) (d : Oodle1Decoder.t) :
  decay_inv T0 idx d ->
  idx = highestLearnedSymbol d ->
  symbolOccurrences d !! Z.to_nat idx = Some o ->
  decay_inv T0 idx
    (set_highestLearnedSymbol
       (set_symbolOccurrences d (<[Z.to_nat idx := 0]> (symbolOccurrences d)))
       (idx - 1)).
Proof.
  intros [Hls Hlw H32 Hhls Hnn Htail Hsum Hhalf Htot Hidx] Heq Ho.
  pose proof (lookup_le_sumZ_drop _ (Z.to_nat idx) _ _ Hnn (Nat.le_refl _) Ho) as Hob.
  constructor; simpl; rewrite ?length_insert; try assumption; try lia.
  - apply Forall_insert; [assumption | lia].
  - intros i o' Hi Hl.
    apply list_lookup_insert_Some in Hl as [(_ & <- & _)|(Hne & Hl)]; [reflexivity|].
    apply (Htail i o'); [lia | exact Hl].
  - rewrite (sumZ_insert _ _ o 0 Ho).
    rewrite (sumZ_drop_insert_ge _ _ _ o 0 (Nat.le_refl _) Ho). lia.
  - rewrite (sumZ_drop_insert_ge _ _ _ o 0 (Nat.le_refl _) Ho). lia.
Qed.

Lemma decay_inv_evict (T0 idx o oh : Z) (sym : list Z) (d : Oodle1Decoder.t) :
  decay_inv T0 idx d ->
  idx < highestLearnedSymbol d ->
  symbolOccurrences d !! Z.to_nat idx = Some o ->
  symbolOccurrences d !! Z.to_nat (highestLearnedSymbol d) = Some oh ->
  length sym = length (symbols d) ->
  decay_inv T0 idx
    (set_highestLearnedSymbol
       (set_symbols
          (set_symbolOccurrences d
             (<[Z.to_nat (highestLearnedSymbol d) := 0]>
                (<[Z.to_nat idx := oh]> (symbolOccurrences d))))
          sym)
       (highestLearnedSymbol d - 1)).
Proof.
  intros [Hls Hlw H32 Hhls Hnn Htail Hsum Hhalf Htot Hidx] Hlt Ho Hoh Hsym.
  set (hls := highestLearnedSymbol d) in *.
  assert (Hk : (Z.to_nat idx <= Z.to_nat hls)%nat) by lia.
  pose proof (lookup_le_sumZ_drop _ (Z.to_nat idx) _ _ Hnn (Nat.le_refl _) Ho) as Hob.
  pose proof (lookup_le_sumZ _ _ _ Hnn Hoh) as Hohb.
  assert (Hoh1 : <[Z.to_nat idx := oh]> (symbolOccurrences d) !! Z.to_nat hls = Some oh).
  { rewrite list_lookup_insert_ne by lia. exact Hoh. }
  constructor; simpl; rewrite ?length_insert; try assumption; try lia.
  - repeat apply Forall_insert; try assumption; lia.
  - intros i o' Hi Hl.
    apply list_lookup_insert_Some in Hl as [(_ & <- & _)|(Hne & Hl)]; [reflexivity|].
    rewrite list_lookup_insert_ne in Hl by lia.
    apply (Htail i o'); [lia | exact Hl].
  - rewrite (sumZ_insert _ _ oh 0 Hoh1), (sumZ_insert _ _ o oh Ho).
    rewrite (sumZ_drop_insert_ge _ _ _ oh 0 Hk Hoh1).
    rewrite (sumZ_drop_insert_ge _ _ _ o oh (Nat.le_refl _) Ho). lia.
  - rewrite (sumZ_drop_insert_ge _ _ _ oh 0 Hk Hoh1).
    rewrite (sumZ_drop_insert_ge _ _ _ o oh (Nat.le_refl _) Ho). lia.
Qed.

Lemma decay_inv_halve (T0 idx o : Z) (d : Oodle1Decoder.t) :
  decay_inv T0 idx d ->
  idx <= highestLearnedSymbol d ->
  symbolOccurrences d !! Z.to_nat idx = Some o ->
  decay_inv T0 (idx + 1)
    (set_totalOccurrence
       (set_symbolOccurrences d (<[Z.to_nat idx := o / 2]> (symbolOccurrences d)))
       (totalOccurrence d + o / 2)).
Proof.
  intros [Hls Hlw H32 Hhls Hnn Htail Hsum Hhalf Htot Hidx] Hle Ho.
  pose proof (lookup_le_sumZ _ _ _ Hnn Ho) as Hob.
  destruct (half_bounds o) as [Hh0 Hh1]; [lia|].
  pose proof (sumZ_drop_S _ _ _ Ho) as HD.
  assert (Hn : Z.to_nat (idx + 1) = S (Z.to_nat idx)) by lia.
  constructor; simpl; rewrite ?Hn, ?length_insert; try assumption; try lia.
  - apply Forall_insert; assumption.
  - intros i o' Hi Hl.
    rewrite list_lookup_insert_ne in Hl by lia.
    apply (Htail i o'); [lia | exact Hl].
  - rewrite (sumZ_insert _ _ o (o / 2) Ho).
    rewrite sumZ_drop_insert_lt by lia. lia.
  - rewrite sumZ_drop_insert_lt by lia. lia.
Qed.

(** One test of the [while] condition: either the loop is left, or a round
    of eviction is made. *)
Lemma Decay_while_step (T0 idx : Z) (d : Oodle1Decoder.t) :
  decay_inv T0 idx d ->
  idx <= highestLearnedSymbol d ->
  (exists d1 o,
      (forall fuel, Decay_while fuel idx d = Ok d1) /\
      decay_inv T0 idx d1 /\ decay_frame d d1 /\
      totalOccurrence d1 = totalOccurrence d /\
      symbolOccurrences d1 !! Z.to_nat idx = Some o /\
      ((1 < o /\ idx <= highestLearnedSymbol d1) \/
       (o = 0 /\ highestLearnedSymbol d1 = idx - 1)))
  \/
  (idx < highestLearnedSymbol d /\
   exists d1,
     Decay_while 0 idx d = OutOfFuel /\
     (forall fuel, Decay_while (S fuel) idx d = Decay_while fuel idx d1) /\
     decay_inv T0 idx d1 /\ decay_frame d d1 /\
     totalOccurrence d1 = totalOccurrence d /\
     highestLearnedSymbol d1 = highestLearnedSymbol d - 1).
Proof.
  intros Hinv Hle.
  pose proof Hinv as [Hls Hlw H32 Hhls Hnn Htail Hsum Hhalf Htot Hidx].
  destruct (lookup_in (symbolOccurrences d) idx) as [o Ho]; [lia|].
  destruct (Z.leb_spec o 1) as [Ho1|Ho1].
  - destruct (Z.geb_spec idx (highestLearnedSymbol d)) as [Hge|Hlt].
    + left.
      exists (set_highestLearnedSymbol
                (set_symbolOccurrences d (<[Z.to_nat idx := 0]> (symbolOccurrences d)))
                (idx - 1)), 0.
      split; [|split; [|split; [|split; [|split]]]].
      * intros fuel. rewrite Decay_while_eq, (vget_in _ idx o) by (lia || exact Ho).
        simpl. destruct (Z.leb_spec o 1) as [_|]; [|lia].
        destruct (Z.geb_spec idx (highestLearnedSymbol d)) as [_|]; [|lia].
        rewrite vset_in by lia. simpl.
        replace (highestLearnedSymbol d) with idx by lia.
        rewrite u32_id by lia. reflexivity.
      * apply (decay_inv_break T0 idx o d Hinv); [lia | exact Ho].
      * unfold decay_frame, same_frame. simpl. rewrite length_insert.
        repeat split; lia.
      * reflexivity.
      * simpl. apply list_lookup_insert_eq. lia.
      * right. simpl. split; reflexivity.
    + right. split; [lia|].
      destruct (lookup_in (symbolOccurrences d) (highestLearnedSymbol d)) as [oh Hoh];
        [lia|].
      destruct (lookup_in (symbols d) (highestLearnedSymbol d)) as [sh Hsh]; [lia|].
      pose proof (Decay_evict_in idx oh sh d) as Hev.
      rewrite u32_id in Hev by lia.
      eexists. split; [|split; [|split; [|split; [|split]]]].
      * rewrite Decay_while_eq, (vget_in _ idx o) by (lia || exact Ho).
        simpl. destruct (Z.leb_spec o 1) as [_|]; [|lia].
        destruct (Z.geb_spec idx (highestLearnedSymbol d)) as [|_]; [lia|].
        reflexivity.
      * intros fuel. rewrite Decay_while_eq, (vget_in _ idx o) by (lia || exact Ho).
        simpl. destruct (Z.leb_spec o 1) as [_|]; [|lia].
        destruct (Z.geb_spec idx (highestLearnedSymbol d)) as [|_]; [lia|].
        rewrite Hev by (lia || assumption). reflexivity.
      * apply (decay_inv_evict T0 idx o oh _ d Hinv); try assumption; try lia.
        apply length_insert.
      * unfold decay_frame, same_frame. simpl. rewrite !length_insert.
        repeat split; lia.
      * reflexivity.
      * reflexivity.
  - left. exists d, o.
    split; [|split; [|split; [|split; [|split]]]].
    + intros fuel. rewrite Decay_while_eq, (vget_in _ idx o) by (lia || exact Ho).
      simpl. destruct (Z.leb_spec o 1) as [|_]; [lia|]. reflexivity.
    + exact Hinv.
    + apply decay_frame_refl.
    + reflexivity.
    + exact Ho.
    + left. lia.
Qed.

Lemma Decay_while_total (T0 : Z) (fuel : nat) :
  forall (idx : Z) (d : Oodle1Decoder.t),
    decay_inv T0 idx d ->
    idx <= highestLearnedSymbol d ->
    (Z.to_nat (highestLearnedSymbol d - idx) <= fuel)%nat ->
    exists d1 o,
      Decay_while fuel idx d = Ok d1 /\
      decay_inv T0 idx d1 /\ decay_frame d d1 /\
      totalOccurrence d1 = totalOccurrence d /\
      symbolOccurrences d1 !! Z.to_nat idx = Some o /\
      ((1 < o /\ idx <= highestLearnedSymbol d1) \/
       (o = 0 /\ highestLearnedSymbol d1 = idx - 1)).
Proof.
  induction fuel as [|fuel IH]; intros idx d Hinv Hle Hfuel;
    destruct (Decay_while_step T0 idx d Hinv Hle)
      as [(d1 & o & Hrun & Hpost)|(Hlt & d1 & Hrun0 & Hrun & Hinv1 & Hfr & Htot & Hhls)].
  - exists d1, o. split; [apply Hrun | exact Hpost].
  - lia.
  - exists d1, o. split; [apply Hrun | exact Hpost].
  - destruct (IH idx d1 Hinv1) as (d2 & o & Hrun2 & Hinv2 & Hfr2 & Htot2 & Hpost);
      [lia | lia |].
    exists d2, o. split; [rewrite Hrun; exact Hrun2|].
    split; [exact Hinv2|]. split; [exact (decay_frame_trans _ _ _ Hfr Hfr2)|].
    split; [congruence | exact Hpost].
Qed.

Lemma Decay_for_eq (fuel : nat) (idx hw hi : Z) (d : Oodle1Decoder.t) :
  Decay_for fuel idx hw hi d =
    if idx <=? highestLearnedSymbol d then
      match fuel with
      | O => OutOfFuel
      | S fuel' =>
          let* d1 := Decay_while (Z.to_nat (highestLearnedSymbol d)) idx d in
          let* o := vget (symbolOccurrences d1) idx in
          if o =? 0 then Ok (hw, hi, d1)
          else
            let o2 := u16 (o / 2) in
            let* occ1 := vset (symbolOccurrences d1) idx o2 in
            let d2 := set_totalOccurrence (set_symbolOccurrences d1 occ1)
                        (u32 (totalOccurrence d1 + o2)) in
            if o2 >? hw
            then Decay_for fuel' (u32 (idx + 1)) o2 idx d2
            else Decay_for fuel' (u32 (idx + 1)) hw hi d2
      end
    else Ok (hw, hi, d).
Proof. destruct fuel; reflexivity. Qed.

Lemma Decay_for_total (T0 : Z) (fuel : nat) :
  T0 < 2 ^ 16 ->
  forall (idx hw hi : Z) (d : Oodle1Decoder.t),
    decay_inv T0 idx d ->
    0 <= hi < idx ->
    (Z.to_nat (highestLearnedSymbol d + 1 - idx) <= fuel)%nat ->
    exists hw' hi' d2,
      Decay_for fuel idx hw hi d = Ok (hw', hi', d2) /\
      decay_inv T0 (highestLearnedSymbol d2 + 1) d2 /\
      decay_frame d d2 /\
      0 <= hi' <= highestLearnedSymbol d2.
Proof.
  intros HT0.
  induction fuel as [|fuel IH]; intros idx hw hi d Hinv Hhi Hfuel;
    rewrite Decay_for_eq;
    pose proof Hinv as [Hls Hlw H32 Hhls Hnn Htail Hsum Hhalf Htot Hidx];
    destruct (Z.leb_spec idx (highestLearnedSymbol d)) as [Hle|Hgt].
  - lia.
  - exists hw, hi, d. split; [reflexivity|].
    replace (highestLearnedSymbol d + 1) with idx by lia.
    split; [exact Hinv|]. split; [apply decay_frame_refl | lia].
  - destruct (Decay_while_total T0 (Z.to_nat (highestLearnedSymbol d)) idx d Hinv Hle)
      as (d1 & o & Hrun & Hinv1 & Hfr1 & Htot1 & Ho & Hcase); [lia|].
    rewrite Hrun. simpl.
    rewrite (vget_in _ idx o) by (lia || exact Ho). simpl.
    pose proof Hinv1 as [Hls1 Hlw1 H321 Hhls1 Hnn1 Htail1 Hsum1 Hhalf1 Htotal1 Hidx1].
    destruct Hcase as [[Hgt1 Hle1] | [-> Hh]].
    + destruct (Z.eqb_spec o 0) as [|_]; [lia|].
      pose proof (lookup_le_sumZ_drop _ (Z.to_nat idx) _ _ Hnn1 (Nat.le_refl _) Ho) as Hob.
      destruct (half_bounds o) as [Hh0 Hh1]; [lia|].
      rewrite (u16_id (o / 2)) by lia.
      rewrite vset_in by lia. simpl.
      rewrite (u32_id (totalOccurrence d1 + o / 2)) by lia.
      rewrite (u32_id (idx + 1)) by lia.
      pose proof (decay_inv_halve T0 idx o d1 Hinv1 Hle1 Ho) as Hinv2.
      set (d2 := set_totalOccurrence
                   (set_symbolOccurrences d1 (<[Z.to_nat idx := o / 2]> (symbolOccurrences d1)))
                   (totalOccurrence d1 + o / 2)) in *.
      assert (Hfr2 : decay_frame d d2).
      { apply (decay_frame_trans _ _ _ Hfr1).
        unfold decay_frame, same_frame, d2. simpl. rewrite length_insert.
        repeat split; lia. }
      assert (Hfuel2 : (Z.to_nat (highestLearnedSymbol d2 + 1 - (idx + 1)) <= fuel)%nat).
      { destruct Hfr1 as (_ & _ & _ & _ & Hdown). unfold d2. simpl. lia. }
      destruct (o / 2 >? hw).
      * destruct (IH (idx + 1) (o / 2) idx d2 Hinv2) as (hw' & hi' & d3 & Hr & Hi3 & Hf3 & Hh3);
          [lia | exact Hfuel2 |].
        exists hw', hi', d3. split; [exact Hr|]. split; [exact Hi3|].
        split; [exact (decay_frame_trans _ _ _ Hfr2 Hf3) | exact Hh3].
      * destruct (IH (idx + 1) hw hi d2 Hinv2) as (hw' & hi' & d3 & Hr & Hi3 & Hf3 & Hh3);
          [lia | exact Hfuel2 |].
        exists hw', hi', d3. split; [exact Hr|]. split; [exact Hi3|].
        split; [exact (decay_frame_trans _ _ _ Hfr2 Hf3) | exact Hh3].
    + simpl. exists hw, hi, d1. split; [reflexivity|].
      replace (highestLearnedSymbol d1 + 1) with idx by lia.
      split; [exact Hinv1|]. split; [exact Hfr1 | lia].
  - exists hw, hi, d. split; [reflexivity|].
    replace (highestLearnedSymbol d + 1) with idx by lia.
    split; [exact Hinv|]. split; [apply decay_frame_refl | lia].
Qed.

(** At the end of the loops nothing is left to visit. *)
Lemma decay_inv_final (T0 : Z) (d : Oodle1Decoder.t) :
  decay_inv T0 (highestLearnedSymbol d + 1) d ->
  occurrences_ok d /\ 2 * totalOccurrence d <= T0.
Proof.
  intros [Hls Hlw H32 Hhls Hnn Htail Hsum Hhalf Htot Hidx].
  assert (Hz : sumZ (drop (Z.to_nat (highestLearnedSymbol d + 1)) (symbolOccurrences d)) = 0).
  { apply sumZ_drop_zero. intros i x Hi Hx.
    apply (Htail (Z.of_nat i) x); [lia|]. rewrite Nat2Z.id. exact Hx. }
  rewrite Hz in *. split; [|lia].
  constructor; try assumption. lia.
Qed.

Lemma vswap_in (v : list Z) (i j x y : Z) :
  0 <= i -> 0 <= j ->
  v !! Z.to_nat i = Some x -> v !! Z.to_nat j = Some y ->
  vswap v i j = Ok (<[Z.to_nat j := x]> (<[Z.to_nat i := y]> v)).
Proof.
  intros Hi Hj Hx Hy.
  pose proof (lookup_lt_Some _ _ _ Hx). pose proof (lookup_lt_Some _ _ _ Hy).
  unfold vswap. rewrite (vget_in _ _ _ Hi Hx). simpl.
  rewrite (vget_in _ _ _ Hj Hy). simpl.
  rewrite vset_in by lia. simpl.
  rewrite vset_in by (rewrite length_insert; lia). reflexivity.
Qed.

Lemma Decay_raise_highest_total (hw hi : Z) (d : Oodle1Decoder.t) :
  occurrences_ok d ->
  0 <= hi <= highestLearnedSymbol d ->
  exists d',
    Decay_raise_highest hw hi d = Ok d' /\
    occurrences_ok d' /\ decay_frame d d' /\
    totalOccurrence d' = totalOccurrence d.
Proof.
  intros Hok Hhi. pose proof Hok as [Hls Hlw H32 Hhls Hnn Htail Htot].
  unfold Decay_raise_highest.
  destruct (negb (hw =? 0) && negb (hi =? highestLearnedSymbol d)) eqn:Hc.
  - apply andb_prop in Hc as [_ Hne]. apply negb_true_iff, Z.eqb_neq in Hne.
    set (hls := highestLearnedSymbol d) in *.
    destruct (lookup_in (symbolOccurrences d) hls) as [x Hx]; [lia|].
    destruct (lookup_in (symbolOccurrences d) hi) as [y Hy]; [lia|].
    destruct (lookup_in (symbols d) hls) as [sx Hsx]; [lia|].
    destruct (lookup_in (symbols d) hi) as [sy Hsy]; [lia|].
    rewrite (vswap_in _ hls hi x y) by (lia || assumption). simpl.
    rewrite (vswap_in _ hls hi sx sy) by (lia || assumption). simpl.
    eexists. split; [reflexivity|].
    assert (Hy1 : <[Z.to_nat hls := y]> (symbolOccurrences d) !! Z.to_nat hi = Some y).
    { rewrite list_lookup_insert_ne by lia. exact Hy. }
    pose proof (lookup_le_sumZ _ _ _ Hnn Hx). pose proof (lookup_le_sumZ _ _ _ Hnn Hy).
    split; [|split].
    + constructor; simpl; rewrite ?length_insert; try assumption; try lia.
      * repeat apply Forall_insert; try assumption; lia.
      * intros i o Hi Hl. fold hls in Hi.
        rewrite !list_lookup_insert_ne in Hl by lia.
        apply (Htail i o); [exact Hi | exact Hl].
      * rewrite (sumZ_insert _ _ y x Hy1), (sumZ_insert _ _ x y Hx). lia.
    + unfold decay_frame, same_frame. simpl. rewrite !length_insert.
      repeat split; lia.
    + reflexivity.
  - exists d. split; [reflexivity|]. split; [exact Hok|].
    split; [apply decay_frame_refl | reflexivity].
Qed.

Lemma Decay_keep_escape_total (d : Oodle1Decoder.t) :
  occurrences_ok d ->
  totalOccurrence d + 1 < 2 ^ 32 ->
  exists d',
    Decay_keep_escape d = Ok d' /\
    occurrences_ok d' /\ decay_frame d d' /\
    totalOccurrence d <= totalOccurrence d' <= totalOccurrence d + 1.
Proof.
  intros Hok Hbound. pose proof Hok as [Hls Hlw H32 Hhls Hnn Htail Htot].
  pose proof (sumZ_nonneg _ Hnn) as Hs.
  unfold Decay_keep_escape.
  destruct (negb (highestLearnedSymbol d =? usedSymbolCount d)).
  - destruct (lookup_in (symbolOccurrences d) 0) as [e He]; [lia|].
    rewrite (vget_in _ 0 e) by (lia || exact He). simpl.
    destruct (Z.eqb_spec e 0) as [->|Hne].
    + rewrite vset_in by lia. simpl. rewrite u32_id by lia.
      eexists. split; [reflexivity|]. split; [|split].
      * constructor; simpl; rewrite ?length_insert; try assumption; try lia.
        -- apply Forall_insert; [assumption | lia].
        -- intros i o Hi Hl. rewrite list_lookup_insert_ne in Hl by lia.
           apply (Htail i o); [exact Hi | exact Hl].
        -- rewrite (sumZ_insert _ _ 0 1 He). lia.
      * unfold decay_frame, same_frame. simpl. rewrite !length_insert.
        repeat split; lia.
      * simpl. lia.
    + exists d. split; [reflexivity|]. split; [exact Hok|].
      split; [apply decay_frame_refl | lia].
  - exists d. split; [reflexivity|]. split; [exact Hok|].
    split; [apply decay_frame_refl | lia].
Qed.

Lemma occurrences_ok_set_symbolWeights (d : Oodle1Decoder.t) (w : list Z) :
  occurrences_ok d -> length w = length (symbolWeights d) ->
  occurrences_ok (set_symbolWeights d w).
Proof.
  intros [Hls Hlw H32 Hhls Hnn Htail Htot] Hw.
  constructor; simpl; try assumption. congruence.
Qed.

(** [Decay] returns on every decoder whose occurrence table is sound, and
    leaves it sound, with [HLS] not raised and [totalOccurrence] at most
    half of what it was, plus one. *)
Lemma Decay_total (d : Oodle1Decoder.t) :
  occurrences_ok d ->
  totalOccurrence d < 2 ^ 16 ->
  exists d',
    Decay d = Ok d' /\
    occurrences_ok d' /\ decay_frame d d' /\
    2 * totalOccurrence d' <= totalOccurrence d + 2.
Proof.
  intros Hok HT. pose proof Hok as [Hls Hlw H32 Hhls Hnn Htail Htot].
  pose proof (sumZ_nonneg _ Hnn) as Hs.
  unfold Decay.
  destruct (lookup_in (symbolOccurrences d) 0) as [o0 Ho0]; [lia|].
  pose proof (lookup_le_sumZ _ _ _ Hnn Ho0) as Hob.
  destruct (half_bounds o0) as [Hh0 Hh1]; [lia|].
  rewrite (vget_in _ 0 o0) by (lia || exact Ho0). simpl.
  rewrite (u16_id (o0 / 2)) by lia.
  rewrite vset_in by lia. simpl.
  set (d1 := set_totalOccurrence
               (set_symbolOccurrences d (<[Z.to_nat 0 := o0 / 2]> (symbolOccurrences d)))
               (o0 / 2)).
  assert (Hinv1 : decay_inv (totalOccurrence d) 1 d1).
  { pose proof (sumZ_drop_S _ _ _ Ho0) as HD. change (drop (Z.to_nat 0)) with (@drop Z 0) in HD.
    rewrite drop_0 in HD.
    unfold d1. change (Z.to_nat 0) with 0%nat in *. change (Z.to_nat 1) with 1%nat.
    constructor; simpl; change (Z.to_nat 1) with 1%nat;
      rewrite ?length_insert; try assumption; try lia.
    - apply Forall_insert; [assumption | lia].
    - intros i o Hi Hl. rewrite list_lookup_insert_ne in Hl by lia.
      apply (Htail i o); [exact Hi | exact Hl].
    - rewrite (sumZ_insert _ _ o0 (o0 / 2) Ho0).
      rewrite sumZ_drop_insert_lt by lia. lia.
    - rewrite sumZ_drop_insert_lt by lia. lia. }
  assert (Hfr1 : decay_frame d d1).
  { unfold decay_frame, same_frame, d1. simpl. rewrite length_insert.
    repeat split; lia. }
  destruct (Decay_for_total (totalOccurrence d) (Z.to_nat (highestLearnedSymbol d1)) HT
              1 0 0 d1 Hinv1) as (hw & hi & d2 & Hrun & Hinv2 & Hfr2 & Hhi);
    [lia | lia |].
  change (highestLearnedSymbol d1) with (highestLearnedSymbol d) in Hrun.
  rewrite Hrun. simpl.
  destruct (decay_inv_final _ _ Hinv2) as [Hok2 Hhalf2].
  destruct (Decay_raise_highest_total hw hi d2 Hok2 Hhi) as (d3 & Hr3 & Hok3 & Hfr3 & Ht3).
  rewrite Hr3. simpl.
  destruct (Decay_keep_escape_total d3 Hok3) as (d4 & Hr4 & Hok4 & Hfr4 & Ht4); [lia|].
  rewrite Hr4. simpl.
  pose proof Hok4 as [Hls4 Hlw4 H324 Hhls4 _ _ _].
  rewrite vfill_in by lia. simpl.
  eexists. split; [reflexivity|]. split; [|split].
  - apply occurrences_ok_set_symbolWeights; [exact Hok4|].
    rewrite length_app, length_take, length_replicate. lia.
  - apply (decay_frame_trans _ _ _ Hfr1), (decay_frame_trans _ _ _ Hfr2),
      (decay_frame_trans _ _ _ Hfr3), (decay_frame_trans _ _ _ Hfr4).
    unfold decay_frame, same_frame. simpl.
    rewrite length_app, length_take, length_replicate.
    repeat split; lia.
  - simpl. lia.
Qed.

End DecayInvariant.

(** ** The decoder: [Renormalize] rebuilds a sorted weight table *)

Section RenormalizeInvariant.

Lemma Renormalize_for_eq (fuel : nat) (idx acc quanta : Z) (d : Oodle1Decoder.t) :
  Renormalize_for fuel idx acc quanta d =
    if idx <=? highestLearnedSymbol d then
      match fuel with
      | O => OutOfFuel
      | S fuel' =>
          let* w := vset (symbolWeights d) idx (u16 acc) in
          let* o := vget (symbolOccurrences d) idx in
          Renormalize_for fuel' (u32 (idx + 1))
            (u32 (acc + u32 (o * quanta) / 8)) quanta (set_symbolWeights d w)
      end
    else Ok d.
Proof. destruct fuel; reflexivity. Qed.

Lemma renorm_inv_step (quanta idx acc o : Z) (d : Oodle1Decoder.t) :
  0 <= quanta ->
  occurrences_ok d ->
  renorm_inv quanta idx acc d ->
  1 <= idx <= highestLearnedSymbol d ->
  symbolOccurrences d !! Z.to_nat idx = Some o ->
  0 <= o * quanta <= 0x20000 /\
  0 <= acc <= 0x4000 /\
  renorm_inv quanta (idx + 1) (acc + o * quanta / 8)
    (set_symbolWeights d (<[Z.to_nat idx := acc]> (symbolWeights d))).
Proof.
  intros Hq Hok [Hacc Hbud Hbelow Hsorted] Hidx Ho.
  pose proof Hok as [Hls Hlw H32 Hhls Hnn Htail Htot].
  pose proof (lookup_le_sumZ_drop _ (Z.to_nat idx) _ _ Hnn (Nat.le_refl _) Ho) as Hob.
  pose proof (sumZ_drop_S _ _ _ Ho) as HD.
  assert (Hn : Z.to_nat (idx + 1) = S (Z.to_nat idx)) by lia.
  assert (Hrest : 0 <= sumZ (drop (S (Z.to_nat idx)) (symbolOccurrences d))).
  { apply sumZ_nonneg, Forall_drop. exact Hnn. }
  rewrite HD in Hbud.
  assert (Hoq : 0 <= o * quanta) by nia.
  assert (Hrq : 0 <= quanta * sumZ (drop (S (Z.to_nat idx)) (symbolOccurrences d))) by nia.
  assert (Hdiv : 0 <= o * quanta / 8 /\ 8 * (o * quanta / 8) <= o * quanta).
  { split; [apply Z.div_pos; lia | apply Z.mul_div_le; lia]. }
  split; [lia|]. split; [lia|].
  constructor; simpl; rewrite ?Hn.
  - lia.
  - lia.
  - intros j x Hj Hl.
    apply list_lookup_insert_Some in Hl as [(_ & <- & _)|(Hne & Hl)]; [lia|].
    assert (Hlt : 0 <= j < idx) by lia.
    specialize (Hbelow j x Hlt Hl). lia.
  - intros j x y Hj0 Hj Hx Hy.
    rewrite list_lookup_insert_ne in Hx by lia.
    apply list_lookup_insert_Some in Hy as [(_ & <- & _)|(Hne & Hy)].
    + assert (Hlt : 0 <= j < idx) by lia.
      specialize (Hbelow j x Hlt Hx). lia.
    + apply (Hsorted j x y); [lia | lia | exact Hx | exact Hy].
Qed.

Lemma Renormalize_for_total (quanta : Z) (fuel : nat) :
  0 <= quanta ->
  forall (idx acc : Z) (d : Oodle1Decoder.t),
    occurrences_ok d ->
    renorm_inv quanta idx acc d ->
    1 <= idx <= highestLearnedSymbol d + 1 ->
    (Z.to_nat (highestLearnedSymbol d + 1 - idx) <= fuel)%nat ->
    exists w acc',
      Renormalize_for fuel idx acc quanta d = Ok (set_symbolWeights d w) /\
      length w = length (symbolWeights d) /\
      renorm_inv quanta (highestLearnedSymbol d + 1) acc' (set_symbolWeights d w).
Proof.
  intros Hq.
  induction fuel as [|fuel IH]; intros idx acc d Hok Hinv Hidx Hfuel;
    rewrite Renormalize_for_eq;
    destruct (Z.leb_spec idx (highestLearnedSymbol d)) as [Hle|Hgt].
  - lia.
  - exists (symbolWeights d), acc. destruct d; simpl in *.
    replace (highestLearnedSymbol0 + 1) with idx by lia. auto.
  - pose proof Hok as [Hls Hlw H32 Hhls Hnn Htail Htot].
    destruct (lookup_in (symbolOccurrences d) idx) as [o Ho]; [lia|].
    destruct (renorm_inv_step quanta idx acc o d Hq Hok Hinv) as (Hoq & Hacc & Hinv');
      [lia | exact Ho |].
    assert (Hdiv : 0 <= o * quanta / 8 <= 0x4000).
    { split; [apply Z.div_pos; lia|]. apply Z.div_le_upper_bound; lia. }
    rewrite (u16_id acc) by lia.
    rewrite vset_in by lia. simpl.
    rewrite (vget_in _ idx o) by (lia || exact Ho). simpl.
    rewrite (u32_id (o * quanta)) by lia.
    rewrite (u32_id (acc + _)) by lia.
    rewrite (u32_id (idx + 1)) by lia.
    set (d1 := set_symbolWeights d (<[Z.to_nat idx := acc]> (symbolWeights d))) in *.
    assert (Hok1 : occurrences_ok d1).
    { apply occurrences_ok_set_symbolWeights; [exact Hok | apply length_insert]. }
    destruct (IH (idx + 1) (acc + o * quanta / 8) d1 Hok1 Hinv')
      as (w & acc' & Hrun & Hlen & Hfin); [unfold d1; simpl; lia | unfold d1; simpl; lia |].
    exists w, acc'. rewrite Hrun. unfold d1 in *. simpl in *.
    rewrite length_insert in Hlen. auto.
  - exists (symbolWeights d), acc. destruct d; simpl in *.
    replace (highestLearnedSymbol0 + 1) with idx by lia. auto.
Qed.

Lemma lookup_fill_lt (w : list Z) (k i : nat) (c : Z) :
  (i < k)%nat -> (k <= length w)%nat ->
  (take k w ++ replicate (length w - k) c) !! i = w !! i.
Proof.
  intros Hi Hk. rewrite lookup_app_l by (rewrite length_take; lia).
  apply lookup_take_lt. exact Hi.
Qed.

Lemma lookup_fill_ge (w : list Z) (k i : nat) (c x : Z) :
  (k <= i)%nat -> (k <= length w)%nat ->
  (take k w ++ replicate (length w - k) c) !! i = Some x -> x = c.
Proof.
  intros Hi Hk Hl. rewrite lookup_app_r in Hl by (rewrite length_take; lia).
  apply lookup_replicate in Hl as [-> _]. reflexivity.
Qed.

Lemma Renormalize_nonzero (d d' : Oodle1Decoder.t) :
  Renormalize d = Ok d' -> totalOccurrence d <> 0.
Proof.
  unfold Renormalize. intros H. apply bind_Ok in H as (q & Hq & _).
  apply udiv_Ok in Hq as [Hq _]. exact Hq.
Qed.

Lemma Renormalize_weights_ok (d' : Oodle1Decoder.t) (w : list Z) (acc hls : Z) :
  0 <= hls ->
  (Z.to_nat (hls + 1) <= length w)%nat ->
  acc <= 0x4000 ->
  (forall j x, 0 <= j < hls + 1 -> w !! Z.to_nat j = Some x -> 0 <= x <= acc) ->
  (forall j x y, 0 <= j -> j + 1 < hls + 1 ->
                 w !! Z.to_nat j = Some x -> w !! Z.to_nat (j + 1) = Some y -> x <= y) ->
  highestLearnedSymbol d' = hls ->
  highestNormalizedSymbol d' = hls ->
  symbolWeights d' =
    take (Z.to_nat (hls + 1)) w ++ replicate (length w - Z.to_nat (hls + 1)) One ->
  weights_ok d'.
Proof.
  intros Hh Hk Hacc Hbelow Hsorted Hhls Hhlsn Hw.
  constructor.
  - lia.
  - intros i x y Hi Hx Hy. rewrite Hw in Hx, Hy. rewrite Hhlsn in Hi.
    rewrite lookup_fill_lt in Hx by lia.
    destruct (Z.eq_dec i hls) as [->|Hne].
    + apply lookup_fill_ge in Hy; [|lia|lia]. subst y.
      assert (Hlt : 0 <= hls < hls + 1) by lia.
      specialize (Hbelow hls x Hlt Hx). unfold One. lia.
    + rewrite lookup_fill_lt in Hy by lia.
      apply (Hsorted i x y); [lia | lia | exact Hx | exact Hy].
  - intros i x Hi Hx. rewrite Hw in Hx. rewrite Hhlsn in Hi.
    apply lookup_fill_ge in Hx; [exact Hx | lia | lia].
Qed.

(** [Renormalize] returns on every decoder whose occurrence table is sound
    and not empty; it touches only the weights, [HLSN] and the schedule,
    and the weights come out sorted up to [HLSN + 1] and [ONE] above
    [HLSN]. *)
Lemma Renormalize_total (d : Oodle1Decoder.t) :
  occurrences_ok d ->
  0 < totalOccurrence d ->
  4 <= rapidRenormInterval d < renormInterval d ->
  128 <= renormInterval d <= 7548 ->
  totalOccurrence d < 2 ^ 16 ->
  exists d',
    Renormalize d = Ok d' /\
    occurrences_ok d' /\ weights_ok d' /\ same_frame d d' /\
    highestLearnedSymbol d' = highestLearnedSymbol d /\
    totalOccurrence d' = totalOccurrence d /\
    symbolOccurrences d' = symbolOccurrences d /\
    symbols d' = symbols d /\
    4 <= rapidRenormInterval d' < renormInterval d' /\
    totalOccurrence d + 8 <= nextRenormWeight d' <= totalOccurrence d + renormInterval d.
Proof.
  intros Hok Hpos Hrri Hri HT. pose proof Hok as [Hls Hlw H32 Hhls Hnn Htail Htot].
  unfold Renormalize. unfold udiv.
  destruct (Z.eqb_spec (totalOccurrence d) 0) as [|_]; [lia|]. simpl.
  set (quanta := 0x20000 / totalOccurrence d).
  assert (Hq : 0 <= quanta) by (apply Z.div_pos; lia).
  assert (Hqt : quanta * totalOccurrence d <= 0x20000).
  { rewrite Z.mul_comm. apply Z.mul_div_le. lia. }
  rewrite vset_in by lia. simpl.
  destruct (lookup_in (symbolOccurrences d) 0) as [o0 Ho0]; [lia|].
  pose proof (lookup_le_sumZ _ _ _ Hnn Ho0) as Hob.
  rewrite (vget_in _ 0 o0) by (lia || exact Ho0). simpl.
  pose proof (sumZ_drop_S _ _ _ Ho0) as HD.
  change (Z.to_nat 0) with 0%nat in *. rewrite drop_0 in HD.
  assert (Hrest : 0 <= sumZ (drop 1 (symbolOccurrences d))).
  { apply sumZ_nonneg, Forall_drop. exact Hnn. }
  assert (Hoq : 0 <= o0 * quanta <= 0x20000) by nia.
  assert (Hdiv : 0 <= o0 * quanta / 8 /\ 8 * (o0 * quanta / 8) <= o0 * quanta).
  { split; [apply Z.div_pos; lia | apply Z.mul_div_le; lia]. }
  rewrite (u32_id (o0 * quanta)) by lia.
  set (d0 := set_symbolWeights d (<[0%nat := 0]> (symbolWeights d))).
  assert (Hok0 : occurrences_ok d0).
  { apply occurrences_ok_set_symbolWeights; [exact Hok | apply length_insert]. }
  assert (Hinv0 : renorm_inv quanta 1 (o0 * quanta / 8) d0).
  { constructor; unfold d0; simpl; change (Z.to_nat 1) with 1%nat.
    - lia.
    - nia.
    - intros j x Hj Hl. replace (Z.to_nat j) with 0%nat in Hl by lia.
      rewrite list_lookup_insert_eq in Hl by lia. injection Hl as <-. lia.
    - intros j x y Hj0 Hj. lia. }
  destruct (Renormalize_for_total quanta (Z.to_nat (highestLearnedSymbol d)) Hq
              1 (o0 * quanta / 8) d0 Hok0 Hinv0) as (w & acc & Hrun & Hlen & Hfin);
    [unfold d0; simpl; lia | unfold d0; simpl; lia |].
  rewrite Hrun. simpl.
  destruct Hfin as [Hacc Hbud Hbelow Hsorted]. unfold d0 in *. simpl in *.
  rewrite length_insert in Hlen.
  assert (Hzero : sumZ (drop (Z.to_nat (highestLearnedSymbol d + 1)) (symbolOccurrences d)) = 0).
  { apply sumZ_drop_zero. intros i x Hi Hx.
    apply (Htail (Z.of_nat i) x); [lia|]. rewrite Nat2Z.id. exact Hx. }
  rewrite Hzero in Hbud.
  assert (Hk : (Z.to_nat (highestLearnedSymbol d + 1) <= length w)%nat) by lia.
  assert (Hlen' : length (take (Z.to_nat (highestLearnedSymbol d + 1)) w ++
                   replicate (length w - Z.to_nat (highestLearnedSymbol d + 1)) One)
                  = length w).
  { rewrite length_app, length_take, length_replicate. lia. }
  rewrite (u32_id (rapidRenormInterval d * 2)) by lia.
  destruct (Z.ltb_spec (rapidRenormInterval d * 2) (renormInterval d)) as [Hlt|Hge];
    [ rewrite (u32_id (totalOccurrence d + rapidRenormInterval d * 2)) by lia
    | rewrite (u32_id (totalOccurrence d + renormInterval d)) by lia ];
    (rewrite vfill_in by (simpl; lia)); simpl;
    (eexists; split; [reflexivity|]);
    (split; [|split; [|split]];
     [ constructor; simpl; try assumption; congruence
     | apply (Renormalize_weights_ok _ w acc (highestLearnedSymbol d));
         simpl; try reflexivity; try assumption; lia
     | unfold same_frame; simpl; rewrite Hlen'; repeat split; lia
     | simpl; repeat split; try reflexivity; lia ]).
Qed.

End RenormalizeInvariant.

(** ** The bitstream keeps its fields in range *)

Section BitstreamTyping.

Lemma lor_u32 (a b : Z) :
  0 <= a < 2 ^ 32 -> 0 <= b < 2 ^ 32 -> 0 <= Z.lor a b < 2 ^ 32.
Proof.
  intros Ha Hb. split; [apply Z.lor_nonneg; lia|].
  destruct (Z.eq_dec (Z.lor a b) 0) as [->|Hne]; [lia|].
  assert (Hpos : 0 < Z.lor a b).
  { assert (0 <= Z.lor a b) by (apply Z.lor_nonneg; lia). lia. }
  apply Z.log2_lt_pow2; [exact Hpos|].
  rewrite Z.log2_lor by lia.
  assert (Hla : Z.log2 a < 32).
  { destruct (Z.eq_dec a 0) as [->|]; [simpl; lia|]. apply Z.log2_lt_pow2; lia. }
  assert (Hlb : Z.log2 b < 32).
  { destruct (Z.eq_dec b 0) as [->|]; [simpl; lia|]. apply Z.log2_lt_pow2; lia. }
  lia.
Qed.

Lemma byte_halves (b : Z) :
  0 <= b < 2 ^ 8 -> 0 <= Z.shiftr b 1 < 2 ^ 32 /\ 0 <= Z.land b 1 <= 1.
Proof.
  intros Hb. rewrite Z.shiftr_div_pow2 by lia.
  change (Z.land b 1) with (Z.land b (Z.ones 1)). rewrite Z.land_ones by lia.
  pose proof (Z.mod_pos_bound b (2 ^ 1)). 
  assert (0 <= b / 2 ^ 1) by (apply Z.div_pos; lia).
  assert (b / 2 ^ 1 <= b) by (apply Z.div_le_upper_bound; lia).
  lia.
Qed.

Lemma Ingest_loop_typed (inp : list Z) :
  forall sr_ m lsb_ bs',
    Forall (fun b => 0 <= b < 2 ^ 8) inp ->
    0 <= sr_ < 2 ^ 32 -> 0 <= m < 2 ^ 32 -> 0 <= lsb_ <= 1 ->
    Ingest_loop inp sr_ m lsb_ = Ok bs' ->
    bitstream_typed bs'.
Proof.
  induction inp as [|b rest IH]; intros sr_ m lsb_ bs' Hin Hsr Hm Hlsb; simpl;
    destruct (Z.leb_spec m 0x800000) as [Hle|Hgt]; try discriminate.
  - intros H. injection H as <-. unfold bitstream_typed. simpl. auto.
  - inversion Hin as [|b0 rest0 Hb Hrest]; subst b0 rest0.
    destruct (byte_halves b Hb) as [Hhi Hlo].
    apply IH; try assumption.
    + apply lor_u32; [apply u32_range | exact Hhi].
    + apply u32_range.
  - intros H. injection H as <-. unfold bitstream_typed. simpl. auto.
Qed.

Lemma Ingest_typed (bs bs' : Oodle1Bitstream.t) :
  bitstream_typed bs -> Ingest bs = Ok bs' ->
  bitstream_typed bs' /\ 0x800000 < srModulus bs'.
Proof.
  intros (Hin & Hsr & Hm & Hlsb) H. split.
  - exact (Ingest_loop_typed _ _ _ _ _ Hin Hsr Hm Hlsb H).
  - exact (proj2 (Ingest_loop_modulus _ _ _ _ _ Hm H)).
Qed.

Lemma Peek_typed (one z : Z) (bs bs' : Oodle1Bitstream.t) :
  bitstream_typed bs -> Peek one bs = Ok (z, bs') ->
  bitstream_typed bs' /\ z <= u32 (one - 1).
Proof.
  intros Ht H. unfold Peek in H.
  apply bind_Ok in H as (bs1 & Hi & H).
  apply bind_Ok in H as (scale & _ & H).
  apply bind_Ok in H as (q & _ & H).
  injection H as <- <-.
  split; [exact (proj1 (Ingest_typed _ _ Ht Hi)) | lia].
Qed.

Lemma Consume_typed (minZ spanZ one : Z) (bs bs' : Oodle1Bitstream.t) :
  bitstream_typed bs -> Consume minZ spanZ one bs = Ok bs' -> bitstream_typed bs'.
Proof.
  intros (Hin & Hsr & Hm & Hlsb) H. unfold Consume in H.
  apply bind_Ok in H as (scale & _ & H).
  destruct (minZ <? u32 (one - spanZ)); injection H as <-;
    unfold bitstream_typed; simpl;
    repeat split; try assumption; try apply u32_range; lia.
Qed.

Lemma Get_typed (one z : Z) (bs bs' : Oodle1Bitstream.t) :
  bitstream_typed bs -> 0 <= one ->
  Get one bs = Ok (z, bs') ->
  bitstream_typed bs' /\ 0 <= z <= u32 (one - 1).
Proof.
  intros Ht Hone0 H. unfold Get in H.
  apply bind_Ok in H as (bs1 & Hi & H).
  destruct (Ingest_typed _ _ Ht Hi) as [(Hin & Hsr & Hm & Hlsb) Hbig].
  apply bind_Ok in H as (scale & Hs & H).
  apply bind_Ok in H as (q & Hq & H).
  apply udiv_Ok in Hs as [Honez ->]. apply udiv_Ok in Hq as [Hnz ->].
  assert (Hone : 1 <= one) by lia.
  pose proof (quotient_in_range _ one Hm Hone) as Hscale.
  assert (Hq0 : 0 <= sr bs1 / (srModulus bs1 / one)) by (apply Z.div_pos; lia).
  pose proof (u32_range (one - 1)) as Hone1.
  destruct (Z.min _ _ <? u32 (one - 1)); injection H as <- <-;
    (split; [|lia]); unfold bitstream_typed; simpl;
    repeat split; try assumption; try apply u32_range; lia.
Qed.

End BitstreamTyping.

(** ** The decoder: [Decode] keeps the decoder sound *)

Section DecodeInvariant.

Lemma same_frame_refl (d : Oodle1Decoder.t) : same_frame d d.
Proof. unfold same_frame. repeat split; reflexivity. Qed.

Lemma same_frame_trans (d1 d2 d3 : Oodle1Decoder.t) :
  same_frame d1 d2 -> same_frame d2 d3 -> same_frame d1 d3.
Proof.
  unfold same_frame. intros (?&?&?&?&?&?) (?&?&?&?&?&?). repeat split; congruence.
Qed.

Lemma decode_frame_refl (d : Oodle1Decoder.t) : decode_frame d d.
Proof. unfold decode_frame. repeat split; try reflexivity. Qed.

Lemma decode_frame_trans (d1 d2 d3 : Oodle1Decoder.t) :
  decode_frame d1 d2 -> decode_frame d2 d3 -> decode_frame d1 d3.
Proof.
  unfold decode_frame. intros (F1&?&?&?&?) (F2&?&?&?&?).
  split; [exact (same_frame_trans _ _ _ F1 F2)|]. repeat split; congruence.
Qed.

Lemma weights_ok_frame (d d' : Oodle1Decoder.t) :
  weights_ok d -> decode_frame d d' ->
  highestLearnedSymbol d <= highestLearnedSymbol d' ->
  weights_ok d'.
Proof.
  intros [Hh Hm Ht] (_ & Hw & Hn & _) Hle.
  constructor.
  - lia.
  - unfold weights_monotone in *. rewrite Hw, Hn. exact Hm.
  - unfold weights_tail_One in *. rewrite Hw, Hn. exact Ht.
Qed.

(** Adding [k] observations to a live slot. *)
Lemma occurrences_ok_bump (d : Oodle1Decoder.t) (i o k : Z) :
  occurrences_ok d ->
  0 <= i <= highestLearnedSymbol d ->
  symbolOccurrences d !! Z.to_nat i = Some o ->
  0 <= k ->
  occurrences_ok
    (set_totalOccurrence
       (set_symbolOccurrences d (<[Z.to_nat i := o + k]> (symbolOccurrences d)))
       (totalOccurrence d + k)).
Proof.
  intros [Hls Hlw H32 Hhls Hnn Htail Htot] Hi Ho Hk.
  pose proof (lookup_le_sumZ _ _ _ Hnn Ho) as Hob.
  constructor; simpl; rewrite ?length_insert; try assumption.
  - apply Forall_insert; [assumption | lia].
  - intros j x Hj Hl. rewrite list_lookup_insert_ne in Hl by lia.
    apply (Htail j x); [exact Hj | exact Hl].
  - rewrite (sumZ_insert _ _ o (o + k) Ho). lia.
Qed.

Lemma Decode_scan_eq (fuel : nat) (symbolIdx z : Z) (d : Oodle1Decoder.t) :
  Decode_scan fuel symbolIdx z d =
    if symbolIdx <=? highestNormalizedSymbol d then
      let* w := vget (symbolWeights d) (u32 (symbolIdx + 1)) in
      if w >? z then Ok symbolIdx
      else
        match fuel with
        | O => OutOfFuel
        | S fuel' => Decode_scan fuel' (u32 (symbolIdx + 1)) z d
        end
    else Ok symbolIdx.
Proof. destruct fuel; reflexivity. Qed.

(** The scan stops at a normalized slot: the weight above [HLSN] is [ONE],
    which exceeds every probe. *)
Lemma Decode_scan_range (z : Z) (d : Oodle1Decoder.t) (fuel : nat) :
  weights_tail_One d ->
  highestNormalizedSymbol d + 1 < 2 ^ 32 ->
  z < One ->
  forall i r,
    0 <= i <= highestNormalizedSymbol d ->
    Decode_scan fuel i z d = Ok r ->
    i <= r <= highestNormalizedSymbol d.
Proof.
  intros Htail H32 Hz.
  induction fuel as [|fuel IH]; intros i r Hi H; rewrite Decode_scan_eq in H;
    (destruct (Z.leb_spec i (highestNormalizedSymbol d)) as [_|]; [|lia]);
    apply bind_Ok in H as (w & Hw & H);
    rewrite u32_id in Hw by lia; apply vget_Ok in Hw as [_ Hw];
    destruct (Z.gtb_spec w z) as [Hgt|Hle]; try discriminate;
    try (injection H as <-; lia).
  rewrite u32_id in H by lia.
  destruct (Z.eq_dec i (highestNormalizedSymbol d)) as [->|Hne].
  - assert (HwOne : w = One)
      by (apply (Htail (highestNormalizedSymbol d + 1) w); [lia | exact Hw]).
    lia.
  - apply IH in H; lia.
Qed.

Lemma Decode_renormalize_ok (d d1 : Oodle1Decoder.t) :
  decoder_ok d ->
  Decode_renormalize d = Ok d1 ->
  occurrences_ok d1 /\ weights_ok d1 /\ schedule_ok d1 /\
  totalOccurrence d1 < nextRenormWeight d1 /\
  same_frame d d1 /\
  highestLearnedSymbol d1 <= highestLearnedSymbol d.
Proof.
  intros [Hocc [Hdt Hri Hrri Hnrw Hbound] Hw] H.
  pose proof Hocc as [Hls Hlw H32 Hhls Hnn Htail Htot].
  pose proof (sumZ_nonneg _ Hnn) as Hs.
  unfold Decode_renormalize in H.
  destruct (Z.geb_spec (totalOccurrence d) (nextRenormWeight d)) as [Hge|Hlt].
  - apply bind_Ok in H as (d0 & Hd0 & H).
    assert (Hpre : occurrences_ok d0 /\ decay_frame d d0 /\ totalOccurrence d0 <= 15160 /\
                   0 <= totalOccurrence d0).
    { destruct (Z.geb_spec (totalOccurrence d) (decayThreshold d)) as [Hged|Hltd].
      - destruct (Decay_total d Hocc) as (d0' & Hr & Hok0 & Hfr0 & Hhalf); [lia|].
        rewrite Hr in Hd0. injection Hd0 as <-.
        pose proof Hok0 as [_ _ _ _ Hnn0 _ Htot0].
        pose proof (sumZ_nonneg _ Hnn0).
        split; [exact Hok0|]. split; [exact Hfr0|]. lia.
      - injection Hd0 as <-.
        split; [exact Hocc|]. split; [apply decay_frame_refl|]. lia. }
    destruct Hpre as (Hok0 & ((Hu & Hd & Hr & Hl1 & Hl2 & Hl3) & Hn & Hnr & Hrr & Hdown)
                      & Hle0 & Hge0).
    pose proof (Renormalize_nonzero _ _ H) as Hnz.
    destruct (Renormalize_total d0 Hok0) as (d1' & Hr1 & Hok1 & Hw1 & Hfr1 & Hh1 & Ht1
                                              & _ & _ & Hrri1 & Hnrw1);
      try lia.
    rewrite Hr1 in H. injection H as <-.
    destruct Hfr1 as (Hu1 & Hd1 & Hri1 & Hm1 & Hm2 & Hm3).
    split; [exact Hok1|]. split; [exact Hw1|].
    split; [constructor; lia|]. split; [lia|].
    split; [unfold same_frame; repeat split; congruence | lia].
  - injection H as <-.
    split; [exact Hocc|]. split; [exact Hw|].
    split; [constructor; assumption|]. split; [lia|].
    split; [apply same_frame_refl | lia].
Qed.

Lemma Decode_pending_ok (bs bs' : Oodle1Bitstream.t) (d d' : Oodle1Decoder.t) (v : Z) :
  occurrences_ok d ->
  bitstream_typed bs ->
  0 <= highestNormalizedSymbol d < highestLearnedSymbol d ->
  totalOccurrence d + 2 < 2 ^ 16 ->
  Decode_pending bs d = Ok (v, bs', d') ->
  occurrences_ok d' /\ decode_frame d d' /\
  highestLearnedSymbol d' = highestLearnedSymbol d /\
  totalOccurrence d' = totalOccurrence d + 2.
Proof.
  intros Hocc Ht Hn HT H.
  pose proof Hocc as [Hls Hlw H32 Hhls Hnn Htail Htot].
  unfold Decode_pending in H.
  apply bind_Ok in H as ([j bs1] & Hg & H).
  rewrite (u32_id (highestLearnedSymbol d - highestNormalizedSymbol d)) in Hg by lia.
  apply Get_typed in Hg as [_ Hj]; [|exact Ht|lia].
  rewrite u32_id in Hj by lia.
  rewrite (u32_id (j + highestNormalizedSymbol d)) in H by lia.
  rewrite (u32_id (j + highestNormalizedSymbol d + 1)) in H by lia.
  apply bind_Ok in H as (o & Ho & H). apply vget_Ok in Ho as [_ Ho].
  pose proof (lookup_le_sumZ _ _ _ Hnn Ho) as Hob.
  apply bind_Ok in H as (occ1 & Hocc1 & H). apply vset_Ok in Hocc1 as (_ & _ & ->).
  rewrite (u16_id (o + 2)) in H by lia.
  rewrite (u32_id (totalOccurrence d + 2)) in H by lia.
  apply bind_Ok in H as (s & _ & H). injection H as _ _ <-.
  split; [apply occurrences_ok_bump; (assumption || lia)|].
  split; [|split; reflexivity].
  unfold decode_frame, same_frame. simpl. rewrite length_insert.
  repeat split; reflexivity.
Qed.

Lemma Decode_learn_ok (bs bs' : Oodle1Bitstream.t) (a v : Z) (d d' : Oodle1Decoder.t) :
  occurrences_ok d ->
  totalOccurrence d + 2 < 2 ^ 16 ->
  Decode_learn bs a d = Ok (v, bs', d') ->
  occurrences_ok d' /\ decode_frame d d' /\
  highestLearnedSymbol d' = highestLearnedSymbol d + 1 /\
  0 <= totalOccurrence d' <= totalOccurrence d + 2 /\
  (highestLearnedSymbol d' = usedSymbolCount d' ->
   symbolOccurrences d' !! 0%nat = Some 0).
Proof.
  intros Hocc HT H.
  pose proof Hocc as [Hls Hlw H32 Hhls Hnn Htail Htot].
  pose proof (sumZ_nonneg _ Hnn) as Hs.
  unfold Decode_learn in H.
  rewrite (u32_id (highestLearnedSymbol d + 1)) in H by lia.
  apply bind_Ok in H as ([symbol bs1] & _ & H).
  apply bind_Ok in H as (sym1 & Hsym1 & H). simpl in Hsym1.
  apply vset_Ok in Hsym1 as (_ & Hin & ->).
  apply bind_Ok in H as (o & Ho & H). simpl in Ho. apply vget_Ok in Ho as [_ Ho].
  assert (Ho0 : o = 0) by (apply (Htail (highestLearnedSymbol d + 1) o); [lia | exact Ho]).
  subst o.
  apply bind_Ok in H as (occ1 & Hocc1 & H). simpl in Hocc1.
  apply vset_Ok in Hocc1 as (_ & _ & ->).
  rewrite (u16_id (0 + 2)) in H by lia. simpl in H.
  rewrite (u32_id (totalOccurrence d + 2)) in H by lia.
  set (hls := highestLearnedSymbol d + 1) in *.
  set (occ1 := <[Z.to_nat hls := 0 + 2]> (symbolOccurrences d)) in *.
  assert (Hnn1 : Forall (fun o => 0 <= o) occ1) by (apply Forall_insert; [assumption|lia]).
  assert (Hsum1 : sumZ occ1 = totalOccurrence d + 2).
  { unfold occ1. rewrite (sumZ_insert _ _ 0 (0 + 2) Ho). lia. }
  assert (Htail1 : forall i x, hls < i -> occ1 !! Z.to_nat i = Some x -> x = 0).
  { intros i x Hi Hl. unfold occ1 in Hl. rewrite list_lookup_insert_ne in Hl by lia.
    apply (Htail i x); [lia | exact Hl]. }
  assert (Hlen1 : length occ1 = length (symbolOccurrences d)) by apply length_insert.
  destruct (Z.eqb_spec hls (usedSymbolCount d)) as [Heq|Hne].
  - apply bind_Ok in H as (e & He & H). simpl in He. apply vget_Ok in He as [_ He].
    apply bind_Ok in H as (occ2 & Hocc2 & H). simpl in Hocc2.
    apply vset_Ok in Hocc2 as (_ & Hlt & ->).
    injection H as _ _ <-. simpl.
    pose proof (lookup_le_sumZ _ _ _ Hnn1 He) as Heb.
    rewrite (u32_id (totalOccurrence d + 2 - e)) by lia.
    change (Z.to_nat 0) with 0%nat in *.
    split; [|split; [|split; [|split]]].
    + constructor; simpl; rewrite ?length_insert; fold occ1; try lia.
      * apply Forall_insert; [assumption | lia].
      * intros i x Hi Hl. rewrite list_lookup_insert_ne in Hl by lia.
        apply (Htail1 i x); [exact Hi | exact Hl].
      * rewrite (sumZ_insert _ _ e 0 He). lia.
    + unfold decode_frame, same_frame, occ1. simpl. rewrite !length_insert.
      repeat split; reflexivity.
    + reflexivity.
    + lia.
    + intros _. apply list_lookup_insert_eq. exact Hlt.
  - injection H as _ _ <-. simpl.
    split; [|split; [|split; [|split]]].
    + constructor; simpl; rewrite ?length_insert; fold occ1; try lia; assumption.
    + unfold decode_frame, same_frame, occ1. simpl. rewrite !length_insert.
      repeat split; reflexivity.
    + reflexivity.
    + lia.
    + intros Habs. contradiction.
Qed.

(** A [Decode] that returns leaves a sound decoder sound.  It raises
    [HLS] by at most one, and when it raises it to [usedSymbolCount] the
    escape slot is retired. *)
Lemma Decode_ok (bs bs' : Oodle1Bitstream.t) (a v : Z) (d d' : Oodle1Decoder.t) :
  decoder_ok d ->
  bitstream_typed bs ->
  Decode bs a d = Ok (v, bs', d') ->
  decoder_ok d' /\ same_frame d d' /\
  highestLearnedSymbol d' <= highestLearnedSymbol d + 1 /\
  (highestLearnedSymbol d < usedSymbolCount d ->
   highestLearnedSymbol d' = usedSymbolCount d' ->
   symbolOccurrences d' !! 0%nat = Some 0).
Proof.
  intros Hok Ht H. unfold Decode in H.
  apply bind_Ok in H as (d1 & Hren & H).
  destruct (Decode_renormalize_ok _ _ Hok Hren)
    as (Hocc1 & Hw1 & Hs1 & Hlt1 & Hfr1 & Hdown).
  pose proof Hocc1 as [Hls Hlw H32 Hhls Hnn Htail Htot].
  pose proof Hw1 as [Hhlsn Hmono HtailOne].
  pose proof Hs1 as [Hdt Hri Hrri Hnrw Hbound].
  apply bind_Ok in H as ([z bs1] & Hpeek & H).
  apply Peek_typed in Hpeek as [Ht1 Hz]; [|exact Ht].
  rewrite u32_id in Hz by (unfold One; lia).
  apply bind_Ok in H as (symbolIdx & Hscan & H).
  apply (Decode_scan_range z d1) in Hscan; [|exact HtailOne|lia|lia|lia].
  apply bind_Ok in H as (w0 & _ & H).
  apply bind_Ok in H as (w1 & _ & H).
  apply bind_Ok in H as (bs2 & Hcons & H).
  apply Consume_typed in Hcons; [|exact Ht1].
  apply bind_Ok in H as (o & Ho & H). apply vget_Ok in Ho as [_ Ho].
  pose proof (lookup_le_sumZ _ _ _ Hnn Ho) as Hob.
  apply bind_Ok in H as (occ1 & Hocc1' & H). apply vset_Ok in Hocc1' as (_ & _ & ->).
  rewrite (u16_id (o + 1)) in H by lia.
  rewrite (u32_id (totalOccurrence d1 + 1)) in H by lia.
  set (d2 := set_totalOccurrence
               (set_symbolOccurrences d1
                  (<[Z.to_nat symbolIdx := o + 1]> (symbolOccurrences d1)))
               (totalOccurrence d1 + 1)) in *.
  assert (Hocc2 : occurrences_ok d2)
    by (apply occurrences_ok_bump; (assumption || lia)).
  assert (Hfr2 : decode_frame d1 d2).
  { unfold decode_frame, same_frame, d2. simpl. rewrite length_insert.
    repeat split; reflexivity. }
  assert (Hfinal : forall dx,
    occurrences_ok dx -> decode_frame d2 dx ->
    highestLearnedSymbol d2 <= highestLearnedSymbol dx <= highestLearnedSymbol d2 + 1 ->
    totalOccurrence dx <= totalOccurrence d2 + 2 ->
    (highestLearnedSymbol dx = highestLearnedSymbol d2 + 1 ->
     highestLearnedSymbol dx = usedSymbolCount dx ->
     symbolOccurrences dx !! 0%nat = Some 0) ->
    decoder_ok dx /\ same_frame d dx /\
    highestLearnedSymbol dx <= highestLearnedSymbol d + 1 /\
    (highestLearnedSymbol d < usedSymbolCount d ->
     highestLearnedSymbol dx = usedSymbolCount dx ->
     symbolOccurrences dx !! 0%nat = Some 0)).
  { intros dx Hoccx Hfrx Hhx Htx Hretire.
    pose proof (decode_frame_trans _ _ _ Hfr2 Hfrx) as Hfr.
    pose proof Hfr as ((Hu & Hd & Hr & Hl1 & Hl2 & Hl3) & Hwx & Hnx & Hnrx & Hrrx).
    change (highestLearnedSymbol d2) with (highestLearnedSymbol d1) in *.
    change (totalOccurrence d2) with (totalOccurrence d1 + 1) in *.
    split; [|split; [|split]].
    - constructor.
      + exact Hoccx.
      + constructor; lia.
      + apply (weights_ok_frame d1 dx Hw1 Hfr). lia.
    - exact (same_frame_trans _ _ _ Hfr1 (proj1 Hfr)).
    - lia.
    - intros Hbelow Hfull.
      destruct (Z.eq_dec (highestLearnedSymbol dx) (highestLearnedSymbol d1 + 1)) as [Heq|Hne].
      + exact (Hretire Heq Hfull).
      + destruct Hfr1 as (Hu1 & _). lia. }
  assert (Hlearn : forall bsx,
    Decode_learn bsx a d2 = Ok (v, bs', d') ->
    decoder_ok d' /\ same_frame d d' /\
    highestLearnedSymbol d' <= highestLearnedSymbol d + 1 /\
    (highestLearnedSymbol d < usedSymbolCount d ->
     highestLearnedSymbol d' = usedSymbolCount d' ->
     symbolOccurrences d' !! 0%nat = Some 0)).
  { intros bsx Hl.
    apply Decode_learn_ok in Hl as (Hoccx & Hfrx & Hhx & Htx & Hret);
      [|exact Hocc2|unfold d2; simpl; lia].
    apply Hfinal; try assumption; try lia. intros _. exact Hret. }
  destruct (Z.eqb_spec symbolIdx 0) as [Hz0|Hnz0]; simpl in H.
  - destruct (Z.eqb_spec (highestLearnedSymbol d1) (highestNormalizedSymbol d1))
      as [Heq|Hne]; simpl in H.
    + exact (Hlearn _ H).
    + apply bind_Ok in H as ([b bs3] & Hget & H).
      apply Get_typed in Hget as [Ht3 _]; [|exact Hcons|lia].
      destruct (Z.eqb_spec b 0) as [Hb|Hb]; simpl in H.
      * exact (Hlearn _ H).
      * apply Decode_pending_ok in H as (Hoccx & Hfrx & Hhx & Htx);
          [|exact Hocc2|exact Ht3|unfold d2; simpl; lia|unfold d2; simpl; lia].
        apply Hfinal; try assumption; try lia.
  - apply bind_Ok in H as (s & _ & H). injection H as _ _ <-.
    apply Hfinal; try assumption; try lia. apply decode_frame_refl.
Qed.

Lemma Initialize_ok (a u : Z) (d : Oodle1Decoder.t) :
  Initialize a u fresh = Ok d ->
  decoder_ok d /\ usedSymbolCount d = u /\
  length (symbolWeights d) = Z.to_nat (u32 (a + 2)).
Proof.
  unfold Initialize. simpl. rewrite !resize_nil, !length_replicate.
  set (n := Z.to_nat (u32 (a + 2))).
  pose proof (u32_range (a + 2)) as Hn.
  intros H.
  apply bind_Ok in H as (w & Hw & H). apply vset_Ok in Hw as (_ & Hlt & ->).
  rewrite length_replicate in Hlt.
  apply bind_Ok in H as (occ & Hocc & H). apply vset_Ok in Hocc as (_ & _ & ->).
  apply bind_Ok in H as (o0 & Ho0 & H). apply vget_Ok in Ho0 as [_ Ho0].
  change (Z.to_nat 0) with 0%nat in *.
  rewrite list_lookup_insert_eq in Ho0 by (rewrite length_replicate; exact Hlt).
  injection Ho0 as <-.
  injection H as <-.
  assert (Hz : replicate n 0 !! 0%nat = Some 0) by (apply lookup_replicate_2; exact Hlt).
  assert (Hdt : 128 <= Z.max 256 (Z.min (u32 (u32 (a - 1) * 32)) 15160) / 2 <= 7580).
  { split; [apply Z.div_le_lower_bound; lia | apply Z.div_le_upper_bound; lia]. }
  split; [|split].
  - constructor.
    + constructor; simpl; rewrite ?length_insert, ?length_replicate; try lia.
      * apply Forall_insert; [apply Forall_replicate; lia | lia].
      * intros i o Hi Hl. rewrite list_lookup_insert_ne in Hl by lia.
        apply lookup_replicate in Hl as [-> _]. reflexivity.
      * rewrite (sumZ_insert _ _ 0 4 Hz), sumZ_replicate_0. reflexivity.
    + pose proof (u32_range (u32 (a - 1) * 2)).
      constructor; simpl; rewrite ?(u32_id (_ / 2 - 32)) by lia; lia.
    + constructor; simpl.
      * lia.
      * intros i x y Hi Hx Hy. simpl in Hi, Hx, Hy.
        assert (i = 0) by lia. subst i.
        change (Z.to_nat 0) with 0%nat in Hx. change (Z.to_nat (0 + 1)) with 1%nat in Hy.
        rewrite list_lookup_insert_eq in Hx by (rewrite length_replicate; exact Hlt).
        injection Hx as <-.
        rewrite list_lookup_insert_ne in Hy by lia.
        apply lookup_replicate in Hy as [-> _]. unfold One. lia.
      * intros i x Hi Hx. simpl in Hi, Hx.
        rewrite list_lookup_insert_ne in Hx by lia.
        apply lookup_replicate in Hx as [-> _]. reflexivity.
  - reflexivity.
  - simpl. rewrite length_insert, length_replicate. reflexivity.
Qed.

Lemma reachable_ok (a u : Z) (d : Oodle1Decoder.t) :
  reachable a u d ->
  decoder_ok d /\ usedSymbolCount d = u /\
  length (symbolWeights d) = Z.to_nat (u32 (a + 2)).
Proof.
  induction 1 as [d Hinit | d d' bs bs' a' v Hreach IH Ht Hdec].
  - exact (Initialize_ok a u d Hinit).
  - destruct IH as (Hok & Hu & Hlen).
    destruct (Decode_ok _ _ _ _ _ _ Hok Ht Hdec) as (Hok' & (Hu' & _ & _ & _ & Hl & _) & _).
    split; [exact Hok'|]. split; congruence.
Qed.

End DecodeInvariant.



(** ** The symbols a decoder returns *)

Section Symbols.

Variable P : Z -> Prop.

Lemma vset_Forall (v v' : list Z) (i x : Z) :
  Forall P v -> P x -> vset v i x = Ok v' -> Forall P v'.
Proof. intros Hv Hx (_ & _ & ->)%vset_Ok. apply Forall_insert; assumption. Qed.

Lemma vget_Forall (v : list Z) (i x : Z) :
  Forall P v -> vget v i = Ok x -> P x.
Proof. intros Hv [_ H]%vget_Ok. exact (Forall_lookup_1 _ _ _ _ Hv H). Qed.

Lemma vswap_Forall (v v' : list Z) (i j : Z) :
  Forall P v -> vswap v i j = Ok v' -> Forall P v'.
Proof.
  intros Hv H. unfold vswap in H.
  apply bind_Ok in H as (x & Hx & H). apply bind_Ok in H as (y & Hy & H).
  apply bind_Ok in H as (v1 & Hv1 & H).
  apply (vset_Forall v1 v' j x); [|exact (vget_Forall _ _ _ Hv Hx)|exact H].
  exact (vset_Forall v v1 i y Hv (vget_Forall _ _ _ Hv Hy) Hv1).
Qed.

Lemma Decay_evict_symbols (idx : Z) (d d1 : Oodle1Decoder.t) :
  Forall P (symbols d) -> Decay_evict idx d = Ok d1 -> Forall P (symbols d1).
Proof.
  intros Hs H. unfold Decay_evict in H.
  apply bind_Ok in H as (oh & _ & H). apply bind_Ok in H as (occ1 & _ & H).
  apply bind_Ok in H as (occ2 & _ & H). apply bind_Ok in H as (sh & Hsh & H).
  apply bind_Ok in H as (sym1 & Hsym1 & H). injection H as <-. simpl.
  exact (vset_Forall _ _ _ _ Hs (vget_Forall _ _ _ Hs Hsh) Hsym1).
Qed.

Lemma Decay_while_symbols (fuel : nat) :
  forall (idx : Z) (d d1 : Oodle1Decoder.t),
    Forall P (symbols d) -> Decay_while fuel idx d = Ok d1 -> Forall P (symbols d1).
Proof.
  induction fuel as [|fuel IH]; intros idx d d1 Hs H; rewrite Decay_while_eq in H;
    apply bind_Ok in H as (o & _ & H);
    destruct (o <=? 1); [destruct (idx >=? highestLearnedSymbol d)| |
                         destruct (idx >=? highestLearnedSymbol d)|];
    try discriminate;
    try (apply bind_Ok in H as (occ1 & _ & H); injection H as <-; exact Hs);
    try (injection H as <-; exact Hs).
  apply bind_Ok in H as (d0 & Hev & H).
  exact (IH idx d0 d1 (Decay_evict_symbols _ _ _ Hs Hev) H).
Qed.

Lemma Decay_for_symbols (fuel : nat) :
  forall (idx hw hi : Z) (d d2 : Oodle1Decoder.t) (hw' hi' : Z),
    Forall P (symbols d) ->
    Decay_for fuel idx hw hi d = Ok (hw', hi', d2) -> Forall P (symbols d2).
Proof.
  induction fuel as [|fuel IH]; intros idx hw hi d d2 hw' hi' Hs H;
    rewrite Decay_for_eq in H;
    destruct (idx <=? highestLearnedSymbol d); try discriminate;
    try (injection H as _ _ <-; exact Hs).
  apply bind_Ok in H as (d1 & Hw & H).
  pose proof (Decay_while_symbols _ _ _ _ Hs Hw) as Hs1.
  apply bind_Ok in H as (o & _ & H).
  destruct (o =? 0); [injection H as _ _ <-; exact Hs1|].
  apply bind_Ok in H as (occ1 & _ & H). cbv zeta in H.
  destruct (u16 (o / 2) >? hw); apply IH in H; (exact H || exact Hs1).
Qed.

Lemma Decay_symbols (d d' : Oodle1Decoder.t) :
  Forall P (symbols d) -> Decay d = Ok d' -> Forall P (symbols d').
Proof.
  intros Hs H. unfold Decay in H.
  apply bind_Ok in H as (o0 & _ & H). apply bind_Ok in H as (occ1 & _ & H).
  apply bind_Ok in H as ([[hw hi] d2] & Hfor & H).
  apply Decay_for_symbols in Hfor; [|exact Hs].
  apply bind_Ok in H as (d3 & H3 & H).
  assert (Hs3 : Forall P (symbols d3)).
  { unfold Decay_raise_highest in H3.
    destruct (negb (hw =? 0) && negb (hi =? highestLearnedSymbol d2)).
    - apply bind_Ok in H3 as (occ2 & _ & H3). apply bind_Ok in H3 as (sym2 & Hsw & H3).
      injection H3 as <-. simpl. exact (vswap_Forall _ _ _ _ Hfor Hsw).
    - injection H3 as <-. exact Hfor. }
  apply bind_Ok in H as (d4 & H4 & H).
  assert (Hs4 : Forall P (symbols d4)).
  { unfold Decay_keep_escape in H4.
    destruct (negb (highestLearnedSymbol d3 =? usedSymbolCount d3)).
    - apply bind_Ok in H4 as (e & _ & H4). destruct (e =? 0).
      + apply bind_Ok in H4 as (occ3 & _ & H4). injection H4 as <-. exact Hs3.
      + injection H4 as <-. exact Hs3.
    - injection H4 as <-. exact Hs3. }
  apply bind_Ok in H as (w & _ & H). injection H as <-. exact Hs4.
Qed.

Lemma Renormalize_for_symbols (fuel : nat) :
  forall (idx acc quanta : Z) (d d' : Oodle1Decoder.t),
    Renormalize_for fuel idx acc quanta d = Ok d' -> symbols d' = symbols d.
Proof.
  induction fuel as [|fuel IH]; intros idx acc quanta d d' H;
    rewrite Renormalize_for_eq in H;
    destruct (idx <=? highestLearnedSymbol d); try discriminate;
    try (injection H as <-; reflexivity).
  apply bind_Ok in H as (w & _ & H). apply bind_Ok in H as (o & _ & H).
  apply IH in H. exact H.
Qed.

Lemma Renormalize_symbols (d d' : Oodle1Decoder.t) :
  Renormalize d = Ok d' -> symbols d' = symbols d.
Proof.
  intros H. unfold Renormalize in H.
  apply bind_Ok in H as (q & _ & H). apply bind_Ok in H as (w0 & _ & H).
  apply bind_Ok in H as (o0 & _ & H). apply bind_Ok in H as (d1 & Hfor & H).
  apply Renormalize_for_symbols in Hfor. simpl in Hfor.
  apply bind_Ok in H as (w & _ & H). injection H as <-.
  destruct (u32 (rapidRenormInterval d1 * 2) <? renormInterval d1); exact Hfor.
Qed.

Lemma Decode_renormalize_symbols (d d1 : Oodle1Decoder.t) :
  Forall P (symbols d) -> Decode_renormalize d = Ok d1 -> Forall P (symbols d1).
Proof.
  intros Hs H. unfold Decode_renormalize in H.
  destruct (totalOccurrence d >=? nextRenormWeight d); [|injection H as <-; exact Hs].
  apply bind_Ok in H as (d0 & Hd0 & H).
  rewrite (Renormalize_symbols _ _ H).
  destruct (totalOccurrence d >=? decayThreshold d).
  - exact (Decay_symbols _ _ Hs Hd0).
  - injection Hd0 as <-. exact Hs.
Qed.

End Symbols.

Section DecodeSymbols.

Lemma Decode_pending_walk (a v : Z) (bs bs' : Oodle1Bitstream.t) (d d' : Oodle1Decoder.t) :
  bitstream_typed bs ->
  Decode_pending bs d = Ok (v, bs', d') ->
  bitstream_typed bs' /\
  (Forall (symbol_below a) (symbols d) ->
   symbol_below a v /\ Forall (symbol_below a) (symbols d')).
Proof.
  intros Ht H. unfold Decode_pending in H.
  apply bind_Ok in H as ([j bs1] & Hg & H).
  apply Get_typed in Hg as [Ht1 _]; [|exact Ht|apply u32_range].
  apply bind_Ok in H as (o & _ & H). apply bind_Ok in H as (occ1 & _ & H).
  apply bind_Ok in H as (s & Hs & H). simpl in Hs. injection H as <- <- <-.
  split; [exact Ht1|]. intros Hall. simpl.
  split; [exact (vget_Forall _ _ _ _ Hall Hs) | exact Hall].
Qed.

Lemma Decode_learn_walk (a v : Z) (bs bs' : Oodle1Bitstream.t) (d d' : Oodle1Decoder.t) :
  bitstream_typed bs ->
  0 <= a ->
  Decode_learn bs a d = Ok (v, bs', d') ->
  bitstream_typed bs' /\
  (a < 2 ^ 32 -> Forall (symbol_below a) (symbols d) ->
   symbol_below a v /\ Forall (symbol_below a) (symbols d')).
Proof.
  intros Ht Ha H. unfold Decode_learn in H.
  apply bind_Ok in H as ([symbol bs1] & Hg & H).
  assert (Hnz : a <> 0).
  { intros ->. unfold Get in Hg. apply bind_Ok in Hg as (b1 & _ & Hg).
    apply bind_Ok in Hg as (sc & Hsc & _). apply udiv_Ok in Hsc as [Hsc _]. lia. }
  apply Get_typed in Hg as [Ht1 Hsym]; [|exact Ht|exact Ha].
  apply bind_Ok in H as (sym1 & Hsym1 & H). simpl in Hsym1.
  apply bind_Ok in H as (o & _ & H). apply bind_Ok in H as (occ1 & _ & H).
  assert (Hres : v = symbol /\ bs' = bs1 /\ symbols d' = sym1).
  { simpl in H. destruct (_ =? _).
    - apply bind_Ok in H as (e & _ & H). apply bind_Ok in H as (occ2 & _ & H).
      injection H as <- <- <-. auto.
    - injection H as <- <- <-. auto. }
  destruct Hres as (-> & -> & ->).
  split; [exact Ht1|]. intros Ha32 Hall.
  rewrite u32_id in Hsym by lia.
  assert (Hv : symbol_below a symbol) by (unfold symbol_below; lia).
  split; [exact Hv|].
  apply (vset_Forall _ _ _ _ _ Hall) in Hsym1; [exact Hsym1|].
  pose proof (u8_range symbol). pose proof (u8_le symbol).
  unfold symbol_below in *. lia.
Qed.

(** A [Decode] that returns keeps the bitstream well-typed, and a decoder
    whose stored symbols are below the alphabet size it is called with
    returns such a symbol and stores only such symbols. *)
Lemma Decode_walk (a v : Z) (bs bs' : Oodle1Bitstream.t) (d d' : Oodle1Decoder.t) :
  bitstream_typed bs ->
  0 <= a ->
  Decode bs a d = Ok (v, bs', d') ->
  bitstream_typed bs' /\
  (a < 2 ^ 32 -> Forall (symbol_below a) (symbols d) ->
   symbol_below a v /\ Forall (symbol_below a) (symbols d')).
Proof.
  intros Ht Ha H. unfold Decode in H.
  apply bind_Ok in H as (d1 & Hren & H).
  apply bind_Ok in H as ([z bs1] & Hpeek & H).
  apply Peek_typed in Hpeek as [Ht1 _]; [|exact Ht].
  apply bind_Ok in H as (symbolIdx & _ & H).
  apply bind_Ok in H as (w0 & _ & H).
  apply bind_Ok in H as (w1 & _ & H).
  apply bind_Ok in H as (bs2 & Hcons & H).
  apply Consume_typed in Hcons; [|exact Ht1].
  apply bind_Ok in H as (o & _ & H).
  apply bind_Ok in H as (occ1 & _ & H).
  set (d2 := set_totalOccurrence (set_symbolOccurrences d1 occ1)
               (u32 (totalOccurrence d1 + 1))) in *.
  assert (Hsym2 : Forall (symbol_below a) (symbols d) ->
                  Forall (symbol_below a) (symbols d2)).
  { intros Hall. exact (Decode_renormalize_symbols _ _ _ Hall Hren). }
  destruct (negb (symbolIdx =? 0)).
  - apply bind_Ok in H as (s & Hs & H). injection H as <- <- <-.
    split; [exact Hcons|]. intros _ Hall.
    split; [exact (vget_Forall _ _ _ _ (Hsym2 Hall) Hs) | exact (Hsym2 Hall)].
  - destruct (negb (highestLearnedSymbol d2 =? highestNormalizedSymbol d2)).
    + apply bind_Ok in H as ([b bs3] & Hget & H).
      apply Get_typed in Hget as [Ht3 _]; [|exact Hcons|lia].
      destruct (negb (b =? 0)).
      * apply (Decode_pending_walk a) in H as [Ht' Hp]; [|exact Ht3].
        split; [exact Ht'|]. intros _ Hall. exact (Hp (Hsym2 Hall)).
      * apply Decode_learn_walk in H as [Ht' Hp]; [|exact Ht3|exact Ha].
        split; [exact Ht'|]. intros Ha32 Hall. exact (Hp Ha32 (Hsym2 Hall)).
    + apply Decode_learn_walk in H as [Ht' Hp]; [|exact Hcons|exact Ha].
      split; [exact Ht'|]. intros Ha32 Hall. exact (Hp Ha32 (Hsym2 Hall)).
Qed.

Lemma Decoder_Initialize_symbols (P : Z -> Prop) (a u : Z) (d d' : Oodle1Decoder.t) :
  P 0 -> Forall P (symbols d) ->
  Oodle1Decoder.Initialize a u d = Ok d' -> Forall P (symbols d').
Proof.
  intros H0 Hs H. unfold Oodle1Decoder.Initialize in H.
  apply bind_Ok in H as (w & _ & H). apply bind_Ok in H as (occ & _ & H).
  apply bind_Ok in H as (o0 & _ & H). injection H as <-. simpl.
  apply Forall_resize; assumption.
Qed.

Lemma driven_symbols (a u : Z) (d : Oodle1Decoder.t) :
  0 < a < 2 ^ 32 -> driven a u d -> Forall (symbol_below a) (symbols d).
Proof.
  intros Ha. induction 1 as [d Hinit | d d' bs bs' v Hdr IH Ht Hdec].
  - apply (Decoder_Initialize_symbols _ a u fresh d); [unfold symbol_below; lia| |exact Hinit].
    constructor.
  - apply Decode_walk in Hdec as [_ Hp]; [|exact Ht|lia].
    exact (proj2 (Hp (proj2 Ha) IH)).
Qed.

End DecodeSymbols.

(** ** The decoder: the invariants of the specification *)

Section DecoderInvariants.

Lemma sample_bitstream_typed : bitstream_typed sample_bitstream.
Proof.
  unfold bitstream_typed, sample_bitstream. simpl.
  repeat split; try lia. repeat (constructor; [lia|]). constructor.
Qed.

Lemma zero_bitstream_typed : bitstream_typed zero_bitstream.
Proof.
  unfold bitstream_typed, zero_bitstream. simpl.
  repeat split; try lia. repeat (constructor; [lia|]). constructor.
Qed.

Lemma sample_decoder_reachable : reachable 65 3 sample_decoder.
Proof. apply reachable_Initialize. vm_compute. reflexivity. Qed.

Lemma Decode_many_reachable (n : nat) (a0 u a : Z) :
  0 <= a ->
  forall bs d bs' d',
    reachable a0 u d -> bitstream_typed bs ->
    Decode_many n a bs d = Ok (bs', d') ->
    reachable a0 u d' /\ bitstream_typed bs'.
Proof.
  intros Ha. induction n as [|n IH]; intros bs d bs' d' Hr Ht H; simpl in H.
  - injection H as <- <-. auto.
  - apply bind_Ok in H as ([[v bs1] d1] & Hdec & H).
    apply (IH bs1 d1 bs' d'); [|exact (proj1 (Decode_walk _ _ _ _ _ _ Ht Ha Hdec))|exact H].
    exact (reachable_Decode a0 u d d1 bs bs1 a v Hr Ht Hdec).
Qed.

(** The long run: 379 symbols are decoded from [long_input], and the 380th
    [Decode] runs [Decay] (which evicts a slot) and [Renormalize]. *)
Example long_run :
  make long_input = Ok long_bitstream /\
  Initialize 4 2 fresh = Ok long_decoder /\
  Decode_many 379 4 long_bitstream long_decoder
    = Ok (long_bitstream_end, decoder_with_stale_slot) /\
  (let* (v, _, d) := Decode long_bitstream_end 4 decoder_with_stale_slot in
   Ok (v, totalOccurrence d, highestLearnedSymbol d,
       symbolOccurrences d, symbolWeights d))
  = Ok (0, 128, 2, [0; 25; 103; 0; 0; 0], [0; 0; 3225; 16384; 16384; 16384]).
Proof. repeat split; vm_compute; reflexivity. Qed.

Lemma decoder_with_stale_slot_reachable : reachable 4 2 decoder_with_stale_slot.
Proof.
  destruct long_run as (_ & Hinit & Hrun & _).
  assert (Ht : bitstream_typed long_bitstream).
  { unfold bitstream_typed, long_bitstream. simpl.
    repeat split; try lia. repeat (constructor; [lia|]). constructor. }
  assert (H4 : 0 <= 4) by lia.
  exact (proj1 (Decode_many_reachable 379 4 2 4 H4 _ _ _ _
                  (reachable_Initialize 4 2 long_decoder Hinit) Ht Hrun)).
Qed.

Lemma occurrences_ok_conserved (d : Oodle1Decoder.t) :
  occurrences_ok d -> conserved d.
Proof.
  intros [Hls Hlw H32 Hhls Hnn Htail Htot]. unfold conserved.
  rewrite Htot, (sumZ_take_drop (S (Z.to_nat (highestLearnedSymbol d)))).
  rewrite (sumZ_drop_zero (symbolOccurrences d)); [lia|].
  intros i x Hi Hx. apply (Htail (Z.of_nat i) x); [lia|].
  rewrite Nat2Z.id. exact Hx.
Qed.

(** What [Renormalize] and [Decay] make of a sound decoder. *)
Lemma Renormalize_ok (d d' : Oodle1Decoder.t) :
  occurrences_ok d ->
  4 <= rapidRenormInterval d < renormInterval d ->
  128 <= renormInterval d <= 7548 ->
  totalOccurrence d < 2 ^ 16 ->
  Renormalize d = Ok d' ->
  occurrences_ok d' /\ weights_ok d' /\ same_frame d d'.
Proof.
  intros Hocc Hrri Hri HT H.
  pose proof Hocc as [_ _ _ _ Hnn _ Htot].
  pose proof (sumZ_nonneg _ Hnn) as Hs.
  pose proof (Renormalize_nonzero _ _ H) as Hnz.
  destruct (Renormalize_total d Hocc) as (d1 & Hr & Hok1 & Hw1 & Hfr1 & _); try lia.
  rewrite Hr in H. injection H as <-. auto.
Qed.

(** C7.  In every decoder state reachable from [Initialize] by [Decode]
    calls - that is after [Initialize] and after every completed [Decode] -
    [totalOccurrence] is the sum of [occurrences[0..=HLS]]; and the same
    holds after a [Renormalize] of such a state, after a [Decay] of such a
    state, and after the [Renormalize] that follows that [Decay]. *)
Theorem totalOccurrence_conserved (a u : Z) (d : Oodle1Decoder.t) :
  reachable a u d ->
  conserved d /\
  (forall d', Renormalize d = Ok d' -> conserved d') /\
  (forall d1, Decay d = Ok d1 ->
     conserved d1 /\ forall d', Renormalize d1 = Ok d' -> conserved d').
Proof.
  intros Hreach.
  destruct (reachable_ok a u d Hreach) as ([Hocc [Hdt Hri Hrri Hnrw Hbound] Hw] & _ & _).
  split; [exact (occurrences_ok_conserved d Hocc)|]. split.
  - intros d' H.
    apply Renormalize_ok in H as (Hocc' & _ & _); try assumption; try lia.
    exact (occurrences_ok_conserved d' Hocc').
  - intros d1 H.
    destruct (Decay_total d Hocc) as (d1' & Hr & Hocc1 & Hfr & Hhalf); [lia|].
    rewrite Hr in H. injection H as ->.
    split; [exact (occurrences_ok_conserved d1 Hocc1)|].
    intros d' H.
    destruct Hfr as ((_ & _ & Hri1 & _) & _ & _ & Hrri1 & _).
    apply Renormalize_ok in H as (Hocc' & _ & _); try assumption; try lia.
    exact (occurrences_ok_conserved d' Hocc').
Qed.

Lemma totalOccurrence_conserved_witness :
  reachable 4 2 decoder_with_stale_slot /\
  conserved decoder_with_stale_slot /\
  (forall d', Renormalize decoder_with_stale_slot = Ok d' -> conserved d') /\
  (forall d1, Decay decoder_with_stale_slot = Ok d1 ->
     conserved d1 /\ forall d', Renormalize d1 = Ok d' -> conserved d').
Proof.
  split; [exact decoder_with_stale_slot_reachable|].
  exact (totalOccurrence_conserved 4 2 decoder_with_stale_slot
           decoder_with_stale_slot_reachable).
Defined.

(** C6.  In every decoder state reachable from [Initialize] by [Decode]
    calls - after [Initialize] and after every completed [Decode] - and
    after every [Renormalize] of such a state or of its [Decay], the weight
    table has its allocated length [alphabetSize + 2], satisfies
    [weights[i] <= weights[i+1]] for all [i <= HLSN], and has
    [weights[i] = ONE] for all [i > HLSN]. *)
Theorem weights_stay_sorted (a u : Z) (d : Oodle1Decoder.t) :
  reachable a u d ->
  weights_sorted a d /\
  (forall d', Renormalize d = Ok d' -> weights_sorted a d') /\
  (forall d1 d', Decay d = Ok d1 -> Renormalize d1 = Ok d' -> weights_sorted a d').
Proof.
  intros Hreach.
  destruct (reachable_ok a u d Hreach)
    as ([Hocc [Hdt Hri Hrri Hnrw Hbound] [Hn Hm Ht]] & _ & Hlen).
  unfold weights_sorted.
  split; [auto|]. split.
  - intros d' H.
    apply Renormalize_ok in H as (_ & [_ Hm' Ht'] & (_ & _ & _ & _ & Hl & _));
      try assumption; try lia.
    split; [congruence | auto].
  - intros d1 d' H1 H.
    destruct (Decay_total d Hocc) as (d1' & Hr & Hocc1 & Hfr & Hhalf); [lia|].
    rewrite Hr in H1. injection H1 as ->.
    destruct Hfr as ((_ & _ & Hri1 & _ & Hl1 & _) & _ & _ & Hrri1 & _).
    apply Renormalize_ok in H as (_ & [_ Hm' Ht'] & (_ & _ & _ & _ & Hl & _));
      try assumption; try lia.
    split; [congruence | auto].
Qed.

Lemma weights_stay_sorted_witness :
  reachable 4 2 decoder_with_stale_slot /\
  weights_sorted 4 decoder_with_stale_slot /\
  (forall d', Renormalize decoder_with_stale_slot = Ok d' -> weights_sorted 4 d') /\
  (forall d1 d', Decay decoder_with_stale_slot = Ok d1 -> Renormalize d1 = Ok d' ->
                 weights_sorted 4 d').
Proof.
  split; [exact decoder_with_stale_slot_reachable|].
  exact (weights_stay_sorted 4 2 decoder_with_stale_slot
           decoder_with_stale_slot_reachable).
Defined.

(** C5 (amended).  For a decoder reachable from [Initialize] by [Decode]
    calls and a [Decode] on a well-typed bitstream that returns: if
    [HLS < usedSymbolCount] before the call, then [HLS <= usedSymbolCount]
    after it, and if the call has brought [HLS] to [usedSymbolCount] the
    escape slot is retired, [occurrences[0] = 0], on return. *)
Theorem learned_alphabet_bound
    (a u a' v : Z) (bs bs' : Oodle1Bitstream.t) (d d' : Oodle1Decoder.t) :
  reachable a u d ->
  bitstream_typed bs ->
  highestLearnedSymbol d < usedSymbolCount d ->
  Decode bs a' d = Ok (v, bs', d') ->
  highestLearnedSymbol d' <= usedSymbolCount d' /\
  (highestLearnedSymbol d' = usedSymbolCount d' ->
   symbolOccurrences d' !! 0%nat = Some 0).
Proof.
  intros Hreach Ht Hlt H.
  destruct (reachable_ok a u d Hreach) as (Hok & _ & _).
  destruct (Decode_ok _ _ _ _ _ _ Hok Ht H) as (_ & (Hu & _) & Hup & Hret).
  split; [lia | exact (Hret Hlt)].
Qed.

Lemma learned_alphabet_bound_witness :
  reachable 65 3 sample_decoder /\
  bitstream_typed sample_bitstream /\
  highestLearnedSymbol sample_decoder < usedSymbolCount sample_decoder /\
  Decode sample_bitstream 65 sample_decoder = Ok sample_decoded /\
  highestLearnedSymbol (snd sample_decoded) <= usedSymbolCount (snd sample_decoded).
Proof.
  assert (Hlt : highestLearnedSymbol sample_decoder < usedSymbolCount sample_decoder)
    by (vm_compute; reflexivity).
  assert (Hdec : Decode sample_bitstream 65 sample_decoder
                 = Ok (fst (fst sample_decoded), snd (fst sample_decoded), snd sample_decoded))
    by (vm_compute; reflexivity).
  split; [exact sample_decoder_reachable|]. split; [exact sample_bitstream_typed|].
  split; [exact Hlt|]. split; [vm_compute; reflexivity|].
  exact (proj1 (learned_alphabet_bound 65 3 65 _ _ _ _ _
                  sample_decoder_reachable sample_bitstream_typed Hlt Hdec)).
Defined.

(** C5, as stated, fails.  A decoder initialized with [uniqueSymbols = 0]
    has [HLS = 1 > usedSymbolCount] after its first [Decode].  A decoder
    initialized with [uniqueSymbols = 1] retires its escape slot in the
    first [Decode] ([HLS = 1 = usedSymbolCount], [occurrences[0] = 0]); the
    second [Decode] runs neither [Decay] nor [Renormalize]
    ([totalOccurrence = 2 < NRW = 8]), finds the escape slot in the stale
    weight table, and leaves [occurrences[0] = 1] and [HLS = 2]. *)
Lemma HLS_exceeds_usedSymbolCount :
  (let* d0 := Initialize 65 0 fresh in
   let* (_, _, d1) := Decode zero_bitstream 65 d0 in
   Ok (highestLearnedSymbol d1, usedSymbolCount d1)) = Ok (1, 0)
  /\
  (let* d0 := Initialize 65 1 fresh in
   let* (_, bs1, d1) := Decode zero_bitstream 65 d0 in
   let* (_, _, d2) := Decode bs1 65 d1 in
   Ok (highestLearnedSymbol d1, usedSymbolCount d1, symbolOccurrences d1 !! 0%nat,
       totalOccurrence d1, nextRenormWeight d1,
       highestLearnedSymbol d2, usedSymbolCount d2, symbolOccurrences d2 !! 0%nat))
  = Ok (1, 1, Some 0, 2, 8, 2, 1, Some 1).
Proof. split; vm_compute; reflexivity. Qed.

End DecoderInvariants.

(** ** The driver: the length code stays inside the decoder array *)

Section LengthCodes.

Import Oodle1Decompressor.

Lemma for_each_invariant {S : Type} (I : S -> Prop) (body : Z -> S -> result S)
      (idxs : list Z) :
  (forall i s s', I s -> body i s = Ok s' -> I s') ->
  forall s s', I s -> for_each idxs body s = Ok s' -> I s'.
Proof.
  intros Hbody. induction idxs as [|i rest IH]; intros s s' Hs H; simpl in H.
  - injection H as <-. exact Hs.
  - apply bind_Ok in H as (s1 & Hb & H).
    exact (IH s1 s' (Hbody i s s1 Hs Hb) H).
Qed.

Lemma Initialize_at_ok (Q : Oodle1Decoder.t -> Prop) (a u i : Z)
      (ds ds' : list Oodle1Decoder.t) :
  (forall d d', Q d -> Oodle1Decoder.Initialize a u d = Ok d' -> Q d') ->
  Forall Q ds ->
  (let* decoder := vget ds i in
   let* decoder' := Oodle1Decoder.Initialize a u decoder in
   vset ds i decoder') = Ok ds' ->
  Forall Q ds' /\ length ds' = length ds.
Proof.
  intros HQ Hall H.
  apply bind_Ok in H as (decoder & Hget & H).
  apply bind_Ok in H as (decoder' & Hinit & H).
  apply vget_Ok in Hget as [_ Hget].
  apply vset_Ok in H as (_ & _ & ->).
  split; [|apply length_insert].
  apply Forall_insert; [exact Hall|].
  exact (HQ _ _ (Forall_lookup_1 _ _ _ _ Hall Hget) Hinit).
Qed.

Lemma Initialize_lenDecoders_ok (Q : Oodle1Decoder.t -> Prop) (h : Z)
      (ds ds' : list Oodle1Decoder.t) :
  (forall a u d d', Q d -> Oodle1Decoder.Initialize a u d = Ok d' -> Q d') ->
  Forall Q ds ->
  Initialize_lenDecoders h ds = Ok ds' ->
  Forall Q ds' /\ length ds' = length ds.
Proof.
  intros HQ Hall H. unfold Initialize_lenDecoders in H.
  apply bind_Ok in H as ([repLens ds1] & Hloop & H).
  assert (H1 : Forall Q ds1 /\ length ds1 = length ds).
  { apply (for_each_invariant
             (fun s : Z * list Oodle1Decoder.t =>
                Forall Q (snd s) /\ length (snd s) = length ds)) in Hloop;
      [exact Hloop| |simpl; auto].
    intros groupIdx [r s] [r' s'] [Hs Hl] Hb. cbn [snd] in *.
    apply bind_Ok in Hb as (s1 & Hinner & Hb). injection Hb as _ <-.
    apply (for_each_invariant
             (fun s : list Oodle1Decoder.t => Forall Q s /\ length s = length ds))
      in Hinner; [exact Hinner| |auto].
    intros decoderIdx s0 s0' [Hs0 Hl0] Hb0.
    apply (Initialize_at_ok Q) in Hb0 as [Hq Hlen]; [|apply HQ|exact Hs0].
    split; [exact Hq | congruence]. }
  destruct H1 as [Hall1 Hlen1].
  apply (Initialize_at_ok Q) in H as [Hq Hlen]; [|apply HQ|exact Hall1].
  split; [exact Hq | congruence].
Qed.

Lemma Initialize_driver_ok (header : list Z) (D : Oodle1Decompressor.t) :
  Initialize header fresh = Ok D -> driver_ok D.
Proof.
  unfold Initialize. intros H.
  apply bind_Ok in H as (h0 & _ & H).
  apply bind_Ok in H as (h1 & _ & H).
  apply bind_Ok in H as (h2 & _ & H).
  apply bind_Ok in H as (lit & _ & H).
  apply bind_Ok in H as (len & Hlen & H).
  apply bind_Ok in H as (off1 & _ & H).
  apply bind_Ok in H as (off4 & _ & H).
  apply bind_Ok in H as (off1024 & _ & H).
  injection H as <-.
  apply (Initialize_lenDecoders_ok
           (fun decoder => Forall (symbol_below 65) (symbols decoder))) in Hlen
    as [Hall Hl].
  - constructor; simpl.
    + rewrite Hl. reflexivity.
    + exact Hall.
    + lia.
    + apply Z.land_nonneg. right. lia.
    + pose proof (u32_range (Z.shiftr h0 9 + 1)). lia.
  - intros a u d d' Hd Hi.
    apply (Decoder_Initialize_symbols _ a u d d'); [unfold symbol_below; lia|exact Hd|exact Hi].
  - change (lenDecoders fresh) with (replicate 65 Oodle1Decoder.fresh).
    apply Forall_replicate. constructor.
Qed.

Lemma Decompress_lenCode_ok (bs bs1 : Oodle1Bitstream.t) (D D1 : Oodle1Decompressor.t)
      (lenCode : Z) :
  bitstream_typed bs -> driver_ok D ->
  Decompress_lenCode bs D = Ok (lenCode, bs1, D1) ->
  bitstream_typed bs1 /\ driver_ok D1.
Proof.
  intros Ht [Hl Hall Hc Hlit Hoff] H. unfold Decompress_lenCode in H.
  apply bind_Ok in H as (decoder & Hget & H).
  apply bind_Ok in H as ([[c bs0] decoder'] & Hdec & H).
  apply bind_Ok in H as (len & Hset & H).
  injection H as <- <- <-.
  apply vget_Ok in Hget as [_ Hget].
  apply vset_Ok in Hset as (_ & _ & ->).
  apply Decode_walk in Hdec as [Ht1 Hp]; [|exact Ht|lia].
  destruct Hp as [Hv Hs]; [lia|exact (Forall_lookup_1 _ _ _ _ Hall Hget)|].
  split; [exact Ht1|].
  constructor; simpl; try assumption.
  - rewrite length_insert. exact Hl.
  - apply Forall_insert; assumption.
Qed.

Lemma Decompress_literal_ok (bs bs1 : Oodle1Bitstream.t) (D D1 : Oodle1Decompressor.t)
      (lit : Z) :
  bitstream_typed bs -> driver_ok D ->
  Decompress_literal bs D = Ok (lit, bs1, D1) ->
  bitstream_typed bs1 /\ driver_ok D1.
Proof.
  intros Ht [Hl Hall Hc Hlit Hoff] H. unfold Decompress_literal in H.
  apply bind_Ok in H as (decoder & _ & H).
  apply bind_Ok in H as ([[c bs0] decoder'] & Hdec & H).
  apply bind_Ok in H as (lits & _ & H).
  injection H as _ <- <-.
  apply Decode_walk in Hdec as [Ht1 _]; [|exact Ht|exact Hlit].
  split; [exact Ht1|]. constructor; simpl; assumption.
Qed.

Lemma Decompress_backref_ok (bs bs1 : Oodle1Bitstream.t) (D D1 : Oodle1Decompressor.t)
      (lenCode len offset : Z) :
  bitstream_typed bs -> driver_ok D ->
  Decompress_backref lenCode bs D = Ok (len, offset, bs1, D1) ->
  bitstream_typed bs1 /\ driver_ok D1.
Proof.
  intros Ht [Hl Hall Hc Hlit Hoff] H. unfold Decompress_backref in H.
  apply bind_Ok in H as (len0 & _ & H).
  apply bind_Ok in H as ([[r1 b1] d1] & Hdec1 & H).
  apply Decode_walk in Hdec1 as [Ht1 _]; [|exact Ht|exact Hoff].
  apply bind_Ok in H as ([[off1k b2] d2] & Hdec2 & H).
  apply Decode_walk in Hdec2 as [Ht2 _]; [|exact Ht1|apply u32_range].
  apply bind_Ok in H as (decoder & _ & H).
  apply bind_Ok in H as ([[off4 b3] d3] & Hdec3 & H).
  apply Decode_walk in Hdec3 as [Ht3 _]; [|exact Ht2|].
  - apply bind_Ok in H as (off4s & _ & H).
    injection H as _ _ <- <-.
    split; [exact Ht3|]. constructor; simpl; assumption.
  - pose proof (u32_range (Z.min (windowSize D) (bytesOutput D) / 4 + 1)). lia.
Qed.

Lemma Decompress_driver_ok (bs bs' : Oodle1Bitstream.t) (D D' : Oodle1Decompressor.t)
      (mem mem' : list Z) (output n : Z) :
  bitstream_typed bs -> driver_ok D ->
  Decompress bs D mem output = Ok (n, bs', D', mem') ->
  bitstream_typed bs' /\ driver_ok D'.
Proof.
  intros Ht Hok H. unfold Decompress in H.
  apply bind_Ok in H as ([[lenCode bs1] D1] & Hlen & H).
  apply Decompress_lenCode_ok in Hlen as [Ht1 Hok1]; [|exact Ht|exact Hok].
  destruct (lenCode =? 0).
  - apply bind_Ok in H as ([[lit bs2] D2] & Hlit & H).
    apply Decompress_literal_ok in Hlit as [Ht2 Hok2]; [|exact Ht1|exact Hok1].
    apply bind_Ok in H as (m & _ & H). injection H as _ <- <- _. auto.
  - apply bind_Ok in H as ([[[len offset] bs2] D2] & Hback & H).
    apply Decompress_backref_ok in Hback as [Ht2 Hok2]; [|exact Ht1|exact Hok1].
    apply bind_Ok in H as (m & _ & H). injection H as _ <- <- _. auto.
Qed.

Lemma running_ok (header : list Z) (bs : Oodle1Bitstream.t) (D : Oodle1Decompressor.t) :
  running header bs D -> bitstream_typed bs /\ driver_ok D.
Proof.
  induction 1 as [bs D Ht Hinit | bs bs' D D' mem mem' output n Hrun IH Hdec].
  - split; [exact Ht | exact (Initialize_driver_ok header D Hinit)].
  - destruct IH as [Ht Hok]. exact (Decompress_driver_ok _ _ _ _ _ _ _ _ Ht Hok Hdec).
Qed.

(** C10.  Every value that [Decode(bs, 65)] returns from a length decoder -
    a decoder initialized with alphabet size 65 and driven only by such
    calls - is at most 64.  Consequently, in every state of a decompressor
    initialized by [Initialize] and advanced by [Decompress] calls,
    [lastRepeatCode < 65] and [lenDecoders[lastRepeatCode]] is an element
    of the 65-element array. *)
Theorem lastRepeatCode_in_range :
  (forall u d bs v bs' d',
      driven 65 u d -> bitstream_typed bs ->
      Decode bs 65 d = Ok (v, bs', d') -> 0 <= v <= 64) /\
  (forall header bs D,
      running header bs D ->
      0 <= lastRepeatCode D < 65 /\
      length (lenDecoders D) = 65%nat /\
      is_Some (lenDecoders D !! Z.to_nat (lastRepeatCode D))).
Proof.
  split.
  - intros u d bs v bs' d' Hdr Ht Hdec.
    apply driven_symbols in Hdr; [|lia].
    apply Decode_walk in Hdec as [_ Hp]; [|exact Ht|lia].
    destruct Hp as [Hv _]; [lia|exact Hdr|]. unfold symbol_below in Hv. lia.
  - intros header bs D Hrun.
    destruct (running_ok header bs D Hrun) as [_ [Hl Hall Hc Hlit Hoff]].
    split; [lia|]. split; [exact Hl|].
    apply lookup_lt_is_Some. lia.
Qed.

Lemma sample_running :
  running sample_header (snd (fst (fst sample_after_Decompress)))
    (snd (fst sample_after_Decompress)).
Proof.
  apply (running_Decompress sample_header sample_bitstream _ sample_decompressor _
           sample_buffer (snd sample_after_Decompress) 4
           (fst (fst (fst sample_after_Decompress)))).
  - apply running_Initialize; [exact sample_bitstream_typed | vm_compute; reflexivity].
  - vm_compute. reflexivity.
Qed.

Lemma sample_driven : driven 65 3 sample_decoder.
Proof. apply driven_Initialize. vm_compute. reflexivity. Qed.

Lemma lastRepeatCode_in_range_witness :
  (driven 65 3 sample_decoder /\ bitstream_typed sample_bitstream /\
   Decode sample_bitstream 65 sample_decoder = Ok sample_decoded /\
   0 <= fst (fst sample_decoded) <= 64) /\
  (running sample_header (snd (fst (fst sample_after_Decompress)))
     (snd (fst sample_after_Decompress)) /\
   0 <= lastRepeatCode (snd (fst sample_after_Decompress)) < 65).
Proof.
  assert (Hdec : Decode sample_bitstream 65 sample_decoder
                 = Ok (fst (fst sample_decoded), snd (fst sample_decoded), snd sample_decoded))
    by (vm_compute; reflexivity).
  split.
  - split; [exact sample_driven|]. split; [exact sample_bitstream_typed|].
    split; [vm_compute; reflexivity|].
    exact (proj1 lastRepeatCode_in_range 3 _ _ _ _ _
             sample_driven sample_bitstream_typed Hdec).
  - split; [exact sample_running|].
    exact (proj1 (proj2 lastRepeatCode_in_range _ _ _ sample_running)).
Defined.

End LengthCodes.

(** ** The loop budgets of the model are never exhausted *)

Section Budgets.

Lemma bind_budget {A B : Type} (m : result A) (k : A -> result B) :
  m <> OutOfFuel -> (forall a, m = Ok a -> k a <> OutOfFuel) ->
  bind m k <> OutOfFuel.
Proof.
  intros Hm Hk. destruct m; simpl; [apply Hk; reflexivity | discriminate | congruence].
Qed.

Lemma udiv_budget (a b : Z) : udiv a b <> OutOfFuel.
Proof. unfold udiv. destruct (b =? 0); discriminate. Qed.

Lemma vget_budget {A : Type} (v : list A) (i : Z) : vget v i <> OutOfFuel.
Proof. unfold vget. destruct (i <? 0); [|destruct (v !! Z.to_nat i)]; discriminate. Qed.

Lemma vset_budget {A : Type} (v : list A) (i : Z) (x : A) : vset v i x <> OutOfFuel.
Proof.
  unfold vset. destruct (i <? 0); [|destruct (Z.to_nat i <? length v)%nat]; discriminate.
Qed.

Lemma Ingest_budget (bs : Oodle1Bitstream.t) : Ingest bs <> OutOfFuel.
Proof.
  unfold Ingest. generalize (sr bs) (srModulus bs) (lsb bs).
  induction (input bs) as [|b rest IH]; intros s m l; simpl;
    destruct (m <=? 0x800000); try discriminate. apply IH.
Qed.

Lemma Peek_budget (one : Z) (bs : Oodle1Bitstream.t) : Peek one bs <> OutOfFuel.
Proof.
  unfold Peek. apply bind_budget; [apply Ingest_budget|]. intros bs1 _.
  apply bind_budget; [apply udiv_budget|]. intros scale _.
  apply bind_budget; [apply udiv_budget|]. intros q _. discriminate.
Qed.

Lemma Consume_budget (minZ spanZ one : Z) (bs : Oodle1Bitstream.t) :
  Consume minZ spanZ one bs <> OutOfFuel.
Proof.
  unfold Consume. apply bind_budget; [apply udiv_budget|]. intros scale _.
  destruct (minZ <? u32 (one - spanZ)); discriminate.
Qed.

Lemma Get_budget (one : Z) (bs : Oodle1Bitstream.t) : Get one bs <> OutOfFuel.
Proof.
  unfold Get. apply bind_budget; [apply Ingest_budget|]. intros bs1 _.
  apply bind_budget; [apply udiv_budget|]. intros scale _.
  apply bind_budget; [apply udiv_budget|]. intros q _.
  destruct (_ <? _); discriminate.
Qed.

Lemma Decode_scan_budget (z : Z) (d : Oodle1Decoder.t) (fuel : nat) :
  highestNormalizedSymbol d + 1 < 2 ^ 32 ->
  forall i,
    0 <= i ->
    (Z.to_nat (highestNormalizedSymbol d + 1 - i) <= fuel)%nat ->
    Decode_scan fuel i z d <> OutOfFuel.
Proof.
  intros H32. induction fuel as [|fuel IH]; intros i Hi Hfuel;
    rewrite Decode_scan_eq;
    (destruct (Z.leb_spec i (highestNormalizedSymbol d)) as [Hle|Hgt]; [|discriminate]);
    (apply bind_budget; [apply vget_budget|]); intros w _;
    (destruct (w >? z); [discriminate|]).
  - lia.
  - rewrite u32_id by lia. apply IH; lia.
Qed.

Lemma Decode_pending_budget (bs : Oodle1Bitstream.t) (d : Oodle1Decoder.t) :
  Decode_pending bs d <> OutOfFuel.
Proof.
  unfold Decode_pending. apply bind_budget; [apply Get_budget|]. intros [j bs1] _.
  apply bind_budget; [apply vget_budget|]. intros o _.
  apply bind_budget; [apply vset_budget|]. intros occ1 _.
  apply bind_budget; [apply vget_budget|]. intros s _. discriminate.
Qed.

Lemma Decode_learn_budget (bs : Oodle1Bitstream.t) (a : Z) (d : Oodle1Decoder.t) :
  Decode_learn bs a d <> OutOfFuel.
Proof.
  unfold Decode_learn. apply bind_budget; [apply Get_budget|]. intros [s bs1] _.
  apply bind_budget; [apply vset_budget|]. intros sym1 _.
  apply bind_budget; [apply vget_budget|]. intros o _.
  apply bind_budget; [apply vset_budget|]. intros occ1 _.
  cbv zeta. destruct (_ =? _); [|discriminate].
  apply bind_budget; [apply vget_budget|]. intros e _.
  apply bind_budget; [apply vset_budget|]. intros occ2 _. discriminate.
Qed.

Lemma Decode_renormalize_budget (d : Oodle1Decoder.t) :
  decoder_ok d -> Decode_renormalize d <> OutOfFuel.
Proof.
  intros [Hocc [Hdt Hri Hrri Hnrw Hbound] Hw].
  assert (Hren : forall d0, occurrences_ok d0 ->
            4 <= rapidRenormInterval d0 < renormInterval d0 ->
            128 <= renormInterval d0 <= 7548 ->
            totalOccurrence d0 < 2 ^ 16 ->
            Renormalize d0 <> OutOfFuel).
  { intros d0 Hocc0 Hrri0 Hri0 HT0.
    pose proof Hocc0 as [_ _ _ _ Hnn0 _ Htot0]. pose proof (sumZ_nonneg _ Hnn0).
    destruct (Z.eq_dec (totalOccurrence d0) 0) as [Hz|Hnz].
    - unfold Renormalize, udiv. rewrite Hz. simpl. discriminate.
    - destruct (Renormalize_total d0 Hocc0) as (d1 & Hr & _); try lia.
      rewrite Hr. discriminate. }
  unfold Decode_renormalize.
  destruct (totalOccurrence d >=? nextRenormWeight d); [|discriminate].
  destruct (totalOccurrence d >=? decayThreshold d).
  - destruct (Decay_total d Hocc) as (d0 & Hr & Hocc0 & Hfr & Hhalf); [lia|].
    rewrite Hr. simpl.
    destruct Hfr as ((_ & _ & Hri0 & _) & _ & _ & Hrri0 & _).
    apply Hren; try assumption; lia.
  - simpl. apply Hren; try assumption; lia.
Qed.

(** On a sound decoder, [Decode] either returns or meets undefined
    behaviour of the source (a read past the end of the input, an access
    outside a vector, a division by zero); the budgets given to its loops
    always suffice. *)
Lemma Decode_budget (bs : Oodle1Bitstream.t) (a : Z) (d : Oodle1Decoder.t) :
  decoder_ok d -> Decode bs a d <> OutOfFuel.
Proof.
  intros Hok. unfold Decode.
  apply bind_budget; [exact (Decode_renormalize_budget d Hok)|]. intros d1 Hren.
  destruct (Decode_renormalize_ok _ _ Hok Hren) as (Hocc1 & [Hn _ _] & _).
  pose proof Hocc1 as [_ _ H32 Hhls _ _ _].
  apply bind_budget; [apply Peek_budget|]. intros [z bs1] _.
  apply bind_budget; [apply Decode_scan_budget; lia|]. intros symbolIdx _.
  apply bind_budget; [apply vget_budget|]. intros w0 _.
  apply bind_budget; [apply vget_budget|]. intros w1 _.
  apply bind_budget; [apply Consume_budget|]. intros bs2 _.
  apply bind_budget; [apply vget_budget|]. intros o _.
  apply bind_budget; [apply vset_budget|]. intros occ1 _.
  cbv zeta. destruct (negb (symbolIdx =? 0)).
  - apply bind_budget; [apply vget_budget|]. intros s _. discriminate.
  - destruct (negb (_ =? _)); [|apply Decode_learn_budget].
    apply bind_budget; [apply Get_budget|]. intros [b bs3] _.
    destruct (negb (b =? 0)); [apply Decode_pending_budget | apply Decode_learn_budget].
Qed.

End Budgets.
(** * Further properties of the code *)

(** ** [Repeat]: the copy of a back-reference *)

Section Copies.

Import Oodle1Decompressor.

(** What a copy that returns has done: it read and wrote inside the
    buffer, and wrote nowhere else than at [output .. output + n). *)
Lemma Repeat_loop_Ok (n : nat) :
  forall mem output input mem',
    Repeat_loop n mem output input = Ok mem' ->
    length mem' = length mem /\
    (n <> 0%nat ->
     0 <= output /\ output + Z.of_nat n <= Z.of_nat (length mem) /\
     0 <= input /\ input + Z.of_nat n <= Z.of_nat (length mem)) /\
    (forall j : nat,
        Z.of_nat j < output \/ output + Z.of_nat n <= Z.of_nat j ->
        mem' !! j = mem !! j).
Proof.
  induction n as [|n IH]; intros mem output input mem' H; simpl in H.
  - injection H as <-. split; [reflexivity|]. split; [congruence | reflexivity].
  - apply bind_Ok in H as (b & Hb & H). apply vget_Ok in Hb as [Hi Hb].
    apply bind_Ok in H as (mem1 & Hm1 & H). apply vset_Ok in Hm1 as (Ho & Hlt & ->).
    apply lookup_lt_Some in Hb.
    apply IH in H as (Hlen & Hin & Hframe). rewrite length_insert in Hlen, Hin.
    split; [exact Hlen|]. split.
    + intros _. destruct n as [|n]; [lia|].
      destruct Hin as (? & ? & ? & ?); [congruence|]. lia.
    + intros j Hj. rewrite Hframe by lia.
      apply list_lookup_insert_ne. lia.
Qed.

Lemma succ_mod (i f : Z) :
  0 <= i -> 0 < f ->
  (i mod f = f - 1 /\ (i + 1) mod f = 0) \/
  (i mod f < f - 1 /\ (i + 1) mod f = i mod f + 1).
Proof.
  intros Hi Hf.
  pose proof (Z.mod_pos_bound i f Hf) as Hr.
  pose proof (Z.div_mod i f ltac:(lia)) as Hd.
  destruct (Z.eq_dec (i mod f) (f - 1)) as [Heq|Hne].
  - left. split; [exact Heq|].
    symmetry. apply (Z.mod_unique_pos _ _ (i / f + 1)); lia.
  - right. split; [lia|].
    symmetry. apply (Z.mod_unique_pos _ _ (i / f)); lia.
Qed.

Lemma Repeat_loop_periodic (n : nat) :
  forall mem output offset,
    1 <= offset <= output ->
    output + Z.of_nat n <= Z.of_nat (length mem) ->
    exists mem',
      Repeat_loop n mem output (output - offset) = Ok mem' /\
      forall i, 0 <= i < Z.of_nat n ->
        mem' !! Z.to_nat (output + i)
        = mem !! Z.to_nat (output - offset + i mod offset).
Proof.
  induction n as [|n IH]; intros mem output offset Hoff Hlen.
  - exists mem. split; [reflexivity|]. intros i Hi. lia.
  - cbn [Repeat_loop].
    assert (Hex : is_Some (mem !! Z.to_nat (output - offset)))
      by (apply lookup_lt_is_Some_2; lia).
    destruct Hex as [b Hb].
    rewrite (vget_in mem (output - offset) b); [|lia|exact Hb]. cbn [bind].
    rewrite vset_in by lia. cbn [bind].
    set (mem1 := <[Z.to_nat output := b]> mem).
    replace (output - offset + 1) with (output + 1 - offset) by lia.
    destruct (IH mem1 (output + 1) offset) as (mem' & Hr & Hper);
      [lia | unfold mem1; rewrite length_insert; lia |].
    exists mem'. split; [exact Hr|].
    intros i Hi.
    destruct (Repeat_loop_Ok _ _ _ _ _ Hr) as (_ & _ & Hframe).
    destruct (Z.eq_dec i 0) as [->|Hi0].
    + rewrite Z.mod_0_l by lia. rewrite !Z.add_0_r.
      rewrite Hframe by lia. unfold mem1.
      rewrite list_lookup_insert_eq by lia. symmetry. exact Hb.
    + replace (output + i) with (output + 1 + (i - 1)) by lia.
      rewrite Hper by lia.
      pose proof (Z.mod_pos_bound (i - 1) offset ltac:(lia)) as Hrange.
      destruct (succ_mod (i - 1) offset) as [[Hm Hm1]|[Hm Hm1]]; try lia;
        replace (i - 1 + 1) with i in Hm1 by lia; rewrite Hm1.
      * rewrite Hm.
        replace (output + 1 - offset + (offset - 1)) with output by lia.
        rewrite Z.add_0_r. unfold mem1.
        rewrite list_lookup_insert_eq by lia. symmetry. exact Hb.
      * unfold mem1. rewrite list_lookup_insert_ne by lia.
        f_equal. f_equal. lia.
Qed.

(** [Repeat] is the LZ77 copy: for an offset that reaches back inside the
    buffer it returns, and the [len] bytes it writes repeat the [offset]
    bytes before the output position periodically (a run-length fill when
    [offset] is 1, a plain copy when [offset >= len]); no other byte of
    the buffer changes. *)
Theorem Repeat_extends_periodically (mem : list Z) (output offset len : Z) :
  1 <= offset <= output ->
  0 <= len ->
  output + len <= Z.of_nat (length mem) ->
  exists mem',
    Repeat mem output offset len = Ok mem' /\
    length mem' = length mem /\
    (forall i, 0 <= i < len ->
       mem' !! Z.to_nat (output + i)
       = mem !! Z.to_nat (output - offset + i mod offset)) /\
    (forall j, 0 <= j -> j < output \/ output + len <= j ->
       mem' !! Z.to_nat j = mem !! Z.to_nat j).
Proof.
  intros Hoff Hlen Hin. unfold Repeat.
  destruct (Repeat_loop_periodic (Z.to_nat len) mem output offset) as (mem' & Hr & Hper);
    [exact Hoff | lia |].
  exists mem'. split; [exact Hr|].
  destruct (Repeat_loop_Ok _ _ _ _ _ Hr) as (Hl & _ & Hframe).
  split; [exact Hl|]. split.
  - intros i Hi. apply Hper. lia.
  - intros j Hj0 Hj. apply Hframe. lia.
Qed.

Lemma Repeat_extends_periodically_witness :
  1 <= 2 <= 4 /\ 0 <= 5 /\ 4 + 5 <= Z.of_nat (length sample_buffer) /\
  exists mem',
    Repeat sample_buffer 4 2 5 = Ok mem' /\
    length mem' = length sample_buffer /\
    (forall i, 0 <= i < 5 ->
       mem' !! Z.to_nat (4 + i)
       = sample_buffer !! Z.to_nat (4 - 2 + i mod 2)) /\
    (forall j, 0 <= j -> j < 4 \/ 4 + 5 <= j ->
       mem' !! Z.to_nat j = sample_buffer !! Z.to_nat j).
Proof.
  assert (H1 : 1 <= 2 <= 4) by lia.
  assert (H2 : 0 <= 5) by lia.
  assert (H3 : 4 + 5 <= Z.of_nat (length sample_buffer)) by (simpl; lia).
  repeat (split; [assumption|]).
  exact (Repeat_extends_periodically sample_buffer 4 2 5 H1 H2 H3).
Defined.

End Copies.


(** ** [Decompress]: every call makes progress and writes only its own bytes *)

Section Progress.

Import Oodle1Decompressor.

Lemma RepeatLengthTable_tail :
  Forall (fun len => 2 <= len <= 512) (tail RepeatLengthTable).
Proof. simpl. repeat (constructor; [lia|]). constructor. Qed.

Lemma RepeatLengthTable_backref (lenCode len : Z) :
  lenCode <> 0 ->
  vget RepeatLengthTable lenCode = Ok len ->
  2 <= len <= 512 /\ 1 <= lenCode <= 64.
Proof.
  intros Hnz [H0 Hl]%vget_Ok.
  pose proof (lookup_lt_Some _ _ _ Hl) as Hlt.
  change (length RepeatLengthTable) with 65%nat in Hlt.
  split; [|lia].
  assert (Hk : Z.to_nat lenCode = S (Z.to_nat (lenCode - 1))) by lia.
  rewrite Hk in Hl.
  change RepeatLengthTable with (0 :: tail RepeatLengthTable) in Hl.
  rewrite lookup_cons in Hl.
  exact (Forall_lookup_1 _ _ _ _ RepeatLengthTable_tail Hl).
Qed.

Lemma Decompress_lenCode_fields (bs bs1 : Oodle1Bitstream.t)
      (D D1 : Oodle1Decompressor.t) (lenCode : Z) :
  Decompress_lenCode bs D = Ok (lenCode, bs1, D1) ->
  lastRepeatCode D1 = lenCode /\ bytesOutput D1 = bytesOutput D /\
  windowSize D1 = windowSize D.
Proof.
  unfold Decompress_lenCode. intros H.
  apply bind_Ok in H as (decoder & _ & H).
  apply bind_Ok in H as ([[c bs0] decoder'] & _ & H).
  apply bind_Ok in H as (len & _ & H).
  injection H as <- _ <-. auto.
Qed.

Lemma Decompress_literal_fields (bs bs1 : Oodle1Bitstream.t)
      (D D1 : Oodle1Decompressor.t) (lit : Z) :
  Decompress_literal bs D = Ok (lit, bs1, D1) ->
  lastRepeatCode D1 = lastRepeatCode D /\ bytesOutput D1 = u32 (bytesOutput D + 1) /\
  windowSize D1 = windowSize D.
Proof.
  unfold Decompress_literal. intros H.
  apply bind_Ok in H as (decoder & _ & H).
  apply bind_Ok in H as ([[c bs0] decoder'] & _ & H).
  apply bind_Ok in H as (lits & _ & H).
  injection H as _ _ <-. auto.
Qed.

Lemma Decompress_backref_fields (bs bs1 : Oodle1Bitstream.t)
      (D D1 : Oodle1Decompressor.t) (lenCode len offset : Z) :
  Decompress_backref lenCode bs D = Ok (len, offset, bs1, D1) ->
  vget RepeatLengthTable lenCode = Ok len /\
  lastRepeatCode D1 = lastRepeatCode D /\ bytesOutput D1 = u32 (bytesOutput D + len) /\
  windowSize D1 = windowSize D.
Proof.
  unfold Decompress_backref. intros H.
  apply bind_Ok in H as (len0 & Hl & H).
  apply bind_Ok in H as ([[r1 b1] d1] & _ & H).
  apply bind_Ok in H as ([[off1k b2] d2] & _ & H).
  apply bind_Ok in H as (decoder & _ & H).
  apply bind_Ok in H as ([[off4 b3] d3] & _ & H).
  apply bind_Ok in H as (off4s & _ & H).
  injection H as <- _ _ <-. auto.
Qed.

(** A [Decompress] that returns has produced between 1 and 512 bytes: one
    literal, or a back-reference whose length is the table entry of the
    non-zero length code it left in [lastRepeatCode].  [bytesOutput] has
    advanced by the returned count, the bytes written are exactly those at
    [output .. output + n), which lie inside the caller's buffer, and no
    other byte of the buffer has changed. *)
Theorem Decompress_advances
    (bs bs' : Oodle1Bitstream.t) (D D' : Oodle1Decompressor.t)
    (mem mem' : list Z) (output n : Z) :
  Decompress bs D mem output = Ok (n, bs', D', mem') ->
  1 <= n <= 512 /\
  (n = 1 /\ lastRepeatCode D' = 0 \/
   lastRepeatCode D' <> 0 /\
   RepeatLengthTable !! Z.to_nat (lastRepeatCode D') = Some n) /\
  bytesOutput D' = u32 (bytesOutput D + n) /\
  length mem' = length mem /\
  0 <= output /\ output + n <= Z.of_nat (length mem) /\
  (forall j, 0 <= j -> j < output \/ output + n <= j ->
     mem' !! Z.to_nat j = mem !! Z.to_nat j).
Proof.
  unfold Decompress. intros H.
  apply bind_Ok in H as ([[lenCode bs1] D1] & Hlen & H).
  apply Decompress_lenCode_fields in Hlen as (Hc1 & Hb1 & _).
  destruct (Z.eqb_spec lenCode 0) as [Hz|Hnz].
  - apply bind_Ok in H as ([[lit bs2] D2] & Hlit & H).
    apply Decompress_literal_fields in Hlit as (Hc2 & Hb2 & _).
    apply bind_Ok in H as (m & Hset & H). injection H as <- _ <- <-.
    apply vset_Ok in Hset as (Ho & Hlt & ->).
    split; [lia|]. split; [left; split; [reflexivity | congruence]|].
    split; [congruence|]. split; [apply length_insert|].
    split; [exact Ho|]. split; [lia|].
    intros j Hj0 Hj. apply list_lookup_insert_ne. lia.
  - apply bind_Ok in H as ([[[len offset] bs2] D2] & Hback & H).
    apply Decompress_backref_fields in Hback as (Htab & Hc2 & Hb2 & _).
    apply bind_Ok in H as (m & Hrep & H). injection H as <- _ <- <-.
    destruct (RepeatLengthTable_backref _ _ Hnz Htab) as [Hrange Hcode].
    unfold Repeat in Hrep.
    apply Repeat_loop_Ok in Hrep as (Hl & Hin & Hframe).
    destruct Hin as (Ho & Hend & _); [lia|].
    split; [lia|]. split.
    { right. split; [congruence|]. rewrite Hc2, Hc1.
      apply vget_Ok in Htab as [_ Htab]. exact Htab. }
    split; [congruence|]. split; [exact Hl|].
    split; [exact Ho|]. split; [lia|].
    intros j Hj0 Hj. apply Hframe. lia.
Qed.

Lemma Decompress_advances_witness :
  let n := fst (fst (fst sample_after_Decompress)) in
  let D' := snd (fst sample_after_Decompress) in
  let mem' := snd sample_after_Decompress in
  Decompress sample_bitstream sample_decompressor sample_buffer 4
    = Ok sample_after_Decompress /\
  1 <= n <= 512 /\
  bytesOutput D' = u32 (bytesOutput sample_decompressor + n) /\
  length mem' = length sample_buffer.
Proof.
  intros n D' mem'.
  assert (H : Decompress sample_bitstream sample_decompressor sample_buffer 4
              = Ok (n, snd (fst (fst sample_after_Decompress)), D', mem'))
    by (vm_compute; reflexivity).
  split; [vm_compute; reflexivity|].
  destruct (Decompress_advances _ _ _ _ _ _ _ _ H) as (Hn & _ & Hb & Hl & _).
  auto.
Defined.

End Progress.


(** ** The bitstream as a range coder *)

Section RangeCoder.

Lemma small_testbit (b n k : Z) :
  0 <= b < 2 ^ n -> 0 <= n <= k -> Z.testbit b k = false.
Proof.
  intros Hb Hk. apply Z.testbit_false; [lia|].
  assert (Hle : 2 ^ n <= 2 ^ k) by (apply Z.pow_le_mono_r; lia).
  rewrite Z.div_small by lia. reflexivity.
Qed.

Lemma lor_shifted (a b n : Z) :
  0 <= n -> 0 <= b < 2 ^ n -> Z.lor (a * 2 ^ n) b = a * 2 ^ n + b.
Proof.
  intros Hn Hb. rewrite <- Z.add_lor_land.
  assert (Hz : Z.land (a * 2 ^ n) b = 0).
  { apply Z.bits_inj'. intros k Hk. rewrite Z.land_spec, Z.bits_0.
    destruct (Z.lt_ge_cases k n) as [Hlt|Hge].
    - rewrite <- Z.shiftl_mul_pow2 by lia.
      rewrite Z.shiftl_spec_low by lia. reflexivity.
    - rewrite (small_testbit b n k) by lia. apply andb_false_r. }
  rewrite Hz. lia.
Qed.

(** One round of the loop of [Ingest]: a whole byte enters the register. *)
Lemma Ingest_round (sr_ m lsb_ b : Z) :
  0 <= sr_ < m -> m <= 0x800000 -> 0 <= lsb_ <= 1 -> 0 <= b < 2 ^ 8 ->
  let sr1 := Z.lor (u32 (Z.shiftl sr_ 1)) lsb_ in
  let sr2 := Z.lor (u32 (Z.shiftl sr1 7)) (Z.shiftr b 1) in
  2 * sr2 + Z.land b 1 = (2 * sr_ + lsb_) * 256 + b /\
  0 <= sr2 < m * 256 /\ 0 <= Z.land b 1 <= 1 /\
  u32 (Z.shiftl m 8) = m * 256.
Proof.
  intros Hsr Hm Hl Hb. cbv zeta.
  rewrite !Z.shiftl_mul_pow2 by lia. rewrite Z.shiftr_div_pow2 by lia.
  change (Z.land b 1) with (Z.land b (Z.ones 1)). rewrite Z.land_ones by lia.
  pose proof (Z.div_mod b (2 ^ 1) ltac:(lia)) as Hd.
  pose proof (Z.mod_pos_bound b (2 ^ 1) ltac:(lia)) as Hr.
  assert (Hq : 0 <= b / 2 ^ 1 < 2 ^ 7).
  { split; [apply Z.div_pos; lia | apply Z.div_lt_upper_bound; lia]. }
  rewrite (u32_id (sr_ * 2 ^ 1)) by lia.
  rewrite (lor_shifted sr_ lsb_ 1) by lia.
  rewrite (u32_id ((sr_ * 2 ^ 1 + lsb_) * 2 ^ 7)) by lia.
  rewrite (lor_shifted _ (b / 2 ^ 1) 7) by lia.
  rewrite (u32_id (m * 2 ^ 8)) by lia.
  lia.
Qed.

Lemma bytes_value_snoc (acc b : Z) (l : list Z) :
  bytes_value (acc * 256 + b) l = bytes_value acc (b :: l).
Proof. reflexivity. Qed.

Lemma Ingest_loop_coder (inp : list Z) :
  forall sr_ m lsb_ bs',
    Forall (fun b => 0 <= b < 2 ^ 8) inp ->
    0 <= sr_ < m -> m < 2 ^ 32 -> 0 <= lsb_ <= 1 ->
    Ingest_loop inp sr_ m lsb_ = Ok bs' ->
    exists k : nat,
      input bs' = drop k inp /\
      srModulus bs' = m * 256 ^ Z.of_nat k /\
      register bs' = bytes_value (2 * sr_ + lsb_) (take k inp) /\
      (k = 0%nat \/ m * 256 ^ (Z.of_nat k - 1) <= 0x800000) /\
      0x800000 < srModulus bs' /\
      coder_ok bs'.
Proof.
  induction inp as [|b rest IH]; intros sr_ m lsb_ bs' Hin Hsr Hm Hlsb;
    cbn [Ingest_loop];
    destruct (Z.leb_spec m 0x800000) as [Hle|Hgt]; try discriminate;
    try (intros H; injection H as <-; exists 0%nat; unfold register, coder_ok,
         bitstream_typed; simpl; rewrite ?Z.mul_1_r;
         repeat split; auto; lia).
  inversion Hin as [|b0 rest0 Hb Hrest]; subst b0 rest0.
  destruct (Ingest_round sr_ m lsb_ b Hsr Hle Hlsb Hb) as (Hreg & Hsr2 & Hl2 & Hm2).
  cbv zeta in Hreg, Hsr2. rewrite Hm2.
  intros H. apply IH in H as (k & Hi & HM & HR & Hmin & Hbig & Hok).
  2: assumption. 2: exact Hsr2. 2: (clear - Hle; lia). 2: exact Hl2.
  exists (S k). rewrite Nat2Z.inj_succ, Z.pow_succ_r by lia.
  split; [exact Hi|]. split; [lia|].
  split; [rewrite HR, Hreg; reflexivity|].
  split; [|split; assumption].
  right. replace (Z.succ (Z.of_nat k) - 1) with (Z.of_nat k) by lia.
  destruct k as [|k]; [simpl; lia|].
  destruct Hmin as [Hk|Hmin]; [discriminate|].
  rewrite Nat2Z.inj_succ in *.
  replace (Z.succ (Z.of_nat k) - 1) with (Z.of_nat k) in Hmin by lia.
  rewrite Z.pow_succ_r by lia. lia.
Qed.

Lemma Ingest_loop_returns (n : nat) :
  forall inp sr_ m lsb_,
    0 <= m ->
    0x800000 < m * 256 ^ Z.of_nat n ->
    (n <= length inp)%nat ->
    exists bs', Ingest_loop inp sr_ m lsb_ = Ok bs'.
Proof.
  induction n as [|n IH]; intros inp sr_ m lsb_ Hm0 Hbig Hlen.
  - change (256 ^ Z.of_nat 0) with 1 in Hbig.
    destruct inp; simpl; destruct (Z.leb_spec m 0x800000); try lia; eexists; reflexivity.
  - destruct inp as [|b rest]; [simpl in Hlen; lia|]. simpl.
    destruct (Z.leb_spec m 0x800000) as [Hle|Hgt]; [|eexists; reflexivity].
    apply IH.
    + apply u32_range.
    + rewrite Z.shiftl_mul_pow2 by lia. rewrite u32_id by lia.
      rewrite Nat2Z.inj_succ, Z.pow_succ_r in Hbig by lia. lia.
    + simpl in Hlen. lia.
Qed.

Lemma Ingest_coder (bs bs' : Oodle1Bitstream.t) :
  coder_ok bs -> Ingest bs = Ok bs' ->
  exists k : nat,
    (k <= 3)%nat /\
    input bs' = drop k (input bs) /\
    srModulus bs' = srModulus bs * 256 ^ Z.of_nat k /\
    register bs' = bytes_value (register bs) (take k (input bs)) /\
    (k = 0%nat \/ srModulus bs * 256 ^ (Z.of_nat k - 1) <= 0x800000) /\
    0x800000 < srModulus bs' /\
    coder_ok bs'.
Proof.
  intros [(Hin & Hsr & Hm & Hlsb) Hlt] H. unfold Ingest in H.
  apply Ingest_loop_coder in H as (k & Hi & HM & HR & Hmin & Hbig & Hok);
    [|assumption|lia|lia|lia].
  exists k. repeat split; try assumption; try apply Hok.
  destruct Hmin as [->|Hmin]; [lia|].
  destruct (le_lt_dec k 3) as [|Hk]; [assumption|exfalso].
  assert (Hp : 256 ^ 3 <= 256 ^ (Z.of_nat k - 1)) by (apply Z.pow_le_mono_r; lia).
  nia.
Qed.

Lemma Ingest_returns (bs : Oodle1Bitstream.t) :
  coder_ok bs -> (3 <= length (input bs))%nat -> exists bs', Ingest bs = Ok bs'.
Proof.
  intros [(Hin & Hsr & Hm & Hlsb) Hlt] Hlen. unfold Ingest.
  apply (Ingest_loop_returns 3); [lia | | exact Hlen].
  change (256 ^ Z.of_nat 3) with 16777216. lia.
Qed.

Lemma Ingest_settled (bs : Oodle1Bitstream.t) :
  0x800000 < srModulus bs -> Ingest bs = Ok bs.
Proof.
  intros Hbig. unfold Ingest. destruct bs as [inp s m l]. simpl in *.
  destruct inp; simpl; destruct (Z.leb_spec m 0x800000); try lia; reflexivity.
Qed.

(** [Ingest] shifts whole bytes of the input into the register until the
    modulus exceeds [0x800000]: the [k] bytes it reads, at most three, are
    appended to the code value and the modulus is multiplied by [256^k],
    where [k] is the least number that makes the modulus large enough.
    The register stays below the modulus, a second [Ingest] changes
    nothing, and when three bytes of input remain [Ingest] returns. *)
Theorem Ingest_shifts_whole_bytes (bs : Oodle1Bitstream.t) :
  coder_ok bs ->
  ((3 <= length (input bs))%nat -> exists bs', Ingest bs = Ok bs') /\
  (forall bs', Ingest bs = Ok bs' ->
     exists k : nat,
       (k <= 3)%nat /\
       input bs' = drop k (input bs) /\
       srModulus bs' = srModulus bs * 256 ^ Z.of_nat k /\
       register bs' = bytes_value (register bs) (take k (input bs)) /\
       (k = 0%nat \/ srModulus bs * 256 ^ (Z.of_nat k - 1) <= 0x800000) /\
       0x800000 < srModulus bs' /\
       coder_ok bs' /\
       Ingest bs' = Ok bs').
Proof.
  intros Hok. split; [exact (Ingest_returns bs Hok)|].
  intros bs' H.
  destruct (Ingest_coder bs bs' Hok H) as (k & Hk & Hi & HM & HR & Hmin & Hbig & Hok').
  exists k. repeat split; try assumption; try apply Hok'.
  exact (Ingest_settled bs' Hbig).
Qed.

Lemma sample_bitstream_coder : coder_ok sample_bitstream.
Proof.
  split; [|simpl; lia].
  unfold bitstream_typed. simpl.
  repeat split; try lia. repeat (constructor; [lia|]). constructor.
Qed.

Lemma Ingest_shifts_whole_bytes_witness :
  coder_ok sample_bitstream /\
  exists bs', Ingest sample_bitstream = Ok bs' /\
    exists k : nat,
      (k <= 3)%nat /\
      input bs' = drop k (input sample_bitstream) /\
      srModulus bs' = srModulus sample_bitstream * 256 ^ Z.of_nat k /\
      register bs' = bytes_value (register sample_bitstream)
                       (take k (input sample_bitstream)).
Proof.
  split; [exact sample_bitstream_coder|].
  destruct (proj1 (Ingest_shifts_whole_bytes sample_bitstream sample_bitstream_coder))
    as (bs' & H); [simpl; lia|].
  exists bs'. split; [exact H|].
  destruct (proj2 (Ingest_shifts_whole_bytes sample_bitstream sample_bitstream_coder) bs' H)
    as (k & Hk & Hi & HM & HR & _).
  exists k. auto.
Defined.

(** The slot of the register in a modulus cut into [one] parts. *)
Lemma slot_bounds (s m one : Z) :
  0 <= s < m -> 1 <= one -> m / one <> 0 ->
  1 <= m / one /\ one * (m / one) <= m /\
  0 <= Z.min (s / (m / one)) (one - 1) <= one - 1 /\
  Z.min (s / (m / one)) (one - 1) * (m / one) <= s /\
  (Z.min (s / (m / one)) (one - 1) < one - 1 ->
   s < (Z.min (s / (m / one)) (one - 1) + 1) * (m / one)).
Proof.
  intros Hs Hone Hnz.
  assert (H0 : 0 <= m / one) by (apply Z.div_pos; lia).
  set (scale := m / one) in *.
  assert (Hscale : 1 <= scale) by lia.
  pose proof (Z.mul_div_le m one ltac:(lia)) as Hle. fold scale in Hle.
  pose proof (Z.div_mod s scale ltac:(lia)) as Hd.
  pose proof (Z.mod_pos_bound s scale ltac:(lia)) as Hr.
  assert (Hq : 0 <= s / scale) by (apply Z.div_pos; lia).
  set (q := s / scale) in *.
  split; [exact Hscale|]. split; [exact Hle|].
  split; [lia|]. split.
  - assert (Z.min q (one - 1) * scale <= q * scale)
      by (apply Z.mul_le_mono_nonneg_r; lia).
    lia.
  - intros Hlt. rewrite Z.min_l in * by lia. lia.
Qed.

Lemma Peek_coder (one z : Z) (bs bs1 : Oodle1Bitstream.t) :
  coder_ok bs -> 1 <= one < 2 ^ 32 ->
  Peek one bs = Ok (z, bs1) ->
  Ingest bs = Ok bs1 /\ coder_ok bs1 /\ 0x800000 < srModulus bs1 /\
  1 <= srModulus bs1 / one /\ one * (srModulus bs1 / one) <= srModulus bs1 /\
  0 <= z <= one - 1 /\
  z * (srModulus bs1 / one) <= sr bs1 /\
  (z < one - 1 -> sr bs1 < (z + 1) * (srModulus bs1 / one)).
Proof.
  intros Hok Hone H. unfold Peek in H.
  apply bind_Ok in H as (b1 & Hi & H).
  destruct (Ingest_coder _ _ Hok Hi) as (k & _ & _ & _ & _ & _ & Hbig & Hok1).
  apply bind_Ok in H as (scale & Hs & H). apply udiv_Ok in Hs as [_ ->].
  apply bind_Ok in H as (q & Hq & H). apply udiv_Ok in Hq as [Hnz ->].
  rewrite (u32_id (one - 1)) in H by lia.
  injection H as <- <-.
  destruct Hok1 as [(Hin & Hsr & Hm & Hlsb) Hlt].
  destruct (slot_bounds (sr b1) (srModulus b1) one) as (? & ? & ? & ? & ?);
    [lia | lia | exact Hnz |].
  repeat split; try assumption; lia.
Qed.

Lemma Consume_coder (minZ spanZ one z : Z) (bs bs' : Oodle1Bitstream.t) :
  coder_ok bs -> 1 <= one < 2 ^ 32 ->
  1 <= srModulus bs / one ->
  one * (srModulus bs / one) <= srModulus bs ->
  0 <= minZ <= z -> z < minZ + spanZ <= one ->
  z * (srModulus bs / one) <= sr bs ->
  (z < one - 1 -> sr bs < (z + 1) * (srModulus bs / one)) ->
  Consume minZ spanZ one bs = Ok bs' ->
  coder_ok bs' /\ srModulus bs / one <= srModulus bs' /\
  input bs' = input bs /\ lsb bs' = lsb bs /\
  sr bs' = sr bs - minZ * (srModulus bs / one).
Proof.
  intros [(Hin & Hsr & Hm & Hlsb) Hlt] Hone Hscale Hle Hmin Hspan Hlow Hhigh H.
  unfold Consume in H.
  apply bind_Ok in H as (scale & Hs & H). apply udiv_Ok in Hs as [_ ->].
  set (scale := srModulus bs / one) in *.
  assert (Hms : 0 <= minZ * scale <= z * scale)
    by (split; [apply Z.mul_nonneg_nonneg; lia | apply Z.mul_le_mono_nonneg_r; lia]).
  assert (Hos : (minZ + spanZ) * scale <= one * scale)
    by (apply Z.mul_le_mono_nonneg_r; lia).
  rewrite (u32_id (minZ * scale)) in H by lia.
  rewrite (u32_id (one - spanZ)) in H by lia.
  rewrite (u32_id (sr bs - minZ * scale)) in H by lia.
  destruct (Z.ltb_spec minZ (one - spanZ)) as [Hb|Hb]; injection H as <-;
    unfold coder_ok, bitstream_typed; simpl.
  - assert (Hz1 : (z + 1) * scale <= (minZ + spanZ) * scale)
      by (apply Z.mul_le_mono_nonneg_r; lia).
    assert (Hsp : 1 * scale <= spanZ * scale)
      by (apply Z.mul_le_mono_nonneg_r; lia).
    rewrite (u32_id (spanZ * scale)) by lia.
    repeat split; try assumption; try lia.
  - assert (Hsp : (minZ + 1) * scale <= (minZ + spanZ) * scale)
      by (apply Z.mul_le_mono_nonneg_r; lia).
    rewrite !(u32_id (srModulus bs - minZ * scale)) by lia.
    repeat split; try assumption; try lia.
Qed.

Lemma Get_coder (one z : Z) (bs bs' : Oodle1Bitstream.t) :
  coder_ok bs -> 1 <= one < 2 ^ 32 ->
  Get one bs = Ok (z, bs') ->
  coder_ok bs' /\ 0 <= z < one /\
  exists bs1,
    Ingest bs = Ok bs1 /\
    1 <= srModulus bs1 / one /\
    z * (srModulus bs1 / one) <= sr bs1 /\
    (z < one - 1 -> sr bs1 < (z + 1) * (srModulus bs1 / one)) /\
    sr bs' = sr bs1 - z * (srModulus bs1 / one) /\
    srModulus bs1 / one <= srModulus bs' /\
    input bs' = input bs1 /\ lsb bs' = lsb bs1.
Proof.
  intros Hok Hone H. unfold Get in H.
  apply bind_Ok in H as (b1 & Hi & H).
  destruct (Ingest_coder _ _ Hok Hi) as (k & _ & _ & _ & _ & _ & Hbig & Hok1).
  apply bind_Ok in H as (scale & Hs & H). apply udiv_Ok in Hs as [_ ->].
  apply bind_Ok in H as (q & Hq & H). apply udiv_Ok in Hq as [Hnz ->].
  rewrite !(u32_id (one - 1)) in H by lia.
  destruct Hok1 as [(Hin & Hsr & Hm & Hlsb) Hlt].
  destruct (slot_bounds (sr b1) (srModulus b1) one) as (Hscale & Hle & Hz & Hlow & Hhigh);
    [lia | lia | exact Hnz |].
  set (scale := srModulus b1 / one) in *.
  set (z0 := Z.min (sr b1 / scale) (one - 1)) in *.
  assert (Hzs : 0 <= z0 * scale) by (apply Z.mul_nonneg_nonneg; lia).
  assert (Hzo : z0 * scale <= (one - 1) * scale)
    by (apply Z.mul_le_mono_nonneg_r; lia).
  rewrite (u32_id (z0 * scale)) in H by lia.
  rewrite (u32_id (sr b1 - z0 * scale)) in H by lia.
  destruct (Z.ltb_spec z0 (one - 1)) as [Hb|Hb]; injection H as <- <-;
    unfold coder_ok, bitstream_typed; simpl.
  - specialize (Hhigh Hb).
    split; [repeat split; try assumption; lia|]. split; [lia|].
    exists b1. repeat split; try assumption; try lia.
  - rewrite (u32_id (srModulus b1 - z0 * scale)) by lia.
    split; [repeat split; try assumption; lia|]. split; [lia|].
    exists b1. repeat split; try assumption; try lia.
Qed.

Lemma Get_returns (one : Z) (bs : Oodle1Bitstream.t) :
  coder_ok bs -> 1 <= one <= 0x800000 ->
  (3 <= length (input bs))%nat ->
  exists z bs', Get one bs = Ok (z, bs').
Proof.
  intros Hok Hone Hlen. unfold Get.
  destruct (Ingest_returns bs Hok Hlen) as (b1 & Hi). rewrite Hi. cbn [bind].
  destruct (Ingest_coder _ _ Hok Hi) as (k & _ & _ & _ & _ & _ & Hbig & Hok1).
  assert (Hscale : 1 <= srModulus b1 / one)
    by (apply Z.div_le_lower_bound; lia).
  unfold udiv at 1.
  destruct (Z.eqb_spec one 0) as [|_]; [lia|]. cbn [bind].
  unfold udiv.
  destruct (Z.eqb_spec (srModulus b1 / one) 0) as [|_]; [lia|]. cbn [bind].
  destruct (_ <? _); eexists; eexists; reflexivity.
Qed.

(** [Get(one)] returns the slot [z < one] in which the register lies when
    the modulus is cut into [one] parts of [scale = M / one] (the last
    part takes the remainder), and removes [z * scale] from the register
    without wrapping around; the register stays below the new modulus,
    which is at least [scale].  With three bytes of input left and
    [one <= 0x800000], [Get] returns. *)
Theorem Get_keeps_coder (one : Z) (bs : Oodle1Bitstream.t) :
  coder_ok bs -> 1 <= one < 2 ^ 32 ->
  (one <= 0x800000 -> (3 <= length (input bs))%nat ->
   exists z bs', Get one bs = Ok (z, bs')) /\
  (forall z bs', Get one bs = Ok (z, bs') ->
     coder_ok bs' /\ 0 <= z < one /\
     exists bs1,
       Ingest bs = Ok bs1 /\
       1 <= srModulus bs1 / one /\
       z * (srModulus bs1 / one) <= sr bs1 /\
       (z < one - 1 -> sr bs1 < (z + 1) * (srModulus bs1 / one)) /\
       sr bs' = sr bs1 - z * (srModulus bs1 / one) /\
       srModulus bs1 / one <= srModulus bs' /\
       input bs' = input bs1 /\ lsb bs' = lsb bs1).
Proof.
  intros Hok Hone. split.
  - intros Hsmall Hlen. apply Get_returns; [exact Hok | lia | exact Hlen].
  - intros z bs' H. exact (Get_coder one z bs bs' Hok Hone H).
Qed.

Lemma Get_keeps_coder_witness :
  coder_ok sample_bitstream /\ 1 <= 65 < 2 ^ 32 /\
  exists z bs', Get 65 sample_bitstream = Ok (z, bs') /\
    coder_ok bs' /\ 0 <= z < 65.
Proof.
  assert (H1 : 1 <= 65 < 2 ^ 32) by lia.
  split; [exact sample_bitstream_coder|]. split; [exact H1|].
  destruct (proj1 (Get_keeps_coder 65 sample_bitstream sample_bitstream_coder H1))
    as (z & bs' & H); [lia | simpl; lia |].
  exists z, bs'. split; [exact H|].
  destruct (proj2 (Get_keeps_coder 65 sample_bitstream sample_bitstream_coder H1) z bs' H)
    as (Hok & Hz & _).
  auto.
Defined.

End RangeCoder.


(** ** [Decode] keeps the range coder sound *)

Section DecodeCoder.

Lemma Renormalize_for_weight_0 (fuel : nat) :
  forall (idx acc quanta : Z) (d d' : Oodle1Decoder.t),
    1 <= idx -> highestLearnedSymbol d + 1 < 2 ^ 32 ->
    Renormalize_for fuel idx acc quanta d = Ok d' ->
    symbolWeights d' !! 0%nat = symbolWeights d !! 0%nat.
Proof.
  induction fuel as [|fuel IH]; intros idx acc quanta d d' Hidx H32 H;
    rewrite Renormalize_for_eq in H;
    destruct (Z.leb_spec idx (highestLearnedSymbol d)) as [Hle|Hgt]; try discriminate;
    try (injection H as <-; reflexivity).
  apply bind_Ok in H as (w & Hw & H). apply vset_Ok in Hw as (_ & _ & ->).
  apply bind_Ok in H as (o & _ & H).
  rewrite (u32_id (idx + 1)) in H by lia.
  apply IH in H; [|lia|simpl; lia]. rewrite H. simpl.
  apply list_lookup_insert_ne. lia.
Qed.

(** The weights [Renormalize] writes. *)
Lemma Renormalize_based (d : Oodle1Decoder.t) :
  occurrences_ok d ->
  0 < totalOccurrence d ->
  totalOccurrence d < 2 ^ 16 ->
  forall d', Renormalize d = Ok d' -> weights_based d'.
Proof.
  intros Hok Hpos HT d' H. pose proof Hok as [Hls Hlw H32 Hhls Hnn Htail Htot].
  unfold Renormalize in H.
  apply bind_Ok in H as (quanta & Hq & H). apply udiv_Ok in Hq as [_ ->].
  set (quanta := 0x20000 / totalOccurrence d) in *.
  assert (Hq : 0 <= quanta) by (apply Z.div_pos; lia).
  assert (Hqt : quanta * totalOccurrence d <= 0x20000).
  { rewrite Z.mul_comm. apply Z.mul_div_le. lia. }
  apply bind_Ok in H as (w0 & Hw0 & H). apply vset_Ok in Hw0 as (_ & Hlt0 & ->).
  apply bind_Ok in H as (o0 & Ho0 & H). apply vget_Ok in Ho0 as [_ Ho0].
  pose proof (lookup_le_sumZ _ _ _ Hnn Ho0) as Hob.
  pose proof (sumZ_drop_S _ _ _ Ho0) as HD.
  change (Z.to_nat 0) with 0%nat in *. rewrite drop_0 in HD.
  assert (Hrest : 0 <= sumZ (drop 1 (symbolOccurrences d))).
  { apply sumZ_nonneg, Forall_drop. exact Hnn. }
  assert (Hoq : 0 <= o0 * quanta <= 0x20000) by nia.
  assert (Hdiv : 0 <= o0 * quanta / 8 /\ 8 * (o0 * quanta / 8) <= o0 * quanta).
  { split; [apply Z.div_pos; lia | apply Z.mul_div_le; lia]. }
  rewrite (u32_id (o0 * quanta)) in H by lia.
  set (d0 := set_symbolWeights d (<[0%nat := 0]> (symbolWeights d))) in *.
  assert (Hok0 : occurrences_ok d0).
  { apply occurrences_ok_set_symbolWeights; [exact Hok | apply length_insert]. }
  assert (Hinv0 : renorm_inv quanta 1 (o0 * quanta / 8) d0).
  { constructor; unfold d0; simpl; change (Z.to_nat 1) with 1%nat.
    - lia.
    - nia.
    - intros j x Hj Hl. replace (Z.to_nat j) with 0%nat in Hl by lia.
      rewrite list_lookup_insert_eq in Hl by lia. injection Hl as <-. lia.
    - intros j x y Hj0 Hj. lia. }
  apply bind_Ok in H as (d1 & Hfor & H).
  destruct (Renormalize_for_total quanta (Z.to_nat (highestLearnedSymbol d)) Hq
              1 (o0 * quanta / 8) d0 Hok0 Hinv0) as (w & acc & Hrun & Hlen & Hfin);
    [unfold d0; simpl; lia | unfold d0; simpl; lia |].
  pose proof Hfor as Hzero.
  apply Renormalize_for_weight_0 in Hzero; [|lia|unfold d0; simpl; lia].
  change (highestLearnedSymbol (set_symbolWeights d (<[0%nat:=0]> (symbolWeights d))))
    with (highestLearnedSymbol d) in *.
  rewrite Hrun in Hfor. injection Hfor as <-.
  destruct Hfin as [Hacc Hbud Hbelow Hsorted]. unfold d0 in *. simpl in *.
  rewrite length_insert in Hlen.
  rewrite list_lookup_insert_eq in Hzero by lia.
  assert (Hz : sumZ (drop (Z.to_nat (highestLearnedSymbol d + 1)) (symbolOccurrences d)) = 0).
  { apply sumZ_drop_zero. intros i x Hi Hx.
    apply (Htail (Z.of_nat i) x); [lia|]. rewrite Nat2Z.id. exact Hx. }
  rewrite Hz in Hbud.
  assert (Hk : (Z.to_nat (highestLearnedSymbol d + 1) <= length w)%nat) by lia.
  assert (Hfill : forall wf,
             wf = take (Z.to_nat (highestLearnedSymbol d + 1)) w ++
                  replicate (length w - Z.to_nat (highestLearnedSymbol d + 1)) One ->
             wf !! 0%nat = Some 0 /\ Forall (fun x => 0 <= x <= One) wf).
  { intros wf ->. split.
    - rewrite lookup_fill_lt by lia. exact Hzero.
    - apply Forall_app. split.
      + apply Forall_lookup_2. intros i x Hx.
        apply lookup_take_Some in Hx as [Hx Hi].
        assert (Hr : 0 <= Z.of_nat i < highestLearnedSymbol d + 1) by lia.
        specialize (Hbelow (Z.of_nat i) x Hr). rewrite Nat2Z.id in Hbelow.
        specialize (Hbelow Hx). unfold One. lia.
      + apply Forall_replicate. unfold One. lia. }
  destruct (u32 (rapidRenormInterval d * 2) <? renormInterval d);
    apply bind_Ok in H as (wf & Hwf & H); apply vfill_Ok in Hwf as (_ & _ & Hwf);
    injection H as <-; simpl in *; apply Hfill; exact Hwf.
Qed.

Lemma Decode_renormalize_based (d d1 : Oodle1Decoder.t) :
  decoder_ok d -> weights_based d ->
  Decode_renormalize d = Ok d1 -> weights_based d1.
Proof.
  intros [Hocc [Hdt Hri Hrri Hnrw Hbound] Hw] Hb H.
  pose proof Hocc as [Hls Hlw H32 Hhls Hnn Htail Htot].
  pose proof (sumZ_nonneg _ Hnn) as Hs.
  unfold Decode_renormalize in H.
  destruct (Z.geb_spec (totalOccurrence d) (nextRenormWeight d)) as [Hge|Hlt];
    [|injection H as <-; exact Hb].
  apply bind_Ok in H as (d0 & Hd0 & H).
  assert (Hpre : occurrences_ok d0 /\ totalOccurrence d0 <= 22710 /\
                 0 <= totalOccurrence d0).
  { destruct (Z.geb_spec (totalOccurrence d) (decayThreshold d)) as [Hged|Hltd].
    - destruct (Decay_total d Hocc) as (d0' & Hr & Hok0 & Hfr0 & Hhalf); [lia|].
      rewrite Hr in Hd0. injection Hd0 as <-.
      pose proof Hok0 as [_ _ _ _ Hnn0 _ Htot0].
      pose proof (sumZ_nonneg _ Hnn0).
      split; [exact Hok0|]. lia.
    - injection Hd0 as <-. split; [exact Hocc|]. lia. }
  destruct Hpre as (Hok0 & Hle0 & Hge0).
  pose proof (Renormalize_nonzero _ _ H) as Hnz.
  apply (Renormalize_based d0 Hok0); [lia | lia | exact H].
Qed.

Lemma Decode_pending_weights (bs bs' : Oodle1Bitstream.t) (d d' : Oodle1Decoder.t) (v : Z) :
  Decode_pending bs d = Ok (v, bs', d') -> symbolWeights d' = symbolWeights d.
Proof.
  unfold Decode_pending. intros H.
  apply bind_Ok in H as ([j bs1] & _ & H).
  apply bind_Ok in H as (o & _ & H). apply bind_Ok in H as (occ1 & _ & H).
  apply bind_Ok in H as (s & _ & H). injection H as _ _ <-. reflexivity.
Qed.

Lemma Decode_learn_weights (bs bs' : Oodle1Bitstream.t) (a v : Z) (d d' : Oodle1Decoder.t) :
  Decode_learn bs a d = Ok (v, bs', d') -> symbolWeights d' = symbolWeights d.
Proof.
  unfold Decode_learn. intros H.
  apply bind_Ok in H as ([symbol bs1] & _ & H).
  apply bind_Ok in H as (sym1 & _ & H). apply bind_Ok in H as (o & _ & H).
  apply bind_Ok in H as (occ1 & _ & H). simpl in H.
  destruct (_ =? _).
  - apply bind_Ok in H as (e & _ & H). apply bind_Ok in H as (occ2 & _ & H).
    injection H as _ _ <-. reflexivity.
  - injection H as _ _ <-. reflexivity.
Qed.

(** The slot the scan of [Decode] stops at owns the probe [z]. *)
Lemma Decode_scan_slot (z : Z) (d : Oodle1Decoder.t) (fuel : nat) :
  weights_tail_One d ->
  highestNormalizedSymbol d + 1 < 2 ^ 32 ->
  z < One ->
  forall i r,
    0 <= i <= highestNormalizedSymbol d ->
    (forall w, symbolWeights d !! Z.to_nat i = Some w -> w <= z) ->
    Decode_scan fuel i z d = Ok r ->
    (forall w0, symbolWeights d !! Z.to_nat r = Some w0 -> w0 <= z) /\
    (exists w1, symbolWeights d !! Z.to_nat (r + 1) = Some w1 /\ z < w1).
Proof.
  intros Htail H32 Hz.
  induction fuel as [|fuel IH]; intros i r Hi Hlow H; rewrite Decode_scan_eq in H;
    (destruct (Z.leb_spec i (highestNormalizedSymbol d)) as [_|]; [|lia]);
    apply bind_Ok in H as (w & Hw & H);
    rewrite u32_id in Hw by lia; apply vget_Ok in Hw as [_ Hw];
    destruct (Z.gtb_spec w z) as [Hgt|Hle]; try discriminate;
    try (injection H as <-; split; [exact Hlow | exists w; split; [exact Hw | lia]]).
  rewrite u32_id in H by lia.
  destruct (Z.eq_dec i (highestNormalizedSymbol d)) as [->|Hne].
  - assert (HwOne : w = One)
      by (apply (Htail (highestNormalizedSymbol d + 1) w); [lia | exact Hw]).
    lia.
  - apply IH in H; [exact H | lia |].
    intros w' Hw'. rewrite Hw in Hw'. injection Hw' as <-. exact Hle.
Qed.

Lemma Get_coder_0 (one z : Z) (bs bs' : Oodle1Bitstream.t) :
  coder_ok bs -> 0 <= one < 2 ^ 32 ->
  Get one bs = Ok (z, bs') -> coder_ok bs'.
Proof.
  intros Hok Hone H.
  destruct (Z.eq_dec one 0) as [->|Hnz].
  - unfold Get in H. apply bind_Ok in H as (b1 & _ & H).
    apply bind_Ok in H as (sc & Hsc & _). apply udiv_Ok in Hsc as [Hsc _]. lia.
  - exact (proj1 (Get_coder one z bs bs' Hok ltac:(lia) H)).
Qed.

Lemma Decode_pending_coder (bs bs' : Oodle1Bitstream.t) (d d' : Oodle1Decoder.t) (v : Z) :
  coder_ok bs ->
  Decode_pending bs d = Ok (v, bs', d') -> coder_ok bs'.
Proof.
  intros Hok H. unfold Decode_pending in H.
  apply bind_Ok in H as ([j bs1] & Hg & H).
  apply Get_coder_0 in Hg; [|exact Hok|apply u32_range].
  apply bind_Ok in H as (o & _ & H). apply bind_Ok in H as (occ1 & _ & H).
  apply bind_Ok in H as (s & _ & H). injection H as _ <- _. exact Hg.
Qed.

Lemma Decode_learn_coder (bs bs' : Oodle1Bitstream.t) (a v : Z) (d d' : Oodle1Decoder.t) :
  coder_ok bs -> 0 <= a < 2 ^ 32 ->
  Decode_learn bs a d = Ok (v, bs', d') -> coder_ok bs'.
Proof.
  intros Hok Ha H. unfold Decode_learn in H.
  apply bind_Ok in H as ([symbol bs1] & Hg & H).
  apply Get_coder_0 in Hg; [|exact Hok|exact Ha].
  apply bind_Ok in H as (sym1 & _ & H). apply bind_Ok in H as (o & _ & H).
  apply bind_Ok in H as (occ1 & _ & H). simpl in H.
  destruct (_ =? _).
  - apply bind_Ok in H as (e & _ & H). apply bind_Ok in H as (occ2 & _ & H).
    injection H as _ <- _. exact Hg.
  - injection H as _ <- _. exact Hg.
Qed.

(** A [Decode] that returns leaves the weight table based, whatever the
    bitstream; on a sound range coder it leaves a sound range coder. *)
Lemma Decode_coder (bs bs' : Oodle1Bitstream.t) (a v : Z) (d d' : Oodle1Decoder.t) :
  decoder_ok d -> weights_based d ->
  Decode bs a d = Ok (v, bs', d') ->
  weights_based d' /\ (coder_ok bs -> 0 <= a < 2 ^ 32 -> coder_ok bs').
Proof.
  intros Hok Hbased H. unfold Decode in H.
  apply bind_Ok in H as (d1 & Hren & H).
  pose proof (Decode_renormalize_based _ _ Hok Hbased Hren) as [Hw0 Hall].
  destruct (Decode_renormalize_ok _ _ Hok Hren)
    as (Hocc1 & Hw1 & Hs1 & Hlt1 & Hfr1 & Hdown).
  pose proof Hocc1 as [Hls Hlw H32 Hhls Hnn Htail Htot].
  pose proof Hw1 as [Hhlsn Hmono HtailOne].
  apply bind_Ok in H as ([z bs1] & Hpeek & H).
  apply bind_Ok in H as (symbolIdx & Hscan & H).
  apply bind_Ok in H as (w0 & Hg0 & H). apply vget_Ok in Hg0 as [_ Hg0].
  apply bind_Ok in H as (w1 & Hg1 & H). apply vget_Ok in Hg1 as [_ Hg1].
  apply bind_Ok in H as (bs2 & Hcons & H).
  apply bind_Ok in H as (o & Ho & H).
  apply bind_Ok in H as (occ1 & Hocc1' & H).
  set (d2 := set_totalOccurrence (set_symbolOccurrences d1 occ1)
               (u32 (totalOccurrence d1 + 1))) in *.
  assert (Hweights : symbolWeights d' = symbolWeights d1).
  { destruct (negb (symbolIdx =? 0)).
    - apply bind_Ok in H as (s & _ & H). injection H as _ _ <-. reflexivity.
    - destruct (negb (highestLearnedSymbol d2 =? highestNormalizedSymbol d2)).
      + apply bind_Ok in H as ([b bs3] & _ & H). destruct (negb (b =? 0)).
        * exact (Decode_pending_weights _ _ _ _ _ H).
        * exact (Decode_learn_weights _ _ _ _ _ _ H).
      + exact (Decode_learn_weights _ _ _ _ _ _ H). }
  split; [unfold weights_based; rewrite Hweights; auto|].
  intros Hcoder Ha.
  apply Peek_coder in Hpeek
    as (_ & Hok1 & Hbig & Hscale & Hle & Hz & Hlow & Hhigh);
    [|exact Hcoder|unfold One; lia].
  assert (HN32 : highestNormalizedSymbol d1 + 1 < 2 ^ 32) by lia.
  assert (Hz1 : z < One) by lia.
  assert (Hi0 : 0 <= 0 <= highestNormalizedSymbol d1) by lia.
  assert (Hstart : forall x, symbolWeights d1 !! Z.to_nat 0 = Some x -> x <= z).
  { intros x Hx. change (Z.to_nat 0) with 0%nat in Hx. rewrite Hw0 in Hx.
    injection Hx as <-. lia. }
  destruct (Decode_scan_slot z d1 _ HtailOne HN32 Hz1 0 symbolIdx Hi0 Hstart Hscan)
    as (Hlow0 & x1 & Hx1 & Hhigh1).
  pose proof (Decode_scan_range z d1 _ HtailOne HN32 Hz1 0 symbolIdx Hi0 Hscan) as Hidx.
  rewrite (u32_id (symbolIdx + 1)) in Hg1 by lia.
  rewrite Hg1 in Hx1. injection Hx1 as <-.
  specialize (Hlow0 w0 Hg0).
  pose proof (Forall_lookup_1 _ _ _ _ Hall Hg0) as Hr0.
  pose proof (Forall_lookup_1 _ _ _ _ Hall Hg1) as Hr1.
  cbv beta in Hr0, Hr1.
  rewrite (u32_id (w1 - w0)) in Hcons by (unfold One in *; lia).
  apply (Consume_coder w0 (w1 - w0) One z) in Hcons as (Hok2 & _);
    [|exact Hok1|unfold One; lia|exact Hscale|exact Hle|lia|lia|exact Hlow|exact Hhigh].
  destruct (negb (symbolIdx =? 0)).
  - apply bind_Ok in H as (s & _ & H). injection H as _ <- _. exact Hok2.
  - destruct (negb (highestLearnedSymbol d2 =? highestNormalizedSymbol d2)).
    + apply bind_Ok in H as ([b bs3] & Hget & H).
      apply Get_coder_0 in Hget; [|exact Hok2|lia].
      destruct (negb (b =? 0)).
      * exact (Decode_pending_coder _ _ _ _ _ Hget H).
      * exact (Decode_learn_coder _ _ _ _ _ _ Hget Ha H).
    + exact (Decode_learn_coder _ _ _ _ _ _ Hok2 Ha H).
Qed.

Lemma Initialize_based (a u : Z) (d : Oodle1Decoder.t) :
  Initialize a u fresh = Ok d -> weights_based d.
Proof.
  unfold Initialize. simpl. rewrite !resize_nil, !length_replicate.
  intros H.
  apply bind_Ok in H as (w & Hw & H). apply vset_Ok in Hw as (_ & Hlt & ->).
  rewrite length_replicate in Hlt.
  apply bind_Ok in H as (occ & _ & H). apply bind_Ok in H as (o0 & _ & H).
  injection H as <-. unfold weights_based. simpl.
  change (Z.to_nat 0) with 0%nat in *. split.
  - apply list_lookup_insert_eq. rewrite length_replicate. exact Hlt.
  - apply Forall_insert; [apply Forall_replicate|]; unfold One; lia.
Qed.

Lemma reachable_based (a u : Z) (d : Oodle1Decoder.t) :
  reachable a u d -> weights_based d.
Proof.
  induction 1 as [d Hinit | d d' bs bs' a' v Hreach IH Ht Hdec].
  - exact (Initialize_based a u d Hinit).
  - destruct (reachable_ok _ _ _ Hreach) as (Hok & _).
    exact (proj1 (Decode_coder _ _ _ _ _ _ Hok IH Hdec)).
Qed.

(** The range-coder invariant of [Decode].  In every decoder state
    reachable from [Initialize] the weight table starts at 0 and stays
    within [0, ONE]; and a [Decode] of such a state that returns, on a
    bitstream whose register is below its modulus, leaves the register
    below the modulus: no subtraction of [Peek], [Consume] or [Get]
    inside it wraps around. *)
Theorem Decode_keeps_coder (alphabetSize uniqueSymbols : Z) (d : Oodle1Decoder.t) :
  reachable alphabetSize uniqueSymbols d ->
  weights_based d /\
  (forall bs a v bs' d',
     coder_ok bs -> 0 <= a < 2 ^ 32 ->
     Decode bs a d = Ok (v, bs', d') -> coder_ok bs').
Proof.
  intros Hreach.
  pose proof (reachable_based _ _ _ Hreach) as Hbased.
  split; [exact Hbased|].
  intros bs a v bs' d' Hcoder Ha Hdec.
  destruct (reachable_ok _ _ _ Hreach) as (Hok & _).
  exact (proj2 (Decode_coder _ _ _ _ _ _ Hok Hbased Hdec) Hcoder Ha).
Qed.

Lemma Decode_keeps_coder_witness :
  reachable 65 3 sample_decoder /\
  weights_based sample_decoder /\
  coder_ok sample_bitstream /\ 0 <= 65 < 2 ^ 32 /\
  Decode sample_bitstream 65 sample_decoder = Ok sample_decoded /\
  coder_ok (snd (fst sample_decoded)).
Proof.
  assert (Hdec : Decode sample_bitstream 65 sample_decoder
                 = Ok (fst (fst sample_decoded), snd (fst sample_decoded), snd sample_decoded))
    by (vm_compute; reflexivity).
  assert (Ha : 0 <= 65 < 2 ^ 32) by lia.
  destruct (Decode_keeps_coder 65 3 sample_decoder sample_decoder_reachable) as [Hb Hk].
  split; [exact sample_decoder_reachable|]. split; [exact Hb|].
  split; [exact sample_bitstream_coder|]. split; [exact Ha|].
  split; [vm_compute; reflexivity|].
  exact (Hk _ _ _ _ _ sample_bitstream_coder Ha Hdec).
Defined.

End DecodeCoder.


(** ** The driver: the offset decoders stay inside their arrays *)

Section OffsetCodes.

Import Oodle1Decompressor.

Lemma symbol_below_le (a A s : Z) : a <= A -> symbol_below a s -> symbol_below A s.
Proof. unfold symbol_below. lia. Qed.

Lemma Decode_learn_upto (a A v : Z) (bs bs' : Oodle1Bitstream.t) (d d' : Oodle1Decoder.t) :
  bitstream_typed bs -> 0 <= a <= A -> a < 2 ^ 32 ->
  Decode_learn bs a d = Ok (v, bs', d') ->
  Forall (symbol_below A) (symbols d) ->
  symbol_below A v /\ Forall (symbol_below A) (symbols d').
Proof.
  intros Ht Ha Ha32 H Hall. unfold Decode_learn in H.
  apply bind_Ok in H as ([symbol bs1] & Hg & H).
  assert (Hnz : a <> 0).
  { intros ->. unfold Get in Hg. apply bind_Ok in Hg as (b1 & _ & Hg).
    apply bind_Ok in Hg as (sc & Hsc & _). apply udiv_Ok in Hsc as [Hsc _]. lia. }
  apply Get_typed in Hg as [Ht1 Hsym]; [|exact Ht|lia].
  rewrite u32_id in Hsym by lia.
  apply bind_Ok in H as (sym1 & Hsym1 & H). simpl in Hsym1.
  apply bind_Ok in H as (o & _ & H). apply bind_Ok in H as (occ1 & _ & H).
  assert (Hres : v = symbol /\ symbols d' = sym1).
  { simpl in H. destruct (_ =? _).
    - apply bind_Ok in H as (e & _ & H). apply bind_Ok in H as (occ2 & _ & H).
      injection H as <- _ <-. auto.
    - injection H as <- _ <-. auto. }
  destruct Hres as (-> & ->).
  assert (Hv : symbol_below A symbol) by (unfold symbol_below; lia).
  split; [exact Hv|].
  apply (vset_Forall _ _ _ _ _ Hall) in Hsym1; [exact Hsym1|].
  pose proof (u8_range symbol). pose proof (u8_le symbol).
  unfold symbol_below in *. lia.
Qed.

(** A decoder whose stored symbols are below [A] and which is called with
    an alphabet size of at most [A] returns a symbol below [A] and stores
    only such symbols. *)
Lemma Decode_upto (a A v : Z) (bs bs' : Oodle1Bitstream.t) (d d' : Oodle1Decoder.t) :
  bitstream_typed bs -> 0 <= a <= A -> a < 2 ^ 32 ->
  Decode bs a d = Ok (v, bs', d') ->
  Forall (symbol_below A) (symbols d) ->
  symbol_below A v /\ Forall (symbol_below A) (symbols d').
Proof.
  intros Ht Ha Ha32 H Hall. unfold Decode in H.
  apply bind_Ok in H as (d1 & Hren & H).
  apply bind_Ok in H as ([z bs1] & Hpeek & H).
  apply Peek_typed in Hpeek as [Ht1 _]; [|exact Ht].
  apply bind_Ok in H as (symbolIdx & _ & H).
  apply bind_Ok in H as (w0 & _ & H).
  apply bind_Ok in H as (w1 & _ & H).
  apply bind_Ok in H as (bs2 & Hcons & H).
  apply Consume_typed in Hcons; [|exact Ht1].
  apply bind_Ok in H as (o & _ & H).
  apply bind_Ok in H as (occ1 & _ & H).
  set (d2 := set_totalOccurrence (set_symbolOccurrences d1 occ1)
               (u32 (totalOccurrence d1 + 1))) in *.
  assert (Hsym2 : Forall (symbol_below A) (symbols d2))
    by exact (Decode_renormalize_symbols _ _ _ Hall Hren).
  destruct (negb (symbolIdx =? 0)).
  - apply bind_Ok in H as (s & Hs & H). injection H as <- _ <-.
    split; [exact (vget_Forall _ _ _ _ Hsym2 Hs) | exact Hsym2].
  - destruct (negb (highestLearnedSymbol d2 =? highestNormalizedSymbol d2)).
    + apply bind_Ok in H as ([b bs3] & Hget & H).
      apply Get_typed in Hget as [Ht3 _]; [|exact Hcons|lia].
      destruct (negb (b =? 0)).
      * apply (Decode_pending_walk A) in H as [_ Hp]; [|exact Ht3]. exact (Hp Hsym2).
      * exact (Decode_learn_upto a A _ _ _ _ _ Ht3 Ha Ha32 H Hsym2).
    + exact (Decode_learn_upto a A _ _ _ _ _ Hcons Ha Ha32 H Hsym2).
Qed.

Lemma Initialize_each_length (a u : Z) (ds : list Oodle1Decoder.t) :
  forall ds', Initialize_each a u ds = Ok ds' -> length ds' = length ds.
Proof.
  induction ds as [|d rest IH]; intros ds' H; simpl in H.
  - injection H as <-. reflexivity.
  - apply bind_Ok in H as (d' & _ & H). apply bind_Ok in H as (rest' & Hrest & H).
    injection H as <-. simpl. f_equal. exact (IH _ Hrest).
Qed.

Lemma Initialize_offsets_ok (header : list Z) (D : Oodle1Decompressor.t) :
  Initialize header fresh = Ok D ->
  0 <= windowSize D ->
  offsets_ok D.
Proof.
  unfold Initialize. intros H.
  apply bind_Ok in H as (h0 & _ & H).
  apply bind_Ok in H as (h1 & _ & H).
  apply bind_Ok in H as (h2 & _ & H).
  apply bind_Ok in H as (lit & Hlit & H).
  apply bind_Ok in H as (len & _ & H).
  apply bind_Ok in H as (off1 & _ & H).
  apply bind_Ok in H as (off4 & Hoff4 & H).
  apply bind_Ok in H as (off1024 & Hoff1024 & H).
  injection H as <-. simpl. intros Hw.
  apply Initialize_each_length in Hlit, Hoff4.
  constructor; simpl.
  - rewrite Hlit. reflexivity.
  - rewrite Hoff4. reflexivity.
  - lia.
  - apply (Decoder_Initialize_symbols (symbol_below (Z.shiftr h0 9 / 1024 + 1)))
      in Hoff1024; [exact Hoff1024| |constructor].
    assert (0 <= Z.shiftr h0 9 / 1024) by (apply Z.div_pos; lia).
    unfold symbol_below. lia.
Qed.

Lemma Decompress_offsets_ok (bs bs' : Oodle1Bitstream.t) (D D' : Oodle1Decompressor.t)
      (mem mem' : list Z) (output n : Z) :
  bitstream_typed bs -> driver_ok D -> offsets_ok D ->
  0 <= windowSize D ->
  Decompress bs D mem output = Ok (n, bs', D', mem') ->
  offsets_ok D' /\ windowSize D' = windowSize D.
Proof.
  intros Ht Hdrv [Hl4 Hl256 Hbo Hsym] Hw H. unfold Decompress in H.
  apply bind_Ok in H as ([[lenCode bs1] D1] & Hlen & H).
  pose proof (Decompress_lenCode_ok _ _ _ _ _ Ht Hdrv Hlen) as [Ht1 Hdrv1].
  unfold Decompress_lenCode in Hlen.
  apply bind_Ok in Hlen as (decoder & _ & Hlen).
  apply bind_Ok in Hlen as ([[c bs0] decoder'] & _ & Hlen).
  apply bind_Ok in Hlen as (len & _ & Hlen).
  injection Hlen as -> -> <-.
  destruct (lenCode =? 0).
  - apply bind_Ok in H as ([[lit bs2] D2] & Hlit & H).
    apply bind_Ok in H as (m & _ & H). injection H as _ _ <- _.
    unfold Decompress_literal in Hlit. simpl in Hlit.
    apply bind_Ok in Hlit as (dl & _ & Hlit).
    apply bind_Ok in Hlit as ([[c1 bs3] dl'] & _ & Hlit).
    apply bind_Ok in Hlit as (lits & Hset & Hlit).
    apply vset_length in Hset.
    injection Hlit as _ _ <-. split; [|reflexivity].
    constructor; simpl; try assumption; try congruence. apply u32_range.
  - apply bind_Ok in H as ([[[len0 offset] bs2] D2] & Hback & H).
    apply bind_Ok in H as (m & _ & H). injection H as _ _ <- _.
    unfold Decompress_backref in Hback. simpl in Hback.
    apply bind_Ok in Hback as (len1 & _ & Hback).
    apply bind_Ok in Hback as ([[r1 b1] d1] & Hdec1 & Hback).
    destruct Hdrv1 as [_ _ _ _ Hoff1]. simpl in Hoff1.
    apply Decode_walk in Hdec1 as [Ht2 _]; [|exact Ht1|exact Hoff1].
    apply bind_Ok in Hback as ([[off1k b2] d2] & Hdec2 & Hback).
    set (ew := Z.min (windowSize D) (bytesOutput D)) in *.
    assert (Hew : 0 <= ew / 1024 + 1 <= windowSize D / 1024 + 1).
    { assert (0 <= ew / 1024) by (apply Z.div_pos; lia).
      assert (ew / 1024 <= windowSize D / 1024) by (apply Z.div_le_mono; lia).
      lia. }
    assert (Hu : u32 (ew / 1024 + 1) <= ew / 1024 + 1)
      by (unfold u32; apply Z.mod_le; lia).
    pose proof (u32_range (ew / 1024 + 1)) as Hur.
    apply (Decode_upto _ (windowSize D / 1024 + 1)) in Hdec2 as [_ Hsym'];
      [|exact Ht2|lia|lia|exact Hsym].
    apply bind_Ok in Hback as (d4 & _ & Hback).
    apply bind_Ok in Hback as ([[off4 b3] d3] & _ & Hback).
    apply bind_Ok in Hback as (off4s & Hset & Hback).
    apply vset_length in Hset.
    injection Hback as _ _ _ <-. split; [|reflexivity].
    constructor; simpl; try assumption; try congruence. apply u32_range.
Qed.

Lemma running_offsets_ok (header : list Z) (bs : Oodle1Bitstream.t)
      (D : Oodle1Decompressor.t) :
  running header bs D -> 0 <= windowSize D -> offsets_ok D.
Proof.
  induction 1 as [bs D Ht Hinit | bs bs' D D' mem mem' output n Hrun IH Hdec];
    intros Hw.
  - exact (Initialize_offsets_ok header D Hinit Hw).
  - destruct (running_ok _ _ _ Hrun) as [Ht Hdrv].
    assert (Hsame : windowSize D' = windowSize D).
    { unfold Decompress in Hdec.
      apply bind_Ok in Hdec as ([[lenCode bs1] D1] & Hlen & Hdec).
      apply Decompress_lenCode_fields in Hlen as (_ & _ & Hw1).
      destruct (lenCode =? 0).
      - apply bind_Ok in Hdec as ([[lit bs2] D2] & Hlit & Hdec).
        apply Decompress_literal_fields in Hlit as (_ & _ & Hw2).
        apply bind_Ok in Hdec as (m & _ & Hdec). injection Hdec as _ _ <- _. congruence.
      - apply bind_Ok in Hdec as ([[[len0 offset] bs2] D2] & Hback & Hdec).
        apply Decompress_backref_fields in Hback as (_ & _ & _ & Hw2).
        apply bind_Ok in Hdec as (m & _ & Hdec). injection Hdec as _ _ <- _. congruence. }
    rewrite Hsame in Hw.
    exact (proj1 (Decompress_offsets_ok _ _ _ _ _ _ _ _ Ht Hdrv (IH Hw) Hw Hdec)).
Qed.

(** In every state of a decompressor initialized by [Initialize] and
    advanced by [Decompress] calls whose window is smaller than 256 KiB,
    the index [off1k] that the 1024-byte offset decoder returns for the
    alphabet size [Decompress] passes to it is below 256, so
    [off4Decoders[off1k]] is an element of the 256-element array; and
    [litDecoders[bytesOutput & 3]] is an element of the 4-element array. *)
Theorem off4Decoders_index_in_range
    (header : list Z) (bs : Oodle1Bitstream.t) (D : Oodle1Decompressor.t) :
  running header bs D ->
  0 <= windowSize D < 0x40000 ->
  (forall bs1 off1k bs2 decoder',
      bitstream_typed bs1 ->
      Oodle1Decoder.Decode bs1
        (u32 (Z.min (windowSize D) (bytesOutput D) / 1024 + 1))
        (off1024Decoder D) = Ok (off1k, bs2, decoder') ->
      0 <= off1k < 256 /\ is_Some (off4Decoders D !! Z.to_nat off1k)) /\
  is_Some (litDecoders D !! Z.to_nat (Z.land (bytesOutput D) 0x03)).
Proof.
  intros Hrun Hw.
  destruct (running_offsets_ok _ _ _ Hrun) as [Hl4 Hl256 Hbo Hsym]; [lia|].
  split.
  - intros bs1 off1k bs2 decoder' Ht Hdec.
    set (ew := Z.min (windowSize D) (bytesOutput D)) in *.
    assert (Hew : 0 <= ew / 1024 + 1 <= windowSize D / 1024 + 1).
    { assert (0 <= ew / 1024) by (apply Z.div_pos; lia).
      assert (ew / 1024 <= windowSize D / 1024) by (apply Z.div_le_mono; lia).
      lia. }
    assert (Hu : u32 (ew / 1024 + 1) <= ew / 1024 + 1)
      by (unfold u32; apply Z.mod_le; lia).
    pose proof (u32_range (ew / 1024 + 1)) as Hur.
    apply (Decode_upto _ (windowSize D / 1024 + 1)) in Hdec as [Hv _];
      [|exact Ht|lia|lia|exact Hsym].
    assert (Hblocks : windowSize D / 1024 < 256)
      by (apply Z.div_lt_upper_bound; lia).
    unfold symbol_below in Hv.
    split; [lia|]. apply lookup_lt_is_Some. lia.
  - apply lookup_lt_is_Some. rewrite Hl4.
    change 0x03 with (Z.ones 2). rewrite Z.land_ones by lia.
    pose proof (Z.mod_pos_bound (bytesOutput D) (2 ^ 2) ltac:(lia)). lia.
Qed.

Lemma off4Decoders_index_in_range_witness :
  let bs := snd (fst (fst sample_after_Decompress)) in
  let D := snd (fst sample_after_Decompress) in
  running sample_header bs D /\
  0 <= windowSize D < 0x40000 /\
  is_Some (litDecoders D !! Z.to_nat (Z.land (bytesOutput D) 0x03)).
Proof.
  intros bs D.
  assert (Hw : 0 <= windowSize D < 0x40000) by (vm_compute; split; congruence).
  split; [exact sample_running|]. split; [exact Hw|].
  exact (proj2 (off4Decoders_index_in_range sample_header bs D sample_running Hw)).
Defined.

End OffsetCodes.



(** ** The buffer: reading *)

Section BufferReads.

Import Buffer.

Lemma cbind_Returns {A B : Type} (m : completion A) (k : A -> completion B) (r : B) :
  cbind m k = Returns r <-> exists a, m = Returns a /\ k a = Returns r.
Proof.
  destruct m as [a|e| |]; simpl; split; try discriminate.
  - intros H. exists a. auto.
  - intros (a' & Ha & Hk). injection Ha as ->. exact Hk.
  - intros (a' & Ha & _). discriminate.
  - intros (a' & Ha & _). discriminate.
  - intros (a' & Ha & _). discriminate.
Qed.

Lemma usize_id (x : Z) : 0 <= x < 2 ^ 64 -> usize x = x.
Proof. intros H. unfold usize. apply Z.mod_small. exact H. Qed.

Lemma u64_id (x : Z) : 0 <= x < 2 ^ 64 -> u64 x = x.
Proof. intros H. unfold u64. apply Z.mod_small. exact H. Qed.

Lemma u64_range (x : Z) : 0 <= u64 x < 2 ^ 64.
Proof. unfold u64. apply Z.mod_pos_bound. lia. Qed.

Lemma AssertRemainingBytes_passes (count : Z) (b : Buffer.t) :
  0 <= count < 2 ^ 32 -> 0 <= readCursor b ->
  readCursor b + count <= Size b ->
  AssertRemainingBytes count b = Returns tt.
Proof.
  intros Hc H0 Hle. unfold AssertRemainingBytes. rewrite (u32_id count) by lia.
  assert (Hu : usize (readCursor b + count) <= readCursor b + count)
    by (unfold usize; apply Z.mod_le; lia).
  destruct (Z.gtb_spec (usize (readCursor b + count)) (Size b)); [lia|reflexivity].
Qed.

Lemma AssertRemainingBytes_throws (count : Z) (b : Buffer.t) :
  0 <= count < 2 ^ 32 -> 0 <= readCursor b < 2 ^ 63 ->
  Size b < readCursor b + count ->
  AssertRemainingBytes count b = Throws BufferUnderrunException.
Proof.
  intros Hc H0 Hlt. unfold AssertRemainingBytes. rewrite (u32_id count) by lia.
  rewrite usize_id by lia.
  destruct (Z.gtb_spec (readCursor b + count) (Size b)); [reflexivity|lia].
Qed.

(** The bytes at and after position [c], once it is known that [k] more
    of them exist. *)
Lemma byte_next (b : Buffer.t) (c k : Z) (x : Z) :
  0 <= c -> 0 <= k -> c + k < 2 ^ 64 ->
  drop (Z.to_nat c) (bytes b) !! Z.to_nat k = Some x ->
  byte b (usize (c + k)) = Returns x.
Proof.
  intros Hc Hk Hlt Hl. rewrite usize_id by lia.
  unfold byte. rewrite lookup_drop in Hl.
  rewrite (vget_in _ (c + k) x); [reflexivity | lia |].
  replace (Z.to_nat (c + k)) with (Z.to_nat c + Z.to_nat k)%nat by lia. exact Hl.
Qed.

Lemma byte_here (b : Buffer.t) (x : Z) (rest : list Z) :
  0 <= readCursor b ->
  drop (Z.to_nat (readCursor b)) (bytes b) = x :: rest ->
  byte b (readCursor b) = Returns x.
Proof.
  intros Hc Hd. unfold byte.
  rewrite (vget_in _ (readCursor b) x); [reflexivity | lia |].
  pose proof (lookup_drop (bytes b) (Z.to_nat (readCursor b)) 0) as Hl.
  rewrite Hd, Nat.add_0_r in Hl. symmetry. exact Hl.
Qed.

Lemma drop_exists (l : list Z) (c n : nat) :
  (c + n <= length l)%nat ->
  exists front rest, drop c l = front ++ rest /\ length front = n /\
                     take n (drop c l) = front.
Proof.
  intros Hlen. exists (take n (drop c l)), (drop n (drop c l)).
  split; [symmetry; apply take_drop|]. split; [|reflexivity].
  rewrite length_take, length_drop. lia.
Qed.

Lemma Size_drop (b : Buffer.t) (c : Z) (front rest : list Z) :
  drop (Z.to_nat c) (bytes b) = front ++ rest -> 0 <= c ->
  front <> [] -> c + Z.of_nat (length front) <= Size b.
Proof.
  intros Hd Hc Hne. unfold Size.
  assert (Hl : length (drop (Z.to_nat c) (bytes b)) = (length front + length rest)%nat)
    by (rewrite Hd; apply length_app).
  rewrite length_drop in Hl.
  destruct front; [contradiction|]. simpl in *. lia.
Qed.

(** *** Little-endian and big-endian values *)

Lemma lor_low (a b n : Z) :
  0 <= n -> 0 <= b < 2 ^ n -> Z.lor b (a * 2 ^ n) = b + a * 2 ^ n.
Proof. intros Hn Hb. rewrite Z.lor_comm, lor_shifted by lia. lia. Qed.

Lemma le16_value (x0 x1 : Z) :
  0 <= x0 < 2 ^ 8 -> 0 <= x1 < 2 ^ 8 ->
  u16 (Z.lor x0 (Z.shiftl (u16 x1) 8)) = little_endian [x0; x1].
Proof.
  intros H0 H1. rewrite (u16_id x1) by lia.
  rewrite Z.shiftl_mul_pow2 by lia. rewrite (lor_low x1 x0 8) by lia.
  rewrite u16_id by lia. simpl. lia.
Qed.

Lemma be16_value (x0 x1 : Z) :
  0 <= x0 < 2 ^ 8 -> 0 <= x1 < 2 ^ 8 ->
  u16 (Z.lor (Z.shiftl (u16 x0) 8) x1) = big_endian [x0; x1].
Proof.
  intros H0 H1. rewrite (u16_id x0) by lia.
  rewrite Z.shiftl_mul_pow2 by lia. rewrite (lor_shifted x0 x1 8) by lia.
  rewrite u16_id by lia. unfold big_endian. simpl. lia.
Qed.

Lemma le24_value (x0 x1 x2 : Z) :
  0 <= x0 < 2 ^ 8 -> 0 <= x1 < 2 ^ 8 -> 0 <= x2 < 2 ^ 8 ->
  Z.lor (Z.lor x0 (u32 (Z.shiftl (u32 x1) 8))) (u32 (Z.shiftl (u32 x2) 16))
  = little_endian [x0; x1; x2].
Proof.
  intros H0 H1 H2.
  rewrite (u32_id x1), (u32_id x2) by lia.
  rewrite !Z.shiftl_mul_pow2 by lia.
  rewrite (u32_id (x1 * 2 ^ 8)), (u32_id (x2 * 2 ^ 16)) by lia.
  rewrite (lor_low x1 x0 8) by lia.
  rewrite (lor_low x2 _ 16) by lia.
  simpl. lia.
Qed.

Lemma le32_value (x0 x1 x2 x3 : Z) :
  0 <= x0 < 2 ^ 8 -> 0 <= x1 < 2 ^ 8 -> 0 <= x2 < 2 ^ 8 -> 0 <= x3 < 2 ^ 8 ->
  le32 x0 x1 x2 x3 = little_endian [x0; x1; x2; x3] /\
  0 <= le32 x0 x1 x2 x3 < 2 ^ 32.
Proof.
  intros H0 H1 H2 H3. unfold le32.
  rewrite (u32_id x1), (u32_id x2), (u32_id x3) by lia.
  rewrite !Z.shiftl_mul_pow2 by lia.
  rewrite (u32_id (x1 * 2 ^ 8)), (u32_id (x2 * 2 ^ 16)), (u32_id (x3 * 2 ^ 24)) by lia.
  rewrite (lor_low x1 x0 8) by lia.
  rewrite (lor_low x2 _ 16) by lia.
  rewrite (lor_low x3 _ 24) by lia.
  simpl. lia.
Qed.

Lemma le64_value (x0 x1 x2 x3 x4 x5 x6 x7 : Z) :
  0 <= x0 < 2 ^ 8 -> 0 <= x1 < 2 ^ 8 -> 0 <= x2 < 2 ^ 8 -> 0 <= x3 < 2 ^ 8 ->
  0 <= x4 < 2 ^ 8 -> 0 <= x5 < 2 ^ 8 -> 0 <= x6 < 2 ^ 8 -> 0 <= x7 < 2 ^ 8 ->
  le64 x0 x1 x2 x3 x4 x5 x6 x7 = little_endian [x0; x1; x2; x3; x4; x5; x6; x7] /\
  0 <= le64 x0 x1 x2 x3 x4 x5 x6 x7 < 2 ^ 64.
Proof.
  intros H0 H1 H2 H3 H4 H5 H6 H7. unfold le64.
  destruct (le32_value x0 x1 x2 x3 H0 H1 H2 H3) as [-> _].
  rewrite (u64_id x4), (u64_id x5), (u64_id x6), (u64_id x7) by lia.
  rewrite !Z.shiftl_mul_pow2 by lia.
  rewrite (u64_id (x4 * 2 ^ 32)), (u64_id (x5 * 2 ^ 40)),
          (u64_id (x6 * 2 ^ 48)), (u64_id (x7 * 2 ^ 56)) by lia.
  cbn [little_endian].
  rewrite (lor_low x4 _ 32) by lia.
  rewrite (lor_low x5 _ 40) by lia.
  rewrite (lor_low x6 _ 48) by lia.
  rewrite (lor_low x7 _ 56) by lia.
  lia.
Qed.

(** *** The readers *)

Ltac next_bytes n Hd :=
  let Hlen := fresh "Hlen" in
  let Hall := fresh "Hall" in
  let l := fresh "l" in
  match goal with
  | Hok : buffer_ok ?b |- _ =>
      assert (Hlen : (n <= length (drop (Z.to_nat (readCursor b)) (bytes b)))%nat)
        by (rewrite length_drop; unfold Size in *; lia);
      assert (Hall : Forall (fun x => 0 <= x < 2 ^ 8)
                            (drop (Z.to_nat (readCursor b)) (bytes b)))
        by (apply Forall_drop; apply Hok);
      unfold next;
      remember (drop (Z.to_nat (readCursor b)) (bytes b)) as l eqn:Hd;
      symmetry in Hd;
      repeat (destruct l as [|? l]; [simpl in Hlen; lia|];
              apply Forall_cons in Hall as [? Hall]; simpl in Hlen)
  end.

Lemma ReadU8_next (b : Buffer.t) (x0 : Z) (rest : list Z) :
  0 <= readCursor b < 2 ^ 63 ->
  drop (Z.to_nat (readCursor b)) (bytes b) = x0 :: rest ->
  ReadU8 b = Returns (x0, advance 1 b).
Proof.
  intros Hc Hd. unfold ReadU8.
  pose proof (Size_drop b (readCursor b) [x0] rest Hd) as Hs. simpl in Hs.
  rewrite AssertRemainingBytes_passes by (lia || (apply Hs; [lia|discriminate])).
  cbn [cbind]. rewrite (byte_here b x0 rest) by (lia || exact Hd). reflexivity.
Qed.

Lemma ReadU16_next (b : Buffer.t) (x0 x1 : Z) (rest : list Z) :
  0 <= readCursor b < 2 ^ 63 ->
  drop (Z.to_nat (readCursor b)) (bytes b) = x0 :: x1 :: rest ->
  ReadU16 b = Returns (u16 (Z.lor x0 (Z.shiftl (u16 x1) 8)), advance 2 b) /\
  ReadU16BE b = Returns (u16 (Z.lor (Z.shiftl (u16 x0) 8) x1), advance 2 b).
Proof.
  intros Hc Hd. unfold ReadU16, ReadU16BE.
  pose proof (Size_drop b (readCursor b) [x0; x1] rest Hd) as Hs. simpl in Hs.
  rewrite AssertRemainingBytes_passes by (lia || (apply Hs; [lia|discriminate])).
  cbn [cbind]. rewrite (byte_here b x0 (x1 :: rest)) by (lia || exact Hd).
  cbn [cbind].
  rewrite (byte_next b (readCursor b) 1 x1) by (lia || (rewrite Hd; reflexivity)).
  split; reflexivity.
Qed.

Lemma ReadU24_next (b : Buffer.t) (x0 x1 x2 : Z) (rest : list Z) :
  0 <= readCursor b < 2 ^ 63 ->
  drop (Z.to_nat (readCursor b)) (bytes b) = x0 :: x1 :: x2 :: rest ->
  ReadU24 b = Returns (Z.lor (Z.lor x0 (u32 (Z.shiftl (u32 x1) 8)))
                             (u32 (Z.shiftl (u32 x2) 16)), advance 3 b).
Proof.
  intros Hc Hd. unfold ReadU24.
  pose proof (Size_drop b (readCursor b) [x0; x1; x2] rest Hd) as Hs. simpl in Hs.
  rewrite AssertRemainingBytes_passes by (lia || (apply Hs; [lia|discriminate])).
  cbn [cbind]. rewrite (byte_here b x0 (x1 :: x2 :: rest)) by (lia || exact Hd).
  cbn [cbind].
  rewrite (byte_next b (readCursor b) 1 x1) by (lia || (rewrite Hd; reflexivity)).
  rewrite (byte_next b (readCursor b) 2 x2) by (lia || (rewrite Hd; reflexivity)).
  reflexivity.
Qed.

Lemma ReadU32_next (b : Buffer.t) (x0 x1 x2 x3 : Z) (rest : list Z) :
  0 <= readCursor b < 2 ^ 63 ->
  drop (Z.to_nat (readCursor b)) (bytes b) = x0 :: x1 :: x2 :: x3 :: rest ->
  ReadU32 b = Returns (le32 x0 x1 x2 x3, advance 4 b) /\
  ReadS32 b = Returns (s32 (le32 x0 x1 x2 x3), advance 4 b).
Proof.
  intros Hc Hd. unfold ReadU32, ReadS32.
  pose proof (Size_drop b (readCursor b) [x0; x1; x2; x3] rest Hd) as Hs. simpl in Hs.
  rewrite AssertRemainingBytes_passes by (lia || (apply Hs; [lia|discriminate])).
  cbn [cbind]. rewrite (byte_here b x0 (x1 :: x2 :: x3 :: rest)) by (lia || exact Hd).
  cbn [cbind].
  rewrite (byte_next b (readCursor b) 1 x1) by (lia || (rewrite Hd; reflexivity)).
  rewrite (byte_next b (readCursor b) 2 x2) by (lia || (rewrite Hd; reflexivity)).
  rewrite (byte_next b (readCursor b) 3 x3) by (lia || (rewrite Hd; reflexivity)).
  split; reflexivity.
Qed.

Lemma ReadU64_next (b : Buffer.t) (x0 x1 x2 x3 x4 x5 x6 x7 : Z) (rest : list Z) :
  0 <= readCursor b < 2 ^ 63 ->
  drop (Z.to_nat (readCursor b)) (bytes b)
  = x0 :: x1 :: x2 :: x3 :: x4 :: x5 :: x6 :: x7 :: rest ->
  ReadU64 b = Returns (le64 x0 x1 x2 x3 x4 x5 x6 x7, advance 8 b).
Proof.
  intros Hc Hd. unfold ReadU64.
  pose proof (Size_drop b (readCursor b) [x0; x1; x2; x3; x4; x5; x6; x7] rest Hd) as Hs.
  simpl in Hs.
  rewrite AssertRemainingBytes_passes by (lia || (apply Hs; [lia|discriminate])).
  cbn [cbind].
  rewrite (byte_here b x0 (x1 :: x2 :: x3 :: x4 :: x5 :: x6 :: x7 :: rest))
    by (lia || exact Hd).
  cbn [cbind].
  rewrite (byte_next b (readCursor b) 1 x1) by (lia || (rewrite Hd; reflexivity)).
  rewrite (byte_next b (readCursor b) 2 x2) by (lia || (rewrite Hd; reflexivity)).
  rewrite (byte_next b (readCursor b) 3 x3) by (lia || (rewrite Hd; reflexivity)).
  rewrite (byte_next b (readCursor b) 4 x4) by (lia || (rewrite Hd; reflexivity)).
  rewrite (byte_next b (readCursor b) 5 x5) by (lia || (rewrite Hd; reflexivity)).
  rewrite (byte_next b (readCursor b) 6 x6) by (lia || (rewrite Hd; reflexivity)).
  rewrite (byte_next b (readCursor b) 7 x7) by (lia || (rewrite Hd; reflexivity)).
  reflexivity.
Qed.

Lemma reader_underrun (b : Buffer.t) (count : Z) {A : Type} (k : unit -> completion A) :
  0 <= count < 2 ^ 32 -> 0 <= readCursor b < 2 ^ 63 ->
  Size b < readCursor b + count ->
  (let! u := AssertRemainingBytes count b in k u) = Throws BufferUnderrunException.
Proof.
  intros Hc H0 Hlt. rewrite AssertRemainingBytes_throws by assumption. reflexivity.
Qed.

Lemma ReadU8_reads (b : Buffer.t) : buffer_ok b -> reads ReadU8 1 little_endian b.
Proof.
  intros Hok. pose proof Hok as [Hb Hs Hc]. split.
  - intros Hle. next_bytes 1%nat Hd.
    rewrite (ReadU8_next b _ _ Hc Hd). simpl. do 2 f_equal. lia.
  - intros Hlt. unfold ReadU8. apply reader_underrun; lia.
Qed.

Lemma ReadU16_reads (b : Buffer.t) :
  buffer_ok b -> reads ReadU16 2 little_endian b /\ reads ReadU16BE 2 big_endian b.
Proof.
  intros Hok. pose proof Hok as [Hb Hs Hc]. split; split;
    try (intros Hlt; unfold ReadU16, ReadU16BE; apply reader_underrun; lia).
  - intros Hle. next_bytes 2%nat Hd.
    rewrite (proj1 (ReadU16_next b _ _ _ Hc Hd)). rewrite le16_value by assumption.
    reflexivity.
  - intros Hle. next_bytes 2%nat Hd.
    rewrite (proj2 (ReadU16_next b _ _ _ Hc Hd)). rewrite be16_value by assumption.
    reflexivity.
Qed.

Lemma ReadU24_reads (b : Buffer.t) : buffer_ok b -> reads ReadU24 3 little_endian b.
Proof.
  intros Hok. pose proof Hok as [Hb Hs Hc]. split.
  - intros Hle. next_bytes 3%nat Hd.
    rewrite (ReadU24_next b _ _ _ _ Hc Hd). rewrite le24_value by assumption.
    reflexivity.
  - intros Hlt. unfold ReadU24. apply reader_underrun; lia.
Qed.

Lemma ReadU32_reads (b : Buffer.t) :
  buffer_ok b ->
  reads ReadU32 4 little_endian b /\
  reads ReadS32 4 (fun l => s32 (little_endian l)) b.
Proof.
  intros Hok. pose proof Hok as [Hb Hs Hc]. split; split;
    try (intros Hlt; unfold ReadU32, ReadS32; apply reader_underrun; lia).
  - intros Hle. next_bytes 4%nat Hd.
    rewrite (proj1 (ReadU32_next b _ _ _ _ _ Hc Hd)).
    rewrite (proj1 (le32_value _ _ _ _ H H0 H1 H2)). reflexivity.
  - intros Hle. next_bytes 4%nat Hd.
    rewrite (proj2 (ReadU32_next b _ _ _ _ _ Hc Hd)).
    rewrite (proj1 (le32_value _ _ _ _ H H0 H1 H2)). reflexivity.
Qed.

Lemma ReadU64_reads (b : Buffer.t) :
  buffer_ok b ->
  reads ReadU64 8 little_endian b /\
  reads ReadS64 8 (fun l => s64 (little_endian l)) b.
Proof.
  intros Hok. pose proof Hok as [Hb Hs Hc].
  assert (H64 : reads ReadU64 8 little_endian b).
  { split.
    - intros Hle. next_bytes 8%nat Hd.
      rewrite (ReadU64_next b _ _ _ _ _ _ _ _ _ Hc Hd).
      rewrite (proj1 (le64_value _ _ _ _ _ _ _ _ H H0 H1 H2 H3 H4 H5 H6)). reflexivity.
    - intros Hlt. unfold ReadU64. apply reader_underrun; lia. }
  split; [exact H64|].
  destruct H64 as [Hr Ht]. split; intros Hx; unfold ReadS64.
  - rewrite (Hr Hx). reflexivity.
  - rewrite (Ht Hx). reflexivity.
Qed.

(** The fixed-width readers.  On a buffer of bytes each of them returns
    exactly when enough bytes are left: then the result is the value of
    the next bytes in the byte order of the reader (converted to the
    signed type by the signed readers) and the cursor has moved past
    them; otherwise it throws [BufferUnderrunException].  No reader has
    undefined behaviour. *)
Theorem Read_little_endian (b : Buffer.t) :
  buffer_ok b ->
  reads ReadU8 1 little_endian b /\
  reads ReadS8 1 (fun l => s8 (little_endian l)) b /\
  reads ReadU16 2 little_endian b /\
  reads ReadU16BE 2 big_endian b /\
  reads ReadS16 2 (fun l => s16 (little_endian l)) b /\
  reads ReadU24 3 little_endian b /\
  reads ReadU32 4 little_endian b /\
  reads ReadS32 4 (fun l => s32 (little_endian l)) b /\
  reads ReadU64 8 little_endian b /\
  reads ReadS64 8 (fun l => s64 (little_endian l)) b.
Proof.
  intros Hok.
  pose proof (ReadU8_reads b Hok) as H8.
  destruct (ReadU16_reads b Hok) as [H16 H16BE].
  pose proof (ReadU24_reads b Hok) as H24.
  destruct (ReadU32_reads b Hok) as [H32 HS32].
  destruct (ReadU64_reads b Hok) as [H64 HS64].
  assert (HS8 : reads ReadS8 1 (fun l => s8 (little_endian l)) b).
  { destruct H8 as [Hr Ht]. split; intros Hx; unfold ReadS8.
    - rewrite (Hr Hx). reflexivity.
    - rewrite (Ht Hx). reflexivity. }
  assert (HS16 : reads ReadS16 2 (fun l => s16 (little_endian l)) b).
  { destruct H16 as [Hr Ht]. split; intros Hx; unfold ReadS16.
    - rewrite (Hr Hx). reflexivity.
    - rewrite (Ht Hx). reflexivity. }
  split; [exact H8|]. split; [exact HS8|]. split; [exact H16|].
  split; [exact H16BE|]. split; [exact HS16|]. split; [exact H24|].
  split; [exact H32|]. split; [exact HS32|]. split; [exact H64 | exact HS64].
Qed.

Lemma sample_written_ok : buffer_ok sample_written.
Proof.
  constructor.
  - vm_compute. repeat (constructor; [split; congruence|]). constructor.
  - vm_compute. reflexivity.
  - vm_compute. split; congruence.
Qed.

Lemma Read_little_endian_witness :
  buffer_ok sample_written /\
  reads ReadU32 4 little_endian sample_written /\
  reads ReadU16BE 2 big_endian (advance 4 sample_written).
Proof.
  assert (Hok : buffer_ok (advance 4 sample_written)).
  { constructor.
    - exact (bk_bytes _ sample_written_ok).
    - exact (bk_size _ sample_written_ok).
    - vm_compute. split; congruence. }
  split; [exact sample_written_ok|]. split.
  - exact (proj1 (proj2 (proj2 (proj2 (proj2 (proj2 (proj2
             (Read_little_endian sample_written sample_written_ok)))))))).
  - exact (proj1 (proj2 (proj2 (proj2
             (Read_little_endian (advance 4 sample_written) Hok))))).
Defined.

End BufferReads.


(** ** The buffer: what is appended can be read back *)

Section BufferWrites.

Import Buffer.

Lemma le_step (v n : Z) :
  0 <= n -> v mod (2 ^ 8 * 2 ^ n) = u8 v + 256 * (Z.shiftr v 8 mod 2 ^ n).
Proof.
  intros Hn. assert (0 < 2 ^ n) by (apply Z.pow_pos_nonneg; lia).
  rewrite Z.rem_mul_r by lia. rewrite Z.shiftr_div_pow2 by lia. reflexivity.
Qed.

Lemma le_bytes_2 (v : Z) :
  little_endian [u8 v; u8 (Z.shiftr v 8)] = v mod 2 ^ 16 /\
  big_endian [u8 (Z.shiftr v 8); u8 v] = v mod 2 ^ 16.
Proof.
  change (2 ^ 16) with (2 ^ 8 * 2 ^ 8). rewrite (le_step v 8) by lia.
  unfold big_endian. cbn [little_endian bytes_value]. unfold u8. lia.
Qed.

Lemma le_bytes_3 (v : Z) :
  little_endian [u8 v; u8 (Z.shiftr v 8); u8 (Z.shiftr v 16)] = v mod 2 ^ 24.
Proof.
  change (2 ^ 24) with (2 ^ 8 * 2 ^ 16). rewrite (le_step v 16) by lia.
  change (2 ^ 16) with (2 ^ 8 * 2 ^ 8). rewrite (le_step (Z.shiftr v 8) 8) by lia.
  rewrite !Z.shiftr_shiftr by lia. change (8 + 8) with 16.
  cbn [little_endian]. unfold u8. lia.
Qed.

Lemma le_bytes_4 (v : Z) :
  little_endian [u8 v; u8 (Z.shiftr v 8); u8 (Z.shiftr v 16); u8 (Z.shiftr v 24)]
  = v mod 2 ^ 32.
Proof.
  change (2 ^ 32) with (2 ^ 8 * 2 ^ 24). rewrite (le_step v 24) by lia.
  change (2 ^ 24) with (2 ^ 8 * 2 ^ 16). rewrite (le_step (Z.shiftr v 8) 16) by lia.
  change (2 ^ 16) with (2 ^ 8 * 2 ^ 8).
  rewrite (le_step (Z.shiftr (Z.shiftr v 8) 8) 8) by lia.
  rewrite !Z.shiftr_shiftr by lia. change (8 + 8) with 16. change (16 + 8) with 24.
  cbn [little_endian]. unfold u8. lia.
Qed.

Lemma shiftr_byte (v k k' : Z) :
  0 <= k -> k' = k + 8 ->
  Z.shiftr v k = u8 (Z.shiftr v k) + 256 * Z.shiftr v k'.
Proof.
  intros Hk ->. rewrite <- (Z.shiftr_shiftr v k 8) by lia.
  rewrite (Z.shiftr_div_pow2 (Z.shiftr v k) 8) by lia. unfold u8.
  pose proof (Z.div_mod (Z.shiftr v k) (2 ^ 8) ltac:(lia)). lia.
Qed.

Lemma le_bytes_8 (v : Z) :
  little_endian [u8 v; u8 (Z.shiftr v 8); u8 (Z.shiftr v 16); u8 (Z.shiftr v 24);
                 u8 (Z.shiftr v 32); u8 (Z.shiftr v 40); u8 (Z.shiftr v 48);
                 u8 (Z.shiftr v 56)]
  = v mod 2 ^ 64.
Proof.
  cbn [little_endian].
  pose proof (shiftr_byte v 0 8 ltac:(lia) eq_refl) as H0. rewrite Z.shiftr_0_r in H0.
  pose proof (shiftr_byte v 8 16 ltac:(lia) eq_refl) as H1.
  pose proof (shiftr_byte v 16 24 ltac:(lia) eq_refl) as H2.
  pose proof (shiftr_byte v 24 32 ltac:(lia) eq_refl) as H3.
  pose proof (shiftr_byte v 32 40 ltac:(lia) eq_refl) as H4.
  pose proof (shiftr_byte v 40 48 ltac:(lia) eq_refl) as H5.
  pose proof (shiftr_byte v 48 56 ltac:(lia) eq_refl) as H6.
  pose proof (shiftr_byte v 56 64 ltac:(lia) eq_refl) as H7.
  rewrite (Z.shiftr_div_pow2 v 64) in H7 by lia.
  rewrite (Z.mod_eq v (2 ^ 64)) by lia.
  lia.
Qed.

Lemma u32_mod_24 (v : Z) : u32 v mod 2 ^ 24 = v mod 2 ^ 24.
Proof.
  unfold u32. change (2 ^ 32) with (2 ^ 24 * 2 ^ 8).
  rewrite Z.rem_mul_r by lia. rewrite (Z.mul_comm (2 ^ 24)).
  rewrite Z_mod_plus_full. apply Z.mod_mod. lia.
Qed.

Lemma s32_mod (v : Z) : s32 (v mod 2 ^ 32) = s32 v /\ s32 v mod 2 ^ 32 = v mod 2 ^ 32.
Proof.
  unfold s32, sint. change (2 ^ (32 - 1)) with (2 ^ 31). split.
  - rewrite Z.add_mod_idemp_l by lia. reflexivity.
  - rewrite Zminus_mod_idemp_l. f_equal. lia.
Qed.

Lemma at_end (b : Buffer.t) (suffix : list Z) :
  0 <= readCursor b < 2 ^ 63 ->
  readCursor b = Size b ->
  0 <= readCursor (mk (readCursor b) (bytes b ++ suffix) false) < 2 ^ 63 /\
  drop (Z.to_nat (readCursor (mk (readCursor b) (bytes b ++ suffix) false)))
       (bytes (mk (readCursor b) (bytes b ++ suffix) false)) = suffix.
Proof.
  intros Hc Hend. split; [exact Hc|]. simpl. rewrite Hend. unfold Size.
  rewrite Nat2Z.id. apply drop_app_length.
Qed.

Lemma AppendU16_bytes (v : Z) (b : Buffer.t) :
  AppendU16 v b =
    mk (readCursor b) (bytes b ++ [u8 (u16 v); u8 (Z.shiftr (u16 v) 8)]) false /\
  AppendU16BE v b =
    mk (readCursor b) (bytes b ++ [u8 (Z.shiftr (u16 v) 8); u8 (u16 v)]) false.
Proof.
  unfold AppendU16, AppendU16BE, AppendU8. simpl. rewrite <- !app_assoc. auto.
Qed.

Lemma AppendU24_bytes (v : Z) (b : Buffer.t) :
  AppendU24 v b =
    mk (readCursor b)
       (bytes b ++ [u8 (u32 v); u8 (Z.shiftr (u32 v) 8); u8 (Z.shiftr (u32 v) 16)])
       false.
Proof. unfold AppendU24, AppendU8. simpl. rewrite <- !app_assoc. reflexivity. Qed.

Lemma AppendU32_bytes (v : Z) (b : Buffer.t) :
  AppendU32 v b =
    mk (readCursor b)
       (bytes b ++ [u8 (u32 v); u8 (Z.shiftr (u32 v) 8); u8 (Z.shiftr (u32 v) 16);
                    u8 (Z.shiftr (u32 v) 24)])
       false /\
  AppendS32 v b =
    mk (readCursor b)
       (bytes b ++ [u8 (s32 v); u8 (Z.shiftr (s32 v) 8); u8 (Z.shiftr (s32 v) 16);
                    u8 (Z.shiftr (s32 v) 24)])
       false.
Proof.
  unfold AppendU32, AppendS32, AppendU8. simpl. rewrite <- !app_assoc. auto.
Qed.

Lemma AppendU64_bytes (v : Z) (b : Buffer.t) :
  AppendU64 v b =
    mk (readCursor b)
       (bytes b ++ [u8 (u64 v); u8 (Z.shiftr (u64 v) 8); u8 (Z.shiftr (u64 v) 16);
                    u8 (Z.shiftr (u64 v) 24); u8 (Z.shiftr (u64 v) 32);
                    u8 (Z.shiftr (u64 v) 40); u8 (Z.shiftr (u64 v) 48);
                    u8 (Z.shiftr (u64 v) 56)])
       false.
Proof. unfold AppendU64, AppendU8. simpl. rewrite <- !app_assoc. reflexivity. Qed.

(** Round trips.  On a buffer whose bytes have all been read (a fresh
    one, say), every integer that is appended is what the reader of the
    same width and byte order returns next, converted to the type of the
    appender's parameter. *)
Theorem Append_then_Read (b : Buffer.t) (v : Z) :
  0 <= readCursor b < 2 ^ 63 ->
  readCursor b = Size b ->
  ReadU8 (AppendU8 v b) = Returns (u8 v, advance 1 (AppendU8 v b)) /\
  ReadU16 (AppendU16 v b) = Returns (u16 v, advance 2 (AppendU16 v b)) /\
  ReadU16BE (AppendU16BE v b) = Returns (u16 v, advance 2 (AppendU16BE v b)) /\
  ReadU24 (AppendU24 v b) = Returns (v mod 2 ^ 24, advance 3 (AppendU24 v b)) /\
  ReadU32 (AppendU32 v b) = Returns (u32 v, advance 4 (AppendU32 v b)) /\
  ReadS32 (AppendS32 v b) = Returns (s32 v, advance 4 (AppendS32 v b)) /\
  ReadU64 (AppendU64 v b) = Returns (u64 v, advance 8 (AppendU64 v b)).
Proof.
  intros Hc Hend.
  pose proof u8_range as Hr.
  split; [|split; [|split; [|split; [|split; [|split]]]]].
  - unfold AppendU8.
    destruct (at_end b [u8 v] Hc Hend) as [Hc1 Hd1].
    rewrite (ReadU8_next _ (u8 v) [] Hc1 Hd1). reflexivity.
  - destruct (AppendU16_bytes v b) as [-> _].
    destruct (at_end b [u8 (u16 v); u8 (Z.shiftr (u16 v) 8)] Hc Hend) as [Hc1 Hd1].
    rewrite (proj1 (ReadU16_next _ _ _ [] Hc1 Hd1)).
    rewrite le16_value by apply Hr.
    rewrite (proj1 (le_bytes_2 (u16 v))). unfold u16. rewrite Z.mod_mod by lia.
    reflexivity.
  - destruct (AppendU16_bytes v b) as [_ ->].
    destruct (at_end b [u8 (Z.shiftr (u16 v) 8); u8 (u16 v)] Hc Hend) as [Hc1 Hd1].
    rewrite (proj2 (ReadU16_next _ _ _ [] Hc1 Hd1)).
    rewrite be16_value by apply Hr.
    rewrite (proj2 (le_bytes_2 (u16 v))). unfold u16. rewrite Z.mod_mod by lia.
    reflexivity.
  - rewrite AppendU24_bytes.
    destruct (at_end b [u8 (u32 v); u8 (Z.shiftr (u32 v) 8); u8 (Z.shiftr (u32 v) 16)]
                Hc Hend) as [Hc1 Hd1].
    rewrite (ReadU24_next _ _ _ _ [] Hc1 Hd1).
    rewrite le24_value by apply Hr.
    rewrite le_bytes_3.
    rewrite u32_mod_24. reflexivity.
  - destruct (AppendU32_bytes v b) as [-> _].
    destruct (at_end b [u8 (u32 v); u8 (Z.shiftr (u32 v) 8); u8 (Z.shiftr (u32 v) 16);
                        u8 (Z.shiftr (u32 v) 24)] Hc Hend) as [Hc1 Hd1].
    rewrite (proj1 (ReadU32_next _ _ _ _ _ [] Hc1 Hd1)).
    rewrite (proj1 (le32_value _ _ _ _ (Hr _) (Hr _) (Hr _) (Hr _))).
    rewrite le_bytes_4. unfold u32. rewrite Z.mod_mod by lia. reflexivity.
  - destruct (AppendU32_bytes v b) as [_ ->].
    destruct (at_end b [u8 (s32 v); u8 (Z.shiftr (s32 v) 8); u8 (Z.shiftr (s32 v) 16);
                        u8 (Z.shiftr (s32 v) 24)] Hc Hend) as [Hc1 Hd1].
    rewrite (proj2 (ReadU32_next _ _ _ _ _ [] Hc1 Hd1)).
    rewrite (proj1 (le32_value _ _ _ _ (Hr _) (Hr _) (Hr _) (Hr _))).
    rewrite le_bytes_4. rewrite (proj2 (s32_mod v)), (proj1 (s32_mod v)). reflexivity.
  - rewrite AppendU64_bytes.
    destruct (at_end b [u8 (u64 v); u8 (Z.shiftr (u64 v) 8); u8 (Z.shiftr (u64 v) 16);
                        u8 (Z.shiftr (u64 v) 24); u8 (Z.shiftr (u64 v) 32);
                        u8 (Z.shiftr (u64 v) 40); u8 (Z.shiftr (u64 v) 48);
                        u8 (Z.shiftr (u64 v) 56)] Hc Hend) as [Hc1 Hd1].
    rewrite (ReadU64_next _ _ _ _ _ _ _ _ _ [] Hc1 Hd1).
    rewrite (proj1 (le64_value _ _ _ _ _ _ _ _
                      (Hr _) (Hr _) (Hr _) (Hr _) (Hr _) (Hr _) (Hr _) (Hr _))).
    rewrite le_bytes_8. unfold u64. rewrite Z.mod_mod by lia. reflexivity.
Qed.

Lemma Append_then_Read_witness :
  0 <= readCursor fresh < 2 ^ 63 /\ readCursor fresh = Size fresh /\
  ReadU32 (AppendU32 0x01020304 fresh)
  = Returns (u32 0x01020304, advance 4 (AppendU32 0x01020304 fresh)) /\
  ReadS32 (AppendS32 (-2) fresh)
  = Returns (s32 (-2), advance 4 (AppendS32 (-2) fresh)).
Proof.
  assert (H1 : 0 <= readCursor fresh < 2 ^ 63) by (simpl; lia).
  assert (H2 : readCursor fresh = Size fresh) by reflexivity.
  split; [exact H1|]. split; [exact H2|]. split.
  - exact (proj1 (proj2 (proj2 (proj2 (proj2
             (Append_then_Read fresh 0x01020304 H1 H2)))))).
  - exact (proj1 (proj2 (proj2 (proj2 (proj2 (proj2
             (Append_then_Read fresh (-2) H1 H2))))))).
Defined.

End BufferWrites.


(** ** The buffer: appending leaves earlier reads alone *)

Section BufferCompose.

Import Buffer.

Lemma AssertRemainingBytes_passed (count : Z) (b : Buffer.t) (u : unit) :
  0 <= count < 2 ^ 32 -> 0 <= readCursor b < 2 ^ 63 ->
  AssertRemainingBytes count b = Returns u ->
  readCursor b + count <= Size b.
Proof.
  intros Hc H0. unfold AssertRemainingBytes.
  rewrite (u32_id count) by lia. rewrite usize_id by lia.
  destruct (Z.gtb_spec (readCursor b + count) (Size b)); [discriminate|lia].
Qed.

Lemma extends_drop (b b1 : Buffer.t) (n : Z) :
  extends b b1 -> 0 <= readCursor b -> 0 <= n -> readCursor b + n <= Size b ->
  exists suffix,
    drop (Z.to_nat (readCursor b1)) (bytes b1)
    = drop (Z.to_nat (readCursor b)) (bytes b) ++ suffix.
Proof.
  intros (Hc & suffix & Hb & _) H0 Hn Hle. exists suffix.
  rewrite Hc, Hb. apply drop_app_le. unfold Size in Hle. lia.
Qed.

Ltac front_bytes n b Hd :=
  let Hlen := fresh "Hlen" in
  let l := fresh "l" in
  assert (Hlen : (n <= length (drop (Z.to_nat (readCursor b)) (bytes b)))%nat)
    by (rewrite length_drop; unfold Size in *; lia);
  remember (drop (Z.to_nat (readCursor b)) (bytes b)) as l eqn:Hd;
  symmetry in Hd;
  repeat (destruct l as [|? l]; [simpl in Hlen; lia|]; simpl in Hlen).

Lemma extends_cursor (b b1 : Buffer.t) (n : Z) :
  extends b b1 -> advance n b1 = set_readCursor b1 (readCursor (advance n b)).
Proof. intros (Hc & _). unfold advance. simpl. rewrite Hc. reflexivity. Qed.

Lemma extends_Append (b : Buffer.t) (suffix : list Z) (m : bool) :
  Forall (fun x => 0 <= x < 2 ^ 8) suffix ->
  extends b (mk (readCursor b) (bytes b ++ suffix) m).
Proof. intros Hs. split; [reflexivity|]. exists suffix. auto. Qed.

(** Appending and reading commute.  Every appender leaves the cursor
    where it is and only adds bytes at the end; and on a buffer that has
    been appended to, every reader that returned before returns the same
    value, with the cursor moved the same way. *)
Theorem Append_keeps_reads (b : Buffer.t) :
  0 <= readCursor b < 2 ^ 63 ->
  (forall v,
     extends b (AppendU8 v b) /\ extends b (AppendU16 v b) /\
     extends b (AppendU16BE v b) /\ extends b (AppendU24 v b) /\
     extends b (AppendU32 v b) /\ extends b (AppendS32 v b) /\
     extends b (AppendU64 v b)) /\
  (forall b1, extends b b1 ->
     (forall x b', ReadU8 b = Returns (x, b') ->
        ReadU8 b1 = Returns (x, set_readCursor b1 (readCursor b'))) /\
     (forall x b', ReadU16 b = Returns (x, b') ->
        ReadU16 b1 = Returns (x, set_readCursor b1 (readCursor b'))) /\
     (forall x b', ReadU16BE b = Returns (x, b') ->
        ReadU16BE b1 = Returns (x, set_readCursor b1 (readCursor b'))) /\
     (forall x b', ReadU24 b = Returns (x, b') ->
        ReadU24 b1 = Returns (x, set_readCursor b1 (readCursor b'))) /\
     (forall x b', ReadU32 b = Returns (x, b') ->
        ReadU32 b1 = Returns (x, set_readCursor b1 (readCursor b'))) /\
     (forall x b', ReadS32 b = Returns (x, b') ->
        ReadS32 b1 = Returns (x, set_readCursor b1 (readCursor b'))) /\
     (forall x b', ReadU64 b = Returns (x, b') ->
        ReadU64 b1 = Returns (x, set_readCursor b1 (readCursor b')))).
Proof.
  intros Hc. pose proof u8_range as Hr. split.
  - intros v.
    destruct (AppendU16_bytes v b) as [E16 E16BE].
    destruct (AppendU32_bytes v b) as [E32 ES32].
    rewrite E16, E16BE, AppendU24_bytes, E32, ES32, AppendU64_bytes. unfold AppendU8.
    repeat split; try reflexivity;
      eexists; (split; [reflexivity|]); repeat (constructor; [apply Hr|]); constructor.
  - intros b1 Hext.
    assert (Hc1 : 0 <= readCursor b1 < 2 ^ 63) by (destruct Hext as [-> _]; exact Hc).
    repeat split; intros x b' H.
    + pose proof H as H'. unfold ReadU8 in H'.
      apply cbind_Returns in H' as (u & Ha & _).
      apply AssertRemainingBytes_passed in Ha; [|lia|exact Hc].
      destruct (extends_drop b b1 1 Hext) as (suffix & Hd1); [lia|lia|exact Ha|].
      front_bytes 1%nat b Hd. simpl in Hd1.
      rewrite (ReadU8_next b _ _ Hc Hd) in H. injection H as <- <-.
      rewrite (ReadU8_next b1 _ _ Hc1 Hd1). rewrite (extends_cursor b b1 1 Hext).
      reflexivity.
    + pose proof H as H'. unfold ReadU16 in H'.
      apply cbind_Returns in H' as (u & Ha & _).
      apply AssertRemainingBytes_passed in Ha; [|lia|exact Hc].
      destruct (extends_drop b b1 2 Hext) as (suffix & Hd1); [lia|lia|exact Ha|].
      front_bytes 2%nat b Hd. simpl in Hd1.
      rewrite (proj1 (ReadU16_next b _ _ _ Hc Hd)) in H. injection H as <- <-.
      rewrite (proj1 (ReadU16_next b1 _ _ _ Hc1 Hd1)). rewrite (extends_cursor b b1 2 Hext).
      reflexivity.
    + pose proof H as H'. unfold ReadU16BE in H'.
      apply cbind_Returns in H' as (u & Ha & _).
      apply AssertRemainingBytes_passed in Ha; [|lia|exact Hc].
      destruct (extends_drop b b1 2 Hext) as (suffix & Hd1); [lia|lia|exact Ha|].
      front_bytes 2%nat b Hd. simpl in Hd1.
      rewrite (proj2 (ReadU16_next b _ _ _ Hc Hd)) in H. injection H as <- <-.
      rewrite (proj2 (ReadU16_next b1 _ _ _ Hc1 Hd1)). rewrite (extends_cursor b b1 2 Hext).
      reflexivity.
    + pose proof H as H'. unfold ReadU24 in H'.
      apply cbind_Returns in H' as (u & Ha & _).
      apply AssertRemainingBytes_passed in Ha; [|lia|exact Hc].
      destruct (extends_drop b b1 3 Hext) as (suffix & Hd1); [lia|lia|exact Ha|].
      front_bytes 3%nat b Hd. simpl in Hd1.
      rewrite (ReadU24_next b _ _ _ _ Hc Hd) in H. injection H as <- <-.
      rewrite (ReadU24_next b1 _ _ _ _ Hc1 Hd1). rewrite (extends_cursor b b1 3 Hext).
      reflexivity.
    + pose proof H as H'. unfold ReadU32 in H'.
      apply cbind_Returns in H' as (u & Ha & _).
      apply AssertRemainingBytes_passed in Ha; [|lia|exact Hc].
      destruct (extends_drop b b1 4 Hext) as (suffix & Hd1); [lia|lia|exact Ha|].
      front_bytes 4%nat b Hd. simpl in Hd1.
      rewrite (proj1 (ReadU32_next b _ _ _ _ _ Hc Hd)) in H. injection H as <- <-.
      rewrite (proj1 (ReadU32_next b1 _ _ _ _ _ Hc1 Hd1)).
      rewrite (extends_cursor b b1 4 Hext). reflexivity.
    + pose proof H as H'. unfold ReadS32 in H'.
      apply cbind_Returns in H' as (u & Ha & _).
      apply AssertRemainingBytes_passed in Ha; [|lia|exact Hc].
      destruct (extends_drop b b1 4 Hext) as (suffix & Hd1); [lia|lia|exact Ha|].
      front_bytes 4%nat b Hd. simpl in Hd1.
      rewrite (proj2 (ReadU32_next b _ _ _ _ _ Hc Hd)) in H. injection H as <- <-.
      rewrite (proj2 (ReadU32_next b1 _ _ _ _ _ Hc1 Hd1)).
      rewrite (extends_cursor b b1 4 Hext). reflexivity.
    + pose proof H as H'. unfold ReadU64 in H'.
      apply cbind_Returns in H' as (u & Ha & _).
      apply AssertRemainingBytes_passed in Ha; [|lia|exact Hc].
      destruct (extends_drop b b1 8 Hext) as (suffix & Hd1); [lia|lia|exact Ha|].
      front_bytes 8%nat b Hd. simpl in Hd1.
      rewrite (ReadU64_next b _ _ _ _ _ _ _ _ _ Hc Hd) in H. injection H as <- <-.
      rewrite (ReadU64_next b1 _ _ _ _ _ _ _ _ _ Hc1 Hd1).
      rewrite (extends_cursor b b1 8 Hext). reflexivity.
Qed.

Lemma Append_keeps_reads_witness :
  0 <= readCursor sample_written < 2 ^ 63 /\
  extends sample_written (AppendU64 7 sample_written) /\
  ReadU32 sample_written = Returns (0x01020304, advance 4 sample_written) /\
  ReadU32 (AppendU64 7 sample_written)
  = Returns (0x01020304,
             set_readCursor (AppendU64 7 sample_written)
                            (readCursor (advance 4 sample_written))).
Proof.
  assert (Hc : 0 <= readCursor sample_written < 2 ^ 63) by (vm_compute; split; congruence).
  assert (Hr : ReadU32 sample_written = Returns (0x01020304, advance 4 sample_written))
    by (vm_compute; reflexivity).
  destruct (Append_keeps_reads sample_written Hc) as [Happ Hkeep].
  assert (Hext : extends sample_written (AppendU64 7 sample_written))
    by apply (Happ 7).
  split; [exact Hc|]. split; [exact Hext|]. split; [exact Hr|].
  destruct (Hkeep _ Hext) as (_ & _ & _ & _ & H32 & _).
  exact (H32 _ _ Hr).
Defined.

End BufferCompose.


(** ** The buffer: the bounds checks wrap around *)

Section BufferChecks.

Import Buffer.

Lemma byte_outside (b : Buffer.t) (i : Z) :
  Size b <= i -> byte b i = Undefined.
Proof.
  intros Hi. unfold byte, vget, Size in *.
  destruct (Z.ltb_spec i 0) as [|_]; [lia|].
  rewrite lookup_ge_None_2 by lia. reflexivity.
Qed.

Lemma byte_at (b : Buffer.t) (c : Z) (x : Z) (rest : list Z) :
  0 <= c -> drop (Z.to_nat c) (bytes b) = x :: rest -> byte b c = Returns x.
Proof.
  intros Hc Hd. unfold byte.
  rewrite (vget_in _ c x); [reflexivity | lia |].
  pose proof (lookup_drop (bytes b) (Z.to_nat c) 0) as Hl.
  rewrite Hd, Nat.add_0_r in Hl. symmetry. exact Hl.
Qed.

Lemma ReadU32_at_next (b : Buffer.t) (offset x0 x1 x2 x3 : Z) (rest : list Z) :
  0 <= offset -> offset + 4 < 2 ^ 32 ->
  drop (Z.to_nat offset) (bytes b) = x0 :: x1 :: x2 :: x3 :: rest ->
  ReadU32_at offset b = Returns (le32 x0 x1 x2 x3).
Proof.
  intros H0 H32 Hd. unfold ReadU32_at, AssertRemainingBytes_at.
  rewrite (usize_id offset) by lia.
  rewrite (u32_id offset), (u32_id 4), (u32_id (offset + 4)) by lia.
  pose proof (Size_drop b offset [x0; x1; x2; x3] rest Hd H0) as Hs. simpl in Hs.
  destruct (Z.gtb_spec (offset + 4) (Size b)) as [Hgt|_];
    [assert (offset + 4 <= Size b) by (apply Hs; discriminate); lia|].
  cbn [cbind]. rewrite (byte_at b offset x0 _ H0 Hd). cbn [cbind].
  rewrite (byte_next b offset 1 x1) by (lia || (rewrite Hd; reflexivity)).
  rewrite (byte_next b offset 2 x2) by (lia || (rewrite Hd; reflexivity)).
  rewrite (byte_next b offset 3 x3) by (lia || (rewrite Hd; reflexivity)).
  reflexivity.
Qed.

(** The checks of the buffer are computed in wrapping arithmetic, and
    where they wrap a read goes out of bounds.  [ReadU32(size_t offset)]
    adds the offset and the count as [unsigned int]: for offsets whose
    four bytes end below [2^32] it returns the little-endian value of the
    bytes at the offset or throws when they are not all there, but an
    offset whose 32-bit sum with 4 wraps down into the buffer passes the
    check and reads beyond the end.  With the cursor sought to the last
    values of [size_t], [ReadU8] and [ReadU32] pass their checks and read
    beyond the end of every buffer. *)
Theorem checks_wrap_around (b : Buffer.t) :
  buffer_ok b ->
  (forall offset, 0 <= offset -> offset + 4 < 2 ^ 32 ->
     (offset + 4 <= Size b ->
      ReadU32_at offset b
      = Returns (little_endian (take 4 (drop (Z.to_nat offset) (bytes b))))) /\
     (Size b < offset + 4 ->
      ReadU32_at offset b = Throws BufferUnderrunException)) /\
  (forall offset, 0 <= offset < 2 ^ 64 ->
     u32 (u32 offset + 4) <= Size b -> Size b <= offset ->
     ReadU32_at offset b = Undefined) /\
  ReadU8 (Seek (2 ^ 64 - 1) b) = Undefined /\
  (3 <= Size b -> ReadU32 (Seek (2 ^ 64 - 1) b) = Undefined).
Proof.
  intros Hok. pose proof Hok as [Hb Hs Hc].
  split; [|split; [|split]].
  - intros offset H0 H32. split.
    + intros Hle.
      assert (Hlen : (4 <= length (drop (Z.to_nat offset) (bytes b)))%nat)
        by (rewrite length_drop; unfold Size in *; lia).
      assert (Hall : Forall (fun x => 0 <= x < 2 ^ 8) (drop (Z.to_nat offset) (bytes b)))
        by (apply Forall_drop; exact Hb).
      remember (drop (Z.to_nat offset) (bytes b)) as l eqn:Hd. symmetry in Hd.
      do 4 (destruct l as [|? l]; [simpl in Hlen; lia|];
            apply Forall_cons in Hall as [? Hall]; simpl in Hlen).
      rewrite (ReadU32_at_next b offset _ _ _ _ _ H0 H32 Hd).
      rewrite (proj1 (le32_value _ _ _ _ H H1 H2 H3)). reflexivity.
    + intros Hlt. unfold ReadU32_at, AssertRemainingBytes_at.
      rewrite (usize_id offset) by lia.
      rewrite (u32_id offset), (u32_id 4), (u32_id (offset + 4)) by lia.
      destruct (Z.gtb_spec (offset + 4) (Size b)); [reflexivity|lia].
  - intros offset H0 Hwrap Hout. unfold ReadU32_at, AssertRemainingBytes_at.
    rewrite (usize_id offset) by lia.
    replace (u32 (u32 offset)) with (u32 offset)
      by (unfold u32; rewrite Z.mod_mod by lia; reflexivity).
    rewrite (u32_id 4) by lia.
    destruct (Z.gtb_spec (u32 (u32 offset + 4)) (Size b)); [lia|].
    cbn [cbind]. rewrite byte_outside by lia. reflexivity.
  - unfold ReadU8, AssertRemainingBytes, Seek. simpl.
    rewrite (usize_id (2 ^ 64 - 1)) by lia. rewrite (u32_id 1) by lia.
    replace (usize (2 ^ 64 - 1 + 1)) with 0 by reflexivity.
    assert (H0 : 0 <= Size b) by (unfold Size; lia).
    change (Size (set_readCursor b (2 ^ 64 - 1))) with (Size b).
    destruct (Z.gtb_spec 0 (Size b)); [lia|].
    cbn [cbind]. rewrite byte_outside; [reflexivity|].
    change (Size (set_readCursor b (2 ^ 64 - 1))) with (Size b). lia.
  - intros H3. unfold ReadU32, AssertRemainingBytes, Seek. simpl.
    rewrite (usize_id (2 ^ 64 - 1)) by lia. rewrite (u32_id 4) by lia.
    replace (usize (2 ^ 64 - 1 + 4)) with 3 by reflexivity.
    change (Size (set_readCursor b (2 ^ 64 - 1))) with (Size b).
    destruct (Z.gtb_spec 3 (Size b)); [lia|].
    cbn [cbind]. rewrite byte_outside; [reflexivity|].
    change (Size (set_readCursor b (2 ^ 64 - 1))) with (Size b). lia.
Qed.

Lemma checks_wrap_around_witness :
  buffer_ok sample_written /\
  u32 (u32 (2 ^ 32 - 2) + 4) <= Size sample_written /\
  Size sample_written <= 2 ^ 32 - 2 /\
  ReadU32_at (2 ^ 32 - 2) sample_written = Undefined /\
  ReadU32_at 0 sample_written = Returns 0x01020304.
Proof.
  assert (Hoff : 0 <= 2 ^ 32 - 2 < 2 ^ 64) by lia.
  assert (Hw : u32 (u32 (2 ^ 32 - 2) + 4) <= Size sample_written)
    by (vm_compute; congruence).
  assert (Ho : Size sample_written <= 2 ^ 32 - 2) by (vm_compute; congruence).
  destruct (checks_wrap_around sample_written sample_written_ok) as (Hin & Hout & _).
  split; [exact sample_written_ok|]. split; [exact Hw|]. split; [exact Ho|].
  split; [exact (Hout _ Hoff Hw Ho)|].
  destruct (Hin 0) as [Hr _]; [lia|lia|].
  rewrite Hr by (vm_compute; congruence). vm_compute. reflexivity.
Defined.

End BufferChecks.


(** ** [DecompressOodle1]: the streams of a section *)

Section Streams.

Import Oodle1Decompressor GrannyFile.

(** What a [Decompress] that returns has written. *)
Lemma Decompress_writes
    (bs bs' : Oodle1Bitstream.t) (D D' : Oodle1Decompressor.t)
    (mem mem' : list Z) (output n : Z) :
  Decompress bs D mem output = Ok (n, bs', D', mem') ->
  1 <= n <= 512 /\ length mem' = length mem /\
  0 <= output /\ output + n <= Z.of_nat (length mem) /\
  (forall j, 0 <= j -> j < output \/ output + n <= j ->
     mem' !! Z.to_nat j = mem !! Z.to_nat j).
Proof.
  unfold Decompress. intros H.
  apply bind_Ok in H as ([[lenCode bs1] D1] & _ & H).
  destruct (Z.eqb_spec lenCode 0) as [Hz|Hnz].
  - apply bind_Ok in H as ([[lit bs2] D2] & _ & H).
    apply bind_Ok in H as (m & Hset & H). injection H as <- _ _ <-.
    apply vset_Ok in Hset as (Ho & Hlt & ->).
    split; [lia|]. split; [apply length_insert|].
    split; [exact Ho|]. split; [lia|].
    intros j Hj0 Hj. apply list_lookup_insert_ne. lia.
  - apply bind_Ok in H as ([[[len offset] bs2] D2] & Hback & H).
    apply Decompress_backref_fields in Hback as (Htab & _).
    apply bind_Ok in H as (m & Hrep & H). injection H as <- _ _ <-.
    destruct (RepeatLengthTable_backref _ _ Hnz Htab) as [Hrange _].
    unfold Repeat in Hrep.
    apply Repeat_loop_Ok in Hrep as (Hl & Hin & Hframe).
    destruct Hin as (Ho & Hend & _); [lia|].
    split; [lia|]. split; [exact Hl|].
    split; [exact Ho|]. split; [lia|].
    intros j Hj0 Hj. apply Hframe. lia.
Qed.

Lemma DecompressOodle1_while_eq (fuel : nat)
      (bs : Oodle1Bitstream.t) (decomp : Oodle1Decompressor.t)
      (mem : list Z) (output outputOffset streamEnd : Z) :
  DecompressOodle1_while fuel bs decomp mem output outputOffset streamEnd =
    if outputOffset <? streamEnd then
      match fuel with
      | O => OutOfFuel
      | S fuel' =>
          let* (n, bs', decomp', mem') :=
            Decompress bs decomp mem (output + outputOffset) in
          DecompressOodle1_while fuel' bs' decomp' mem' output
            (usize (outputOffset + n)) streamEnd
      end
    else Ok (outputOffset, bs, mem).
Proof. destruct fuel; reflexivity. Qed.

(** The loop of one stream: it stops at the first position at or after
    the end of the stream, which a back-reference may overshoot by up to
    511 bytes. *)
Lemma DecompressOodle1_while_Ok (fuel : nat) :
  forall bs decomp mem output o e o' bs' mem',
    0 <= output -> 0 <= o < 2 ^ 33 -> e < 2 ^ 32 ->
    DecompressOodle1_while fuel bs decomp mem output o e = Ok (o', bs', mem') ->
    o <= o' /\
    (e <= o -> o' = o) /\
    (o < e -> e <= o' <= e + 511 /\ output + o' <= Z.of_nat (length mem)) /\
    length mem' = length mem /\
    (forall j, 0 <= j -> j < output + o \/ output + o' <= j ->
       mem' !! Z.to_nat j = mem !! Z.to_nat j).
Proof.
  induction fuel as [|fuel IH]; intros bs decomp mem output o e o' bs' mem' Hout Ho He H;
    rewrite DecompressOodle1_while_eq in H;
    destruct (Z.ltb_spec o e) as [Hlt|Hge]; try discriminate;
    try (injection H as <- <- <-; repeat split; (lia || reflexivity || auto)).
  apply bind_Ok in H as ([[[n bs1] decomp1] mem1] & Hdec & H).
  apply Decompress_writes in Hdec as (Hn & Hl1 & _ & Hend1 & Hframe1).
  rewrite usize_id in H by lia.
  apply IH in H as (Hle & Hstay & Hgo & Hl & Hframe); [|lia|lia|lia].
  split; [lia|]. split; [lia|]. split.
  - intros _. destruct (Z.lt_ge_cases (o + n) e) as [Hmore|Hdone].
    + destruct (Hgo Hmore) as [? ?]. rewrite Hl1 in *. lia.
    + rewrite (Hstay Hdone). lia.
  - split; [congruence|].
    intros j Hj0 Hj. rewrite Hframe by lia. apply Hframe1; lia.
Qed.

(** The budget of the loop is enough: more of it changes nothing. *)
Lemma DecompressOodle1_while_budget (fuel : nat) :
  forall fuel' bs decomp mem output o e,
    0 <= o < 2 ^ 33 -> e < 2 ^ 32 ->
    (Z.to_nat (e - o) <= fuel)%nat -> (Z.to_nat (e - o) <= fuel')%nat ->
    DecompressOodle1_while fuel bs decomp mem output o e
    = DecompressOodle1_while fuel' bs decomp mem output o e.
Proof.
  induction fuel as [|fuel IH]; intros fuel' bs decomp mem output o e Ho He Hf Hf';
    rewrite !DecompressOodle1_while_eq;
    destruct (Z.ltb_spec o e) as [Hlt|Hge]; try reflexivity; try lia.
  destruct fuel' as [|fuel']; [lia|].
  destruct (Decompress bs decomp mem (output + o)) as [[[[n bs1] decomp1] mem1]| |] eqn:Hdec;
    try reflexivity.
  cbn [bind].
  apply Decompress_writes in Hdec as (Hn & _).
  rewrite usize_id by lia.
  apply IH; lia.
Qed.

Lemma DecompressOodle1_for_Ok (streamEndOffsets : list Z) :
  forall memSize file headerPtr bs mem output o o' bs' mem',
    0 <= output -> 0 <= o < 2 ^ 33 ->
    Forall (fun e => e < 2 ^ 32) streamEndOffsets ->
    DecompressOodle1_for streamEndOffsets memSize file headerPtr bs mem output o
    = Ok (o', bs', mem') ->
    o <= o' /\
    (memSize <= o' \/ Forall (fun e => e <= o') streamEndOffsets) /\
    (o' = o \/
     Exists (fun e => o' <= e + 511) streamEndOffsets /\
     output + o' <= Z.of_nat (length mem)) /\
    length mem' = length mem /\
    (forall j, 0 <= j -> j < output + o \/ output + o' <= j ->
       mem' !! Z.to_nat j = mem !! Z.to_nat j).
Proof.
  induction streamEndOffsets as [|e rest IH];
    intros memSize file headerPtr bs mem output o o' bs' mem' Hout Ho Hall H;
    cbn [DecompressOodle1_for] in H.
  - injection H as <- <- <-. repeat split; auto; lia.
  - apply Forall_cons in Hall as [He Hall].
    destruct (Z.geb_spec o memSize) as [Hbreak|Hgo].
    + injection H as <- <- <-. repeat split; auto; lia.
    + apply bind_Ok in H as (header & _ & H).
      apply bind_Ok in H as (decomp & _ & H).
      apply bind_Ok in H as ([[o1 bs1] mem1] & Hwhile & H).
      apply DecompressOodle1_while_Ok in Hwhile
        as (Hle1 & Hstay1 & Hgo1 & Hl1 & Hframe1); [|lia|lia|lia].
      assert (Ho1 : 0 <= o1 < 2 ^ 33).
      { destruct (Z.lt_ge_cases o e) as [Hlt|Hge].
        - destruct (Hgo1 Hlt) as [? ?]. lia.
        - rewrite (Hstay1 Hge). lia. }
      apply IH in H as (Hle & Hends & Hup & Hl & Hframe); [|lia|exact Ho1|exact Hall].
      assert (He1 : e <= o1).
      { destruct (Z.lt_ge_cases o e) as [Hlt|Hge]; [destruct (Hgo1 Hlt); lia | lia]. }
      split; [lia|]. split; [|split; [|split]].
      * destruct Hends as [Hm|Hrest]; [left; exact Hm|].
        right. constructor; [lia | exact Hrest].
      * destruct Hup as [Heq|[Hex Hin]].
        -- subst o'. destruct (Z.lt_ge_cases o e) as [Hlt|Hge].
           ++ right. destruct (Hgo1 Hlt) as [? ?].
              split; [apply Exists_cons_hd; lia | lia].
           ++ left. exact (Hstay1 Hge).
        -- right. split; [apply Exists_cons_tl; exact Hex | rewrite <- Hl1; exact Hin].
      * congruence.
      * intros j Hj0 Hj. rewrite Hframe by lia. apply Hframe1; lia.
Qed.

(** [DecompressOodle1] when it returns.  It has produced [outputOffset]
    bytes at [output], at least [memSize] of them; when it has produced
    any, they end at most 511 bytes after the largest of the three stream
    ends and lie inside the memory it was given.  The stream ends are not
    exact: the last token of a stream may run up to 511 bytes past its
    end, and the next stream goes on from there.  The memory keeps its
    size and no byte outside [output .. output + outputOffset) changes. *)
Theorem DecompressOodle1_produces
    (header : GrannySectionHeader.t) (file : list Z) (input : Z)
    (mem mem' : list Z) (output outputOffset : Z) :
  0 <= output ->
  GrannySectionHeader.stream0Stop header < 2 ^ 32 ->
  GrannySectionHeader.stream1Stop header < 2 ^ 32 ->
  GrannySectionHeader.memSize header < 2 ^ 32 ->
  DecompressOodle1 header file input mem output = Ok (outputOffset, mem') ->
  0 <= outputOffset /\
  GrannySectionHeader.memSize header <= outputOffset /\
  (outputOffset = 0 \/
   outputOffset <= Z.max (Z.max (GrannySectionHeader.stream0Stop header)
                                (GrannySectionHeader.stream1Stop header))
                         (GrannySectionHeader.memSize header) + 511 /\
   output + outputOffset <= Z.of_nat (length mem)) /\
  length mem' = length mem /\
  (forall j, 0 <= j -> j < output \/ output + outputOffset <= j ->
     mem' !! Z.to_nat j = mem !! Z.to_nat j).
Proof.
  intros Hout H0 H1 Hm H. unfold DecompressOodle1 in H.
  apply bind_Ok in H as (bs & _ & H).
  apply bind_Ok in H as ([[o bs'] m'] & Hfor & H). injection H as <- <-.
  apply DecompressOodle1_for_Ok in Hfor as (Hle & Hends & Hup & Hl & Hframe);
    [|lia|lia|repeat (constructor; [assumption|]); constructor].
  split; [lia|]. split; [|split; [|split]].
  - destruct Hends as [Hmem|Hall]; [exact Hmem|].
    apply Forall_cons in Hall as [_ Hall]. apply Forall_cons in Hall as [_ Hall].
    apply Forall_cons in Hall as [Hlast _]. exact Hlast.
  - destruct Hup as [->|[Hex Hin]]; [left; reflexivity|]. right. split; [|exact Hin].
    apply Exists_cons in Hex as [Hx|Hex]; [lia|].
    apply Exists_cons in Hex as [Hx|Hex]; [lia|].
    apply Exists_cons in Hex as [Hx|Hex]; [lia|].
    inversion Hex.
  - exact Hl.
  - intros j Hj0 Hj. apply Hframe; lia.
Qed.

Lemma DecompressOodle1_produces_witness :
  0 <= 4 /\
  DecompressOodle1 sample_section_header sample_section 0 sample_buffer 4
  = Ok (5, [0xAA; 0xBB; 0xCC; 0xDD; 0xDD; 0xDD; 0xDD; 0xDD; 0xDD; 0; 0; 0]) /\
  GrannySectionHeader.memSize sample_section_header <= 5 /\
  4 + 5 <= Z.of_nat (length sample_buffer).
Proof.
  assert (Hout : 0 <= 4) by lia.
  assert (H0 : GrannySectionHeader.stream0Stop sample_section_header < 2 ^ 32)
    by (simpl; lia).
  assert (H1 : GrannySectionHeader.stream1Stop sample_section_header < 2 ^ 32)
    by (simpl; lia).
  assert (Hm : GrannySectionHeader.memSize sample_section_header < 2 ^ 32)
    by (simpl; lia).
  assert (H : DecompressOodle1 sample_section_header sample_section 0 sample_buffer 4
              = Ok (5, [0xAA; 0xBB; 0xCC; 0xDD; 0xDD; 0xDD; 0xDD; 0xDD; 0xDD; 0; 0; 0]))
    by (vm_compute; reflexivity).
  destruct (DecompressOodle1_produces _ _ _ _ _ _ _ Hout H0 H1 Hm H)
    as (_ & Hmem & Hup & _).
  split; [exact Hout|]. split; [exact H|]. split; [exact Hmem|].
  destruct Hup as [Hz|[_ Hin]]; [discriminate | exact Hin].
Defined.

End Streams.

(** ** The Granny container: reading fields *)

Section Fields.
Import Buffer.

Lemma little_endian_range (l : list Z) :
  Forall (fun x => 0 <= x < 2 ^ 8) l ->
  0 <= little_endian l < 256 ^ Z.of_nat (length l).
Proof.
  induction 1 as [|x l Hx Hl IH]; [simpl; lia|].
  cbn [little_endian length]. rewrite Nat2Z.inj_succ, Z.pow_succ_r by lia. lia.
Qed.

Lemma field32_range (raw : list Z) (p : Z) :
  Forall (fun x => 0 <= x < 2 ^ 8) raw -> 0 <= field32 raw p < 2 ^ 32.
Proof.
  intros Hb. unfold field32.
  pose proof (little_endian_range (take 4 (drop (Z.to_nat p) raw))
                (Forall_take _ _ _ (Forall_drop _ _ _ Hb))) as Hr.
  assert (Hlen : (length (take 4 (drop (Z.to_nat p) raw)) <= 4)%nat)
    by (rewrite length_take; lia).
  assert (Hpow : 256 ^ Z.of_nat (length (take 4 (drop (Z.to_nat p) raw))) <= 256 ^ 4)
    by (apply Z.pow_le_mono_r; lia).
  lia.
Qed.

Lemma field64_range (raw : list Z) (p : Z) :
  Forall (fun x => 0 <= x < 2 ^ 8) raw -> 0 <= field64 raw p < 2 ^ 64.
Proof.
  intros Hb. unfold field64.
  pose proof (little_endian_range (take 8 (drop (Z.to_nat p) raw))
                (Forall_take _ _ _ (Forall_drop _ _ _ Hb))) as Hr.
  assert (Hlen : (length (take 8 (drop (Z.to_nat p) raw)) <= 8)%nat)
    by (rewrite length_take; lia).
  assert (Hpow : 256 ^ Z.of_nat (length (take 8 (drop (Z.to_nat p) raw))) <= 256 ^ 8)
    by (apply Z.pow_le_mono_r; lia).
  lia.
Qed.

Lemma buffer_ok_at (c : Z) (bs : list Z) (m : bool) :
  Forall (fun x => 0 <= x < 2 ^ 8) bs -> Z.of_nat (length bs) < 2 ^ 63 ->
  0 <= c < 2 ^ 63 -> buffer_ok (mk c bs m).
Proof. intros Hb Hs Hc. constructor; [exact Hb | exact Hs | exact Hc]. Qed.

Lemma ReadU32_field (c c' : Z) (bs : list Z) (m : bool) :
  Forall (fun x => 0 <= x < 2 ^ 8) bs -> Z.of_nat (length bs) < 2 ^ 63 ->
  0 <= c -> c' = c + 4 -> c' <= Z.of_nat (length bs) ->
  ReadU32 (mk c bs m) = Returns (field32 bs c, mk c' bs m).
Proof.
  intros Hb Hs Hc -> Hle.
  destruct (ReadU32_reads _ (buffer_ok_at c bs m Hb Hs ltac:(lia))) as [[Hr _] _].
  rewrite Hr by (unfold Size; simpl; lia).
  unfold next, advance, set_readCursor, field32. simpl readCursor. simpl bytes.
  simpl readMode. rewrite usize_id by lia. reflexivity.
Qed.

Lemma ReadU32_short (c : Z) (bs : list Z) (m : bool) :
  Forall (fun x => 0 <= x < 2 ^ 8) bs -> Z.of_nat (length bs) < 2 ^ 63 ->
  0 <= c < 2 ^ 63 -> Z.of_nat (length bs) < c + 4 ->
  ReadU32 (mk c bs m) = Throws BufferUnderrunException.
Proof.
  intros Hb Hs Hc Hlt.
  destruct (ReadU32_reads _ (buffer_ok_at c bs m Hb Hs Hc)) as [[_ Hr] _].
  apply Hr. unfold Size. simpl. lia.
Qed.

Lemma ReadU64_field (c c' : Z) (bs : list Z) (m : bool) :
  Forall (fun x => 0 <= x < 2 ^ 8) bs -> Z.of_nat (length bs) < 2 ^ 63 ->
  0 <= c -> c' = c + 8 -> c' <= Z.of_nat (length bs) ->
  ReadU64 (mk c bs m) = Returns (field64 bs c, mk c' bs m).
Proof.
  intros Hb Hs Hc -> Hle.
  destruct (ReadU64_reads _ (buffer_ok_at c bs m Hb Hs ltac:(lia))) as [[Hr _] _].
  rewrite Hr by (unfold Size; simpl; lia).
  unfold next, advance, set_readCursor, field64. simpl readCursor. simpl bytes.
  simpl readMode. rewrite usize_id by lia. reflexivity.
Qed.

Lemma ReadU64_short (c : Z) (bs : list Z) (m : bool) :
  Forall (fun x => 0 <= x < 2 ^ 8) bs -> Z.of_nat (length bs) < 2 ^ 63 ->
  0 <= c < 2 ^ 63 -> Z.of_nat (length bs) < c + 8 ->
  ReadU64 (mk c bs m) = Throws BufferUnderrunException.
Proof.
  intros Hb Hs Hc Hlt.
  destruct (ReadU64_reads _ (buffer_ok_at c bs m Hb Hs Hc)) as [[_ Hr] _].
  apply Hr. unfold Size. simpl. lia.
Qed.

Lemma Read_loop_field (n : nat) (c : Z) (bs : list Z) (m : bool) :
  0 <= c -> c + Z.of_nat n <= Z.of_nat (length bs) -> Z.of_nat (length bs) < 2 ^ 63 ->
  Read_loop n (mk c bs m)
  = Returns (take n (drop (Z.to_nat c) bs), mk (c + Z.of_nat n) bs m).
Proof.
  revert c. induction n as [|n IH]; intros c Hc Hle Hs.
  - simpl. rewrite Z.add_0_r. reflexivity.
  - cbn [Read_loop]. simpl readCursor.
    destruct (lookup_in bs c ltac:(lia)) as [x Hx].
    unfold byte. simpl bytes. rewrite (vget_in bs c x); [|lia|exact Hx].
    cbn [lift cbind]. unfold advance, set_readCursor. simpl readCursor. simpl bytes.
    simpl readMode. rewrite usize_id by lia.
    rewrite IH by lia. cbn [cbind].
    replace (c + 1 + Z.of_nat n) with (c + Z.of_nat (S n)) by lia.
    f_equal. f_equal.
    rewrite (drop_S bs x (Z.to_nat c)) by exact Hx.
    cbn [take]. f_equal. f_equal. f_equal. lia.
Qed.

Lemma Read_array_field (N : nat) (c c' : Z) (bs : list Z) (m : bool) :
  0 <= c -> c' = c + Z.of_nat N -> c' <= Z.of_nat (length bs) ->
  Z.of_nat N < 2 ^ 32 -> Z.of_nat (length bs) < 2 ^ 63 ->
  Read_array N (mk c bs m) = Returns (take N (drop (Z.to_nat c) bs), mk c' bs m).
Proof.
  intros Hc -> Hle HN Hs. unfold Read_array.
  rewrite AssertRemainingBytes_passes by (unfold Size; simpl; lia).
  cbn [cbind]. apply Read_loop_field; lia.
Qed.

Lemma Read_array_short (N : nat) (c : Z) (bs : list Z) (m : bool) :
  0 <= c < 2 ^ 63 -> Z.of_nat (length bs) < c + Z.of_nat N -> Z.of_nat N < 2 ^ 32 ->
  Read_array N (mk c bs m) = Throws BufferUnderrunException.
Proof.
  intros Hc Hlt HN. unfold Read_array. apply reader_underrun; unfold Size; simpl; lia.
Qed.

Lemma s32_small (x : Z) : 0 <= x < 2 ^ 31 -> s32 x = x.
Proof.
  intros H. unfold s32, sint. simpl (32 - 1).
  rewrite Z.mod_small by lia. lia.
Qed.

Lemma ReadPadding_field (count c c' : Z) (bs : list Z) (m : bool) :
  0 <= count < 2 ^ 31 -> 0 <= c -> c' = c + count -> c' <= Z.of_nat (length bs) ->
  Z.of_nat (length bs) < 2 ^ 63 ->
  ReadPadding count (mk c bs m) = Returns (mk c' bs m).
Proof.
  intros Hn Hc -> Hle Hs. unfold ReadPadding. rewrite (s32_small count) by lia.
  rewrite AssertRemainingBytes_passes by (unfold Size; simpl; lia).
  cbn [cbind]. unfold advance, set_readCursor. simpl.
  rewrite usize_id by lia. reflexivity.
Qed.

End Fields.
(** ** The Granny container: a section header *)

Section SectionHeader.
Import Buffer.

Lemma Load_short (c : Z) (bs : list Z) (m : bool) (T : Z) :
  Forall (fun x => 0 <= x < 2 ^ 8) bs -> Z.of_nat (length bs) < 2 ^ 63 ->
  0 <= c < 2 ^ 63 -> Z.of_nat (length bs) < c + 44 ->
  GrannySectionHeader.Load (mk c bs m) T = Throws BufferUnderrunException.
Proof.
  intros Hb Hs Hc Hlt. unfold GrannySectionHeader.Load.
  repeat
    match goal with
    | |- cbind (ReadU32 (mk ?k bs m)) _ = _ =>
        destruct (Z_le_gt_dec (k + 4) (Z.of_nat (length bs))) as [?Hle|?Hgt];
        [ rewrite (ReadU32_field k (k + 4) bs m Hb Hs) by lia; cbn [cbind]
        | rewrite (ReadU32_short k bs m Hb Hs) by lia; reflexivity ]
    end.
  lia.
Qed.

Lemma Load_long (c : Z) (bs : list Z) (m : bool) (T : Z) :
  Forall (fun x => 0 <= x < 2 ^ 8) bs -> Z.of_nat (length bs) < 2 ^ 63 ->
  0 <= c -> c + 44 <= Z.of_nat (length bs) ->
  exists ok cerr,
    GrannySectionHeader.Load (mk c bs m) T
    = Returns (ok, cerr, section_header_at bs c, mk (c + 44) bs m) /\
    (ok = true <-> section_accepted T (section_header_at bs c)) /\
    (ok = true -> cerr = []) /\
    (ok = false -> length cerr = 1%nat).
Proof.
  intros Hb Hs Hc Hle. unfold GrannySectionHeader.Load.
  rewrite (ReadU32_field c (c + 4) bs m Hb Hs) by lia; cbn [cbind].
  rewrite (ReadU32_field (c + 4) (c + 8) bs m Hb Hs) by lia; cbn [cbind].
  rewrite (ReadU32_field (c + 8) (c + 12) bs m Hb Hs) by lia; cbn [cbind].
  rewrite (ReadU32_field (c + 12) (c + 16) bs m Hb Hs) by lia; cbn [cbind].
  rewrite (ReadU32_field (c + 16) (c + 20) bs m Hb Hs) by lia; cbn [cbind].
  rewrite (ReadU32_field (c + 20) (c + 24) bs m Hb Hs) by lia; cbn [cbind].
  rewrite (ReadU32_field (c + 24) (c + 28) bs m Hb Hs) by lia; cbn [cbind].
  rewrite (ReadU32_field (c + 28) (c + 32) bs m Hb Hs) by lia; cbn [cbind].
  rewrite (ReadU32_field (c + 32) (c + 36) bs m Hb Hs) by lia; cbn [cbind].
  rewrite (ReadU32_field (c + 36) (c + 40) bs m Hb Hs) by lia; cbn [cbind].
  rewrite (ReadU32_field (c + 40) (c + 44) bs m Hb Hs) by lia; cbn [cbind].
  fold (section_header_at bs c).
  unfold section_accepted. cbn [section_header_at GrannySectionHeader.fileOffset
    GrannySectionHeader.fileSize GrannySectionHeader.memSize
    GrannySectionHeader.relocOffset GrannySectionHeader.relocCount
    GrannySectionHeader.marshalOffset GrannySectionHeader.marshalCount].
  pose proof (field32_range bs (c + 4) Hb) as R1.
  pose proof (field32_range bs (c + 8) Hb) as R2.
  pose proof (field32_range bs (c + 12) Hb) as R3.
  pose proof (field32_range bs (c + 28) Hb) as R7.
  pose proof (field32_range bs (c + 32) Hb) as R8.
  pose proof (field32_range bs (c + 36) Hb) as R9.
  pose proof (field32_range bs (c + 40) Hb) as R10.
  set (fo := field32 bs (c + 4)) in *. set (fs := field32 bs (c + 8)) in *.
  set (ms := field32 bs (c + 12)) in *. set (ro := field32 bs (c + 28)) in *.
  set (rc := field32 bs (c + 32)) in *. set (mo := field32 bs (c + 36)) in *.
  set (mc := field32 bs (c + 40)) in *.
  destruct (Z.gtb_spec fo T) as [H1|H1]; cbn [orb].
  { eexists _, _. split; [reflexivity|].
    split; [split; [discriminate|lia]|]. split; [discriminate|reflexivity]. }
  destruct (Z.gtb_spec (u32 (fo + fs)) T) as [H2|H2].
  { eexists _, _. split; [reflexivity|].
    split; [split; [discriminate|lia]|]. split; [discriminate|reflexivity]. }
  destruct (Z.ltb_spec ms fs) as [H3|H3].
  { eexists _, _. split; [reflexivity|].
    split; [split; [discriminate|lia]|]. split; [discriminate|reflexivity]. }
  destruct (Z.gtb_spec ro T) as [H4|H4]; cbn [orb].
  { eexists _, _. split; [reflexivity|].
    split; [split; [discriminate|lia]|]. split; [discriminate|reflexivity]. }
  destruct (Z.gtb_spec (u32 (ro + u32 (rc * 12))) T) as [H5|H5].
  { eexists _, _. split; [reflexivity|].
    split; [split; [discriminate|lia]|]. split; [discriminate|reflexivity]. }
  destruct (Z.gtb_spec mo T) as [H6|H6]; cbn [orb].
  { eexists _, _. split; [reflexivity|].
    split; [split; [discriminate|lia]|]. split; [discriminate|reflexivity]. }
  destruct (Z.gtb_spec mc 0) as [H8|H8].
  { destruct (Z.gtb_spec (u32 (mo + u32 (mc * 12))) T) as [H7|H7].
    - eexists _, _. split; [reflexivity|].
      split; [split; [discriminate|lia]|]. split; [discriminate|reflexivity].
    - eexists _, _. split; [reflexivity|].
      split; [split; [discriminate|lia]|]. split; [discriminate|reflexivity]. }
  assert (Hmc : mc = 0) by lia. rewrite Hmc. simpl (0 * 12).
  change (u32 0) with 0. rewrite Z.add_0_r, (u32_id mo) by lia.
  destruct (Z.gtb_spec mo T) as [H7|H7]; [lia|].
  eexists _, _. split; [reflexivity|].
  split; [split; [intros _; repeat split; lia|reflexivity]|].
  split; [reflexivity|discriminate].
Qed.

Lemma section_inside_accepted (T : Z) (hdr : GrannySectionHeader.t) :
  0 <= T < 2 ^ 32 ->
  0 <= GrannySectionHeader.fileOffset hdr -> 0 <= GrannySectionHeader.fileSize hdr ->
  0 <= GrannySectionHeader.relocOffset hdr -> 0 <= GrannySectionHeader.relocCount hdr ->
  section_inside T hdr -> section_accepted T hdr.
Proof.
  intros HT H1 H2 H3 H4 (Ha & Hb & Hc & Hd & He).
  unfold section_accepted.
  rewrite (u32_id (GrannySectionHeader.fileOffset hdr + GrannySectionHeader.fileSize hdr))
    by lia.
  rewrite (u32_id (GrannySectionHeader.relocCount hdr * 12)) by lia.
  rewrite (u32_id (GrannySectionHeader.relocOffset hdr
                   + GrannySectionHeader.relocCount hdr * 12)) by lia.
  repeat split; lia.
Qed.


Lemma section_header_at_range (raw : list Z) (p : Z) :
  Forall (fun x => 0 <= x < 2 ^ 8) raw ->
  let hdr := section_header_at raw p in
  0 <= GrannySectionHeader.fileOffset hdr < 2 ^ 32 /\
  0 <= GrannySectionHeader.fileSize hdr < 2 ^ 32 /\
  0 <= GrannySectionHeader.memSize hdr < 2 ^ 32 /\
  0 <= GrannySectionHeader.stream0Stop hdr < 2 ^ 32 /\
  0 <= GrannySectionHeader.stream1Stop hdr < 2 ^ 32 /\
  0 <= GrannySectionHeader.relocOffset hdr < 2 ^ 32 /\
  0 <= GrannySectionHeader.relocCount hdr < 2 ^ 32.
Proof.
  intros Hb. cbn. repeat split; apply field32_range; exact Hb.
Qed.

Lemma bytes_checked (l : list Z) :
  forallb (fun x => (0 <=? x) && (x <? 2 ^ 8)) l = true ->
  Forall (fun x => 0 <= x < 2 ^ 8) l.
Proof.
  intros H. apply Forall_forall. intros x Hx.
  rewrite forallb_forall in H. apply list_elem_of_In in Hx.
  specialize (H x Hx). apply andb_true_iff in H as [H1 H2]. lia.
Qed.

Lemma sample_raw_file_bytes : Forall (fun x => 0 <= x < 2 ^ 8) sample_raw_file.
Proof. apply bytes_checked. vm_compute. reflexivity. Qed.



End SectionHeader.

(** ** The Granny container: the fixed header *)

Section FixedHeader.
Import Buffer GrannyFile.

Ltac start_file raw Hb Hs :=
  unfold LoadFromBytes;
  destruct (Z.ltb_spec (Z.of_nat (length raw)) 64) as [?Hsmall|?Hbig]; [lia|];
  unfold of_bytes, SignatureLength;
  rewrite (Read_array_field 16 0 16 raw true) by (simpl; lia);
  cbn [cbind]; change (Z.to_nat 0) with 0%nat; rewrite drop_0.

Ltac read_version raw Hb Hs :=
  rewrite (ReadU32_field 16 20 raw true Hb Hs) by lia; cbn [cbind];
  rewrite (ReadPadding_field 12 20 32 raw true) by lia; cbn [cbind];
  unfold Tell; simpl readCursor; change (u32 32) with 32;
  rewrite (ReadU32_field 32 36 raw true Hb Hs) by lia; cbn [cbind].

Lemma LoadFromBytes_bad_magic (raw : list Z) (g : GrannyFile.t) :
  Forall (fun x => 0 <= x < 2 ^ 8) raw -> Z.of_nat (length raw) < 2 ^ 63 ->
  64 <= Z.of_nat (length raw) -> take 16 raw <> SignatureLE ->
  LoadFromBytes raw g
  = Returns (false, [Text "Granny file has invalid magic bytes"], g).
Proof.
  intros Hb Hs H64 Hsig. start_file raw Hb Hs.
  rewrite bool_decide_eq_false_2 by exact Hsig. reflexivity.
Qed.

Lemma LoadFromBytes_bad_version (raw : list Z) (g : GrannyFile.t) :
  Forall (fun x => 0 <= x < 2 ^ 8) raw -> Z.of_nat (length raw) < 2 ^ 63 ->
  64 <= Z.of_nat (length raw) -> take 16 raw = SignatureLE ->
  field32 raw 32 <> 6 ->
  LoadFromBytes raw g
  = Returns (false,
             [Formatted "Granny file has unsupported version %d" [field32 raw 32]],
             mk (crc g) (data g) 32 (rootNodeType g) (rootNodeObject g)
                (sectionHeaders g) (totalFileSize g) (field32 raw 16)
                (userData g) (userTag g) (field32 raw 32)).
Proof.
  intros Hb Hs H64 Hsig Hv. start_file raw Hb Hs.
  rewrite bool_decide_eq_true_2 by exact Hsig. cbn [negb].
  read_version raw Hb Hs.
  destruct (Z.eqb_spec (field32 raw 32) 6) as [He|_]; [contradiction|]. reflexivity.
Qed.

Lemma LoadFromBytes_bad_size (raw : list Z) (g : GrannyFile.t) :
  Forall (fun x => 0 <= x < 2 ^ 8) raw -> Z.of_nat (length raw) < 2 ^ 63 ->
  64 <= Z.of_nat (length raw) -> take 16 raw = SignatureLE ->
  field32 raw 32 = 6 -> field32 raw 36 <> Z.of_nat (length raw) ->
  LoadFromBytes raw g
  = Returns (false,
             [Formatted "Granny file claims length %d, but is actually %d"
                        [field32 raw 36; Z.of_nat (length raw)]],
             mk (crc g) (data g) 32 (rootNodeType g) (rootNodeObject g)
                (sectionHeaders g) (field32 raw 36) (field32 raw 16)
                (userData g) (userTag g) 6).
Proof.
  intros Hb Hs H64 Hsig Hv Hn. start_file raw Hb Hs.
  rewrite bool_decide_eq_true_2 by exact Hsig. cbn [negb].
  read_version raw Hb Hs. rewrite Hv. cbn [Z.eqb Pos.eqb negb].
  rewrite (ReadU32_field 36 40 raw true Hb Hs) by lia; cbn [cbind].
  unfold Size. simpl bytes.
  destruct (Z.eqb_spec (field32 raw 36) (Z.of_nat (length raw))) as [He|_];
    [contradiction|].
  reflexivity.
Qed.

Lemma LoadFromBytes_short_header (raw : list Z) (g : GrannyFile.t) :
  Forall (fun x => 0 <= x < 2 ^ 8) raw ->
  64 <= Z.of_nat (length raw) < 88 -> fixed_header_valid raw ->
  LoadFromBytes raw g = Throws BufferUnderrunException.
Proof.
  intros Hb H64 (Hsig & Hv & Hn).
  assert (Hs : Z.of_nat (length raw) < 2 ^ 63) by lia.
  start_file raw Hb Hs.
  rewrite bool_decide_eq_true_2 by exact Hsig. cbn [negb].
  read_version raw Hb Hs. rewrite Hv. cbn [Z.eqb Pos.eqb negb].
  rewrite (ReadU32_field 36 40 raw true Hb Hs) by lia; cbn [cbind].
  unfold Size. simpl bytes. rewrite Hn, Z.eqb_refl. cbn [negb].
  rewrite (ReadU32_field 40 44 raw true Hb Hs) by lia; cbn [cbind].
  rewrite (ReadU32_field 44 48 raw true Hb Hs) by lia; cbn [cbind].
  rewrite (ReadU32_field 48 52 raw true Hb Hs) by lia; cbn [cbind].
  rewrite (ReadU64_field 52 60 raw true Hb Hs) by lia; cbn [cbind].
  destruct (Z_le_gt_dec 68 (Z.of_nat (length raw))) as [H68|H68];
    [|rewrite (ReadU64_short 60 raw true Hb Hs) by lia; reflexivity].
  rewrite (ReadU64_field 60 68 raw true Hb Hs) by lia; cbn [cbind].
  destruct (Z_le_gt_dec 72 (Z.of_nat (length raw))) as [H72|H72];
    [|rewrite (ReadU32_short 68 raw true Hb Hs) by lia; reflexivity].
  rewrite (ReadU32_field 68 72 raw true Hb Hs) by lia; cbn [cbind].
  unfold UserDataSize.
  rewrite (Read_array_short 16 72 raw true) by (simpl; lia). reflexivity.
Qed.

(** What [LoadFromBytes] makes of the fixed header.  A file of fewer
    than 64 bytes, with other magic bytes, with a version other than 6 or
    with a size field that is not its size makes it return false with the
    message of that check; the first two leave the object as it was, the
    last two have already overwritten [totalHeaderSize], [dataBase] and
    [version] (and [totalFileSize]).  The fixed header is 88 bytes long,
    not 64: a file of 64 to 87 bytes that passes these checks makes
    [LoadFromBytes] throw [BufferUnderrunException]. *)
Theorem LoadFromBytes_fixed_header (raw : list Z) (g : GrannyFile.t) :
  Forall (fun x => 0 <= x < 2 ^ 8) raw -> Z.of_nat (length raw) < 2 ^ 63 ->
  (Z.of_nat (length raw) < 64 ->
   LoadFromBytes raw g
   = Returns (false, [Text "Granny file is implausibly small"], g)) /\
  (64 <= Z.of_nat (length raw) -> take 16 raw <> SignatureLE ->
   LoadFromBytes raw g
   = Returns (false, [Text "Granny file has invalid magic bytes"], g)) /\
  (64 <= Z.of_nat (length raw) -> take 16 raw = SignatureLE ->
   field32 raw 32 <> 6 ->
   LoadFromBytes raw g
   = Returns (false,
              [Formatted "Granny file has unsupported version %d" [field32 raw 32]],
              mk (crc g) (data g) 32 (rootNodeType g) (rootNodeObject g)
                 (sectionHeaders g) (totalFileSize g) (field32 raw 16)
                 (userData g) (userTag g) (field32 raw 32))) /\
  (64 <= Z.of_nat (length raw) -> take 16 raw = SignatureLE ->
   field32 raw 32 = 6 -> field32 raw 36 <> Z.of_nat (length raw) ->
   LoadFromBytes raw g
   = Returns (false,
              [Formatted "Granny file claims length %d, but is actually %d"
                         [field32 raw 36; Z.of_nat (length raw)]],
              mk (crc g) (data g) 32 (rootNodeType g) (rootNodeObject g)
                 (sectionHeaders g) (field32 raw 36) (field32 raw 16)
                 (userData g) (userTag g) 6)) /\
  (64 <= Z.of_nat (length raw) < 88 -> fixed_header_valid raw ->
   LoadFromBytes raw g = Throws BufferUnderrunException).
Proof.
  intros Hb Hs. split; [|split; [|split; [|split]]].
  - intros Hsmall. unfold LoadFromBytes.
    destruct (Z.ltb_spec (Z.of_nat (length raw)) 64); [reflexivity|lia].
  - intros H64 Hsig. apply LoadFromBytes_bad_magic; assumption.
  - intros H64 Hsig Hv. apply LoadFromBytes_bad_version; assumption.
  - intros H64 Hsig Hv Hn. apply LoadFromBytes_bad_size; assumption.
  - intros H64 Hvalid. apply LoadFromBytes_short_header; assumption.
Qed.

Lemma LoadFromBytes_fixed_header_witness :
  LoadFromBytes (take 70 sample_raw_file) fresh
  = Returns (false,
             [Formatted "Granny file claims length %d, but is actually %d" [184; 70]],
             mk 0 [] 32 0 0 [] 184 176 (replicate 16 0) 0 6) /\
  LoadFromBytes (<[36%nat := 70]> (take 70 sample_raw_file)) fresh
  = Throws BufferUnderrunException.
Proof.
  assert (Hb : Forall (fun x => 0 <= x < 2 ^ 8) (take 70 sample_raw_file))
    by (apply bytes_checked; vm_compute; reflexivity).
  assert (Hb' : Forall (fun x => 0 <= x < 2 ^ 8) (<[36%nat := 70]> (take 70 sample_raw_file)))
    by (apply bytes_checked; vm_compute; reflexivity).
  split.
  - destruct (LoadFromBytes_fixed_header (take 70 sample_raw_file) fresh Hb)
      as (_ & _ & _ & Hsize & _); [vm_compute; reflexivity|].
    rewrite Hsize.
    + vm_compute. reflexivity.
    + vm_compute. congruence.
    + vm_compute. reflexivity.
    + vm_compute. reflexivity.
    + vm_compute. congruence.
  - destruct (LoadFromBytes_fixed_header (<[36%nat := 70]> (take 70 sample_raw_file))
                fresh Hb') as (_ & _ & _ & _ & Hthrow); [vm_compute; reflexivity|].
    apply Hthrow.
    + vm_compute. split; congruence.
    + vm_compute. repeat split; reflexivity.
Defined.

End FixedHeader.

(** ** The Granny container: the section table *)

Section SectionTable.
Import Buffer GrannyFile.

Lemma Read_ptr_loop_copy (n : nat) (bs : list Z) (m : bool) :
  forall (mem : list Z) (p c : Z),
    0 <= c -> c + Z.of_nat n <= Z.of_nat (length bs) -> Z.of_nat (length bs) < 2 ^ 63 ->
    0 <= p -> p + Z.of_nat n <= Z.of_nat (length mem) ->
    Read_ptr_loop n mem p (Buffer.mk c bs m)
    = Returns (take (Z.to_nat p) mem ++ take n (drop (Z.to_nat c) bs)
               ++ drop (Z.to_nat p + n) mem,
                Buffer.mk (c + Z.of_nat n) bs m).
Proof.
  induction n as [|n IH]; intros mem p c Hc Hle Hs Hp Hpm.
  - cbn [Read_ptr_loop]. rewrite Nat.add_0_r. change (Z.of_nat 0) with 0.
    rewrite Z.add_0_r, take_0. cbn [app]. rewrite take_drop. reflexivity.
  - cbn [Read_ptr_loop]. simpl readCursor.
    destruct (lookup_in bs c ltac:(lia)) as [x Hx].
    unfold byte. simpl bytes. rewrite (vget_in bs c x); [|lia|exact Hx].
    cbn [lift cbind]. rewrite vset_in by lia. cbn [lift cbind].
    unfold advance, set_readCursor. simpl readCursor. simpl bytes. simpl readMode.
    rewrite usize_id by lia.
    rewrite IH by (rewrite ?length_insert; lia).
    replace (c + 1 + Z.of_nat n) with (c + Z.of_nat (S n)) by lia.
    f_equal. f_equal.
    replace (Z.to_nat (p + 1)) with (S (Z.to_nat p)) by lia.
    rewrite (drop_S bs x (Z.to_nat c)) by exact Hx.
    replace (Z.to_nat (c + 1)) with (S (Z.to_nat c)) by lia.
    assert (Hlt : (Z.to_nat p < length mem)%nat) by lia.
    rewrite (take_S_r (<[Z.to_nat p:=x]> mem) (Z.to_nat p) x)
      by (apply list_lookup_insert_eq; exact Hlt).
    rewrite take_insert_ge by lia.
    rewrite drop_insert_lt by lia.
    rewrite <- app_assoc. cbn [app take].
    replace (S (Z.to_nat p) + n)%nat with (Z.to_nat p + S n)%nat by lia.
    reflexivity.
Qed.

Lemma Read_ptr_copy (mem : list Z) (p size c : Z) (bs : list Z) (m : bool) :
  0 <= size < 2 ^ 32 ->
  0 <= c -> c + size <= Z.of_nat (length bs) -> Z.of_nat (length bs) < 2 ^ 63 ->
  0 <= p -> p + size <= Z.of_nat (length mem) ->
  Read_ptr mem p size (Buffer.mk c bs m)
  = Returns (take (Z.to_nat p) mem ++ take (Z.to_nat size) (drop (Z.to_nat c) bs)
             ++ drop (Z.to_nat (p + size)) mem,
              Buffer.mk (c + size) bs m).
Proof.
  intros Hsize Hc Hle Hs Hp Hpm. unfold Read_ptr.
  rewrite AssertRemainingBytes_passes by (unfold Size; simpl; lia).
  cbn [cbind]. rewrite (u32_id size) by lia.
  rewrite Read_ptr_loop_copy by lia.
  rewrite Z2Nat.id by lia.
  replace (Z.to_nat p + Z.to_nat size)%nat with (Z.to_nat (p + size)) by lia.
  reflexivity.
Qed.

Lemma Read_ptr_short (mem : list Z) (p size c : Z) (bs : list Z) (m : bool) :
  0 <= size < 2 ^ 32 -> 0 <= c < 2 ^ 63 -> Z.of_nat (length bs) < c + size ->
  Read_ptr mem p size (Buffer.mk c bs m) = Throws BufferUnderrunException.
Proof.
  intros Hsize Hc Hlt. unfold Read_ptr. apply reader_underrun; unfold Size; simpl; lia.
Qed.

Lemma Read_ptr_loop_length (n : nat) :
  forall (mem : list Z) (p : Z) (b : Buffer.t) (mem' : list Z) (b' : Buffer.t),
    Read_ptr_loop n mem p b = Returns (mem', b') -> length mem' = length mem.
Proof.
  induction n as [|n IH]; intros mem p b mem' b' H; cbn [Read_ptr_loop] in H.
  - injection H as <- _. reflexivity.
  - apply cbind_Returns in H as (x & _ & H).
    apply cbind_Returns in H as (mem1 & Hset & H).
    destruct (vset mem p x) as [v| |] eqn:Hv; try discriminate.
    injection Hset as ->. apply IH in H. rewrite H.
    exact (vset_length _ _ _ _ Hv).
Qed.

Lemma Read_ptr_length (mem : list Z) (p size : Z) (b : Buffer.t)
      (mem' : list Z) (b' : Buffer.t) :
  Read_ptr mem p size b = Returns (mem', b') -> length mem' = length mem.
Proof.
  unfold Read_ptr. intros H. apply cbind_Returns in H as (u & _ & H).
  exact (Read_ptr_loop_length _ _ _ _ _ _ H).
Qed.

(** The headers at positions [off + 44 * i] for [i] from [j], [k] of
    them. *)
Lemma u32_add_l (a b : Z) : u32 (u32 a + b) = u32 (a + b).
Proof. unfold u32. apply Zplus_mod_idemp_l. Qed.

Lemma LoadFromBytes_headers_outcome (raw : list Z) (m : bool) (T off : Z) (k : nat) :
  Forall (fun x => 0 <= x < 2 ^ 8) raw -> Z.of_nat (length raw) < 2 ^ 63 ->
  0 <= off ->
  forall (j : nat) (hs : list GrannySectionHeader.t) (tm : Z),
    0 <= tm < 2 ^ 32 ->
    off + 44 * Z.of_nat j <= Z.of_nat (length raw) ->
    let table n :=
      map (fun i => section_header_at raw (off + 44 * Z.of_nat i)) (seq j n) in
    let run := LoadFromBytes_headers k (Buffer.mk (off + 44 * Z.of_nat j) raw m) T hs tm in
    (off + 44 * Z.of_nat (j + k) <= Z.of_nat (length raw) /\
     Forall (section_accepted T) (table k) /\
     run = Returns (true, [], hs ++ table k, u32 (tm + memory_size (table k)),
                    Buffer.mk (off + 44 * Z.of_nat (j + k)) raw m)) \/
    (Z.of_nat (length raw) < off + 44 * Z.of_nat (j + k) /\
     run = Throws BufferUnderrunException) \/
    (exists (i : nat) cerr tm' b',
        (i < k)%nat /\
        ~ section_accepted T (section_header_at raw (off + 44 * Z.of_nat (j + i))) /\
        length cerr = 1%nat /\
        run = Returns (false, cerr, hs ++ table i, tm', b')).
Proof.
  intros Hb Hs Hoff. induction k as [|k IH]; intros j hs tm Htm Hj table run.
  - left. subst run table. cbn [LoadFromBytes_headers seq map memory_size foldr].
    rewrite Nat.add_0_r, app_nil_r, Z.add_0_r.
    split; [exact Hj|]. split; [constructor|].
    rewrite u32_id by exact Htm. reflexivity.
  - destruct (Z_le_gt_dec (off + 44 * Z.of_nat j + 44) (Z.of_nat (length raw)))
      as [Hfit|Hshort].
    2:{ right. left. split; [lia|]. subst run. cbn [LoadFromBytes_headers].
        rewrite Load_short by (assumption || lia). reflexivity. }
    destruct (Load_long (off + 44 * Z.of_nat j) raw m T Hb Hs ltac:(lia) Hfit)
      as (ok & cerr & HL & Hiff & Hnil & Hone).
    set (hdr := section_header_at raw (off + 44 * Z.of_nat j)) in *.
    destruct ok.
    2:{ right. right. exists 0%nat, cerr, tm, (Buffer.mk (off + 44 * Z.of_nat j + 44) raw m).
        split; [lia|]. rewrite Nat.add_0_r. fold hdr.
        split; [intros Hacc; apply Hiff in Hacc; discriminate|].
        split; [apply Hone; reflexivity|].
        subst run table. cbn [LoadFromBytes_headers seq map].
        rewrite HL. cbn [cbind negb]. rewrite app_nil_r. reflexivity. }
    assert (Hrun : run = LoadFromBytes_headers k
                           (Buffer.mk (off + 44 * Z.of_nat (S j)) raw m) T (hs ++ [hdr])
                           (u32 (tm + GrannySectionHeader.memSize hdr))).
    { subst run. cbn [LoadFromBytes_headers]. rewrite HL. cbn [cbind negb].
      replace (off + 44 * Z.of_nat j + 44) with (off + 44 * Z.of_nat (S j)) by lia.
      reflexivity. }
    assert (Htable : forall n, table (S n)
                     = hdr :: map (fun i => section_header_at raw (off + 44 * Z.of_nat i))
                                  (seq (S j) n))
      by (intros n; reflexivity).
    specialize (IH (S j) (hs ++ [hdr]) (u32 (tm + GrannySectionHeader.memSize hdr))
                   (u32_range _) ltac:(lia)).
    cbv zeta in IH. rewrite <- Hrun in IH.
    destruct IH as [(Hend & Hall & Hres) | [(Hend & Hres) | (i & cerr' & tm' & b' & Hi & Hrej & Hlen & Hres)]].
    + left. split; [lia|]. rewrite Htable. split.
      * constructor; [apply Hiff; reflexivity | exact Hall].
      * rewrite Hres. cbn [memory_size foldr]. rewrite u32_add_l.
        rewrite <- app_assoc. cbn [app].
        replace (S j + k)%nat with (j + S k)%nat by lia.
        f_equal. f_equal. f_equal. f_equal. unfold memory_size. lia.
    + right. left. split; [lia|exact Hres].
    + right. right. exists (S i), cerr', tm', b'.
      split; [lia|]. replace (j + S i)%nat with (S j + i)%nat by lia.
      split; [exact Hrej|]. split; [exact Hlen|].
      rewrite Hres, Htable, <- app_assoc. reflexivity.
Qed.

End SectionTable.

(** ** The Granny container: the file *)

Section File.
Import Buffer GrannyFile.

(** What is left of [LoadFromBytes] once the fixed header has been read
    and found valid. *)
Lemma LoadFromBytes_valid (raw : list Z) (g : GrannyFile.t) :
  Forall (fun x => 0 <= x < 2 ^ 8) raw ->
  88 <= Z.of_nat (length raw) < 2 ^ 63 -> fixed_header_valid raw ->
  LoadFromBytes raw g
  = let off := section_table_offset raw in
    let cnt := section_count raw in
    let n := Z.of_nat (length raw) in
    let headersEnd := u32 (off + u32 (cnt * 44)) in
    if (off <? 88) || (off >=? n) || (headersEnd >? n) then
      Returns (false,
               [Formatted "Granny file has invalid section-header offset / count %x + %d"
                          [off; cnt]],
               loaded raw (sectionHeaders g) (data g))
    else if field32 raw 16 <? headersEnd then
      Returns (false, [Text "Granny file has invalid total header size"],
               loaded raw (sectionHeaders g) (data g))
    else
      let! (ok, cerr, headers, totalMemSize, buffer) :=
        LoadFromBytes_headers (Z.to_nat cnt) (Buffer.mk off raw true) n
          (sectionHeaders g) 0 in
      if negb ok then Returns (false, cerr, loaded raw headers (data g))
      else
        let! (ok, cerr, data2, buffer) :=
          LoadFromBytes_sections headers buffer
            (resize (Z.to_nat totalMemSize) 0 (data g)) 0 in
        Returns (ok, cerr, loaded raw headers data2).
Proof.
  intros Hb [H88 Hs] (Hsig & Hv & Hn).
  unfold LoadFromBytes.
  destruct (Z.ltb_spec (Z.of_nat (length raw)) 64) as [?Hsmall|?Hbig]; [lia|].
  unfold of_bytes, SignatureLength.
  rewrite (Read_array_field 16 0 16 raw true) by (simpl; lia).
  cbn [cbind]. change (Z.to_nat 0) with 0%nat. rewrite drop_0.
  rewrite bool_decide_eq_true_2 by exact Hsig. cbn [negb].
  rewrite (ReadU32_field 16 20 raw true Hb Hs) by lia; cbn [cbind].
  rewrite (ReadPadding_field 12 20 32 raw true) by lia; cbn [cbind].
  unfold Tell; simpl readCursor; change (u32 32) with 32.
  rewrite (ReadU32_field 32 36 raw true Hb Hs) by lia; cbn [cbind].
  rewrite Hv. cbn [Z.eqb Pos.eqb negb].
  rewrite (ReadU32_field 36 40 raw true Hb Hs) by lia; cbn [cbind].
  unfold Size. simpl bytes. rewrite Hn, Z.eqb_refl. cbn [negb].
  rewrite (ReadU32_field 40 44 raw true Hb Hs) by lia; cbn [cbind].
  rewrite (ReadU32_field 44 48 raw true Hb Hs) by lia; cbn [cbind].
  rewrite (ReadU32_field 48 52 raw true Hb Hs) by lia; cbn [cbind].
  rewrite (ReadU64_field 52 60 raw true Hb Hs) by lia; cbn [cbind].
  rewrite (ReadU64_field 60 68 raw true Hb Hs) by lia; cbn [cbind].
  rewrite (ReadU32_field 68 72 raw true Hb Hs) by lia; cbn [cbind].
  unfold UserDataSize.
  rewrite (Read_array_field 16 72 88 raw true) by (simpl; lia). cbn [cbind].
  simpl readCursor. unfold Seek, set_readCursor. simpl bytes. simpl readMode.
  rewrite (usize_id (u32 (field32 raw 44 + 32)))
    by (pose proof (u32_range (field32 raw 44 + 32)); lia).
  reflexivity.
Qed.

End File.

Section Sections.
Import Buffer GrannyFile.

Lemma memory_size_nonneg (hdrs : list GrannySectionHeader.t) :
  Forall (fun h => 0 <= GrannySectionHeader.memSize h) hdrs -> 0 <= memory_size hdrs.
Proof. induction 1; cbn [memory_size foldr]; [lia|]. unfold memory_size in IHForall. lia. Qed.

Lemma stored_section_memSize (n : Z) (hdrs : list GrannySectionHeader.t) :
  Forall (stored_section n) hdrs ->
  Forall (fun h => 0 <= GrannySectionHeader.memSize h) hdrs.
Proof.
  intros H. eapply Forall_impl; [exact H|].
  intros h (_ & _ & Hh & _). lia.
Qed.

(** The loop over the sections, run over sections that are stored as they
    are: [done] is what lies before the memory of these sections, [mid]
    their memory and [tail] what lies behind it. *)
Lemma LoadFromBytes_sections_stored (raw : list Z) (m : bool) (l1 : list GrannySectionHeader.t) :
  Z.of_nat (length raw) < 2 ^ 63 ->
  forall (l2 : list GrannySectionHeader.t) (c : Z) (done mid tail : list Z),
    Forall (stored_section (Z.of_nat (length raw))) l1 ->
    Z.of_nat (length mid) = memory_size l1 ->
    Z.of_nat (length done) + memory_size l1 < 2 ^ 32 ->
    exists c' mid',
      length mid' = length mid /\
      (mid = replicate (length mid) 0 -> mid' = concat (map (section_bytes raw) l1)) /\
      LoadFromBytes_sections (l1 ++ l2) (Buffer.mk c raw m) (done ++ mid ++ tail)
        (Z.of_nat (length done))
      = LoadFromBytes_sections l2 (Buffer.mk c' raw m) (done ++ mid' ++ tail)
          (Z.of_nat (length done) + memory_size l1).
Proof.
  intros Hs. induction l1 as [|h l1 IH]; intros l2 c done mid tail Hall Hmid Hsum.
  - exists c, mid. cbn [memory_size foldr app map concat] in *.
    destruct mid; [|simpl in Hmid; lia].
    split; [reflexivity|]. split; [reflexivity|]. rewrite Z.add_0_r. reflexivity.
  - apply Forall_cons in Hall as [(Henc & Hfo & Hfs & Hin & Hms) Hall].
    pose proof (memory_size_nonneg l1 (stored_section_memSize _ _ Hall)) as Hrest.
    cbn [memory_size foldr] in Hmid, Hsum |- *. fold (memory_size l1) in Hmid, Hsum |- *.
    set (ms := GrannySectionHeader.memSize h) in *.
    set (fs := GrannySectionHeader.fileSize h) in *.
    set (fo := GrannySectionHeader.fileOffset h) in *.
    cbn [app LoadFromBytes_sections]. fold ms fs fo.
    destruct (Z.leb_spec ms 0) as [Hzero|Hpos].
    + assert (ms = 0) by lia. assert (fs = 0) by lia.
      destruct (IH l2 c done mid tail Hall ltac:(lia) ltac:(lia))
        as (c' & mid' & Hlen & Hz & Heq).
      exists c', mid'. split; [exact Hlen|]. split.
      * intros Hmidz. cbn [map concat]. unfold section_bytes. fold fs ms.
        replace (Z.to_nat fs) with 0%nat by lia.
        replace (Z.to_nat (ms - fs)) with 0%nat by lia.
        rewrite take_0. cbn [replicate app]. exact (Hz Hmidz).
      * rewrite Heq. f_equal. lia.
    + rewrite Henc. cbn [Z.eqb].
      unfold Seek, set_readCursor. simpl bytes. simpl readMode.
      rewrite (usize_id fo) by lia.
      set (p := length done).
      set (mid1 := take (Z.to_nat ms) mid). set (mid2 := drop (Z.to_nat ms) mid).
      assert (Hsplit : mid = mid1 ++ mid2) by (symmetry; apply take_drop).
      assert (Hl1 : length mid1 = Z.to_nat ms)
        by (subst mid1; rewrite length_take; lia).
      assert (Hl2 : Z.of_nat (length mid2) = memory_size l1)
        by (subst mid2; rewrite length_drop; lia).
      destruct (lookup_in (done ++ mid ++ tail) (Z.of_nat p)) as [x Hx].
      { rewrite !length_app. lia. }
      rewrite (vget_in _ (Z.of_nat p) x); [|lia|exact Hx].
      cbn [lift cbind].
      rewrite Read_ptr_copy by (rewrite ?length_app; lia).
      cbn [cbind].
      set (src := take (Z.to_nat fs) (drop (Z.to_nat fo) raw)).
      assert (Hsrc : length src = Z.to_nat fs)
        by (subst src; rewrite length_take, length_drop; lia).
      set (seg := src ++ drop (Z.to_nat fs) mid1).
      assert (Hseg : length seg = Z.to_nat ms)
        by (subst seg; rewrite length_app, length_drop; lia).
      assert (Hdata : take (Z.to_nat (Z.of_nat p)) (done ++ mid ++ tail) ++ src
                      ++ drop (Z.to_nat (Z.of_nat p + fs)) (done ++ mid ++ tail)
                      = (done ++ seg) ++ mid2 ++ tail).
      { rewrite Nat2Z.id. unfold p. rewrite take_app_length.
        replace (Z.to_nat (Z.of_nat (length done) + fs))
          with (length done + Z.to_nat fs)%nat by lia.
        rewrite drop_app_add'  by reflexivity.
        rewrite Hsplit at 1. rewrite <- (app_assoc mid1 mid2 tail).
        rewrite drop_app_le by lia.
        subst seg. rewrite <- !app_assoc. reflexivity. }
      rewrite Hdata.
      rewrite (u32_id (Z.of_nat p + ms)) by lia.
      replace (Z.of_nat p + ms) with (Z.of_nat (length (done ++ seg)))
        by (rewrite length_app; lia).
      destruct (IH l2 (fo + fs) (done ++ seg) mid2 tail Hall Hl2)
        as (c' & mid2' & Hlen & Hz & Heq).
      { rewrite length_app. lia. }
      exists c', (seg ++ mid2'). split.
      { rewrite Hsplit, !length_app. lia. }
      split.
      * intros Hmidz. cbn [map concat].
        assert (Hm1 : mid1 = replicate (Z.to_nat ms) 0).
        { subst mid1. rewrite Hmidz, take_replicate. f_equal. lia. }
        assert (Hm2 : mid2 = replicate (length mid2) 0).
        { subst mid2. rewrite Hmidz at 1. rewrite drop_replicate, length_drop. reflexivity. }
        rewrite <- (Hz Hm2). f_equal.
        unfold section_bytes. fold fs fo ms. fold src. subst seg. f_equal.
        rewrite Hm1, drop_replicate. f_equal. lia.
      * rewrite Heq. rewrite <- !app_assoc. f_equal.
        rewrite length_app. lia.
Qed.

(** Behind the end of the data nothing can be loaded. *)
Lemma LoadFromBytes_sections_past_end (raw : list Z) (hdrs : list GrannySectionHeader.t) :
  forall (b : Buffer.t) (data_ : list Z) (memOffset : Z),
    Forall (stored_section (Z.of_nat (length raw))) hdrs ->
    0 < memory_size hdrs ->
    Z.of_nat (length data_) <= memOffset ->
    LoadFromBytes_sections hdrs b data_ memOffset = Undefined.
Proof.
  induction hdrs as [|h hdrs IH]; intros b data_ memOffset Hall Hpos Hout.
  - cbn in Hpos. lia.
  - apply Forall_cons in Hall as [(Henc & Hfo & Hfs & Hin & Hms) Hall].
    cbn [memory_size foldr] in Hpos. fold (memory_size hdrs) in Hpos.
    cbn [LoadFromBytes_sections].
    destruct (Z.leb_spec (GrannySectionHeader.memSize h) 0) as [Hzero|Hnz].
    + apply IH; [exact Hall | lia | exact Hout].
    + rewrite Henc. cbn [Z.eqb].
      unfold vget. destruct (Z.ltb_spec memOffset 0) as [|_]; [reflexivity|].
      rewrite lookup_ge_None_2 by lia. reflexivity.
Qed.

Lemma Read_ptr_loop_outcome (n : nat) (bs : list Z) (m : bool) :
  forall (mem : list Z) (p c : Z),
    0 <= c -> c + Z.of_nat n <= Z.of_nat (length bs) -> Z.of_nat (length bs) < 2 ^ 63 ->
    Read_ptr_loop n mem p (Buffer.mk c bs m) = Undefined \/
    exists mem',
      Read_ptr_loop n mem p (Buffer.mk c bs m)
      = Returns (mem', Buffer.mk (c + Z.of_nat n) bs m) /\
      length mem' = length mem.
Proof.
  induction n as [|n IH]; intros mem p c Hc Hle Hs.
  - right. exists mem. cbn [Read_ptr_loop]. change (Z.of_nat 0) with 0.
    rewrite Z.add_0_r. split; reflexivity.
  - cbn [Read_ptr_loop]. simpl readCursor.
    destruct (lookup_in bs c ltac:(lia)) as [x Hx].
    unfold byte. simpl bytes. rewrite (vget_in bs c x); [|lia|exact Hx].
    cbn [lift cbind].
    destruct (vset mem p x) as [mem1| |] eqn:Hset.
    + cbn [lift cbind]. unfold advance, set_readCursor.
      simpl readCursor. simpl bytes. simpl readMode. rewrite usize_id by lia.
      destruct (IH mem1 (p + 1) (c + 1) ltac:(lia) ltac:(lia) Hs)
        as [Hu | (mem' & Hr & Hlen)].
      * left. exact Hu.
      * right. exists mem'. rewrite Hr.
        replace (c + 1 + Z.of_nat n) with (c + Z.of_nat (S n)) by lia.
        split; [reflexivity|]. rewrite Hlen. exact (vset_length _ _ _ _ Hset).
    + left. reflexivity.
    + exfalso. exact (vset_budget _ _ _ Hset).
Qed.

Lemma Read_ptr_outcome (mem : list Z) (p size c : Z) (bs : list Z) (m : bool) :
  0 <= size < 2 ^ 32 ->
  0 <= c -> c + size <= Z.of_nat (length bs) -> Z.of_nat (length bs) < 2 ^ 63 ->
  Read_ptr mem p size (Buffer.mk c bs m) = Undefined \/
  exists mem',
    Read_ptr mem p size (Buffer.mk c bs m) = Returns (mem', Buffer.mk (c + size) bs m) /\
    length mem' = length mem.
Proof.
  intros Hsize Hc Hle Hs. unfold Read_ptr.
  rewrite AssertRemainingBytes_passes by (unfold Size; simpl; lia).
  cbn [cbind]. rewrite (u32_id size) by lia.
  destruct (Read_ptr_loop_outcome (Z.to_nat size) bs m mem p c Hc ltac:(lia) Hs)
    as [Hu | (mem' & Hr & Hlen)].
  - left. exact Hu.
  - right. exists mem'. rewrite Hr, Z2Nat.id by lia. split; [reflexivity|exact Hlen].
Qed.

(** Sections none of which is compressed are loaded without undefined
    behaviour when the data has room for them. *)
Lemma LoadFromBytes_sections_safe (raw : list Z) (m : bool)
      (hdrs : list GrannySectionHeader.t) :
  Z.of_nat (length raw) < 2 ^ 63 ->
  forall (c : Z) (data_ : list Z) (memOffset : Z),
    Forall (fun h => GrannySectionHeader.encoding h <> GrannySectionHeader.Oodle1 /\
                     0 <= GrannySectionHeader.fileOffset h < 2 ^ 32 /\
                     0 <= GrannySectionHeader.fileSize h /\
                     GrannySectionHeader.fileSize h <= GrannySectionHeader.memSize h /\
                     GrannySectionHeader.memSize h < 2 ^ 32) hdrs ->
    0 <= memOffset -> memOffset + memory_size hdrs <= Z.of_nat (length data_) ->
    memOffset + memory_size hdrs < 2 ^ 32 ->
    (exists r, LoadFromBytes_sections hdrs (Buffer.mk c raw m) data_ memOffset = Returns r) \/
    LoadFromBytes_sections hdrs (Buffer.mk c raw m) data_ memOffset
    = Throws BufferUnderrunException.
Proof.
  intros Hs. induction hdrs as [|h hdrs IH]; intros c data_ memOffset Hall Hmo Hroom Hsum.
  - left. eexists. reflexivity.
  - apply Forall_cons in Hall as [(Henc & Hfo & Hfs & Hle & Hms) Hall].
    assert (Hrest : 0 <= memory_size hdrs).
    { apply memory_size_nonneg. eapply Forall_impl; [exact Hall|].
      intros h' (_ & _ & ? & ? & _). lia. }
    cbn [memory_size foldr] in Hroom, Hsum. fold (memory_size hdrs) in Hroom, Hsum.
    cbn [LoadFromBytes_sections].
    destruct (Z.leb_spec (GrannySectionHeader.memSize h) 0) as [Hzero|Hnz].
    + apply IH; [exact Hall | lia | lia | lia].
    + unfold Seek, set_readCursor. simpl bytes. simpl readMode.
      rewrite (usize_id (GrannySectionHeader.fileOffset h)) by lia.
      destruct (Z.eqb_spec (GrannySectionHeader.encoding h) GrannySectionHeader.Raw)
        as [Hraw|Hother].
      * destruct (lookup_in data_ memOffset ltac:(lia)) as [x Hx].
        rewrite (vget_in _ memOffset x); [|lia|exact Hx]. cbn [lift cbind].
        destruct (Z_le_gt_dec (GrannySectionHeader.fileOffset h
                               + GrannySectionHeader.fileSize h)
                              (Z.of_nat (length raw))) as [Hin|Hshort].
        2:{ right. rewrite Read_ptr_short by lia. reflexivity. }
        rewrite Read_ptr_copy by lia. cbn [cbind].
        rewrite (u32_id (memOffset + GrannySectionHeader.memSize h)) by lia.
        apply IH; [exact Hall | lia | | lia].
        rewrite !length_app, length_take, length_take, !length_drop. lia.
      * destruct (Z.eqb_spec (GrannySectionHeader.encoding h) GrannySectionHeader.Oodle1)
          as [Hoodle|_]; [contradiction|].
        left. eexists. reflexivity.
Qed.

Lemma DecompressOodle1_length (header : GrannySectionHeader.t) (file : list Z)
      (input : Z) (mem mem' : list Z) (output o : Z) :
  0 <= output ->
  GrannySectionHeader.stream0Stop header < 2 ^ 32 ->
  GrannySectionHeader.stream1Stop header < 2 ^ 32 ->
  GrannySectionHeader.memSize header < 2 ^ 32 ->
  DecompressOodle1 header file input mem output = Ok (o, mem') ->
  length mem' = length mem.
Proof.
  intros Hout H0 H1 Hm H. unfold DecompressOodle1 in H.
  apply bind_Ok in H as (bs & _ & H).
  apply bind_Ok in H as ([[o1 bs1] mem1] & Hfor & H).
  injection H as <- <-.
  apply DecompressOodle1_for_Ok in Hfor; [|exact Hout|lia|].
  - tauto.
  - repeat constructor; assumption.
Qed.

(** What the loop over the sections has done when it returns true. *)
Lemma LoadFromBytes_sections_true (hdrs : list GrannySectionHeader.t) :
  forall (b : Buffer.t) (data_ : list Z) (memOffset : Z)
         (cerr : list message) (data' : list Z) (b' : Buffer.t),
    Forall (fun h => GrannySectionHeader.stream0Stop h < 2 ^ 32 /\
                     GrannySectionHeader.stream1Stop h < 2 ^ 32 /\
                     GrannySectionHeader.memSize h < 2 ^ 32) hdrs ->
    LoadFromBytes_sections hdrs b data_ memOffset = Returns (true, cerr, data', b') ->
    cerr = [] /\ length data' = length data_ /\
    Forall (fun h => GrannySectionHeader.memSize h <= 0 \/
                     GrannySectionHeader.encoding h = GrannySectionHeader.Raw \/
                     GrannySectionHeader.encoding h = GrannySectionHeader.Oodle1) hdrs.
Proof.
  induction hdrs as [|h hdrs IH]; intros b data_ memOffset cerr data' b' Hall H.
  - cbn [LoadFromBytes_sections] in H. injection H as <- <- _.
    split; [reflexivity|]. split; [reflexivity|constructor].
  - apply Forall_cons in Hall as [(H0 & H1 & Hm) Hall].
    cbn [LoadFromBytes_sections] in H.
    destruct (Z.leb_spec (GrannySectionHeader.memSize h) 0) as [Hzero|Hnz].
    + destruct (IH _ _ _ _ _ _ Hall H) as (Hc & Hl & Hf).
      split; [exact Hc|]. split; [exact Hl|]. constructor; [left; exact Hzero|exact Hf].
    + destruct (Z.eqb_spec (GrannySectionHeader.encoding h) GrannySectionHeader.Raw)
        as [Hraw|Hnraw].
      * apply cbind_Returns in H as (x & _ & H).
        apply cbind_Returns in H as ([data1 b1] & Hread & H).
        destruct (IH _ _ _ _ _ _ Hall H) as (Hc & Hl & Hf).
        split; [exact Hc|]. split.
        { rewrite Hl. exact (Read_ptr_length _ _ _ _ _ _ Hread). }
        constructor; [right; left; exact Hraw|exact Hf].
      * destruct (Z.eqb_spec (GrannySectionHeader.encoding h) GrannySectionHeader.Oodle1)
          as [Hoodle|Hnoodle]; [|discriminate].
        apply cbind_Returns in H as (x & Hget & H).
        apply cbind_Returns in H as ([o data1] & Hdec & H).
        destruct (vget data_ memOffset) as [y| |] eqn:Hy; try discriminate.
        apply vget_Ok in Hy as [Hmo _].
        destruct (DecompressOodle1 h (bytes (Seek (GrannySectionHeader.fileOffset h) b))
                    (GrannySectionHeader.fileOffset h) data_ memOffset)
          as [[o' d']| |] eqn:Hd; try discriminate.
        injection Hdec as -> ->.
        destruct (IH _ _ _ _ _ _ Hall H) as (Hc & Hl & Hf).
        split; [exact Hc|]. split.
        { rewrite Hl. exact (DecompressOodle1_length _ _ _ _ _ _ _ Hmo H0 H1 Hm Hd). }
        constructor; [right; right; exact Hoodle|exact Hf].
Qed.

(** A section table that lies inside the file and whose headers are all
    accepted is read completely. *)
Lemma LoadFromBytes_headers_complete (raw : list Z) (m : bool) (T off : Z) (k : nat)
      (hs : list GrannySectionHeader.t) :
  Forall (fun x => 0 <= x < 2 ^ 8) raw -> Z.of_nat (length raw) < 2 ^ 63 ->
  0 <= off -> off + 44 * Z.of_nat k <= Z.of_nat (length raw) ->
  let table := map (fun i => section_header_at raw (off + 44 * Z.of_nat i)) (seq 0 k) in
  Forall (section_accepted T) table ->
  LoadFromBytes_headers k (Buffer.mk off raw m) T hs 0
  = Returns (true, [], hs ++ table, u32 (memory_size table),
             Buffer.mk (off + 44 * Z.of_nat k) raw m).
Proof.
  intros Hb Hs Hoff Hfit table Hacc.
  pose proof (LoadFromBytes_headers_outcome raw m T off k Hb Hs Hoff 0%nat hs 0
                ltac:(lia) ltac:(lia)) as Hout.
  cbv zeta in Hout. change (Z.of_nat 0) with 0 in Hout.
  rewrite Z.mul_0_r, Z.add_0_r in Hout. cbn [Nat.add] in Hout.
  destruct Hout as [(_ & _ & Hres) | [(Hshort & _) | (i & cerr & tm' & b' & Hi & Hrej & _)]].
  - rewrite Hres. reflexivity.
  - lia.
  - exfalso. apply Hrej.
    apply (Forall_lookup_1 _ _ i _ Hacc). subst table.
    rewrite list_lookup_fmap, lookup_seq_lt by exact Hi. reflexivity.
Qed.

End Sections.

(** ** The Granny container: files whose sections are stored as they are *)

Section StoredFiles.
Import Buffer GrannyFile.

Lemma section_table_ranges (raw : list Z) :
  Forall (fun x => 0 <= x < 2 ^ 8) raw ->
  Forall (fun hdr =>
            0 <= GrannySectionHeader.fileOffset hdr < 2 ^ 32 /\
            0 <= GrannySectionHeader.fileSize hdr < 2 ^ 32 /\
            0 <= GrannySectionHeader.memSize hdr < 2 ^ 32 /\
            0 <= GrannySectionHeader.stream0Stop hdr < 2 ^ 32 /\
            0 <= GrannySectionHeader.stream1Stop hdr < 2 ^ 32 /\
            0 <= GrannySectionHeader.relocOffset hdr < 2 ^ 32 /\
            0 <= GrannySectionHeader.relocCount hdr < 2 ^ 32)
         (section_table raw).
Proof.
  intros Hb. unfold section_table. apply Forall_fmap, Forall_forall.
  intros i _. exact (section_header_at_range raw _ Hb).
Qed.

Lemma Forall_and_1 {A : Type} (P Q : A -> Prop) (l : list A) :
  Forall P l -> Forall Q l -> Forall (fun x => P x /\ Q x) l.
Proof. intros HP HQ. apply Forall_and. split; assumption. Qed.

Lemma section_table_accepted (raw : list Z) :
  Forall (fun x => 0 <= x < 2 ^ 8) raw -> Z.of_nat (length raw) < 2 ^ 32 ->
  Forall (section_inside (Z.of_nat (length raw))) (section_table raw) ->
  Forall (section_accepted (Z.of_nat (length raw))) (section_table raw).
Proof.
  intros Hb Hn Hin.
  eapply Forall_impl; [exact (Forall_and_1 _ _ _ Hin (section_table_ranges raw Hb))|].
  intros hdr [Hi (R1 & R2 & R3 & R4 & R5 & R6 & R7)].
  apply section_inside_accepted; assumption || lia.
Qed.

Lemma section_table_stored (raw : list Z) :
  Forall (fun x => 0 <= x < 2 ^ 8) raw ->
  Forall (section_inside (Z.of_nat (length raw))) (section_table raw) ->
  Forall (fun hdr => GrannySectionHeader.encoding hdr = GrannySectionHeader.Raw)
         (section_table raw) ->
  Forall (stored_section (Z.of_nat (length raw))) (section_table raw).
Proof.
  intros Hb Hin Hraw.
  eapply Forall_impl;
    [exact (Forall_and_1 _ _ _ Hraw
              (Forall_and_1 _ _ _ Hin (section_table_ranges raw Hb)))|].
  intros hdr (He & (Ha & Hle & _) & (R1 & R2 & R3 & _)).
  unfold stored_section. repeat split; assumption || lia.
Qed.

(** The checks of the section table pass when it lies in the file. *)
Lemma layout_checks (raw : list Z) :
  Forall (fun x => 0 <= x < 2 ^ 8) raw -> Z.of_nat (length raw) < 2 ^ 32 ->
  88 <= section_table_offset raw < Z.of_nat (length raw) ->
  section_table_offset raw + 44 * section_count raw <= Z.of_nat (length raw) ->
  section_table_offset raw + 44 * section_count raw <= field32 raw 16 ->
  u32 (section_table_offset raw + u32 (section_count raw * 44))
  = section_table_offset raw + 44 * section_count raw /\
  (section_table_offset raw <? 88)
  || (section_table_offset raw >=? Z.of_nat (length raw))
  || (u32 (section_table_offset raw + u32 (section_count raw * 44))
      >? Z.of_nat (length raw)) = false /\
  (field32 raw 16 <? u32 (section_table_offset raw + u32 (section_count raw * 44)))
  = false.
Proof.
  intros Hb Hn Hoff Hfit Hhdr.
  pose proof (field32_range raw 48 Hb) as Hcnt. fold (section_count raw) in Hcnt.
  assert (He : u32 (section_table_offset raw + u32 (section_count raw * 44))
               = section_table_offset raw + 44 * section_count raw).
  { rewrite (u32_id (section_count raw * 44)) by lia. rewrite u32_id by lia. lia. }
  split; [exact He|]. rewrite He. split.
  - destruct (Z.ltb_spec (section_table_offset raw) 88); [lia|].
    destruct (Z.geb_spec (section_table_offset raw) (Z.of_nat (length raw))); [lia|].
    destruct (Z.gtb_spec (section_table_offset raw + 44 * section_count raw)
                         (Z.of_nat (length raw))); [lia|].
    reflexivity.
  - apply Z.ltb_ge. exact Hhdr.
Qed.

Lemma LoadFromBytes_stored (raw : list Z) (g : GrannyFile.t) :
  Forall (fun x => 0 <= x < 2 ^ 8) raw ->
  sectionHeaders g = [] -> data g = [] ->
  88 <= Z.of_nat (length raw) -> fixed_header_valid raw ->
  88 <= section_table_offset raw < Z.of_nat (length raw) ->
  section_table_offset raw + 44 * section_count raw <= Z.of_nat (length raw) ->
  section_table_offset raw + 44 * section_count raw <= field32 raw 16 ->
  Forall (section_inside (Z.of_nat (length raw))) (section_table raw) ->
  Forall (fun hdr => GrannySectionHeader.encoding hdr = GrannySectionHeader.Raw)
         (section_table raw) ->
  memory_size (section_table raw) < 2 ^ 32 ->
  LoadFromBytes raw g
  = Returns (true, [],
             loaded raw (section_table raw)
                    (concat (map (section_bytes raw) (section_table raw)))) /\
  Z.of_nat (length (concat (map (section_bytes raw) (section_table raw))))
  = memory_size (section_table raw).
Proof.
  intros Hb Hhs Hdata H88 Hvalid Hoff Hfit Hhdr Hin Hraw Hsum.
  assert (Hn : Z.of_nat (length raw) < 2 ^ 32).
  { destruct Hvalid as (_ & _ & <-). apply field32_range. exact Hb. }
  pose proof (field32_range raw 48 Hb) as Hcnt. fold (section_count raw) in Hcnt.
  pose proof (section_table_stored raw Hb Hin Hraw) as Hstored.
  pose proof (memory_size_nonneg _ (stored_section_memSize _ _ Hstored)) as Hnn.
  destruct (layout_checks raw Hb Hn Hoff Hfit Hhdr) as (He & Hc1 & Hc2).
  destruct (LoadFromBytes_sections_stored raw true (section_table raw) ltac:(lia)
              [] (section_table_offset raw + 44 * section_count raw) []
              (replicate (Z.to_nat (memory_size (section_table raw))) 0) []
              Hstored)
    as (c' & mid' & Hlen & Hz & Hrun).
  { rewrite length_replicate. lia. }
  { cbn [length]. lia. }
  rewrite length_replicate in Hz, Hlen. specialize (Hz eq_refl).
  rewrite !app_nil_r in Hrun. cbn [app length LoadFromBytes_sections] in Hrun.
  change (Z.of_nat 0) with 0 in Hrun.
  split.
  - rewrite (LoadFromBytes_valid raw g Hb ltac:(lia) Hvalid). cbv zeta.
    rewrite Hc1, Hc2, Hhs, Hdata.
    rewrite (LoadFromBytes_headers_complete raw true (Z.of_nat (length raw))
               (section_table_offset raw) (Z.to_nat (section_count raw)) []
               Hb ltac:(lia) ltac:(lia) ltac:(lia)
               (section_table_accepted raw Hb Hn Hin)).
    cbn [cbind negb app]. fold (section_table raw).
    rewrite (u32_id (memory_size (section_table raw))) by lia.
    rewrite resize_nil.
    rewrite Z2Nat.id by lia. rewrite Hrun. cbn [cbind]. rewrite Hz. reflexivity.
  - rewrite <- Hz, Hlen. lia.
Qed.

End StoredFiles.

(** ** The Granny container: what loading a file does *)

Section Loading.
Import Buffer GrannyFile.

Lemma sample_raw_file_inside :
  Forall (section_inside 184) (section_table sample_raw_file).
Proof.
  vm_compute. repeat (constructor; [repeat split; congruence|]). constructor.
Qed.

Lemma sample_raw_file_stored :
  Forall (fun hdr => GrannySectionHeader.encoding hdr = GrannySectionHeader.Raw)
         (section_table sample_raw_file).
Proof. vm_compute. repeat (constructor; [reflexivity|]). constructor. Qed.



(** A file object is good for one load.  [LoadFromBytes] appends the
    section headers to those the object has, sizes the data for the new
    ones only, and loads the sections of all of them: after a file whose
    sections are stored as they are and ask for memory at all has been
    loaded, loading it again into the same object indexes the data behind
    its end, which is undefined behaviour. *)
Theorem LoadFromBytes_twice (raw : list Z) (g : GrannyFile.t) :
  Forall (fun x => 0 <= x < 2 ^ 8) raw ->
  sectionHeaders g = [] -> data g = [] ->
  88 <= Z.of_nat (length raw) -> fixed_header_valid raw ->
  88 <= section_table_offset raw < Z.of_nat (length raw) ->
  section_table_offset raw + 44 * section_count raw <= Z.of_nat (length raw) ->
  section_table_offset raw + 44 * section_count raw <= field32 raw 16 ->
  Forall (section_inside (Z.of_nat (length raw))) (section_table raw) ->
  Forall (fun hdr => GrannySectionHeader.encoding hdr = GrannySectionHeader.Raw)
         (section_table raw) ->
  0 < memory_size (section_table raw) < 2 ^ 32 ->
  exists g',
    LoadFromBytes raw g = Returns (true, [], g') /\
    LoadFromBytes raw g' = Undefined.
Proof.
  intros Hb Hhs Hdata H88 Hvalid Hoff Hfit Hhdr Hin Hraw [Hpos Hsum].
  destruct (LoadFromBytes_stored raw g Hb Hhs Hdata H88 Hvalid Hoff Hfit Hhdr
              Hin Hraw Hsum) as [Hfirst HlenD].
  eexists. split; [exact Hfirst|].
  set (table := section_table raw) in *.
  set (D := concat (map (section_bytes raw) table)) in *.
  assert (Hn : Z.of_nat (length raw) < 2 ^ 32).
  { destruct Hvalid as (_ & _ & <-). apply field32_range. exact Hb. }
  pose proof (field32_range raw 48 Hb) as Hcnt. fold (section_count raw) in Hcnt.
  pose proof (section_table_stored raw Hb Hin Hraw) as Hstored. fold table in Hstored.
  destruct (layout_checks raw Hb Hn Hoff Hfit Hhdr) as (He & Hc1 & Hc2).
  destruct (LoadFromBytes_sections_stored raw true table ltac:(lia)
              table (section_table_offset raw + 44 * section_count raw) [] D []
              Hstored HlenD ltac:(cbn [length]; lia))
    as (c' & mid' & Hlen & _ & Hrun).
  rewrite !app_nil_r in Hrun. cbn [app length] in Hrun.
  change (Z.of_nat 0) with 0 in Hrun. rewrite Z.add_0_l in Hrun.
  rewrite (LoadFromBytes_valid raw _ Hb ltac:(lia) Hvalid). cbv zeta.
  rewrite Hc1, Hc2. cbn [loaded sectionHeaders data].
  rewrite (LoadFromBytes_headers_complete raw true (Z.of_nat (length raw))
             (section_table_offset raw) (Z.to_nat (section_count raw)) table
             Hb ltac:(lia) ltac:(lia) ltac:(lia)
             (section_table_accepted raw Hb Hn Hin)).
  cbn [cbind negb]. fold (section_table raw). fold table.
  rewrite (u32_id (memory_size table)) by lia.
  rewrite <- HlenD, Nat2Z.id, resize_all.
  rewrite Z2Nat.id by lia. rewrite Hrun.
  rewrite (LoadFromBytes_sections_past_end raw table _ _ _ Hstored Hpos)
    by (rewrite Hlen; lia).
  reflexivity.
Qed.

Lemma LoadFromBytes_twice_witness :
  LoadFromBytes sample_raw_file fresh
  = Returns (true, [],
             loaded sample_raw_file (section_table sample_raw_file)
                    [1; 2; 3; 4; 5; 0; 0; 0; 6; 7; 8]) /\
  LoadFromBytes sample_raw_file
    (loaded sample_raw_file (section_table sample_raw_file)
            [1; 2; 3; 4; 5; 0; 0; 0; 6; 7; 8])
  = Undefined.
Proof.
  destruct (LoadFromBytes_twice sample_raw_file fresh sample_raw_file_bytes
              eq_refl eq_refl) as (g' & Hfirst & Hsecond).
  - vm_compute. congruence.
  - vm_compute. repeat split; reflexivity.
  - vm_compute. split; congruence.
  - vm_compute. congruence.
  - vm_compute. congruence.
  - exact sample_raw_file_inside.
  - exact sample_raw_file_stored.
  - vm_compute. split; reflexivity.
  - assert (Hg : g' = loaded sample_raw_file (section_table sample_raw_file)
                        [1; 2; 3; 4; 5; 0; 0; 0; 6; 7; 8]).
    { assert (Hc : LoadFromBytes sample_raw_file fresh
                   = Returns (true, [],
                              loaded sample_raw_file (section_table sample_raw_file)
                                     [1; 2; 3; 4; 5; 0; 0; 0; 6; 7; 8]))
        by (vm_compute; reflexivity).
      rewrite Hc in Hfirst. injection Hfirst as <-. reflexivity. }
    rewrite <- Hg. split; [exact Hfirst|exact Hsecond].
Defined.

End Loading.

(** ** The Granny container: what a load guarantees *)

Section Guarantees.
Import Buffer GrannyFile.

Lemma section_table_fold (raw : list Z) :
  map (fun i => section_header_at raw (section_table_offset raw + 44 * Z.of_nat i))
      (seq 0 (Z.to_nat (section_count raw)))
  = section_table raw.
Proof. reflexivity. Qed.

(** The outcome of reading the section table of a file. *)
Lemma section_table_outcome (raw : list Z) (hs : list GrannySectionHeader.t) :
  Forall (fun x => 0 <= x < 2 ^ 8) raw -> Z.of_nat (length raw) < 2 ^ 63 ->
  section_table_offset raw <= Z.of_nat (length raw) ->
  let run := LoadFromBytes_headers (Z.to_nat (section_count raw))
               (Buffer.mk (section_table_offset raw) raw true)
               (Z.of_nat (length raw)) hs 0 in
  (section_table_offset raw + 44 * section_count raw <= Z.of_nat (length raw) /\
   Forall (section_accepted (Z.of_nat (length raw))) (section_table raw) /\
   run = Returns (true, [], hs ++ section_table raw,
                  u32 (memory_size (section_table raw)),
                  Buffer.mk (section_table_offset raw + 44 * section_count raw) raw true)) \/
  run = Throws BufferUnderrunException \/
  (exists cerr hs' tm' b', run = Returns (false, cerr, hs', tm', b')).
Proof.
  intros Hb Hs Hoff run.
  pose proof (field32_range raw 48 Hb) as Hcnt. fold (section_count raw) in Hcnt.
  pose proof (u32_range (field32 raw 44 + 32)) as Ho.
  fold (section_table_offset raw) in Ho.
  pose proof (LoadFromBytes_headers_outcome raw true (Z.of_nat (length raw))
                (section_table_offset raw) (Z.to_nat (section_count raw))
                Hb Hs ltac:(lia) 0%nat hs 0 ltac:(lia) ltac:(lia)) as Hout.
  cbv zeta in Hout. change (Z.of_nat 0) with 0 in Hout.
  rewrite Z.mul_0_r, Z.add_0_r in Hout. cbn [Nat.add] in Hout.
  rewrite section_table_fold in Hout. fold run in Hout.
  rewrite Z2Nat.id in Hout by lia.
  destruct Hout as [(Hfit & Hall & Hres) | [(_ & Hres) | (i & cerr & tm' & b' & _ & _ & _ & Hres)]].
  - left. split; [exact Hfit|]. split; [exact Hall|]. rewrite Hres. reflexivity.
  - right. left. exact Hres.
  - right. right. eauto.
Qed.

Lemma sample_mixed_file_bytes : Forall (fun x => 0 <= x < 2 ^ 8) sample_mixed_file.
Proof. apply bytes_checked. vm_compute. reflexivity. Qed.

(** What [true] means.  When [LoadFromBytes] returns true for an
    object without section headers, it has written nothing; the file has
    at least 88 and fewer than [2^32] bytes and a valid fixed header; its
    section table lies behind the fixed header, inside the file and inside
    the announced header size - without wrap-around, although the check
    is made in 32-bit arithmetic; every section header passes the checks
    of [Load]; every section that asks for memory is stored as it is or
    Oodle1-compressed; and the object holds the fields of the fixed
    header, the section table, and data of [sum of memSize mod 2^32]
    bytes. *)
Theorem LoadFromBytes_true (raw : list Z) (g g' : GrannyFile.t) (cerr : list message) :
  Forall (fun x => 0 <= x < 2 ^ 8) raw -> Z.of_nat (length raw) < 2 ^ 63 ->
  sectionHeaders g = [] ->
  LoadFromBytes raw g = Returns (true, cerr, g') ->
  cerr = [] /\
  88 <= Z.of_nat (length raw) < 2 ^ 32 /\
  fixed_header_valid raw /\
  88 <= section_table_offset raw < Z.of_nat (length raw) /\
  section_table_offset raw + 44 * section_count raw <= Z.of_nat (length raw) /\
  section_table_offset raw + 44 * section_count raw <= field32 raw 16 /\
  Forall (section_accepted (Z.of_nat (length raw))) (section_table raw) /\
  Forall (fun hdr => GrannySectionHeader.memSize hdr <= 0 \/
                     GrannySectionHeader.encoding hdr = GrannySectionHeader.Raw \/
                     GrannySectionHeader.encoding hdr = GrannySectionHeader.Oodle1)
         (section_table raw) /\
  exists d, g' = loaded raw (section_table raw) d /\
            Z.of_nat (length d) = u32 (memory_size (section_table raw)).
Proof.
  intros Hb Hs Hhs H.
  destruct (Z_lt_ge_dec (Z.of_nat (length raw)) 64) as [Hsmall|H64].
  { unfold LoadFromBytes in H.
    destruct (Z.ltb_spec (Z.of_nat (length raw)) 64); [discriminate|lia]. }
  destruct (decide (take 16 raw = SignatureLE)) as [Hsig|Hsig].
  2:{ rewrite LoadFromBytes_bad_magic in H by (assumption || lia). discriminate. }
  destruct (Z.eq_dec (field32 raw 32) 6) as [Hv|Hv].
  2:{ rewrite LoadFromBytes_bad_version in H by (assumption || lia). discriminate. }
  destruct (Z.eq_dec (field32 raw 36) (Z.of_nat (length raw))) as [Hn|Hn].
  2:{ rewrite LoadFromBytes_bad_size in H by (assumption || lia). discriminate. }
  assert (Hvalid : fixed_header_valid raw) by (repeat split; assumption).
  destruct (Z_lt_ge_dec (Z.of_nat (length raw)) 88) as [Hshort|H88].
  { rewrite LoadFromBytes_short_header in H by (assumption || lia). discriminate. }
  assert (Hn32 : Z.of_nat (length raw) < 2 ^ 32).
  { rewrite <- Hn. apply field32_range. exact Hb. }
  pose proof (field32_range raw 48 Hb) as Hcnt. fold (section_count raw) in Hcnt.
  rewrite (LoadFromBytes_valid raw g Hb ltac:(lia) Hvalid) in H. cbv zeta in H.
  destruct (Z.ltb_spec (section_table_offset raw) 88) as [|Ho1];
    [discriminate|].
  destruct (Z.geb_spec (section_table_offset raw) (Z.of_nat (length raw))) as [|Ho2];
    [discriminate|].
  destruct (Z.gtb_spec (u32 (section_table_offset raw + u32 (section_count raw * 44)))
                       (Z.of_nat (length raw))) as [|Ho3]; [discriminate|].
  cbn [orb] in H.
  destruct (Z.ltb_spec (field32 raw 16)
                       (u32 (section_table_offset raw + u32 (section_count raw * 44))))
    as [|Ho4]; [discriminate|].
  rewrite Hhs in H.
  destruct (section_table_outcome raw [] Hb Hs ltac:(lia))
    as [(Hfit & Hall & Hres) | [Hres | (c1 & h1 & t1 & b1 & Hres)]];
    rewrite Hres in H; cbn [cbind negb app] in H; try discriminate.
  apply cbind_Returns in H as ([[[ok2 cerr2] data2] b2] & Hsec & H).
  injection H as -> -> <-.
  apply LoadFromBytes_sections_true in Hsec.
  2:{ eapply Forall_impl; [exact (section_table_ranges raw Hb)|].
      intros hdr (_ & _ & R3 & R4 & R5 & _). repeat split; lia. }
  destruct Hsec as (Hc & Hl & Hkinds).
  rewrite (u32_id (section_count raw * 44)) in Ho4 by lia.
  rewrite u32_id in Ho4 by lia.
  split; [exact Hc|]. split; [lia|]. split; [exact Hvalid|]. split; [lia|].
  split; [exact Hfit|]. split; [lia|]. split; [exact Hall|]. split; [exact Hkinds|].
  exists data2. split; [reflexivity|].
  rewrite Hl, length_resize.
  pose proof (u32_range (memory_size (section_table raw))). lia.
Qed.

Lemma LoadFromBytes_true_witness :
  LoadFromBytes sample_mixed_file fresh
  = Returns (true, [],
             loaded sample_mixed_file (section_table sample_mixed_file)
                    [1; 2; 3; 4; 5; 6; 7; 8; 8; 8; 8; 8; 8]) /\
  Forall (section_accepted 228) (section_table sample_mixed_file) /\
  section_table_offset sample_mixed_file + 44 * section_count sample_mixed_file <= 228.
Proof.
  assert (Hload : LoadFromBytes sample_mixed_file fresh
                  = Returns (true, [],
                             loaded sample_mixed_file (section_table sample_mixed_file)
                                    [1; 2; 3; 4; 5; 6; 7; 8; 8; 8; 8; 8; 8]))
    by (vm_compute; reflexivity).
  destruct (LoadFromBytes_true sample_mixed_file fresh _ _ sample_mixed_file_bytes
              ltac:(vm_compute; reflexivity) eq_refl Hload)
    as (_ & _ & _ & _ & Hfit & _ & Hall & _).
  split; [exact Hload|]. split; [exact Hall|exact Hfit].
Defined.

End Guarantees.

(** ** The Granny container: the size of the data *)

Section DataSize.
Import Buffer GrannyFile.

Lemma LoadFromBytes_safe (raw : list Z) (g : GrannyFile.t) :
  Forall (fun x => 0 <= x < 2 ^ 8) raw -> Z.of_nat (length raw) < 2 ^ 63 ->
  sectionHeaders g = [] ->
  Forall (fun hdr => GrannySectionHeader.encoding hdr <> GrannySectionHeader.Oodle1)
         (section_table raw) ->
  memory_size (section_table raw) < 2 ^ 32 ->
  (exists r, LoadFromBytes raw g = Returns r) \/
  LoadFromBytes raw g = Throws BufferUnderrunException.
Proof.
  intros Hb Hs Hhs Hkind Hsum.
  destruct (Z_lt_ge_dec (Z.of_nat (length raw)) 64) as [Hsmall|H64].
  { left. unfold LoadFromBytes.
    destruct (Z.ltb_spec (Z.of_nat (length raw)) 64); [eauto|lia]. }
  destruct (decide (take 16 raw = SignatureLE)) as [Hsig|Hsig].
  2:{ left. rewrite LoadFromBytes_bad_magic by (assumption || lia). eauto. }
  destruct (Z.eq_dec (field32 raw 32) 6) as [Hv|Hv].
  2:{ left. rewrite LoadFromBytes_bad_version by (assumption || lia). eauto. }
  destruct (Z.eq_dec (field32 raw 36) (Z.of_nat (length raw))) as [Hn|Hn].
  2:{ left. rewrite LoadFromBytes_bad_size by (assumption || lia). eauto. }
  assert (Hvalid : fixed_header_valid raw) by (repeat split; assumption).
  destruct (Z_lt_ge_dec (Z.of_nat (length raw)) 88) as [Hshort|H88].
  { right. apply LoadFromBytes_short_header; assumption || lia. }
  rewrite (LoadFromBytes_valid raw g Hb ltac:(lia) Hvalid). cbv zeta.
  destruct (Z.ltb_spec (section_table_offset raw) 88) as [|Ho1]; [left; eauto|].
  destruct (Z.geb_spec (section_table_offset raw) (Z.of_nat (length raw))) as [|Ho2];
    [left; eauto|].
  destruct (Z.gtb_spec (u32 (section_table_offset raw + u32 (section_count raw * 44)))
                       (Z.of_nat (length raw))) as [|Ho3]; [left; eauto|].
  cbn [orb].
  destruct (Z.ltb_spec (field32 raw 16)
                       (u32 (section_table_offset raw + u32 (section_count raw * 44))))
    as [|Ho4]; [left; eauto|].
  rewrite Hhs.
  destruct (section_table_outcome raw [] Hb Hs ltac:(lia))
    as [(Hfit & Hall & Hres) | [Hres | (c1 & h1 & t1 & b1 & Hres)]];
    rewrite Hres; cbn [cbind negb app]; [|right; reflexivity|left; eauto].
  assert (Hnn : 0 <= memory_size (section_table raw)).
  { apply memory_size_nonneg. eapply Forall_impl; [exact (section_table_ranges raw Hb)|].
    intros hdr (_ & _ & R3 & _). lia. }
  rewrite (u32_id (memory_size (section_table raw))) by lia.
  destruct (LoadFromBytes_sections_safe raw true (section_table raw) Hs
              (section_table_offset raw + 44 * section_count raw)
              (resize (Z.to_nat (memory_size (section_table raw))) 0 (data g)) 0)
    as [[[[[ok cerr] d] b] Hr] | Hr].
  - eapply Forall_impl;
      [exact (Forall_and_1 _ _ _ Hkind
                (Forall_and_1 _ _ _ Hall (section_table_ranges raw Hb)))|].
    intros hdr (Hk & (_ & _ & Hle & _) & (R1 & R2 & R3 & _)).
    repeat split; assumption || lia.
  - lia.
  - rewrite length_resize. lia.
  - lia.
  - left. rewrite Hr. cbn [cbind]. eauto.
  - right. rewrite Hr. reflexivity.
Qed.

Lemma LoadFromBytes_sections_stored_step (h : GrannySectionHeader.t)
      (rest : list GrannySectionHeader.t) (b : Buffer.t) (data_ : list Z) (memOffset : Z) :
  0 < GrannySectionHeader.memSize h ->
  GrannySectionHeader.encoding h = GrannySectionHeader.Raw ->
  LoadFromBytes_sections (h :: rest) b data_ memOffset
  = let! _ := lift (vget data_ memOffset) in
    let! (data', b') :=
      Read_ptr data_ memOffset (GrannySectionHeader.fileSize h)
               (Seek (GrannySectionHeader.fileOffset h) b) in
    LoadFromBytes_sections rest b' data'
      (u32 (memOffset + GrannySectionHeader.memSize h)).
Proof.
  intros Hpos Henc. cbn [LoadFromBytes_sections].
  destruct (Z.leb_spec (GrannySectionHeader.memSize h) 0) as [|_]; [lia|].
  rewrite Henc. reflexivity.
Qed.

Lemma LoadFromBytes_overflow (raw : list Z) (g : GrannyFile.t) :
  Forall (fun x => 0 <= x < 2 ^ 8) raw -> sectionHeaders g = [] ->
  88 <= Z.of_nat (length raw) -> fixed_header_valid raw ->
  88 <= section_table_offset raw < Z.of_nat (length raw) ->
  section_table_offset raw + 44 * section_count raw <= Z.of_nat (length raw) ->
  section_table_offset raw + 44 * section_count raw <= field32 raw 16 ->
  section_count raw = 2 ->
  Forall (section_inside (Z.of_nat (length raw))) (section_table raw) ->
  Forall (fun hdr => GrannySectionHeader.encoding hdr = GrannySectionHeader.Raw)
         (section_table raw) ->
  2 ^ 32 <= memory_size (section_table raw) ->
  LoadFromBytes raw g = Undefined.
Proof.
  intros Hb Hhs H88 Hvalid Hoff Hfit Hhdr Hcnt Hin Hraw Hsum.
  assert (Hn : Z.of_nat (length raw) < 2 ^ 32).
  { destruct Hvalid as (_ & _ & <-). apply field32_range. exact Hb. }
  pose proof (section_table_stored raw Hb Hin Hraw) as Hstored.
  destruct (layout_checks raw Hb Hn Hoff Hfit Hhdr) as (He & Hc1 & Hc2).
  rewrite (LoadFromBytes_valid raw g Hb ltac:(lia) Hvalid). cbv zeta.
  rewrite Hc1, Hc2, Hhs.
  rewrite (LoadFromBytes_headers_complete raw true (Z.of_nat (length raw))
             (section_table_offset raw) (Z.to_nat (section_count raw)) []
             Hb ltac:(lia) ltac:(lia) ltac:(lia)
             (section_table_accepted raw Hb Hn Hin)).
  cbn [cbind negb app]. fold (section_table raw).
  assert (Htable : section_table raw
                   = [section_header_at raw (section_table_offset raw + 44 * 0);
                      section_header_at raw (section_table_offset raw + 44 * 1)]).
  { unfold section_table. rewrite Hcnt. reflexivity. }
  set (h0 := section_header_at raw (section_table_offset raw + 44 * 0)) in *.
  set (h1 := section_header_at raw (section_table_offset raw + 44 * 1)) in *.
  rewrite Htable in Hstored, Hsum |- *.
  apply Forall_cons in Hstored as [(He0 & Hfo0 & Hfs0 & Hin0 & Hms0) Hstored1].
  pose proof Hstored1 as Hstored1'.
  apply Forall_cons in Hstored1' as [(He1 & Hfo1 & Hfs1 & Hin1 & Hms1) _].
  cbn [memory_size foldr] in Hsum |- *.
  set (data1 := resize _ 0 (data g)).
  rewrite (LoadFromBytes_sections_stored_step h0 [h1]) by (lia || exact He0).
  destruct (vget data1 0) as [x| |] eqn:Hx; [|reflexivity|exfalso; exact (vget_budget _ _ Hx)].
  cbn [lift cbind].
  unfold Seek, set_readCursor. simpl bytes. simpl readMode.
  rewrite (usize_id (GrannySectionHeader.fileOffset h0)) by lia.
  destruct (Read_ptr_outcome data1 0 (GrannySectionHeader.fileSize h0)
              (GrannySectionHeader.fileOffset h0) raw true)
    as [Hu | (mem' & Hr & Hlen)]; try lia.
  { rewrite Hu. reflexivity. }
  rewrite Hr. cbn [cbind].
  assert (Hu32 : u32 (GrannySectionHeader.memSize h0
                      + (GrannySectionHeader.memSize h1 + 0))
                 = GrannySectionHeader.memSize h0 + GrannySectionHeader.memSize h1
                   - 2 ^ 32).
  { unfold u32.
    replace (GrannySectionHeader.memSize h0 + (GrannySectionHeader.memSize h1 + 0))
      with (GrannySectionHeader.memSize h0 + GrannySectionHeader.memSize h1
            - 2 ^ 32 + 1 * 2 ^ 32) by lia.
    rewrite Z_mod_plus_full. apply Z.mod_small. lia. }
  rewrite (LoadFromBytes_sections_past_end raw [h1] _ _ _ Hstored1); [reflexivity| |].
  - cbn [memory_size foldr]. lia.
  - rewrite Hlen. subst data1. rewrite length_resize.
    rewrite (u32_id (0 + GrannySectionHeader.memSize h0)) by lia.
    rewrite Hu32. lia.
Qed.

(** The size of the data is the sum of the [memSize] of the sections
    in 32-bit arithmetic.  For a file without compressed sections whose
    sections ask for less than [2^32] bytes in all, [LoadFromBytes]
    returns or throws [BufferUnderrunException]: it has no undefined
    behaviour, whatever the bytes of the file.  When the sum wraps around
    this is lost: a valid file with two sections that are stored as they
    are, lie inside the file and ask for [2^32] bytes or more together
    makes [LoadFromBytes] index, and write, outside the data. *)
Theorem LoadFromBytes_data_size (raw : list Z) (g : GrannyFile.t) :
  Forall (fun x => 0 <= x < 2 ^ 8) raw -> Z.of_nat (length raw) < 2 ^ 63 ->
  sectionHeaders g = [] ->
  (Forall (fun hdr => GrannySectionHeader.encoding hdr <> GrannySectionHeader.Oodle1)
          (section_table raw) ->
   memory_size (section_table raw) < 2 ^ 32 ->
   (exists r, LoadFromBytes raw g = Returns r) \/
   LoadFromBytes raw g = Throws BufferUnderrunException) /\
  (88 <= Z.of_nat (length raw) -> fixed_header_valid raw ->
   88 <= section_table_offset raw < Z.of_nat (length raw) ->
   section_table_offset raw + 44 * section_count raw <= Z.of_nat (length raw) ->
   section_table_offset raw + 44 * section_count raw <= field32 raw 16 ->
   section_count raw = 2 ->
   Forall (section_inside (Z.of_nat (length raw))) (section_table raw) ->
   Forall (fun hdr => GrannySectionHeader.encoding hdr = GrannySectionHeader.Raw)
          (section_table raw) ->
   2 ^ 32 <= memory_size (section_table raw) ->
   LoadFromBytes raw g = Undefined).
Proof.
  intros Hb Hs Hhs. split.
  - intros Hkind Hsum. apply LoadFromBytes_safe; assumption.
  - intros. apply LoadFromBytes_overflow; assumption.
Qed.

Lemma LoadFromBytes_data_size_witness :
  memory_size (section_table sample_overflow_file) = 2 ^ 32 /\
  LoadFromBytes sample_overflow_file fresh = Undefined /\
  ((exists r, LoadFromBytes sample_raw_file fresh = Returns r) \/
   LoadFromBytes sample_raw_file fresh = Throws BufferUnderrunException).
Proof.
  assert (Hb : Forall (fun x => 0 <= x < 2 ^ 8) sample_overflow_file)
    by (apply bytes_checked; vm_compute; reflexivity).
  destruct (LoadFromBytes_data_size sample_overflow_file fresh Hb
              ltac:(vm_compute; reflexivity) eq_refl) as [_ Hover].
  destruct (LoadFromBytes_data_size sample_raw_file fresh sample_raw_file_bytes
              ltac:(vm_compute; reflexivity) eq_refl) as [Hsafe _].
  split; [vm_compute; reflexivity|]. split.
  - apply Hover.
    + vm_compute. congruence.
    + vm_compute. repeat split; reflexivity.
    + vm_compute. split; congruence.
    + vm_compute. congruence.
    + vm_compute. congruence.
    + vm_compute. reflexivity.
    + vm_compute. repeat (constructor; [repeat split; congruence|]). constructor.
    + vm_compute. repeat (constructor; [reflexivity|]). constructor.
    + vm_compute. congruence.
  - apply Hsafe.
    + vm_compute. repeat (constructor; [congruence|]). constructor.
    + vm_compute. reflexivity.
Defined.

End DataSize.

(** ** The buffer: values with a length prefix, and the cursor *)

Section Prefixed.
Import Buffer.

Lemma Append_vector_bytes (value : list Z) (b : Buffer.t) :
  Append_vector value true b
  = Buffer.mk (readCursor b)
      (bytes b ++ [u8 (u32 (Z.of_nat (length value)));
                   u8 (Z.shiftr (u32 (Z.of_nat (length value))) 8);
                   u8 (Z.shiftr (u32 (Z.of_nat (length value))) 16);
                   u8 (Z.shiftr (u32 (Z.of_nat (length value))) 24)] ++ value)
      false.
Proof.
  unfold Append_vector. cbv zeta. rewrite (proj1 (AppendU32_bytes _ _)).
  simpl. rewrite <- !app_assoc. reflexivity.
Qed.

Lemma AppendLStr32_vector (s : string) (b : Buffer.t) :
  AppendLStr32 s b = Append_vector (chars s) true b.
Proof.
  rewrite Append_vector_bytes. unfold AppendLStr32. cbv zeta.
  rewrite (proj1 (AppendU32_bytes _ _)). simpl. rewrite <- !app_assoc. reflexivity.
Qed.

(** An appended value with its length in front is read back by [ReadU32]
    for the length and [Read] for that many bytes.  A string is appended
    as the vector of its characters, by [AppendLStr32]; the length that
    [Append] puts in front of a string is one byte, the length modulo
    256. *)
Theorem Append_prefixed_then_Read (b : Buffer.t) (value mem : list Z) (s : string) :
  0 <= readCursor b -> readCursor b = Size b ->
  Size b + 4 + Z.of_nat (length value) < 2 ^ 63 ->
  Z.of_nat (length value) < 2 ^ 32 ->
  (length value <= length mem)%nat ->
  let b1 := Append_vector value true b in
  ReadU32 b1 = Returns (Z.of_nat (length value), advance 4 b1) /\
  Read_ptr mem 0 (Z.of_nat (length value)) (advance 4 b1)
  = Returns (value ++ drop (length value) mem,
             advance (4 + Z.of_nat (length value)) b1) /\
  AppendLStr32 s b = Append_vector (chars s) true b /\
  ReadU8 (Append_string s true false b)
  = Returns (Z.of_nat (length (chars s)) mod 2 ^ 8,
             advance 1 (Append_string s true false b)).
Proof.
  intros Hc Hend Hsize Hlen Hmem b1.
  pose proof u8_range as Hr.
  assert (Hb1 : b1 = Buffer.mk (readCursor b)
      (bytes b ++ [u8 (u32 (Z.of_nat (length value)));
                   u8 (Z.shiftr (u32 (Z.of_nat (length value))) 8);
                   u8 (Z.shiftr (u32 (Z.of_nat (length value))) 16);
                   u8 (Z.shiftr (u32 (Z.of_nat (length value))) 24)] ++ value)
      false) by apply Append_vector_bytes.
  assert (Hc' : 0 <= readCursor b < 2 ^ 63) by (unfold Size in *; lia).
  split; [|split; [|split]].
  - rewrite Hb1.
    destruct (at_end b ([u8 (u32 (Z.of_nat (length value)));
                         u8 (Z.shiftr (u32 (Z.of_nat (length value))) 8);
                         u8 (Z.shiftr (u32 (Z.of_nat (length value))) 16);
                         u8 (Z.shiftr (u32 (Z.of_nat (length value))) 24)] ++ value)
                Hc' Hend) as [Hc1 Hd1].
    rewrite (proj1 (ReadU32_next _ _ _ _ _ value Hc1 Hd1)).
    rewrite (proj1 (le32_value _ _ _ _ (Hr _) (Hr _) (Hr _) (Hr _))).
    rewrite le_bytes_4.
    rewrite !(u32_id (Z.of_nat (length value))) by lia.
    rewrite ?Z.mod_small by lia. reflexivity.
  - rewrite Hb1. unfold advance, set_readCursor. simpl readCursor. simpl bytes.
    simpl readMode. unfold Size in *.
    rewrite !usize_id by lia.
    rewrite Read_ptr_copy; try lia.
    + f_equal. f_equal.
      * change (Z.to_nat 0) with 0%nat. rewrite take_0. cbn [app].
        f_equal.
        -- replace (Z.to_nat (readCursor b + 4)) with (length (bytes b) + 4)%nat by lia.
           rewrite drop_app_add' by reflexivity.
           change (drop 4 (?x0 :: ?x1 :: ?x2 :: ?x3 :: value)) with value.
           cbn [app drop]. rewrite Nat2Z.id. apply firstn_all.
        -- f_equal. lia.
      * f_equal. lia.
    + rewrite !length_app. cbn [length]. lia.
    + rewrite !length_app. cbn [length]. lia.
  - apply AppendLStr32_vector.
  - unfold Append_string. cbv zeta. cbn [app].
    destruct (at_end b ([u8 (Z.of_nat (length (chars s)))] ++ chars s) Hc' Hend)
      as [Hc1 Hd1].
    rewrite <- app_assoc.
    rewrite (ReadU8_next _ _ (chars s) Hc1 Hd1). reflexivity.
Qed.

Lemma Append_prefixed_then_Read_witness :
  ReadU32 (Append_vector [7; 8; 9] true fresh)
  = Returns (3, advance 4 (Append_vector [7; 8; 9] true fresh)) /\
  Read_ptr [0; 0; 0; 0] 0 3 (advance 4 (Append_vector [7; 8; 9] true fresh))
  = Returns ([7; 8; 9; 0], advance 7 (Append_vector [7; 8; 9] true fresh)).
Proof.
  destruct (Append_prefixed_then_Read fresh [7; 8; 9] [0; 0; 0; 0] EmptyString)
    as (H1 & H2 & _); try (vm_compute; congruence); [simpl; lia|].
  split; [exact H1|exact H2].
Defined.

End Prefixed.

Section Cursor.
Import Buffer.

(** The cursor.  [Empty] says that no byte is left, and that is when
    [ReadU8] throws; [ReadU32] returns exactly when [BytesLeft] is at least
    4.  [Putback] moves the cursor back and stops at the start of the
    buffer; after a read of [n] bytes, [Putback(n)] restores the buffer, so
    that the same bytes are read again.  [Seek] sets the cursor, wherever
    that is. *)
Theorem cursor_moves (b : Buffer.t) :
  buffer_ok b ->
  (Empty b = true <-> BytesLeft b = 0) /\
  (Empty b = true <-> ReadU8 b = Throws BufferUnderrunException) /\
  (4 <= BytesLeft b <->
   ReadU32 b = Returns (little_endian (next 4 b), advance 4 b)) /\
  (forall k, 0 <= k < 2 ^ 64 -> Tell (Putback k b) = Z.max 0 (Tell b - k)) /\
  (forall n, 0 <= n -> Tell b + n <= Size b -> Putback n (advance n b) = b) /\
  (forall p, 0 <= p < 2 ^ 64 -> Tell (Seek p b) = p /\ bytes (Seek p b) = bytes b).
Proof.
  intros Hok. pose proof Hok as [Hb Hs Hc].
  destruct (ReadU8_reads b Hok) as [H8r H8t].
  destruct (ReadU32_reads b Hok) as [[H32r H32t] _].
  change (Z.of_nat 1) with 1 in *. change (Z.of_nat 4) with 4 in *.
  unfold Empty, BytesLeft, Tell.
  split; [|split; [|split; [|split; [|split]]]].
  - destruct (Z.geb_spec (readCursor b) (Size b));
      destruct (Z.ltb_spec (readCursor b) (Size b)); split; intros; try lia;
      try reflexivity; discriminate.
  - destruct (Z.geb_spec (readCursor b) (Size b)) as [Hge|Hlt]; split; intros H.
    + apply H8t. lia.
    + reflexivity.
    + discriminate.
    + rewrite H8r in H by lia. discriminate.
  - destruct (Z.ltb_spec (readCursor b) (Size b)) as [Hlt|Hge]; split; intros H.
    + apply H32r. lia.
    + destruct (Z_le_gt_dec (readCursor b + 4) (Size b)) as [Hle|Hgt]; [lia|].
      rewrite H32t in H by lia. discriminate.
    + lia.
    + rewrite H32t in H by lia. discriminate.
  - intros k Hk. unfold Putback. rewrite usize_id by lia.
    destruct (Z.geb_spec k (readCursor b)); simpl; lia.
  - intros n Hn Hle. unfold Putback, advance, set_readCursor. simpl readCursor.
    rewrite (usize_id n) by lia. rewrite usize_id by lia.
    destruct b as [c bs m]. simpl in *.
    destruct (Z.geb_spec n (c + n)); f_equal; lia.
  - intros p Hp. unfold Seek, set_readCursor. simpl. rewrite usize_id by lia.
    split; reflexivity.
Qed.

Lemma cursor_moves_witness :
  Empty sample_written = false /\
  Putback 4 (advance 4 sample_written) = sample_written /\
  Tell (Putback 9 (advance 4 sample_written)) = 0.
Proof.
  assert (Hok : buffer_ok (advance 4 sample_written)).
  { constructor.
    - exact (bk_bytes _ sample_written_ok).
    - exact (bk_size _ sample_written_ok).
    - vm_compute. split; congruence. }
  destruct (cursor_moves sample_written sample_written_ok)
    as (_ & _ & _ & _ & Hback & _).
  destruct (cursor_moves (advance 4 sample_written) Hok)
    as (_ & _ & _ & Hstop & _ & _).
  split; [vm_compute; reflexivity|]. split.
  - apply Hback; vm_compute; congruence.
  - rewrite Hstop by lia. vm_compute. reflexivity.
Defined.

End Cursor.

(** ** The decoder: [Decode] returns *)

Section DecayFloor.

(** The eviction loop gives up at most one occurrence for every slot it
    retires. *)
Lemma Decay_while_floor (T0 : Z) (fuel : nat) :
  forall (idx : Z) (d d1 : Oodle1Decoder.t),
    decay_inv T0 idx d ->
    idx <= highestLearnedSymbol d ->
    Decay_while fuel idx d = Ok d1 ->
    sumZ (symbolOccurrences d) - highestLearnedSymbol d
    <= sumZ (symbolOccurrences d1) - highestLearnedSymbol d1.
Proof.
  induction fuel as [|fuel IH]; intros idx d d1 Hinv Hle H;
    pose proof Hinv as [Hls Hlw H32 Hhls Hnn Htail Hsum Hhalf Htot Hidx];
    rewrite Decay_while_eq in H;
    (destruct (lookup_in (symbolOccurrences d) idx) as [o Ho]; [lia|]);
    pose proof (lookup_le_sumZ _ _ _ Hnn Ho) as Hob;
    rewrite (vget_in _ idx o) in H by (lia || exact Ho); cbn [bind] in H;
    (destruct (Z.leb_spec o 1) as [Ho1|Ho1]; [|injection H as <-; lia]);
    destruct (Z.geb_spec idx (highestLearnedSymbol d)) as [Hge|Hlt].
  - rewrite vset_in in H by lia. cbn [bind] in H. injection H as <-. simpl.
    rewrite (sumZ_insert _ _ o 0 Ho). rewrite u32_id by lia. lia.
  - discriminate.
  - rewrite vset_in in H by lia. cbn [bind] in H. injection H as <-. simpl.
    rewrite (sumZ_insert _ _ o 0 Ho). rewrite u32_id by lia. lia.
  - destruct (lookup_in (symbolOccurrences d) (highestLearnedSymbol d)) as [oh Hoh];
      [lia|].
    destruct (lookup_in (symbols d) (highestLearnedSymbol d)) as [sh Hsh]; [lia|].
    rewrite (Decay_evict_in idx oh sh d) in H by (lia || assumption).
    cbn [bind] in H. rewrite u32_id in H by lia.
    apply IH in H.
    + simpl in H.
      assert (Hoh1 : <[Z.to_nat idx := oh]> (symbolOccurrences d)
                     !! Z.to_nat (highestLearnedSymbol d) = Some oh).
      { rewrite list_lookup_insert_ne by lia. exact Hoh. }
      rewrite (sumZ_insert _ _ oh 0 Hoh1), (sumZ_insert _ _ o oh Ho) in H. lia.
    + apply (decay_inv_evict T0 idx o oh _ d Hinv); try assumption; try lia.
      apply length_insert.
    + simpl. lia.
Qed.

Lemma Decay_for_floor (T0 : Z) (fuel : nat) :
  T0 < 2 ^ 16 ->
  forall (idx hw hi hw' hi' : Z) (d d2 : Oodle1Decoder.t),
    decay_inv T0 idx d ->
    Decay_for fuel idx hw hi d = Ok (hw', hi', d2) ->
    totalOccurrence d + sumZ (symbolOccurrences d) + idx - highestLearnedSymbol d
    <= totalOccurrence d2 + sumZ (symbolOccurrences d2) + 1.
Proof.
  intros HT0.
  induction fuel as [|fuel IH]; intros idx hw hi hw' hi' d d2 Hinv H;
    rewrite Decay_for_eq in H;
    pose proof Hinv as [Hls Hlw H32 Hhls Hnn Htail Hsum Hhalf Htot Hidx];
    destruct (Z.leb_spec idx (highestLearnedSymbol d)) as [Hle|Hgt];
    try discriminate; try (injection H as _ _ <-; lia).
  apply bind_Ok in H as (d1 & Hrun & H).
  pose proof (Decay_while_floor T0 _ idx d d1 Hinv Hle Hrun) as Hfloor.
  destruct (Decay_while_total T0 (Z.to_nat (highestLearnedSymbol d)) idx d Hinv Hle)
    as (d1' & o & Hrun' & Hinv1 & Hfr1 & Htot1 & Ho & Hcase); [lia|].
  rewrite Hrun in Hrun'. injection Hrun' as <-.
  rewrite (vget_in _ idx o) in H by (lia || exact Ho). cbn [bind] in H.
  pose proof Hinv1 as [Hls1 Hlw1 H321 Hhls1 Hnn1 Htail1 Hsum1 Hhalf1 Htotal1 Hidx1].
  destruct Hcase as [[Hgt1 Hle1] | [-> Hh]].
  - destruct (Z.eqb_spec o 0) as [|_]; [lia|].
    pose proof (lookup_le_sumZ_drop _ (Z.to_nat idx) _ _ Hnn1 (Nat.le_refl _) Ho) as Hob.
    destruct (half_bounds o) as [Hh0 Hh1]; [lia|].
    assert (Hh2 : o <= 2 * (o / 2) + 1).
    { pose proof (Z.div_mod o 2 ltac:(lia)). pose proof (Z.mod_pos_bound o 2 ltac:(lia)).
      lia. }
    rewrite (u16_id (o / 2)) in H by lia.
    rewrite vset_in in H by lia. cbn [bind] in H.
    rewrite (u32_id (totalOccurrence d1 + o / 2)) in H by lia.
    rewrite (u32_id (idx + 1)) in H by lia.
    pose proof (decay_inv_halve T0 idx o d1 Hinv1 Hle1 Ho) as Hinv2.
    assert (Hstep : forall hwx hix,
      Decay_for fuel (idx + 1) hwx hix
        (set_totalOccurrence
           (set_symbolOccurrences d1 (<[Z.to_nat idx := o / 2]> (symbolOccurrences d1)))
           (totalOccurrence d1 + o / 2)) = Ok (hw', hi', d2) ->
      totalOccurrence d + sumZ (symbolOccurrences d) + idx - highestLearnedSymbol d
      <= totalOccurrence d2 + sumZ (symbolOccurrences d2) + 1).
    { intros hwx hix Hr. apply (IH _ _ _ _ _ _ _ Hinv2) in Hr. simpl in Hr.
      rewrite (sumZ_insert _ _ o (o / 2) Ho) in Hr. lia. }
    destruct (o / 2 >? hw); exact (Hstep _ _ H).
  - cbn [Z.eqb] in H. injection H as _ _ <-. lia.
Qed.

(** [Decay] keeps at least half of the occurrences, less one for every
    slot. *)
Lemma Decay_floor (d d' : Oodle1Decoder.t) :
  occurrences_ok d ->
  totalOccurrence d < 2 ^ 16 ->
  Decay d = Ok d' ->
  totalOccurrence d <= 2 * totalOccurrence d' + highestLearnedSymbol d + 1.
Proof.
  intros Hok HT H. pose proof Hok as [Hls Hlw H32 Hhls Hnn Htail Htot].
  pose proof (sumZ_nonneg _ Hnn) as Hs.
  unfold Decay in H.
  destruct (lookup_in (symbolOccurrences d) 0) as [o0 Ho0]; [lia|].
  pose proof (lookup_le_sumZ _ _ _ Hnn Ho0) as Hob.
  destruct (half_bounds o0) as [Hh0 Hh1]; [lia|].
  assert (Hh2 : o0 <= 2 * (o0 / 2) + 1).
  { pose proof (Z.div_mod o0 2 ltac:(lia)). pose proof (Z.mod_pos_bound o0 2 ltac:(lia)).
    lia. }
  rewrite (vget_in _ 0 o0) in H by (lia || exact Ho0). cbn [bind] in H.
  rewrite (u16_id (o0 / 2)) in H by lia.
  rewrite vset_in in H by lia. cbn [bind] in H.
  set (d1 := set_totalOccurrence
               (set_symbolOccurrences d (<[Z.to_nat 0 := o0 / 2]> (symbolOccurrences d)))
               (o0 / 2)) in *.
  assert (Hinv1 : decay_inv (totalOccurrence d) 1 d1).
  { pose proof (sumZ_drop_S _ _ _ Ho0) as HD. change (drop (Z.to_nat 0)) with (@drop Z 0) in HD.
    rewrite drop_0 in HD.
    unfold d1. change (Z.to_nat 0) with 0%nat in *. change (Z.to_nat 1) with 1%nat.
    constructor; simpl; change (Z.to_nat 1) with 1%nat;
      rewrite ?length_insert; try assumption; try lia.
    - apply Forall_insert; [assumption | lia].
    - intros i o Hi Hl. rewrite list_lookup_insert_ne in Hl by lia.
      apply (Htail i o); [exact Hi | exact Hl].
    - rewrite (sumZ_insert _ _ o0 (o0 / 2) Ho0).
      rewrite sumZ_drop_insert_lt by lia. lia.
    - rewrite sumZ_drop_insert_lt by lia. lia. }
  apply bind_Ok in H as ([[hw hi] d2] & Hfor & H).
  pose proof (Decay_for_floor (totalOccurrence d) _ HT _ _ _ _ _ _ _ Hinv1 Hfor) as Hfloor.
  destruct (Decay_for_total (totalOccurrence d) (Z.to_nat (highestLearnedSymbol d1)) HT
              1 0 0 d1 Hinv1) as (hwx & hix & d2x & Hrun & Hinv2 & Hfr2 & Hhi);
    [lia | lia |].
  rewrite Hfor in Hrun. injection Hrun as <- <- <-.
  destruct (decay_inv_final _ _ Hinv2) as [Hok2 Hhalf2].
  destruct (Decay_raise_highest_total hw hi d2 Hok2 Hhi) as (d3 & Hr3 & Hok3 & Hfr3 & Ht3).
  rewrite Hr3 in H. cbn [bind] in H.
  destruct (Decay_keep_escape_total d3 Hok3) as (d4 & Hr4 & Hok4 & Hfr4 & Ht4); [lia|].
  rewrite Hr4 in H. cbn [bind] in H.
  apply bind_Ok in H as (w & _ & H). injection H as <-. simpl.
  pose proof Hok2 as [_ _ _ _ _ _ Htot2].
  unfold d1 in Hfloor. cbn [totalOccurrence symbolOccurrences highestLearnedSymbol
    set_totalOccurrence set_symbolOccurrences] in Hfloor.
  rewrite (sumZ_insert _ _ o0 (o0 / 2) Ho0) in Hfloor. lia.
Qed.

End DecayFloor.
Section DecodeLive.

Lemma Decode_learn_live (bs bs' : Oodle1Bitstream.t) (a v : Z) (d d' : Oodle1Decoder.t) :
  occurrences_ok d ->
  totalOccurrence d + 2 < 2 ^ 16 ->
  Decode_learn bs a d = Ok (v, bs', d') ->
  2 <= totalOccurrence d'.
Proof.
  intros Hocc HT H.
  pose proof Hocc as [Hls Hlw H32 Hhls Hnn Htail Htot].
  pose proof (sumZ_nonneg _ Hnn) as Hs.
  unfold Decode_learn in H.
  rewrite (u32_id (highestLearnedSymbol d + 1)) in H by lia.
  apply bind_Ok in H as ([symbol bs1] & _ & H).
  apply bind_Ok in H as (sym1 & Hsym1 & H). simpl in Hsym1.
  apply vset_Ok in Hsym1 as (_ & Hin & ->).
  apply bind_Ok in H as (o & Ho & H). simpl in Ho. apply vget_Ok in Ho as [_ Ho].
  assert (Ho0 : o = 0) by (apply (Htail (highestLearnedSymbol d + 1) o); [lia | exact Ho]).
  subst o.
  apply bind_Ok in H as (occ1 & Hocc1 & H). simpl in Hocc1.
  apply vset_Ok in Hocc1 as (_ & _ & ->).
  rewrite (u16_id (0 + 2)) in H by lia. simpl in H.
  rewrite (u32_id (totalOccurrence d + 2)) in H by lia.
  set (hls := highestLearnedSymbol d + 1) in *.
  destruct (Z.eqb_spec hls (usedSymbolCount d)) as [Heq|Hne].
  - apply bind_Ok in H as (e & He & H). simpl in He. apply vget_Ok in He as [_ He].
    apply bind_Ok in H as (occ2 & Hocc2 & H).
    injection H as _ _ <-. simpl.
    change (Z.to_nat 0) with 0%nat in He.
    rewrite list_lookup_insert_ne in He by lia.
    pose proof (lookup_le_sumZ _ _ _ Hnn He) as Heb.
    rewrite (u32_id (totalOccurrence d + 2 - e)) by lia. lia.
  - injection H as _ _ <-. simpl. lia.
Qed.

(** A [Decode] that returns leaves occurrences in the table. *)
Lemma Decode_live (bs bs' : Oodle1Bitstream.t) (a v : Z) (d d' : Oodle1Decoder.t) :
  decoder_ok d ->
  bitstream_typed bs ->
  Decode bs a d = Ok (v, bs', d') ->
  0 < totalOccurrence d'.
Proof.
  intros Hok Ht H. unfold Decode in H.
  apply bind_Ok in H as (d1 & Hren & H).
  destruct (Decode_renormalize_ok _ _ Hok Hren)
    as (Hocc1 & Hw1 & Hs1 & Hlt1 & Hfr1 & Hdown).
  pose proof Hocc1 as [Hls Hlw H32 Hhls Hnn Htail Htot].
  pose proof (sumZ_nonneg _ Hnn) as Hsum.
  pose proof Hw1 as [Hhlsn Hmono HtailOne].
  pose proof Hs1 as [Hdt Hri Hrri Hnrw Hbound].
  apply bind_Ok in H as ([z bs1] & Hpeek & H).
  apply Peek_typed in Hpeek as [Ht1 Hz]; [|exact Ht].
  rewrite u32_id in Hz by (unfold One; lia).
  apply bind_Ok in H as (symbolIdx & Hscan & H).
  apply (Decode_scan_range z d1) in Hscan; [|exact HtailOne|lia|lia|lia].
  apply bind_Ok in H as (w0 & _ & H).
  apply bind_Ok in H as (w1 & _ & H).
  apply bind_Ok in H as (bs2 & Hcons & H).
  apply Consume_typed in Hcons; [|exact Ht1].
  apply bind_Ok in H as (o & Ho & H). apply vget_Ok in Ho as [_ Ho].
  pose proof (lookup_le_sumZ _ _ _ Hnn Ho) as Hob.
  apply bind_Ok in H as (occ1 & Hocc1' & H). apply vset_Ok in Hocc1' as (_ & _ & ->).
  rewrite (u16_id (o + 1)) in H by lia.
  rewrite (u32_id (totalOccurrence d1 + 1)) in H by lia.
  set (d2 := set_totalOccurrence
               (set_symbolOccurrences d1
                  (<[Z.to_nat symbolIdx := o + 1]> (symbolOccurrences d1)))
               (totalOccurrence d1 + 1)) in *.
  assert (Hocc2 : occurrences_ok d2)
    by (apply occurrences_ok_bump; (assumption || lia)).
  assert (Hlearn : forall bsx, Decode_learn bsx a d2 = Ok (v, bs', d') ->
                               0 < totalOccurrence d').
  { intros bsx Hl. apply Decode_learn_live in Hl; [lia|exact Hocc2|unfold d2; simpl; lia]. }
  destruct (Z.eqb_spec symbolIdx 0) as [Hz0|Hnz0]; simpl in H.
  - destruct (Z.eqb_spec (highestLearnedSymbol d1) (highestNormalizedSymbol d1))
      as [Heq|Hne]; simpl in H.
    + exact (Hlearn _ H).
    + apply bind_Ok in H as ([b bs3] & Hget & H).
      apply Get_typed in Hget as [Ht3 _]; [|exact Hcons|lia].
      destruct (Z.eqb_spec b 0) as [Hb|Hb]; simpl in H.
      * exact (Hlearn _ H).
      * apply Decode_pending_ok in H as (Hoccx & Hfrx & Hhx & Htx);
          [|exact Hocc2|exact Ht3|unfold d2; simpl; lia|unfold d2; simpl; lia].
        rewrite Htx. unfold d2. simpl. lia.
  - apply bind_Ok in H as (s & _ & H). injection H as _ _ <-. unfold d2. simpl. lia.
Qed.

Lemma Initialize_threshold (a u : Z) (d : Oodle1Decoder.t) :
  Initialize a u fresh = Ok d ->
  totalOccurrence d = 4 /\
  highestLearnedSymbol d = 0 /\
  decayThreshold d = Z.max 256 (Z.min (u32 (u32 (a - 1) * 32)) 15160).
Proof.
  unfold Initialize. simpl. rewrite !resize_nil, !length_replicate.
  intros H.
  apply bind_Ok in H as (w & Hw & H).
  apply bind_Ok in H as (occ & Hocc & H). apply vset_Ok in Hocc as (_ & Hlt & ->).
  apply bind_Ok in H as (o0 & Ho0 & H). apply vget_Ok in Ho0 as [_ Ho0].
  change (Z.to_nat 0) with 0%nat in *.
  rewrite list_lookup_insert_eq in Ho0 by exact Hlt. injection Ho0 as <-.
  injection H as <-. simpl. repeat split; reflexivity.
Qed.

Lemma reachable_live (a u : Z) (d : Oodle1Decoder.t) :
  reachable a u d ->
  0 < totalOccurrence d /\
  decayThreshold d = Z.max 256 (Z.min (u32 (u32 (a - 1) * 32)) 15160).
Proof.
  induction 1 as [d Hinit | d d' bs bs' a' v Hreach IH Ht Hdec].
  - destruct (Initialize_threshold a u d Hinit) as (H4 & _ & Hdt). split; [lia|exact Hdt].
  - destruct (reachable_ok _ _ _ Hreach) as (Hok & _).
    split; [exact (Decode_live _ _ _ _ _ _ Hok Ht Hdec)|].
    destruct (Decode_ok _ _ _ _ _ _ Hok Ht Hdec) as (_ & (_ & Hd & _) & _).
    rewrite Hd. exact (proj2 IH).
Qed.

End DecodeLive.
Section DecodeReturns.

Lemma Decode_renormalize_returns (d : Oodle1Decoder.t) :
  decoder_ok d ->
  0 < totalOccurrence d ->
  highestLearnedSymbol d + 3 <= decayThreshold d ->
  exists d1, Decode_renormalize d = Ok d1.
Proof.
  intros [Hocc [Hdt Hri Hrri Hnrw Hbound] Hw] Hpos Hroom.
  unfold Decode_renormalize.
  destruct (Z.geb_spec (totalOccurrence d) (nextRenormWeight d)) as [Hge|Hlt];
    [|eexists; reflexivity].
  destruct (Z.geb_spec (totalOccurrence d) (decayThreshold d)) as [Hged|Hltd].
  - destruct (Decay_total d Hocc) as (d0 & Hr & Hok0 & Hfr0 & Hhalf); [lia|].
    pose proof (Decay_floor d d0 Hocc ltac:(lia) Hr) as Hfloor.
    destruct Hfr0 as ((Hu & Hd & Hr' & _) & _ & _ & Hrr & _).
    rewrite Hr. cbn [bind].
    destruct (Renormalize_total d0 Hok0) as (d1 & Hr1 & _); try lia.
    exists d1. exact Hr1.
  - cbn [bind].
    destruct (Renormalize_total d Hocc) as (d1 & Hr1 & _); try lia.
    exists d1. exact Hr1.
Qed.

Lemma Decode_scan_returns (z : Z) (d : Oodle1Decoder.t) :
  weights_tail_One d ->
  highestNormalizedSymbol d + 1 < Z.of_nat (length (symbolWeights d)) ->
  Z.of_nat (length (symbolWeights d)) < 2 ^ 32 ->
  z < One ->
  forall (fuel : nat) (i : Z),
    0 <= i <= highestNormalizedSymbol d ->
    (Z.to_nat (highestNormalizedSymbol d - i) < fuel)%nat ->
    exists r, Decode_scan fuel i z d = Ok r.
Proof.
  intros Htail Hlen H32 Hz.
  induction fuel as [|fuel IH]; intros i Hi Hfuel; [lia|].
  rewrite Decode_scan_eq.
  destruct (Z.leb_spec i (highestNormalizedSymbol d)) as [_|]; [|lia].
  rewrite (u32_id (i + 1)) by lia.
  destruct (lookup_in (symbolWeights d) (i + 1)) as [w Hw]; [lia|].
  rewrite (vget_in _ (i + 1) w) by (lia || exact Hw). cbn [bind].
  destruct (Z.gtb_spec w z) as [Hgt|Hle]; [eexists; reflexivity|].
  destruct (Z.eq_dec i (highestNormalizedSymbol d)) as [->|Hne].
  - assert (HwOne : w = One)
      by (apply (Htail (highestNormalizedSymbol d + 1) w); [lia | exact Hw]).
    lia.
  - apply IH; lia.
Qed.

Lemma Peek_returns (one : Z) (bs : Oodle1Bitstream.t) :
  coder_ok bs -> 1 <= one <= 0x800000 ->
  (3 <= length (input bs))%nat ->
  exists z bs', Peek one bs = Ok (z, bs').
Proof.
  intros Hok Hone Hlen. unfold Peek.
  destruct (Ingest_returns bs Hok Hlen) as (b1 & Hi). rewrite Hi. cbn [bind].
  destruct (Ingest_coder _ _ Hok Hi) as (k & _ & _ & _ & _ & _ & Hbig & Hok1).
  assert (Hscale : 1 <= srModulus b1 / one)
    by (apply Z.div_le_lower_bound; lia).
  unfold udiv at 1.
  destruct (Z.eqb_spec one 0) as [|_]; [lia|]. cbn [bind].
  unfold udiv.
  destruct (Z.eqb_spec (srModulus b1 / one) 0) as [|_]; [lia|]. cbn [bind].
  eexists; eexists; reflexivity.
Qed.

Lemma Consume_returns (minZ spanZ one : Z) (bs : Oodle1Bitstream.t) :
  one <> 0 -> exists bs', Consume minZ spanZ one bs = Ok bs'.
Proof.
  intros Hone. unfold Consume, udiv.
  destruct (Z.eqb_spec one 0) as [|_]; [contradiction|]. cbn [bind].
  destruct (_ <? _); eexists; reflexivity.
Qed.

Lemma Decode_pending_returns (bs : Oodle1Bitstream.t) (d : Oodle1Decoder.t) :
  occurrences_ok d ->
  coder_ok bs -> (3 <= length (input bs))%nat ->
  0 <= highestNormalizedSymbol d < highestLearnedSymbol d ->
  highestLearnedSymbol d <= 0x800000 ->
  exists r, Decode_pending bs d = Ok r.
Proof.
  intros Hocc Hok Hlen Hn Hsmall.
  pose proof Hocc as [Hls Hlw H32 Hhls Hnn Htail Htot].
  unfold Decode_pending.
  rewrite (u32_id (highestLearnedSymbol d - highestNormalizedSymbol d)) by lia.
  destruct (Get_returns (highestLearnedSymbol d - highestNormalizedSymbol d) bs Hok
              ltac:(lia) Hlen) as (j & bs1 & Hg).
  rewrite Hg. cbn [bind].
  apply Get_coder in Hg as (_ & Hj & _); [|exact Hok|lia].
  rewrite (u32_id (j + highestNormalizedSymbol d)) by lia.
  rewrite (u32_id (j + highestNormalizedSymbol d + 1)) by lia.
  destruct (lookup_in (symbolOccurrences d) (j + highestNormalizedSymbol d + 1))
    as [o Ho]; [lia|].
  rewrite (vget_in _ _ o) by (lia || exact Ho). cbn [bind].
  rewrite vset_in by lia. cbn [bind]. simpl symbols.
  destruct (lookup_in (symbols d) (j + highestNormalizedSymbol d + 1))
    as [s Hs]; [lia|].
  rewrite (vget_in _ _ s) by (lia || exact Hs). cbn [bind].
  eexists. reflexivity.
Qed.

Lemma Decode_learn_returns (bs : Oodle1Bitstream.t) (a : Z) (d : Oodle1Decoder.t) :
  occurrences_ok d ->
  coder_ok bs -> (3 <= length (input bs))%nat ->
  1 <= a <= 0x800000 ->
  highestLearnedSymbol d + 1 < Z.of_nat (length (symbolOccurrences d)) ->
  exists r, Decode_learn bs a d = Ok r.
Proof.
  intros Hocc Hok Hlen Ha Hroom.
  pose proof Hocc as [Hls Hlw H32 Hhls Hnn Htail Htot].
  unfold Decode_learn.
  rewrite (u32_id (highestLearnedSymbol d + 1)) by lia.
  destruct (Get_returns a bs Hok Ha Hlen) as (symbol & bs1 & Hg).
  rewrite Hg. cbn [bind]. simpl symbols. simpl symbolOccurrences.
  rewrite vset_in by lia. cbn [bind].
  destruct (lookup_in (symbolOccurrences d) (highestLearnedSymbol d + 1))
    as [o Ho]; [lia|].
  rewrite (vget_in _ _ o) by (lia || exact Ho). cbn [bind].
  rewrite vset_in by lia. cbn [bind].
  simpl highestLearnedSymbol. simpl usedSymbolCount.
  destruct (_ =? _); [|eexists; reflexivity].
  simpl symbolOccurrences.
  destruct (lookup_in (<[Z.to_nat (highestLearnedSymbol d + 1) := u16 (o + 2)]>
                         (symbolOccurrences d)) 0) as [e He];
    [rewrite length_insert; lia|].
  rewrite (vget_in _ 0 e) by (lia || exact He). cbn [bind].
  rewrite vset_in by (rewrite length_insert; lia). cbn [bind].
  eexists. reflexivity.
Qed.

End DecodeReturns.
Section DecodeTotal.

Lemma Decode_returns_ok (bs : Oodle1Bitstream.t) (a : Z) (d : Oodle1Decoder.t) :
  decoder_ok d -> weights_based d ->
  0 < totalOccurrence d ->
  highestLearnedSymbol d + 3 <= decayThreshold d ->
  highestLearnedSymbol d + 1 < Z.of_nat (length (symbolOccurrences d)) ->
  Z.of_nat (length (symbolOccurrences d)) <= 0x800000 ->
  coder_ok bs -> (9 <= length (input bs))%nat ->
  1 <= a <= 0x800000 ->
  exists r, Decode bs a d = Ok r.
Proof.
  intros Hok Hbased Hpos Hdecay Hroom Hsmall Hcoder Hinput Ha.
  unfold Decode.
  destruct (Decode_renormalize_returns d Hok Hpos Hdecay) as (d1 & Hren).
  rewrite Hren. cbn [bind].
  pose proof (Decode_renormalize_based _ _ Hok Hbased Hren) as [Hw0 Hall].
  destruct (Decode_renormalize_ok _ _ Hok Hren)
    as (Hocc1 & Hw1 & Hs1 & Hlt1 & Hfr1 & Hdown).
  pose proof Hocc1 as [Hls Hlw H32 Hhls Hnn Htail Htot].
  pose proof (sumZ_nonneg _ Hnn) as Hsum.
  pose proof Hw1 as [Hhlsn Hmono HtailOne].
  pose proof Hs1 as [Hdt Hri Hrri Hnrw Hbound].
  destruct Hfr1 as (_ & _ & _ & _ & _ & Hlen1).
  (* the probe *)
  destruct (Peek_returns One bs Hcoder ltac:(unfold One; lia) ltac:(lia))
    as (z & bs1 & Hpeek).
  rewrite Hpeek. cbn [bind].
  apply Peek_coder in Hpeek
    as (Hing & Hok1 & Hbig & Hscale & Hle & Hz & Hlow & Hhigh);
    [|exact Hcoder|unfold One; lia].
  destruct (Ingest_coder _ _ Hcoder Hing) as (k & Hk & Hin1 & _).
  assert (Hlen_bs1 : (6 <= length (input bs1))%nat)
    by (rewrite Hin1, length_drop; lia).
  (* the scan *)
  assert (HN32 : highestNormalizedSymbol d1 + 1 < 2 ^ 32) by lia.
  assert (Hz1 : z < One) by lia.
  assert (Hi0 : 0 <= 0 <= highestNormalizedSymbol d1) by lia.
  destruct (Decode_scan_returns z d1 HtailOne ltac:(lia) ltac:(lia) Hz1
              (S (Z.to_nat (highestNormalizedSymbol d1))) 0 Hi0 ltac:(lia))
    as (symbolIdx & Hscan).
  rewrite Hscan. cbn [bind].
  assert (Hstart : forall x, symbolWeights d1 !! Z.to_nat 0 = Some x -> x <= z).
  { intros x Hx. change (Z.to_nat 0) with 0%nat in Hx. rewrite Hw0 in Hx.
    injection Hx as <-. lia. }
  destruct (Decode_scan_slot z d1 _ HtailOne HN32 Hz1 0 symbolIdx Hi0 Hstart Hscan)
    as (Hlow0 & x1 & Hx1 & Hhigh1).
  pose proof (Decode_scan_range z d1 _ HtailOne HN32 Hz1 0 symbolIdx Hi0 Hscan) as Hidx.
  destruct (lookup_in (symbolWeights d1) symbolIdx) as [w0 Hg0]; [lia|].
  rewrite (vget_in _ symbolIdx w0) by (lia || exact Hg0). cbn [bind].
  rewrite (u32_id (symbolIdx + 1)) by lia.
  rewrite (vget_in _ (symbolIdx + 1) x1) by (lia || exact Hx1). cbn [bind].
  specialize (Hlow0 w0 Hg0).
  pose proof (Forall_lookup_1 _ _ _ _ Hall Hg0) as Hr0.
  pose proof (Forall_lookup_1 _ _ _ _ Hall Hx1) as Hr1.
  cbv beta in Hr0, Hr1.
  (* the range coder moves on *)
  destruct (Consume_returns w0 (u32 (x1 - w0)) One bs1 ltac:(unfold One; lia))
    as (bs2 & Hcons).
  rewrite Hcons. cbn [bind].
  rewrite (u32_id (x1 - w0)) in Hcons by (unfold One in *; lia).
  apply (Consume_coder w0 (x1 - w0) One z) in Hcons as (Hok2 & _ & Hin2 & _);
    [|exact Hok1|unfold One; lia|exact Hscale|exact Hle|lia|lia|exact Hlow|exact Hhigh].
  (* the occurrence *)
  destruct (lookup_in (symbolOccurrences d1) symbolIdx) as [o Ho]; [lia|].
  pose proof (lookup_le_sumZ _ _ _ Hnn Ho) as Hob.
  rewrite (vget_in _ symbolIdx o) by (lia || exact Ho). cbn [bind].
  rewrite vset_in by lia. cbn [bind].
  rewrite (u16_id (o + 1)) by lia.
  rewrite (u32_id (totalOccurrence d1 + 1)) by lia.
  set (d2 := set_totalOccurrence
               (set_symbolOccurrences d1
                  (<[Z.to_nat symbolIdx := o + 1]> (symbolOccurrences d1)))
               (totalOccurrence d1 + 1)).
  assert (Hocc2 : occurrences_ok d2)
    by (apply occurrences_ok_bump; (assumption || lia)).
  assert (Hroom2 : highestLearnedSymbol d2 + 1 < Z.of_nat (length (symbolOccurrences d2))).
  { unfold d2. simpl. rewrite length_insert. lia. }
  destruct (Z.eqb_spec symbolIdx 0) as [Hz0|Hnz0]; cbn [negb].
  2:{ simpl symbols.
      destruct (lookup_in (symbols d1) symbolIdx) as [s Hs]; [lia|].
      rewrite (vget_in _ symbolIdx s) by (lia || exact Hs). cbn [bind].
      eexists. reflexivity. }
  change (highestLearnedSymbol d2) with (highestLearnedSymbol d1).
  change (highestNormalizedSymbol d2) with (highestNormalizedSymbol d1).
  destruct (Z.eqb_spec (highestLearnedSymbol d1) (highestNormalizedSymbol d1))
    as [Heq|Hne]; cbn [negb].
  - apply Decode_learn_returns; try assumption. rewrite Hin2. lia.
  - destruct (Get_returns 2 bs2 Hok2 ltac:(lia) ltac:(rewrite Hin2; lia))
      as (b & bs3 & Hget).
    rewrite Hget. cbn [bind].
    apply Get_coder in Hget as (Hok3 & _ & bsi & Hingi & _ & _ & _ & _ & _ & Hin3 & _);
      [|exact Hok2|lia].
    destruct (Ingest_coder _ _ Hok2 Hingi) as (k' & Hk' & Hini & _).
    assert (Hlen_bs3 : (3 <= length (input bs3))%nat)
      by (rewrite Hin3, Hini, length_drop, Hin2; lia).
    destruct (Z.eqb_spec b 0) as [Hb|Hb]; cbn [negb].
    + apply Decode_learn_returns; assumption.
    + apply Decode_pending_returns; try assumption.
      * unfold d2. simpl. lia.
      * unfold d2. simpl. lia.
Qed.

(** [Decode] returns.  A decoder that was initialized for an alphabet of
    [1] to [15156] symbols and has since been used in any way, a range
    coder in a sound state with nine bytes of input left, and an alphabet
    size between [1] and [0x800000]: then [Decode] returns - no division by
    zero, no index outside the tables, no read past the input - as long as
    the decoder has not learned more symbols than its alphabet has. *)
Theorem Decode_returns (alphabetSize uniqueSymbols a : Z)
        (d : Oodle1Decoder.t) (bs : Oodle1Bitstream.t) :
  reachable alphabetSize uniqueSymbols d ->
  1 <= alphabetSize <= 15156 ->
  highestLearnedSymbol d <= alphabetSize ->
  coder_ok bs -> (9 <= length (input bs))%nat ->
  1 <= a <= 0x800000 ->
  exists v bs' d', Decode bs a d = Ok (v, bs', d').
Proof.
  intros Hreach Halpha Hhls Hcoder Hinput Ha.
  destruct (reachable_ok _ _ _ Hreach) as (Hok & _ & Hlen).
  destruct (reachable_live _ _ _ Hreach) as (Hpos & Hdt).
  pose proof (reachable_based _ _ _ Hreach) as Hbased.
  pose proof Hok as [[Hls Hlw _ _ _ _ _] _ _].
  rewrite (u32_id (alphabetSize + 2)) in Hlen by lia.
  rewrite (u32_id (alphabetSize - 1)) in Hdt by lia.
  rewrite (u32_id ((alphabetSize - 1) * 32)) in Hdt by lia.
  destruct (Decode_returns_ok bs a d Hok Hbased Hpos) as ([[v bs'] d'] & H);
    try assumption; try lia.
  exists v, bs', d'. exact H.
Qed.

Lemma Decode_returns_witness :
  coder_ok long_bitstream /\
  highestLearnedSymbol decoder_with_stale_slot <= 4 /\
  Decode long_bitstream 4 decoder_with_stale_slot <> Fault.
Proof.
  assert (Hcoder : coder_ok long_bitstream).
  { split; [|simpl; lia].
    unfold bitstream_typed, long_bitstream. simpl.
    repeat split; try lia. repeat (constructor; [lia|]). constructor. }
  assert (Hhls : highestLearnedSymbol decoder_with_stale_slot <= 4) by (simpl; lia).
  destruct (Decode_returns 4 2 4 decoder_with_stale_slot long_bitstream
              decoder_with_stale_slot_reachable ltac:(lia) Hhls Hcoder
              ltac:(simpl; lia) ltac:(lia)) as (v & bs' & d' & H).
  split; [exact Hcoder|]. split; [exact Hhls|]. rewrite H. discriminate.
Defined.

End DecodeTotal.

Section DecayHalves.

(** [Decay] on any decoder that [Initialize] and [Decode] calls have
    made: it returns, it does not raise [highestLearnedSymbol], the
    occurrence table stays sound, and [totalOccurrence] is halved - up to
    one more for the escape slot and one less for every slot. *)
Theorem Decay_halves (alphabetSize uniqueSymbols : Z) (d : Oodle1Decoder.t) :
  reachable alphabetSize uniqueSymbols d ->
  exists d',
    Decay d = Ok d' /\
    occurrences_ok d' /\
    highestLearnedSymbol d' <= highestLearnedSymbol d /\
    totalOccurrence d - highestLearnedSymbol d - 1 <= 2 * totalOccurrence d' /\
    2 * totalOccurrence d' <= totalOccurrence d + 2.
Proof.
  intros Hreach.
  destruct (reachable_ok _ _ _ Hreach) as ([Hocc [Hdt Hri Hrri Hnrw Hbound] Hw] & _ & _).
  destruct (Decay_total d Hocc) as (d' & Hr & Hok' & Hfr & Hhalf); [lia|].
  pose proof (Decay_floor d d' Hocc ltac:(lia) Hr) as Hfloor.
  destruct Hfr as (_ & _ & _ & _ & Hdown).
  exists d'. split; [exact Hr|]. split; [exact Hok'|]. split; [exact Hdown|].
  split; lia.
Qed.

Lemma Decay_halves_witness :
  exists d',
    Decay decoder_with_stale_slot = Ok d' /\
    occurrences_ok d' /\
    highestLearnedSymbol d' <= 3 /\
    257 - 3 - 1 <= 2 * totalOccurrence d' /\
    2 * totalOccurrence d' <= 257 + 2.
Proof.
  exact (Decay_halves 4 2 decoder_with_stale_slot decoder_with_stale_slot_reachable).
Defined.

End DecayHalves.

Section RenormalizeReturns.

(** [Renormalize] on any decoder that [Initialize] and [Decode] calls
    have made: [totalOccurrence] is not 0 there, so that it returns; it
    leaves the symbols, the occurrences and [highestLearnedSymbol] as they
    are, the weight table starts at 0 and stays within [ONE], and the next
    renormalization is due after 8 to [renormInterval] more occurrences. *)
Theorem Renormalize_returns (alphabetSize uniqueSymbols : Z) (d : Oodle1Decoder.t) :
  reachable alphabetSize uniqueSymbols d ->
  0 < totalOccurrence d /\
  exists d',
    Renormalize d = Ok d' /\
    symbols d' = symbols d /\
    symbolOccurrences d' = symbolOccurrences d /\
    totalOccurrence d' = totalOccurrence d /\
    highestLearnedSymbol d' = highestLearnedSymbol d /\
    weights_based d' /\
    totalOccurrence d + 8 <= nextRenormWeight d' <= totalOccurrence d + renormInterval d.
Proof.
  intros Hreach.
  destruct (reachable_ok _ _ _ Hreach) as ([Hocc [Hdt Hri Hrri Hnrw Hbound] Hw] & _ & _).
  destruct (reachable_live _ _ _ Hreach) as (Hpos & _).
  split; [exact Hpos|].
  destruct (Renormalize_total d Hocc Hpos Hrri Hri ltac:(lia))
    as (d' & Hr & _ & _ & _ & Hh & Ht & Ho & Hs & _ & Hn).
  exists d'. split; [exact Hr|]. split; [exact Hs|]. split; [exact Ho|].
  split; [exact Ht|]. split; [exact Hh|]. split; [|exact Hn].
  exact (Renormalize_based d Hocc Hpos ltac:(lia) d' Hr).
Qed.

Lemma Renormalize_returns_witness :
  0 < totalOccurrence decoder_with_stale_slot /\
  Renormalize decoder_with_stale_slot <> Fault.
Proof.
  destruct (Renormalize_returns 4 2 decoder_with_stale_slot
              decoder_with_stale_slot_reachable) as (Hpos & d' & Hr & _).
  split; [exact Hpos|]. rewrite Hr. discriminate.
Defined.

End RenormalizeReturns.

